(** * html-editor-canva: the editing core, embedded and verified

    A shallow embedding of the WYSIWYG editor's core logic:
    - [History]        the [useHistory] hook (src/hooks/useTextFormatting.ts,
                       second half): two stacks of HTML snapshots behind a
                       debounce timer;
    - [DragAndDrop]    the [useDragAndDrop] hook (drop-target resolution and
                       the drag gesture's state machine);
    - [TextFormatting] [setFontSize] and its discrete fallback;
    - [Editor]         the empty-document predicate of [WysiwygEditor];
    - [Sanitize]       utils/sanitize: the allow-lists handed to DOMPurify and
                       the cosmetic string passes of [sanitizeForOutput].

    JavaScript arrays are lists in array order (index 0 first), so [push] and
    [pop] work at the END of the list and [shift] at its head.  Strings are
    [string]; millisecond clocks and numeric options are [Z]. *)

From Stdlib Require Import ZArith QArith Lia String Ascii List Bool.
From stdpp Require Import base tactics option list strings.
Import ListNotations.

Set Warnings "-register-all".

Local Open Scope Z_scope.

(** ** JavaScript array primitives *)

Module JsArray.

Definition push {A} (l : list A) (x : A) : list A := l ++ [x].

(** [Array.prototype.pop]: the last element ([None] for [undefined] on an
    empty array) and the array without it. *)
Definition pop {A} (l : list A) : option A * list A := (last l, removelast l).

(** [Array.prototype.shift], result discarded: the array without index 0. *)
Definition shift {A} (l : list A) : list A := tail l.

End JsArray.

(** ** The history manager: [useHistory] *)

Module History.
Import JsArray.

Record UseHistoryOptions := mkOptions {
  maxHistory : Z;
  debounceMs : Z
}.

(** [const { maxHistory = 50, debounceMs = 500 } = options] *)
Definition defaultOptions : UseHistoryOptions :=
  {| maxHistory := 50; debounceMs := 500 |}.

(** The React state mirrored to the buttons. *)
Record HistoryState := mkHistoryState {
  canUndo : bool;
  canRedo : bool
}.

(** A pending [setTimeout]: the instant at which it is due and the [value]
    its callback closed over. *)
Record Timeout := mkTimeout {
  due : Z;
  captured : string
}.

(** The hook's refs and state.  [debounceTimer = None] stands both for the
    initial [null] and for a timer that has already run or was cleared
    (clearing a timer that already ran does nothing in JavaScript). *)
Record History := mkHistory {
  undoStack : list string;
  redoStack : list string;
  currentValue : string;
  lastPushedValue : string;
  debounceTimer : option Timeout;
  historyState : HistoryState
}.

Definition useHistory (initialValue : string) : History :=
  {| undoStack := []; redoStack := [];
     currentValue := initialValue; lastPushedValue := initialValue;
     debounceTimer := None;
     historyState := {| canUndo := false; canRedo := false |} |}.

Definition nonEmpty {A} (l : list A) : bool :=
  match l with [] => false | _ => true end.

Definition updateHistoryState (h : History) : History :=
  {| undoStack := undoStack h; redoStack := redoStack h;
     currentValue := currentValue h; lastPushedValue := lastPushedValue h;
     debounceTimer := debounceTimer h;
     historyState := {| canUndo := nonEmpty (undoStack h);
                        canRedo := nonEmpty (redoStack h) |} |}.

(** The body of the [setTimeout] callback of [pushToHistory], run with the
    [value] it captured. *)
Definition timerCallback (o : UseHistoryOptions) (value : string) (h : History)
  : History :=
  if decide (value = lastPushedValue h) then h
  else
    let pushed := push (undoStack h) (lastPushedValue h) in
    let limited :=
      if maxHistory o <? Z.of_nat (length pushed) then shift pushed else pushed in
    updateHistoryState
      {| undoStack := limited; redoStack := [];
         currentValue := currentValue h; lastPushedValue := value;
         debounceTimer := debounceTimer h;
         historyState := historyState h |}.

Definition clearTimer (h : History) : History :=
  {| undoStack := undoStack h; redoStack := redoStack h;
     currentValue := currentValue h; lastPushedValue := lastPushedValue h;
     debounceTimer := None;
     historyState := historyState h |}.

(** [pushToHistory value] called at instant [now]: the latest pointer moves at
    once, any pending timer is cleared and a new one is armed. *)
Definition pushToHistory (o : UseHistoryOptions) (now : Z) (value : string)
  (h : History) : History :=
  {| undoStack := undoStack h; redoStack := redoStack h;
     currentValue := value; lastPushedValue := lastPushedValue h;
     debounceTimer := Some {| due := now + debounceMs o; captured := value |};
     historyState := historyState h |}.

(** The pending timer runs. *)
Definition fire (o : UseHistoryOptions) (h : History) : History :=
  match debounceTimer h with
  | None => h
  | Some tm => timerCallback o (captured tm) (clearTimer h)
  end.

(** The clock reaches [now]: a timer that is due by then has run. *)
Definition elapse (o : UseHistoryOptions) (now : Z) (h : History) : History :=
  match debounceTimer h with
  | None => h
  | Some tm => if due tm <=? now then fire o h else h
  end.

Definition undo (h : History) : option string * History :=
  match undoStack h with
  | [] => (None, h)
  | _ :: _ =>
    match pop (undoStack h) with
    | (Some previousValue, rest) =>
      (Some previousValue,
       updateHistoryState
         {| undoStack := rest;
            redoStack := push (redoStack h) (lastPushedValue h);
            currentValue := previousValue; lastPushedValue := previousValue;
            debounceTimer := debounceTimer h;
            historyState := historyState h |})
    | (None, _) => (None, h)
    end
  end.

Definition redo (h : History) : option string * History :=
  match redoStack h with
  | [] => (None, h)
  | _ :: _ =>
    match pop (redoStack h) with
    | (Some nextValue, rest) =>
      (Some nextValue,
       updateHistoryState
         {| undoStack := push (undoStack h) (lastPushedValue h);
            redoStack := rest;
            currentValue := nextValue; lastPushedValue := nextValue;
            debounceTimer := debounceTimer h;
            historyState := historyState h |})
    | (None, _) => (None, h)
    end
  end.

Definition reset (value : string) (h : History) : History :=
  updateHistoryState
    {| undoStack := []; redoStack := [];
       currentValue := value; lastPushedValue := value;
       debounceTimer := debounceTimer h;
       historyState := historyState h |}.

(** *** Timelines: calls into the hook at given instants *)

Inductive Call :=
| PushToHistory (value : string)
| Undo
| Redo
| Reset (value : string).

Definition call (o : UseHistoryOptions) (now : Z) (c : Call) (h : History)
  : option string * History :=
  match c with
  | PushToHistory v => (None, pushToHistory o now v h)
  | Undo => undo h
  | Redo => redo h
  | Reset v => (None, reset v h)
  end.

(** One event of a timeline: the clock reaches the event's instant (a due
    timer runs first), then the call is made. *)
Definition step (o : UseHistoryOptions) (h : History) (e : Z * Call) : History :=
  snd (call o (fst e) (snd e) (elapse o (fst e) h)).

Definition run (o : UseHistoryOptions) (evs : list (Z * Call)) (h : History)
  : History :=
  fold_left (step o) evs h.

(** A record whose debounce timer is allowed to run: [pushToHistory] at
    [now], then the clock reaches the timer's due instant. *)
Definition recordCommitted (o : UseHistoryOptions) (h : History)
  (e : Z * string) : History :=
  elapse o (fst e + debounceMs o) (pushToHistory o (fst e) (snd e) h).

Definition recordAll (o : UseHistoryOptions) (evs : list (Z * string))
  (h : History) : History :=
  fold_left (recordCommitted o) evs h.

(** [n] successive calls of [undo] / [redo], results discarded. *)
Fixpoint undoTimes (n : nat) (h : History) : History :=
  match n with
  | O => h
  | S n' => undoTimes n' (snd (undo h))
  end.

Fixpoint redoTimes (n : nat) (h : History) : History :=
  match n with
  | O => h
  | S n' => redoTimes n' (snd (redo h))
  end.

(** *** Quiescent states

    Between edits the latest pointer and the committed value agree and the
    flags shown to the buttons mirror the stacks. *)

Definition settled (h : History) : Prop :=
  currentValue h = lastPushedValue h /\
  historyState h =
    {| canUndo := nonEmpty (undoStack h); canRedo := nonEmpty (redoStack h) |}.

(** Each value differs from the one committed before it. *)
Fixpoint distinctChain (previous : string) (values : list string) : Prop :=
  match values with
  | [] => True
  | v :: rest => v <> previous /\ distinctChain v rest
  end.

(** Calls that follow one another within less than the debounce interval:
    [t] is the instant of the previous call. *)
Fixpoint rapid (o : UseHistoryOptions) (t : Z) (calls : list (Z * string))
  : Prop :=
  match calls with
  | [] => True
  | c :: rest => t <= fst c /\ fst c < t + debounceMs o /\ rapid o (fst c) rest
  end.

(** A burst: the first call, then the others, the clock moving to each
    call's instant before it is made. *)
Definition burst (o : UseHistoryOptions) (h : History) (first : Z * string)
  (rest : list (Z * string)) : History :=
  fold_left (fun h c => pushToHistory o (fst c) (snd c) (elapse o (fst c) h))
            rest (pushToHistory o (fst first) (snd first) h).

(** Everything that was ever undone came off the undo stack, so the two
    stacks together never hold more than [maxHistory] entries. *)
Definition bounded (o : UseHistoryOptions) (h : History) : Prop :=
  Z.of_nat (length (undoStack h) + length (redoStack h)) <= maxHistory o.

(** [n] letters x: a value for every length. *)
Fixpoint xs (n : nat) : string :=
  match n with
  | O => EmptyString
  | S n' => String "x" (xs n')
  end.

(** The records [x], [xx], ... of lengths 1 to [k], one per second. *)
Definition typed (k : nat) : list (Z * string) :=
  map (fun i => (Z.of_nat i * 1000, xs i)) (seq 1 k).

End History.

(** ** Numbers of the DOM

    Coordinates are IEEE doubles in the browser.  The drag engine only adds
    them, divides by a literal and compares with [<], so the embedding is
    parametric in those operations: every statement below holds for any
    implementation of them, rounding included. *)

Class JsNumber := {
  number : Type;
  num_add : number -> number -> number;
  num_div : number -> number -> number;
  num_lt : number -> number -> bool;
  num_lit : Z -> number
}.

(** Exact rationals, for running the engine on examples. *)
Definition QNumber : JsNumber :=
  {| number := Q;
     num_add := Qplus;
     num_div := Qdiv;
     num_lt := fun x y => negb (Qle_bool y x);
     num_lit := inject_Z |}.

(** ** The drag-reorder engine: [useDragAndDrop] *)

Module DragAndDrop.

(** *** A DOM subtree

    Elements are compared by reference in the source ([===]); a reference is
    a node id here, unique within a document. *)

Definition HTMLElement := nat.

Inductive Element : Type :=
| mkElement (nodeId : HTMLElement) (tagName : string) (childNodes : list Element).

Definition nodeId (e : Element) : HTMLElement :=
  match e with mkElement i _ _ => i end.
Definition tagName (e : Element) : string :=
  match e with mkElement _ t _ => t end.
Definition childNodes (e : Element) : list Element :=
  match e with mkElement _ _ cs => cs end.

(** [node.contains(target)]: inclusive descendant. *)
Fixpoint contains (target : HTMLElement) (e : Element) : bool :=
  match e with
  | mkElement i _ cs => (i =? target)%nat || existsb (contains target) cs
  end.

Fixpoint lookupNode (target : HTMLElement) (e : Element) : option Element :=
  match e with
  | mkElement i _ cs =>
    if (i =? target)%nat then Some e
    else (fix scan (l : list Element) : option Element :=
            match l with
            | [] => None
            | c :: l' =>
              match lookupNode target c with
              | Some r => Some r
              | None => scan l'
              end
            end) cs
  end.

(** The parent of [target] below [e], with the parent's child list. *)
Fixpoint familyOf (target : HTMLElement) (e : Element)
  : option (HTMLElement * list Element) :=
  match e with
  | mkElement i _ cs =>
    if existsb (fun c => (nodeId c =? target)%nat) cs then Some (i, cs)
    else (fix scan (l : list Element) : option (HTMLElement * list Element) :=
            match l with
            | [] => None
            | c :: l' =>
              match familyOf target c with
              | Some r => Some r
              | None => scan l'
              end
            end) cs
  end.

Definition parentElement (root : Element) (target : HTMLElement)
  : option HTMLElement :=
  match familyOf target root with
  | Some (p, _) => Some p
  | None => None
  end.

Fixpoint siblingAfter (target : HTMLElement) (l : list Element)
  : option HTMLElement :=
  match l with
  | [] => None
  | c :: l' =>
    if (nodeId c =? target)%nat then
      match l' with
      | [] => None
      | n :: _ => Some (nodeId n)
      end
    else siblingAfter target l'
  end.

Definition nextSibling (root : Element) (target : HTMLElement)
  : option HTMLElement :=
  match familyOf target root with
  | Some (_, cs) => siblingAfter target cs
  | None => None
  end.

(** Proper descendants in document order, each with its parent's id. *)
Fixpoint descendants (e : Element) : list (HTMLElement * Element) :=
  match e with
  | mkElement i _ cs => flat_map (fun c => (i, c) :: descendants c) cs
  end.

Fixpoint detach (target : HTMLElement) (e : Element) : Element :=
  match e with
  | mkElement i t cs =>
    mkElement i t
      ((fix keep (l : list Element) : list Element :=
          match l with
          | [] => []
          | c :: l' =>
            if (nodeId c =? target)%nat then keep l'
            else detach target c :: keep l'
          end) cs)
  end.

Fixpoint insertBeforeChild (r : HTMLElement) (node : Element)
  (cs : list Element) : list Element :=
  match cs with
  | [] => [node]
  | c :: cs' =>
    if (nodeId c =? r)%nat then node :: c :: cs'
    else c :: insertBeforeChild r node cs'
  end.

Definition insertAt (child : option HTMLElement) (node : Element)
  (cs : list Element) : list Element :=
  match child with
  | None => cs ++ [node]
  | Some r => insertBeforeChild r node cs
  end.

Fixpoint attach (parent : HTMLElement) (child : option HTMLElement)
  (node : Element) (e : Element) : Element :=
  match e with
  | mkElement i t cs =>
    let cs' := map (attach parent child node) cs in
    mkElement i t (if (i =? parent)%nat then insertAt child node cs' else cs')
  end.

Inductive DOMException := HierarchyRequestError | NotFoundError.

(** How a call ends: normally with a result, or by throwing, in which case
    the state is the one reached when the exception left the function. *)
Inductive Completion (A : Type) :=
| Normal (result : A)
| Throw (e : DOMException) (reached : A).
Arguments Normal {A} result.
Arguments Throw {A} e reached.

(** [parent.insertBefore(node, child)] on the tree below [root], after the
    DOM standard's "pre-insert": it throws HierarchyRequestError when [node]
    is an inclusive ancestor of [parent], NotFoundError when [child] is not a
    child of [parent]; a [child] that is [node] itself stands for [node]'s
    next sibling; [node] leaves its old place and enters before [child] (at
    the end when [child] is null). *)
Definition insertBefore (root : Element) (parent node : HTMLElement)
  (child : option HTMLElement) : Completion Element :=
  match lookupNode node root, lookupNode parent root with
  | Some n, Some p =>
    if contains parent n then Throw HierarchyRequestError root
    else
      let isChild :=
        match child with
        | None => true
        | Some c => existsb (fun x => (nodeId x =? c)%nat) (childNodes p)
        end in
      if negb isChild then Throw NotFoundError root
      else
        let child' :=
          match child with
          | Some c => if (c =? node)%nat then nextSibling root node else child
          | None => None
          end in
        Normal (attach parent child' n (detach node root))
  | _, _ => Normal root
  end.

(** *** The hook *)

Inductive DropPosition := before | after.

Section WithNumbers.
Context `{JsNumber}.

Record DOMRect := mkRect {
  top : number;
  bottom : number;
  height : number
}.

Record DragState := mkDragState {
  isDragging : bool;
  draggedElement : option HTMLElement;
  dropIndicatorY : option number;
  dropTarget : option HTMLElement;
  dropPosition : option DropPosition
}.

Definition idle : DragState :=
  {| isDragging := false; draggedElement := None; dropIndicatorY := None;
     dropTarget := None; dropPosition := None |}.

(** The floating clone appended to [document.body]. *)
Record Ghost := mkGhost {
  ghostId : nat;
  clonedFrom : HTMLElement;
  styleLeft : option number;
  styleTop : option number
}.

(** What the hook reads and writes: its own state and ref, and the page. *)
Record Hook := mkHook {
  dragState : DragState;
  dragGhostRef : option nat;
  editorRef : option Element;
  getBoundingClientRect : HTMLElement -> DOMRect;
  classDragging : list HTMLElement;
  body : list Ghost;
  created : nat;
  contentChanges : nat
}.

Definition DRAGGABLE_SELECTORS : list string :=
  ["p"; "h1"; "h2"; "h3"; "h4"; "h5"; "h6"; "ul"; "ol"; "blockquote"; "pre";
   "figure"; "img"; "video"; "hr"; "table"]%string.

Definition inb (s : string) (l : list string) : bool :=
  existsb (String.eqb s) l.

(** [current.matches(DRAGGABLE_SELECTORS)] *)
Definition matchesDraggable (e : Element) : bool :=
  inb (tagName e) DRAGGABLE_SELECTORS.

(** The selector list written [`:scope > ${DRAGGABLE_SELECTORS}`] reads
    [:scope > p, h1, h2, ...]: the child combinator belongs to the first
    selector of the list only; the others match at any depth. *)
Definition matchesScoped (scope : HTMLElement) (pe : HTMLElement * Element)
  : bool :=
  match DRAGGABLE_SELECTORS with
  | [] => false
  | first :: others =>
    ((fst pe =? scope)%nat && String.eqb (tagName (snd pe)) first)
    || inb (tagName (snd pe)) others
  end.

(** The loop of [findBlockParent]; the parent chain of a finite tree ends,
    [fuel] bounds the walk by the tree's size. *)
Fixpoint findBlockParentFrom (fuel : nat) (root : Element)
  (current : HTMLElement) : option HTMLElement :=
  match fuel with
  | O => None
  | S fuel' =>
    if (current =? nodeId root)%nat then None
    else
      match lookupNode current root, parentElement root current with
      | Some c, Some p =>
        if (p =? nodeId root)%nat && matchesDraggable c then Some current
        else findBlockParentFrom fuel' root p
      | _, _ => None
      end
  end.

Definition findBlockParent (h : Hook) (element : HTMLElement)
  : option HTMLElement :=
  match editorRef h with
  | None => None
  | Some root =>
    findBlockParentFrom (S (length (descendants root))) root element
  end.

Definition getBlockElements (h : Hook) : list HTMLElement :=
  match editorRef h with
  | None => []
  | Some root =>
    map (fun pe => nodeId (snd pe))
        (List.filter (matchesScoped (nodeId root)) (descendants root))
  end.

Record DropResult := mkDrop {
  resTarget : option HTMLElement;
  resPosition : option DropPosition;
  resIndicatorY : option number
}.

(** The [for ... of] loop of [calculateDropPosition], the three [let]
    variables carried as [acc]. *)
Fixpoint dropLoop (rect : HTMLElement -> DOMRect) (y : number)
  (blocks : list HTMLElement) (dragged : HTMLElement) (acc : DropResult)
  : DropResult :=
  match blocks with
  | [] => acc
  | block :: rest =>
    if (block =? dragged)%nat then dropLoop rect y rest dragged acc
    else
      let r := rect block in
      let midY := num_add (top r) (num_div (height r) (num_lit 2)) in
      if num_lt y midY then
        {| resTarget := Some block; resPosition := Some before;
           resIndicatorY := Some (top r) |}
      else
        dropLoop rect y rest dragged
          {| resTarget := Some block; resPosition := Some after;
             resIndicatorY := Some (bottom r) |}
  end.

Definition calculateDropPosition (rect : HTMLElement -> DOMRect) (y : number)
  (blocks : list HTMLElement) (draggedElement : HTMLElement) : DropResult :=
  dropLoop rect y blocks draggedElement
    {| resTarget := None; resPosition := None; resIndicatorY := None |}.

(** The resolution as the specification words it. *)
Definition midpoint (rect : HTMLElement -> DOMRect) (b : HTMLElement) : number :=
  num_add (top (rect b)) (num_div (height (rect b)) (num_lit 2)).

Definition candidates (blocks : list HTMLElement) (dragged : HTMLElement)
  : list HTMLElement :=
  List.filter (fun b => negb (b =? dragged)%nat) blocks.

Definition resolveDrop (rect : HTMLElement -> DOMRect) (y : number)
  (blocks : list HTMLElement) (dragged : HTMLElement) : DropResult :=
  match find (fun b => num_lt y (midpoint rect b)) (candidates blocks dragged) with
  | Some k =>
    {| resTarget := Some k; resPosition := Some before;
       resIndicatorY := Some (top (rect k)) |}
  | None =>
    match last (candidates blocks dragged) with
    | Some l =>
      {| resTarget := Some l; resPosition := Some after;
         resIndicatorY := Some (bottom (rect l)) |}
    | None =>
      {| resTarget := None; resPosition := None; resIndicatorY := None |}
    end
  end.

Definition noDrop : DropResult :=
  {| resTarget := None; resPosition := None; resIndicatorY := None |}.

Definition dropBefore (rect : HTMLElement -> DOMRect) (k : HTMLElement)
  : DropResult :=
  {| resTarget := Some k; resPosition := Some before;
     resIndicatorY := Some (top (rect k)) |}.

Definition dropAfter (rect : HTMLElement -> DOMRect) (l : HTMLElement)
  : DropResult :=
  {| resTarget := Some l; resPosition := Some after;
     resIndicatorY := Some (bottom (rect l)) |}.

(** The pointer is above the block's midpoint. *)
Definition above (rect : HTMLElement -> DOMRect) (y : number) (b : HTMLElement)
  : bool :=
  num_lt y (midpoint rect b).

Record MouseEvent := mkMouse { clientX : number; clientY : number }.

Definition setDragState (s : DragState) (h : Hook) : Hook :=
  {| dragState := s; dragGhostRef := dragGhostRef h; editorRef := editorRef h;
     getBoundingClientRect := getBoundingClientRect h;
     classDragging := classDragging h; body := body h; created := created h;
     contentChanges := contentChanges h |}.

Definition createDragGhost (element : HTMLElement) (h : Hook) : Hook :=
  let g := {| ghostId := created h; clonedFrom := element;
              styleLeft := None; styleTop := None |} in
  {| dragState := dragState h; dragGhostRef := Some (ghostId g);
     editorRef := editorRef h;
     getBoundingClientRect := getBoundingClientRect h;
     classDragging := classDragging h; body := body h ++ [g];
     created := S (created h); contentChanges := contentChanges h |}.

Definition removeDragGhost (h : Hook) : Hook :=
  match dragGhostRef h with
  | None => h
  | Some g =>
    {| dragState := dragState h; dragGhostRef := None;
       editorRef := editorRef h;
       getBoundingClientRect := getBoundingClientRect h;
       classDragging := classDragging h;
       body := List.filter (fun x => negb (ghostId x =? g)%nat) (body h);
       created := created h; contentChanges := contentChanges h |}
  end.

Definition updateGhostPosition (x y : number) (h : Hook) : Hook :=
  match dragGhostRef h with
  | None => h
  | Some g =>
    {| dragState := dragState h; dragGhostRef := dragGhostRef h;
       editorRef := editorRef h;
       getBoundingClientRect := getBoundingClientRect h;
       classDragging := classDragging h;
       body := map (fun x' =>
                      if (ghostId x' =? g)%nat then
                        {| ghostId := ghostId x'; clonedFrom := clonedFrom x';
                           styleLeft := Some (num_add x (num_lit 10));
                           styleTop := Some (num_add y (num_lit 10)) |}
                      else x') (body h);
       created := created h; contentChanges := contentChanges h |}
  end.

Definition classListAdd (e : HTMLElement) (h : Hook) : Hook :=
  {| dragState := dragState h; dragGhostRef := dragGhostRef h;
     editorRef := editorRef h;
     getBoundingClientRect := getBoundingClientRect h;
     classDragging :=
       if existsb (Nat.eqb e) (classDragging h) then classDragging h
       else classDragging h ++ [e];
     body := body h; created := created h;
     contentChanges := contentChanges h |}.

Definition classListRemove (e : HTMLElement) (h : Hook) : Hook :=
  {| dragState := dragState h; dragGhostRef := dragGhostRef h;
     editorRef := editorRef h;
     getBoundingClientRect := getBoundingClientRect h;
     classDragging := List.filter (fun x => negb (x =? e)%nat) (classDragging h);
     body := body h; created := created h;
     contentChanges := contentChanges h |}.

Definition setEditor (root : Element) (h : Hook) : Hook :=
  {| dragState := dragState h; dragGhostRef := dragGhostRef h;
     editorRef := Some root;
     getBoundingClientRect := getBoundingClientRect h;
     classDragging := classDragging h; body := body h; created := created h;
     contentChanges := contentChanges h |}.

Definition onContentChange (h : Hook) : Hook :=
  {| dragState := dragState h; dragGhostRef := dragGhostRef h;
     editorRef := editorRef h;
     getBoundingClientRect := getBoundingClientRect h;
     classDragging := classDragging h; body := body h; created := created h;
     contentChanges := S (contentChanges h) |}.

Definition handleDragStart (element : HTMLElement) (e : MouseEvent) (h : Hook)
  : Hook :=
  match findBlockParent h element with
  | None => h
  | Some block =>
    let h1 := createDragGhost block h in
    let h2 := updateGhostPosition (clientX e) (clientY e) h1 in
    let h3 := classListAdd block h2 in
    setDragState
      {| isDragging := true; draggedElement := Some block;
         dropIndicatorY := None; dropTarget := None; dropPosition := None |}
      h3
  end.

Definition handleDragMove (e : MouseEvent) (h : Hook) : Hook :=
  match isDragging (dragState h), draggedElement (dragState h) with
  | true, Some dragged =>
    let h1 := updateGhostPosition (clientX e) (clientY e) h in
    let blocks := getBlockElements h1 in
    let r := calculateDropPosition (getBoundingClientRect h1) (clientY e)
               blocks dragged in
    setDragState
      {| isDragging := isDragging (dragState h1);
         draggedElement := draggedElement (dragState h1);
         dropIndicatorY := resIndicatorY r;
         dropTarget := resTarget r;
         dropPosition := resPosition r |}
      h1
  | _, _ => h
  end.

(** The DOM move of [handleDragEnd]:
    [dropTarget.parentElement?.insertBefore(draggedElement, ref)]. *)
Definition moveBlock (root : Element) (dragged target : HTMLElement)
  (pos : DropPosition) : Completion Element :=
  match parentElement root target with
  | None => Normal root
  | Some parent =>
    match pos with
    | before => insertBefore root parent dragged (Some target)
    | after => insertBefore root parent dragged (nextSibling root target)
    end
  end.

Definition handleDragEnd (h : Hook) : Completion Hook :=
  if negb (isDragging (dragState h)) then Normal h
  else
    let ds := dragState h in
    let h1 :=
      match draggedElement ds with
      | Some d => classListRemove d h
      | None => h
      end in
    let h2 := removeDragGhost h1 in
    let finish (h' : Hook) := Normal (setDragState idle h') in
    match draggedElement ds, dropTarget ds, dropPosition ds, editorRef h2 with
    | Some d, Some t, Some pos, Some root =>
      match moveBlock root d t pos with
      | Normal root' => finish (onContentChange (setEditor root' h2))
      | Throw e _ => Throw e h2
      end
    | _, _, _, _ => finish h2
    end.

(** The listeners of the effect: [mousemove] and [mouseup] reach the hook
    only while [dragState.isDragging]. *)
Inductive PointerEvent :=
| MouseDownOnHandle (element : HTMLElement) (e : MouseEvent)
| MouseMove (e : MouseEvent)
| MouseUp.

Definition dispatch (ev : PointerEvent) (h : Hook) : Completion Hook :=
  match ev with
  | MouseDownOnHandle element e => Normal (handleDragStart element e h)
  | MouseMove e =>
    if isDragging (dragState h) then Normal (handleDragMove e h) else Normal h
  | MouseUp =>
    if isDragging (dragState h) then handleDragEnd h else Normal h
  end.

(** An uncaught exception ends the listener, not the page: the next event is
    dispatched on the state the throw left behind. *)
Definition settle {A} (c : Completion A) : A :=
  match c with
  | Normal a => a
  | Throw _ a => a
  end.

Definition gesture (evs : list PointerEvent) (h : Hook) : Hook :=
  fold_left (fun h ev => settle (dispatch ev h)) evs h.

(** The ghost with this id is in [document.body]. *)
Definition ghostInBody (g : nat) (h : Hook) : Prop :=
  exists x, In x (body h) /\ ghostId x = g.

End WithNumbers.

(** *** A figure with an image in it *)

(** The editor holds [<figure><img></figure><p></p>]: ids 1, 2 and 3 under
    the root 0. *)
Definition figurePage : Element :=
  mkElement 0%nat "div"
    [mkElement 1%nat "figure" [mkElement 2%nat "img" []];
     mkElement 3%nat "p" []].

Definition figureLayout (e : HTMLElement) : @DOMRect QNumber :=
  match e with
  | 1%nat => @mkRect QNumber 0%Q 100%Q 100%Q
  | 2%nat => @mkRect QNumber 10%Q 90%Q 80%Q
  | 3%nat => @mkRect QNumber 110%Q 130%Q 20%Q
  | _ => @mkRect QNumber 0%Q 0%Q 0%Q
  end.

Definition figureHook : @Hook QNumber :=
  @mkHook QNumber idle None (Some figurePage) figureLayout [] [] 0%nat 0%nat.

(** The handle of the figure is pressed, the pointer moves to [y = 40]. *)
Definition figureDrag : list (@PointerEvent QNumber) :=
  [MouseDownOnHandle 1%nat (@mkMouse QNumber 5%Q 50%Q);
   MouseMove (@mkMouse QNumber 5%Q 40%Q)].

End DragAndDrop.

(** ** Characters and strings of the page

    A string is a sequence of 8-bit code units (Latin-1); code units above
    U+00FF are outside the embedding. *)

Module Chars.

Definition code (c : ascii) : nat := nat_of_ascii c.

Definition inRange (lo hi : nat) (c : ascii) : bool :=
  (lo <=? code c)%nat && (code c <=? hi)%nat.

Definition isUpper (c : ascii) : bool := inRange 65 90 c.
Definition isLower (c : ascii) : bool := inRange 97 122 c.
Definition isLetter (c : ascii) : bool := isUpper c || isLower c.
Definition isDigit (c : ascii) : bool := inRange 48 57 c.

(** ASCII lower-casing, as [toLowerCase] acts on tag and attribute names. *)
Definition lower (c : ascii) : ascii :=
  if isUpper c then ascii_of_nat (code c + 32) else c.

Definition upper (c : ascii) : ascii :=
  if isLower c then ascii_of_nat (code c - 32) else c.

Fixpoint lowerString (s : string) : string :=
  match s with
  | EmptyString => EmptyString
  | String c s' => String (lower c) (lowerString s')
  end.

(** ECMAScript WhiteSpace and LineTerminator within Latin-1: what [\s]
    matches, [trim] strips and [parseInt] skips. *)
Definition isWhiteSpace (c : ascii) : bool :=
  inRange 9 13 c || (code c =? 32)%nat || (code c =? 160)%nat.

Fixpoint dropWhile (p : ascii -> bool) (s : string) : string :=
  match s with
  | EmptyString => EmptyString
  | String c s' => if p c then dropWhile p s' else s
  end.

Fixpoint takeWhile (p : ascii -> bool) (s : string) : string :=
  match s with
  | EmptyString => EmptyString
  | String c s' => if p c then String c (takeWhile p s') else EmptyString
  end.

Fixpoint allChars (p : ascii -> bool) (s : string) : bool :=
  match s with
  | EmptyString => true
  | String c s' => p c && allChars p s'
  end.

Fixpoint filterChars (p : ascii -> bool) (s : string) : string :=
  match s with
  | EmptyString => EmptyString
  | String c s' => if p c then String c (filterChars p s') else filterChars p s'
  end.

(** [s.startsWith(p)] *)
Fixpoint startsWith (p s : string) : bool :=
  match p, s with
  | EmptyString, _ => true
  | String a p', String b s' => Ascii.eqb a b && startsWith p' s'
  | String _ _, EmptyString => false
  end.

(** [s.slice(n)] *)
Fixpoint skip (n : nat) (s : string) : string :=
  match n, s with
  | O, _ => s
  | S n', String _ s' => skip n' s'
  | S _, EmptyString => EmptyString
  end.

(** [String.prototype.trim] *)
Fixpoint trimEnd (s : string) : string :=
  match s with
  | EmptyString => EmptyString
  | String c s' =>
    if allChars isWhiteSpace s then EmptyString else String c (trimEnd s')
  end.

Definition trim (s : string) : string := trimEnd (dropWhile isWhiteSpace s).

Definition quote : ascii := "034"%char.

End Chars.

(** ** The format command executor: [setFontSize] *)

Module TextFormatting.
Import Chars.

(** [parseInt(string)] with no radix, to an integer or [None] for NaN. *)
Definition digitValue (radix : Z) (c : ascii) : option Z :=
  let v :=
    if isDigit c then Some (Z.of_nat (code c) - 48)
    else if isLetter c then Some (Z.of_nat (code (lower c)) - 87)
    else None in
  match v with
  | Some d => if d <? radix then Some d else None
  | None => None
  end.

Fixpoint digitsValue (radix : Z) (acc : Z) (s : string) : Z :=
  match s with
  | EmptyString => acc
  | String c s' =>
    match digitValue radix c with
    | Some d => digitsValue radix (acc * radix + d) s'
    | None => acc
    end
  end.

Definition hasDigit (radix : Z) (s : string) : bool :=
  match s with
  | EmptyString => false
  | String c _ => match digitValue radix c with Some _ => true | None => false end
  end.

Definition parseInt (input : string) : option Z :=
  let s := dropWhile isWhiteSpace input in
  let '(sign, s) :=
    match s with
    | String "-" s' => (-1, s')
    | String "+" s' => (1, s')
    | _ => (1, s)
    end in
  let '(radix, s) :=
    match s with
    | String "0" (String "x" s') => (16, s')
    | String "0" (String "X" s') => (16, s')
    | _ => (10, s)
    end in
  if hasDigit radix s then Some (sign * digitsValue radix 0 s) else None.

(** A relational operator on a possibly-NaN number: false on NaN. *)
Definition leNum (x : option Z) (bound : Z) : bool :=
  match x with
  | Some n => n <=? bound
  | None => false
  end.

(** The [catch] block's ladder. *)
Definition fallbackFontSize (size : string) : Z :=
  let sizeNum := parseInt size in
  let fontSize := 3 in
  if leNum sizeNum 12 then 1
  else if leNum sizeNum 14 then 2
  else if leNum sizeNum 16 then 3
  else if leNum sizeNum 18 then 4
  else if leNum sizeNum 24 then 5
  else if leNum sizeNum 32 then 6
  else 7.

(** [String(fontSize)] for the levels the ladder yields. *)
Definition levelString (level : Z) : string :=
  String (ascii_of_nat (Z.to_nat (48 + level))) EmptyString.

(** What the command reads of the page. *)
Record Selection := mkSelection {
  rangeCount : nat;
  isCollapsed : bool
}.

Record Page := mkPage {
  editorMounted : bool;      (* editorRef.current is not null *)
  editorIsActive : bool;     (* document.activeElement === editorRef.current *)
  getSelection : option Selection;
  (* whether range.surroundContents(span) throws for the current range
     (it does when the range splits a non-text node) *)
  surroundContentsThrows : bool
}.

(** What the command does to the page, in order. *)
Inductive Effect :=
| Focus
| SurroundContents (fontSize : string)
| SelectSpanContents
| ExecCommand (command : string) (value : string)
| OnContentChange.

(** A computation that logs its effects and may throw. *)
Inductive Outcome :=
| Returned (log : list Effect)
| Thrown (log : list Effect).

Definition andThen (o : Outcome) (k : list Effect -> Outcome) : Outcome :=
  match o with
  | Returned l => k l
  | Thrown l => Thrown l
  end.

Definition tryCatch (body : Outcome) (handler : list Effect -> Outcome)
  : Outcome :=
  match body with
  | Returned l => Returned l
  | Thrown l => handler l
  end.

Definition emit (e : Effect) (l : list Effect) : Outcome := Returned (l ++ [e]).

Definition surroundContents (p : Page) (size : string) (l : list Effect)
  : Outcome :=
  if surroundContentsThrows p then Thrown l
  else Returned (l ++ [SurroundContents size]).

Definition setFontSize (p : Page) (size : string) : Outcome :=
  let focused :=
    if editorMounted p && negb (editorIsActive p) then emit Focus []
    else Returned [] in
  andThen focused (fun l =>
  let wrapped :=
    match getSelection p with
    | Some selection =>
      if (0 <? rangeCount selection)%nat && negb (isCollapsed selection) then
        tryCatch
          (andThen (surroundContents p size l) (emit SelectSpanContents))
          (fun l' =>
             emit (ExecCommand "fontSize" (levelString (fallbackFontSize size))) l')
      else Returned l
    | None => Returned l
    end in
  andThen wrapped (emit OnContentChange)).

(** The size picker's scale (components/FontPicker). *)
Definition SIZES : list (string * string) :=
  [("12px", "Small"); ("14px", "Normal"); ("16px", "Medium"); ("18px", "Large");
   ("24px", "XL"); ("32px", "2XL"); ("48px", "3XL")]%string.

(** The scale in pixels, level [i] (1-7) at index [i - 1]. *)
Definition scale : list Z :=
  omap (fun s => parseInt (fst s)) SIZES.

(** "The nearest step": no step of the scale is closer to [px]. *)
Definition nearestStep (px : Z) (level : Z) : Prop :=
  exists step, scale !! Z.to_nat (level - 1) = Some step /\ 1 <= level /\
    forall other, In other scale -> Z.abs (px - step) <= Z.abs (px - other).

(** The level of the first step that is not below [px]; 7 past the scale. *)
Fixpoint roundUpFrom (level : Z) (steps : list Z) (px : Z) : Z :=
  match steps with
  | [] => level
  | [_] => level
  | s :: rest => if px <=? s then level else roundUpFrom (level + 1) rest px
  end.

Definition roundUpLevel (px : Z) : Z := roundUpFrom 1 scale px.

(** A selection that [surroundContents] cannot wrap. *)
Definition partialSelection : Page :=
  {| editorMounted := true; editorIsActive := true;
     getSelection := Some {| rangeCount := 1%nat; isCollapsed := false |};
     surroundContentsThrows := true |}.

End TextFormatting.

(** ** The editor component: the empty-document test *)

Module Editor.

(** A string is falsy exactly when it is empty. *)
Definition falsy (s : string) : bool :=
  match s with
  | EmptyString => true
  | String _ _ => false
  end.

(** [const isEmpty = !html || html === "<br>" || html === "<p><br></p>"] *)
Definition isEmpty (html : string) : bool :=
  falsy html || String.eqb html "<br>" || String.eqb html "<p><br></p>".

(** [`wysiwyg-editor ${isEmpty ? "wysiwyg-editor--empty" : ""}`]; the
    placeholder is drawn for elements of class [wysiwyg-editor--empty]. *)
Definition className (html : string) : string :=
  String.append "wysiwyg-editor "
    (if isEmpty html then "wysiwyg-editor--empty" else EmptyString).

Definition showsPlaceholder (html : string) : bool :=
  String.eqb (className html) "wysiwyg-editor wysiwyg-editor--empty".

End Editor.

(** ** Regular expressions

    The regular expressions of the sources are terms of [Regex], run by a
    backtracking matcher with JavaScript's priorities: alternatives left to
    right, greedy repetition. *)

Module RegExp.
Import Chars.

Inductive Regex :=
| Eps
| Chr (c : ascii)
| Class (negated : bool) (ranges : list (nat * nat))
| Cat (r1 r2 : Regex)
| Alt (r1 r2 : Regex)
| Star (r : Regex)
| Eol.

Definition Plus (r : Regex) : Regex := Cat r (Star r).
Definition Opt (r : Regex) : Regex := Alt r Eps.

Fixpoint Str (s : string) : Regex :=
  match s with
  | EmptyString => Eps
  | String c EmptyString => Chr c
  | String c s' => Cat (Chr c) (Str s')
  end.

Fixpoint AnyOf (rs : list Regex) : Regex :=
  match rs with
  | [] => Class false []
  | [r] => r
  | r :: rs' => Alt r (AnyOf rs')
  end.

Fixpoint Seq (rs : list Regex) : Regex :=
  match rs with
  | [] => Eps
  | [r] => r
  | r :: rs' => Cat r (Seq rs')
  end.

(** [\s] *)
Definition Space : Regex := Class false [(9, 13); (32, 32); (160, 160)]%nat.

Definition inRanges (ranges : list (nat * nat)) (c : ascii) : bool :=
  existsb (fun r => inRange (fst r) (snd r) c) ranges.

(** Under the [i] flag the input is read in lower case (see [exec]); a
    literal then stands for its lower case, and a class holds a character
    when it holds either case of it. *)
Definition inClass (ignoreCase : bool) (ranges : list (nat * nat)) (c : ascii)
  : bool :=
  inRanges ranges c || (ignoreCase && inRanges ranges (upper c)).

Definition sameChar (ignoreCase : bool) (pattern c : ascii) : bool :=
  if ignoreCase then Ascii.eqb c (lower pattern) else Ascii.eqb c pattern.

(** [matchAt i r fuel s k]: match [r] at the head of [s], then go on with [k]
    on what is left; the result is how many characters the whole match left
    unread.  [fuel] bounds the iterations of a [Star]; each iteration of the
    starred expressions used here reads a character, so the length of the
    input is enough. *)
Fixpoint matchAt (ignoreCase : bool) (r : Regex) (fuel : nat) (s : string)
  (k : string -> option nat) : option nat :=
  match r with
  | Eps => k s
  | Chr c =>
    match s with
    | String c' s' => if sameChar ignoreCase c c' then k s' else None
    | EmptyString => None
    end
  | Class negated ranges =>
    match s with
    | String c' s' =>
      if xorb negated (inClass ignoreCase ranges c') then k s' else None
    | EmptyString => None
    end
  | Cat r1 r2 =>
    matchAt ignoreCase r1 fuel s (fun s' => matchAt ignoreCase r2 fuel s' k)
  | Alt r1 r2 =>
    match matchAt ignoreCase r1 fuel s k with
    | Some n => Some n
    | None => matchAt ignoreCase r2 fuel s k
    end
  | Star r1 =>
    (fix star (n : nat) (s : string) : option nat :=
       match n with
       | O => k s
       | S n' =>
         match matchAt ignoreCase r1 fuel s (star n') with
         | Some m => Some m
         | None => k s
         end
       end) fuel s
  | Eol =>
    match s with
    | EmptyString => k s
    | String _ _ => None
    end
  end.

Record RegExp := mkRegExp {
  anchored : bool;      (* the pattern starts with ^ *)
  pattern : Regex;
  ignoreCase : bool     (* the i flag *)
}.

Definition unread (s : string) : option nat := Some (String.length s).

(** A match starting at the head of [s]: how many characters it leaves
    unread. *)
Definition exec (re : RegExp) (s : string) : option nat :=
  let s' := if ignoreCase re then lowerString s else s in
  matchAt (ignoreCase re) (pattern re) (String.length s') s' unread.

(** [re.test(s)] *)
Fixpoint testFrom (re : RegExp) (s : string) : bool :=
  match exec re s with
  | Some _ => true
  | None =>
    match s with
    | EmptyString => false
    | String _ s' => testFrom re s'
    end
  end.

Definition test (re : RegExp) (s : string) : bool :=
  if anchored re then
    match exec re s with Some _ => true | None => false end
  else testFrom re s.

(** [s.replace(re, '')] for an unanchored [re] with the [g] flag: every
    match, found left to right, is cut out.  After an empty match the scan
    moves on by one character. *)
Fixpoint removeAllFrom (re : RegExp) (fuel : nat) (s : string) : string :=
  match fuel with
  | O => s
  | S fuel' =>
    match exec re s with
    | Some rest =>
      if (rest <? String.length s)%nat then
        removeAllFrom re fuel' (skip (String.length s - rest) s)
      else
        match s with
        | EmptyString => EmptyString
        | String c s' => String c (removeAllFrom re fuel' s')
        end
    | None =>
      match s with
      | EmptyString => EmptyString
      | String c s' => String c (removeAllFrom re fuel' s')
      end
    end
  end.

Definition removeAll (re : RegExp) (s : string) : string :=
  removeAllFrom re (S (String.length s)) s.

End RegExp.

(** ** HTML fragments: the DOM, its parser and its serializer

    The browser is not part of the repository.  [Html] models the part of it
    that sanitization goes through: a DOM of text, comments and elements with
    attributes, [innerHTML]'s serializer, and a parser for tag soup made of
    start tags (quoted, unquoted or empty attribute values), end tags, void
    elements, comments, raw-text [script]/[style] content, the five common
    character references, the rule that a block start tag closes an open
    [p], and the rule that what precedes the first body content belongs to
    [head].  Other tree-construction rules of HTML are outside the model. *)

Module Html.
Import Chars.

Inductive Node :=
| Text (data : string)
| Comment (data : string)
| Elem (tag : string) (attrs : list (string * string)) (children : list Node).

Definition inb (s : string) (l : list string) : bool :=
  existsb (String.eqb s) l.

Definition VOID_ELEMENTS : list string :=
  ["area"; "base"; "br"; "col"; "embed"; "hr"; "img"; "input"; "link"; "meta";
   "param"; "source"; "track"; "wbr"]%string.

Definition RAW_TEXT_ELEMENTS : list string := ["script"; "style"]%string.

Definition HEAD_ELEMENTS : list string :=
  ["base"; "link"; "meta"; "noscript"; "script"; "style"; "template"; "title"]%string.

(** Start tags that close an open [p]. *)
Definition CLOSES_P : list string :=
  ["address"; "article"; "aside"; "blockquote"; "details"; "div"; "dl";
   "fieldset"; "figcaption"; "figure"; "footer"; "form"; "h1"; "h2"; "h3";
   "h4"; "h5"; "h6"; "header"; "hr"; "main"; "nav"; "ol"; "p"; "pre";
   "section"; "summary"; "table"; "ul"]%string.

Local Open Scope string_scope.

(** *** Serializer *)

Fixpoint escape (inAttribute : bool) (s : string) : string :=
  match s with
  | EmptyString => EmptyString
  | String c s' =>
    let rest := escape inAttribute s' in
    if Ascii.eqb c "&" then "&amp;" ++ rest
    else if (code c =? 160)%nat then "&nbsp;" ++ rest
    else if inAttribute then
      if Ascii.eqb c quote then "&quot;" ++ rest else String c rest
    else if Ascii.eqb c "<" then "&lt;" ++ rest
    else if Ascii.eqb c ">" then "&gt;" ++ rest
    else String c rest
  end.

Definition serializeAttr (a : string * string) : string :=
  " " ++ fst a ++ "=" ++ String quote (escape true (snd a)) ++ String quote "".

Fixpoint serializeNode (n : Node) : string :=
  match n with
  | Text d => escape false d
  | Comment d => "<!--" ++ d ++ "-->"
  | Elem tag attrs kids =>
    "<" ++ tag ++ String.concat "" (map serializeAttr attrs) ++ ">" ++
    (if inb tag VOID_ELEMENTS then ""
     else
       (fix inner (l : list Node) : string :=
          match l with
          | [] => ""
          | c :: l' =>
            (match c with
             | Text d => if inb tag RAW_TEXT_ELEMENTS then d else escape false d
             | _ => serializeNode c
             end) ++ inner l'
          end) kids
       ++ "</" ++ tag ++ ">")
  end.

(** [element.innerHTML] for an element of the given tag. *)
Fixpoint innerHTML (tag : string) (kids : list Node) : string :=
  match kids with
  | [] => ""
  | c :: l' =>
    (match c with
     | Text d => if inb tag RAW_TEXT_ELEMENTS then d else escape false d
     | _ => serializeNode c
     end) ++ innerHTML tag l'
  end.

Definition serialize (nodes : list Node) : string :=
  String.concat "" (map serializeNode nodes).

(** *** Tokenizer *)

Inductive Token :=
| TText (data : string)
| TComment (data : string)
| TStart (tag : string) (attrs : list (string * string))
| TEnd (tag : string).

Definition isHtmlSpace (c : ascii) : bool :=
  (code c =? 9)%nat || (code c =? 10)%nat || (code c =? 12)%nat
  || (code c =? 13)%nat || (code c =? 32)%nat.

Fixpoint decode (s : string) : string :=
  match s with
  | String "&" (String "a" (String "m" (String "p" (String ";" r)))) =>
    String "&" (decode r)
  | String "&" (String "l" (String "t" (String ";" r))) => String "<" (decode r)
  | String "&" (String "g" (String "t" (String ";" r))) => String ">" (decode r)
  | String "&" (String "q" (String "u" (String "o" (String "t" (String ";" r))))) =>
    String quote (decode r)
  | String "&" (String "n" (String "b" (String "s" (String "p" (String ";" r))))) =>
    String (ascii_of_nat 160) (decode r)
  | String c r => String c (decode r)
  | EmptyString => EmptyString
  end.

Fixpoint startsWithCI (p s : string) : bool :=
  match p, s with
  | EmptyString, _ => true
  | String a p', String b s' => Ascii.eqb (lower a) (lower b) && startsWithCI p' s'
  | String _ _, EmptyString => false
  end.

(** Split [s] before the first occurrence of [pat] (letters compared without
    case); the second part is empty when there is none. *)
Fixpoint breakBefore (pat : string) (s : string) : string * string :=
  match s with
  | EmptyString => (EmptyString, EmptyString)
  | String c s' =>
    if startsWithCI pat s then (EmptyString, s)
    else let (b, a) := breakBefore pat s' in (String c b, a)
  end.

Definition isNameEnd (c : ascii) : bool :=
  isHtmlSpace c || Ascii.eqb c "/" || Ascii.eqb c ">".

(** The text of a raw-text element ends before the first end tag of the
    element: [</], its name (letters compared without case) and a character
    that ends a tag name.  The second part is empty when there is none. *)
Definition endsName (s : string) : bool :=
  match s with
  | EmptyString => false
  | String c _ => isNameEnd c
  end.

Fixpoint breakBeforeEndTag (tag : string) (s : string) : string * string :=
  match s with
  | EmptyString => (EmptyString, EmptyString)
  | String c s' =>
    if startsWithCI ("</" ++ tag) s && endsName (skip (String.length tag + 2) s)
    then (EmptyString, s)
    else let (b, a) := breakBeforeEndTag tag s' in (String c b, a)
  end.

Definition hasAttr (name : string) (attrs : list (string * string)) : bool :=
  existsb (fun a => String.eqb (fst a) name) attrs.

(** The attributes of a start tag, up to and including its [>]; [None] when
    the input ends inside the tag (the tag is then dropped). *)
Fixpoint readAttrs (fuel : nat) (s : string) (acc : list (string * string))
  : option (list (string * string) * string) :=
  match fuel with
  | O => None
  | S fuel' =>
    match dropWhile (fun c => isHtmlSpace c || Ascii.eqb c "/") s with
    | EmptyString => None
    | String ">" rest => Some (acc, rest)
    | String c0 s0 =>
      let nameTail := takeWhile (fun c => negb (isNameEnd c || Ascii.eqb c "=")) s0 in
      let name := lowerString (String c0 nameTail) in
      let s1 := dropWhile isHtmlSpace (skip (String.length nameTail) s0) in
      let add v := if hasAttr name acc then acc else (acc ++ [(name, decode v)])%list in
      match s1 with
      | String "=" s2 =>
        match dropWhile isHtmlSpace s2 with
        | String q s3 =>
          if Ascii.eqb q quote || Ascii.eqb q "'" then
            let v := takeWhile (fun c => negb (Ascii.eqb c q)) s3 in
            match skip (String.length v) s3 with
            | String _ s4 => readAttrs fuel' s4 (add v)
            | EmptyString => None
            end
          else
            let v := takeWhile (fun c => negb (isHtmlSpace c || Ascii.eqb c ">"))
                       (String q s3) in
            readAttrs fuel' (skip (String.length v) (String q s3)) (add v)
        | EmptyString => None
        end
      | _ => readAttrs fuel' s1 (add EmptyString)
      end
    end
  end.

Definition notLt (c : ascii) : bool := negb (Ascii.eqb c "<").

Fixpoint tokenize (fuel : nat) (s : string) : list Token :=
  match fuel with
  | O => []
  | S fuel' =>
    match s with
    | EmptyString => []
    | String "<" rest =>
      match rest with
      | String "!" (String "-" (String "-" body)) =>
        let (data, tail) := breakBefore "-->" body in
        TComment data :: tokenize fuel' (skip 3 tail)
      | String "!" body | String "?" body =>
        let data := takeWhile (fun c => negb (Ascii.eqb c ">")) body in
        TComment data :: tokenize fuel' (skip (S (String.length data)) body)
      | String "/" (String c body) =>
        if isLetter c then
          let name := takeWhile (fun x => negb (isNameEnd x)) (String c body) in
          let tail := dropWhile (fun x => negb (Ascii.eqb x ">")) body in
          match tail with
          | EmptyString => []
          | String _ tail' => TEnd (lowerString name) :: tokenize fuel' tail'
          end
        else TText "<" :: tokenize fuel' rest
      | String c _ =>
        if isLetter c then
          let name := takeWhile (fun x => negb (isNameEnd x)) rest in
          let tag := lowerString name in
          match readAttrs (S (String.length rest))
                  (skip (String.length name) rest) [] with
          | None => []
          | Some (attrs, tail) =>
            if inb tag RAW_TEXT_ELEMENTS then
              let (raw, tail') := breakBeforeEndTag tag tail in
              (TStart tag attrs
                 :: (match raw with EmptyString => [] | _ => [TText raw] end)
                 ++ tokenize fuel' tail')%list
            else TStart tag attrs :: tokenize fuel' tail
          end
        else TText "<" :: tokenize fuel' rest
      | EmptyString => [TText "<"]
      end
    | String _ _ =>
      let run := takeWhile notLt s in
      TText (decode run) :: tokenize fuel' (skip (String.length run) s)
    end
  end.

(** *** Tree construction *)

Record Open := mkOpen {
  openTag : string;
  openAttrs : list (string * string);
  openKids : list Node       (* youngest first *)
}.

Definition addNode (n : Node) (kids : list Node) : list Node :=
  match n, kids with
  | Text d, Text d0 :: rest => Text (d0 ++ d) :: rest
  | _, _ => n :: kids
  end.

Definition addToTop (n : Node) (stack : list Open) : list Open :=
  match stack with
  | [] => []
  | o :: rest => mkOpen (openTag o) (openAttrs o) (addNode n (openKids o)) :: rest
  end.

(** The innermost open element is closed and joins its parent's children;
    the fragment itself, at the bottom of the stack, stays open. *)
Definition closeTop (stack : list Open) : list Open :=
  match stack with
  | o :: (_ :: _) as rest =>
    addToTop (Elem (openTag o) (openAttrs o) (rev (openKids o))) rest
  | _ => stack
  end.

Fixpoint hasOpen (tag : string) (stack : list Open) : bool :=
  match stack with
  | [] | [_] => false
  | o :: rest => String.eqb (openTag o) tag || hasOpen tag rest
  end.

Fixpoint closeUntil (fuel : nat) (tag : string) (stack : list Open) : list Open :=
  match fuel, stack with
  | S fuel', o :: _ :: _ =>
    if String.eqb (openTag o) tag then closeTop stack
    else closeUntil fuel' tag (closeTop stack)
  | _, _ => stack
  end.

Fixpoint closeAll (fuel : nat) (stack : list Open) : list Node :=
  match fuel, stack with
  | S fuel', _ :: _ :: _ => closeAll fuel' (closeTop stack)
  | _, [o] => rev (openKids o)
  | _, _ => []
  end.

Fixpoint build (toks : list Token) (stack : list Open) : list Node :=
  match toks with
  | [] => closeAll (length stack) stack
  | TText d :: r => build r (addToTop (Text d) stack)
  | TComment d :: r => build r (addToTop (Comment d) stack)
  | TStart tag attrs :: r =>
    let stack' :=
      if inb tag CLOSES_P && hasOpen "p" stack
      then closeUntil (length stack) "p" stack else stack in
    if inb tag VOID_ELEMENTS then build r (addToTop (Elem tag attrs []) stack')
    else build r (mkOpen tag attrs [] :: stack')
  | TEnd tag :: r =>
    if hasOpen tag stack then build r (closeUntil (length stack) tag stack)
    else build r stack
  end.

(** What a document's parser leaves out of [body]: comments, white space and
    head elements that come before the first body content.  [inside] is the
    head element being skipped. *)
Fixpoint dropHead (inside : option string) (toks : list Token) : list Token :=
  match toks with
  | [] => []
  | t :: r =>
    match inside with
    | Some tag =>
      match t with
      | TEnd tag' => if String.eqb tag tag' then dropHead None r else dropHead inside r
      | _ => dropHead inside r
      end
    | None =>
      match t with
      | TComment _ => dropHead None r
      | TText d =>
        match dropWhile isHtmlSpace d with
        | EmptyString => dropHead None r
        | d' => TText d' :: r
        end
      | TStart tag _ =>
        if inb tag HEAD_ELEMENTS then
          dropHead (if inb tag VOID_ELEMENTS then None else Some tag) r
        else toks
      | TEnd _ => toks
      end
    end
  end.

Definition fragment : list Open := [mkOpen "" [] []].

(** [new DOMParser().parseFromString(s, 'text/html').body.childNodes] *)
Definition parseBody (s : string) : list Node :=
  build (dropHead None (tokenize (S (String.length s)) s)) fragment.

End Html.

(** ** DOMPurify

    DOMPurify is a dependency of the repository, not part of it.  This is a
    model of [DOMPurify.sanitize(dirty, cfg)] for the options the repository
    passes, after the library's documented behaviour: the input is parsed as
    a document, the nodes of its body are walked in document order
    ([sanitizeNode], the library's [_sanitizeElements]), an element whose tag
    is not allow-listed is removed (its children stay in its place unless the
    tag forbids its contents), an attribute stays only if it passes the
    allow-list and the URI test ([isValidAttribute], the library's
    [_isValidAttribute]), and the body is serialized.  The options the
    repository leaves unset have the library's defaults: content of removed
    elements is kept, [aria-*] attributes are allowed, text nodes are
    allowed, comments are not.  Checks of the library that only remove more
    (DOM clobbering of [id] and [name], attribute values that look like
    markup) are left out. *)

Module DOMPurify.
Import Chars RegExp Html.

Record Config := mkConfig {
  ALLOWED_TAGS : list string;
  ALLOWED_ATTR : list string;
  ALLOW_DATA_ATTR : bool;
  ALLOWED_URI_REGEXP : option RegExp.RegExp;   (* [None]: option not given *)
  ADD_TAGS : list string;
  ADD_ATTR : list string
}.

(** The library's defaults for what the repository leaves unset. *)

Definition FORBID_CONTENTS : list string :=
  ["annotation-xml"; "audio"; "colgroup"; "desc"; "foreignobject"; "head";
   "iframe"; "math"; "mi"; "mn"; "mo"; "ms"; "mtext"; "noembed"; "noframes";
   "noscript"; "plaintext"; "script"; "style"; "svg"; "template"; "thead";
   "title"; "video"; "xmp"]%string.

Definition DATA_URI_TAGS : list string :=
  ["img"; "image"; "video"; "audio"; "source"]%string.

Definition URI_SAFE_ATTRIBUTES : list string :=
  ["alt"; "class"; "for"; "id"; "label"; "name"; "pattern"; "placeholder";
   "role"; "summary"; "title"; "value"; "style"; "xmlns"]%string.

Definition letters : list (nat * nat) := [(97, 122)]%nat.
(** [[a-z+.\-]] *)
Definition schemeChars : list (nat * nat) :=
  [(97, 122); (43, 43); (46, 46); (45, 45)]%nat.
(** [[a-z+.\-:]] *)
Definition schemeCharsColon : list (nat * nat) :=
  [(97, 122); (43, 43); (46, 46); (45, 45); (58, 58)]%nat.
(** [\w] *)
Definition wordChars : list (nat * nat) :=
  [(65, 90); (97, 122); (48, 57); (95, 95)]%nat.

(** The tail shared by the URI expressions:
    [|[^a-z]|[a-z+.\-]+(?:[^a-z+.\-:]|$)] *)
Definition uriTail : list Regex :=
  [Class true letters;
   Cat (Plus (Class false schemeChars)) (Alt (Class true schemeCharsColon) Eol)].

(** [/^(?:(?:(?:f|ht)tps?|mailto|tel|callto|sms|cid|xmpp|matrix):|[^a-z]|[a-z+.\-]+(?:[^a-z+.\-:]|$))/i] *)
Definition IS_ALLOWED_URI : RegExp.RegExp :=
  {| anchored := true;
     pattern :=
       AnyOf
         (Cat (AnyOf [Seq [Alt (Chr "f") (Str "ht"); Str "tp"; Opt (Chr "s")];
                      Str "mailto"; Str "tel"; Str "callto"; Str "sms";
                      Str "cid"; Str "xmpp"; Str "matrix"])
              (Chr ":")
          :: uriTail);
     ignoreCase := true |}.

(** [/^data-[\-\w.\u00B7-\uFFFF]+$/] *)
Definition DATA_ATTR : RegExp.RegExp :=
  {| anchored := true;
     pattern :=
       Seq [Str "data-";
            Plus (Class false ((45, 45) :: (46, 46) :: (183, 255) :: wordChars)%nat);
            Eol];
     ignoreCase := false |}.

(** [/^aria-[\-\w]+$/] *)
Definition ARIA_ATTR : RegExp.RegExp :=
  {| anchored := true;
     pattern := Seq [Str "aria-"; Plus (Class false ((45, 45) :: wordChars)%nat); Eol];
     ignoreCase := false |}.

(** [ATTR_WHITESPACE]: the code units U+0000 to U+0020 and U+00A0 (those of
    the library's set that are within Latin-1). *)
Definition isAttrWhitespace (c : ascii) : bool :=
  (code c <=? 32)%nat || (code c =? 160)%nat.

Definition stripAttrWhitespace (value : string) : string :=
  filterChars (fun c => negb (isAttrWhitespace c)) value.

(** [/<[/\w!]/g] *)
Definition MARKUP : RegExp.RegExp :=
  {| anchored := false;
     pattern := Cat (Chr "<") (Class false ((47, 47) :: (33, 33) :: wordChars)%nat);
     ignoreCase := false |}.

Definition allowedTag (cfg : Config) (tag : string) : bool :=
  inb tag (map lowerString (ALLOWED_TAGS cfg ++ ADD_TAGS cfg)).

Definition allowedAttr (cfg : Config) (lcName : string) : bool :=
  inb lcName (map lowerString (ALLOWED_ATTR cfg ++ ADD_ATTR cfg)).

Definition uriRegExp (cfg : Config) : RegExp.RegExp :=
  match ALLOWED_URI_REGEXP cfg with
  | Some re => re
  | None => IS_ALLOWED_URI
  end.

Definition isUriAttr (lcName : string) : bool :=
  String.eqb lcName "src" || String.eqb lcName "xlink:href"
  || String.eqb lcName "href".

Definition nonEmptyString (s : string) : bool :=
  match s with EmptyString => false | String _ _ => true end.

Definition isValidAttribute (cfg : Config) (lcTag lcName value : string) : bool :=
  if ALLOW_DATA_ATTR cfg && test DATA_ATTR lcName then true
  else if test ARIA_ATTR lcName then true
  else if negb (allowedAttr cfg lcName) then false
  else if inb lcName URI_SAFE_ATTRIBUTES then true
  else if test (uriRegExp cfg) (stripAttrWhitespace value) then true
  else if isUriAttr lcName && negb (String.eqb lcTag "script")
          && startsWith "data:" value && inb lcTag DATA_URI_TAGS then true
  else if nonEmptyString value then false
  else true.

Fixpoint sanitizeAttributes (cfg : Config) (lcTag : string)
  (attrs : list (string * string)) : list (string * string) :=
  match attrs with
  | [] => []
  | a :: rest =>
    let lcName := lowerString (fst a) in
    let value := if String.eqb lcName "value" then snd a else trim (snd a) in
    if isValidAttribute cfg lcTag lcName value
    then (fst a, value) :: sanitizeAttributes cfg lcTag rest
    else sanitizeAttributes cfg lcTag rest
  end.

Definition isElement (n : Node) : bool :=
  match n with Elem _ _ _ => true | _ => false end.

Definition textData (n : Node) : string :=
  match n with Text d => d | _ => EmptyString end.

(** The element has children, none of them an element, and both its
    [innerHTML] and its [textContent] hold the start of a tag. *)
Definition looksLikeMarkup (tag : string) (kids : list Node) : bool :=
  match kids with [] => false | _ :: _ => true end
  && negb (existsb isElement kids)
  && test MARKUP (innerHTML tag kids)
  && test MARKUP (String.concat EmptyString (map textData kids)).

Fixpoint sanitizeNode (cfg : Config) (n : Node) : list Node :=
  match n with
  | Text d => [Text d]
  | Comment _ => []
  | Elem tag attrs kids =>
    let lcTag := lowerString tag in
    if looksLikeMarkup lcTag kids then []
    else if allowedTag cfg lcTag then
      [Elem tag (sanitizeAttributes cfg lcTag attrs)
            (flat_map (sanitizeNode cfg) kids)]
    else if inb lcTag FORBID_CONTENTS then []
    else flat_map (sanitizeNode cfg) kids
  end.

Definition sanitizeNodes (cfg : Config) (nodes : list Node) : list Node :=
  flat_map (sanitizeNode cfg) nodes.

(** [/^[\r\n\t ]+/]: the white space the document parser would drop, put
    back in front of the body. *)
Definition isLeadingSpace (c : ascii) : bool :=
  (code c =? 13)%nat || (code c =? 10)%nat || (code c =? 9)%nat
  || (code c =? 32)%nat.

Definition initDocument (dirty : string) : list Node :=
  match takeWhile isLeadingSpace dirty with
  | EmptyString => parseBody dirty
  | leading => Text leading :: parseBody dirty
  end.

Fixpoint hasChar (c : ascii) (s : string) : bool :=
  match s with
  | EmptyString => false
  | String c' s' => Ascii.eqb c c' || hasChar c s'
  end.

(** A string with no [<] in it is returned as it is. *)
Definition sanitize (cfg : Config) (dirty : string) : string :=
  if negb (hasChar "<" dirty) then dirty
  else serialize (sanitizeNodes cfg (initDocument dirty)).

End DOMPurify.

(** ** utils/sanitize *)

Module Sanitize.
Import Chars RegExp Html.

Definition ALLOWED_TAGS : list string :=
  [ (* Text formatting *)
    "p"; "br"; "span"; "div";
    "strong"; "b"; "em"; "i"; "u"; "s"; "strike"; "del"; "ins";
    "sub"; "sup"; "mark";
    (* Headings *)
    "h1"; "h2"; "h3"; "h4"; "h5"; "h6";
    (* Lists *)
    "ul"; "ol"; "li";
    (* Links & media *)
    "a"; "img"; "video"; "source"; "picture"; "figure"; "figcaption";
    (* Tables *)
    "table"; "thead"; "tbody"; "tfoot"; "tr"; "th"; "td"; "caption";
    "colgroup"; "col";
    (* Block elements *)
    "blockquote"; "pre"; "code"; "hr";
    (* External resources (CDN scripts, styles) - with restrictions *)
    "link"; "script";
    (* Other *)
    "address"; "article"; "aside"; "details"; "summary"; "section"; "nav";
    "header"; "footer"; "main" ]%string.

Definition ALLOWED_ATTR : list string :=
  [ (* Global attributes *)
    "id"; "class"; "style"; "title"; "lang"; "dir";
    (* Links *)
    "href"; "target"; "rel";
    (* Media *)
    "src"; "alt"; "width"; "height"; "loading"; "srcset"; "sizes"; "crossorigin";
    (* Video *)
    "controls"; "autoplay"; "loop"; "muted"; "poster"; "preload";
    (* Tables *)
    "colspan"; "rowspan"; "scope"; "headers";
    (* Script/Link tags (for CDN resources) *)
    "type"; "integrity"; "async"; "defer"; "charset";
    (* Data attributes (for editor tracking) *)
    "data-*" ]%string.

(** [/^(?:(?:https?|data|mailto|tel):|[^a-z]|[a-z+.\-]+(?:[^a-z+.\-:]|$))/i] *)
Definition ALLOWED_URI_REGEXP : RegExp.RegExp :=
  {| anchored := true;
     pattern :=
       AnyOf
         (Cat (AnyOf [Cat (Str "http") (Opt (Chr "s")); Str "data";
                      Str "mailto"; Str "tel"])
              (Chr ":")
          :: DOMPurify.uriTail);
     ignoreCase := true |}.

Definition inputConfig : DOMPurify.Config :=
  {| DOMPurify.ALLOWED_TAGS := ALLOWED_TAGS;
     DOMPurify.ALLOWED_ATTR := ALLOWED_ATTR;
     DOMPurify.ALLOW_DATA_ATTR := true;
     DOMPurify.ALLOWED_URI_REGEXP := Some ALLOWED_URI_REGEXP;
     DOMPurify.ADD_TAGS := ["link"; "script"]%string;
     DOMPurify.ADD_ATTR :=
       ["crossorigin"; "integrity"; "async"; "defer"; "charset"; "type"]%string |}.

Definition outputConfig : DOMPurify.Config :=
  {| DOMPurify.ALLOWED_TAGS := ALLOWED_TAGS;
     DOMPurify.ALLOWED_ATTR :=
       List.filter (fun attr => negb (startsWith "data-" attr)) ALLOWED_ATTR;
     DOMPurify.ALLOW_DATA_ATTR := false;
     DOMPurify.ALLOWED_URI_REGEXP := None;
     DOMPurify.ADD_TAGS := [];
     DOMPurify.ADD_ATTR := [] |}.

(** Sanitize HTML input (removes XSS vectors) *)
Definition sanitizeHtml (html : string) : string :=
  DOMPurify.sanitize inputConfig html.

(** [/<p>\s*<\/p>/gi] *)
Definition EMPTY_PARAGRAPH : RegExp.RegExp :=
  {| anchored := false;
     pattern := Seq [Str "<p>"; Star Space; Str "</p>"];
     ignoreCase := true |}.

(** [/<br\s*\/?>\s*$/gi] *)
Definition TRAILING_BREAK : RegExp.RegExp :=
  {| anchored := false;
     pattern := Seq [Str "<br"; Star Space; Opt (Chr "/"); Chr ">"; Star Space; Eol];
     ignoreCase := true |}.

(** The cosmetic passes of [sanitizeForOutput]. *)
Definition normalize (cleaned : string) : string :=
  trim (removeAll TRAILING_BREAK (removeAll EMPTY_PARAGRAPH cleaned)).

(** Sanitize for output (cleaner, removes editor-specific attributes) *)
Definition sanitizeForOutput (html : string) : string :=
  let cleaned := DOMPurify.sanitize outputConfig html in
  normalize cleaned.

(** *** What "dangerous" means on a DOM *)

(** An inline event handler: an attribute whose name starts with [on]. *)
Definition isEventHandler (name : string) : bool :=
  startsWith "on" (lowerString name).

(** A [javascript:] URI, white space and case aside. *)
Definition isJavascriptUri (value : string) : bool :=
  startsWithCI "javascript:" (DOMPurify.stripAttrWhitespace value).

Definition dangerousAttr (a : string * string) : bool :=
  isEventHandler (fst a)
  || (String.eqb (lowerString (fst a)) "href" && isJavascriptUri (snd a)).

Fixpoint safeNode (n : Node) : bool :=
  match n with
  | Text _ => true
  | Comment _ => true
  | Elem _ attrs kids =>
    forallb (fun a => negb (dangerousAttr a)) attrs && forallb safeNode kids
  end.

Fixpoint hasElement (tag : string) (n : Node) : bool :=
  match n with
  | Text _ => false
  | Comment _ => false
  | Elem t _ kids => String.eqb (lowerString t) tag || existsb (hasElement tag) kids
  end.

(** The two configurations of the repository. *)
Definition ofRepository (cfg : DOMPurify.Config) : Prop :=
  cfg = inputConfig \/ cfg = outputConfig.

(** Two documents with a script after body content. *)
Definition cdnScript : string :=
  "<p>Hi</p><script src=https://cdn.example.com/lib.js></script><strong>ok</strong>".

Definition inlineScript : string := "<p>Hi</p><script>alert(1)</script>".

(** A link whose [href] is a [javascript:] URI once the empty paragraph
    inside it is cut out. *)
Definition hrefInPieces : string := "<a href='java<p></p>script:alert(1)'>x</a>".

End Sanitize.

(** ** Markup read back

    What the constructs of a string of markup are is decided by reading it:
    the start tags its tokenizer finds and the attributes they carry.
    [Markup Q] describes the strings a serializer writes for a DOM whose
    attributes pass [Q]: text without [<], start tags with well-formed
    names and attributes that pass [Q], end tags, and raw text that holds no
    end tag.  [Clean] is markup without dangerous attributes, [Tidy] markup
    without inline event handlers. *)

Module Markup.
Import Chars RegExp Html DOMPurify Sanitize.
Local Open Scope string_scope.

(** What an attribute is asked: to be no inline event handler, or to be
    neither that nor a link to a [javascript:] URI. *)
Definition notHandler (a : string * string) : bool :=
  negb (isEventHandler (fst a)).

Definition notDangerous (a : string * string) : bool :=
  negb (dangerousAttr a).

(** Every attribute of every element passes [Q]. *)
Fixpoint okNode (Q : string * string -> bool) (n : Node) : bool :=
  match n with
  | Text _ => true
  | Comment _ => true
  | Elem _ attrs kids => forallb Q attrs && forallb (okNode Q) kids
  end.

Definition okToken (Q : string * string -> bool) (t : Token) : bool :=
  match t with
  | TStart _ attrs => forallb Q attrs
  | _ => true
  end.

(** The tag is read as a raw-text element. *)
Definition isRawText (tag : string) : bool :=
  inb (lowerString tag) RAW_TEXT_ELEMENTS.

(** A character of a name: it neither ends a name nor starts a value or a
    tag, and is no white space. *)
Definition nameChar (c : ascii) : bool :=
  negb (isNameEnd c || Ascii.eqb c "=" || Ascii.eqb c "<" || isWhiteSpace c).

Definition tagOk (tag : string) : bool :=
  match tag with
  | EmptyString => false
  | String c _ => isLetter c
  end && allChars nameChar tag.

Definition notQuote (c : ascii) : bool := negb (Ascii.eqb c quote).

(** An attribute as it stands in a start tag: its name and, between double
    quotes, its value as written. *)
Definition writeAttr (a : string * string) : string :=
  " " ++ fst a ++ "=" ++ String quote (snd a ++ String quote "").

Definition writeAttrs (attrs : list (string * string)) : string :=
  String.concat "" (map writeAttr attrs).

(** The attributes of an element as the serializer writes them: the values
    escaped. *)
Definition written (attrs : list (string * string)) : list (string * string) :=
  map (fun a => (fst a, escape true (snd a))) attrs.

(** A written attribute is well formed, and what is read back for it (the
    name in lower case, the value decoded) passes [Q]. *)
Definition attrOk (Q : string * string -> bool) (a : string * string) : bool :=
  nonEmptyString (fst a) && allChars nameChar (fst a)
  && allChars notQuote (snd a) && Q (lowerString (fst a), decode (snd a)).

(** No [</] in the text. *)
Fixpoint noEndTag (s : string) : bool :=
  match s with
  | EmptyString => true
  | String c s' => negb (Ascii.eqb c "<" && startsWith "/" s') && noEndTag s'
  end.

Inductive Markup (Q : string * string -> bool) : string -> Prop :=
| Markup_nil : Markup Q ""
| Markup_text c s :
    Ascii.eqb c "<" = false -> Markup Q s -> Markup Q (String c s)
| Markup_start tag attrs s :
    tagOk tag = true -> forallb (attrOk Q) attrs = true ->
    isRawText tag = false -> Markup Q s ->
    Markup Q (String "<" (tag ++ writeAttrs attrs ++ String ">" s))
| Markup_end tag s :
    tagOk tag = true -> Markup Q s ->
    Markup Q (String "<" (String "/" (tag ++ String ">" s)))
| Markup_raw tag attrs raw s :
    tagOk tag = true -> forallb (attrOk Q) attrs = true ->
    isRawText tag = true -> noEndTag raw = true -> Markup Q s ->
    Markup Q (String "<" (tag ++ writeAttrs attrs
                ++ String ">" (raw ++ String "<" (String "/" (tag ++ String ">" s))))).

(** Markup without dangerous attributes, and markup without inline event
    handlers. *)
Definition Clean : string -> Prop := Markup notDangerous.

Definition Tidy : string -> Prop := Markup notHandler.

Definition isText (n : Node) : bool :=
  match n with Text _ => true | _ => false end.

(** The children of a raw-text element are text, at any depth of the tree. *)
Fixpoint rawOk (n : Node) : bool :=
  match n with
  | Text _ => true
  | Comment _ => true
  | Elem tag _ kids =>
    (negb (isRawText tag) || forallb isText kids) && forallb rawOk kids
  end.

(** After the start tag of a raw-text element come its text, if any, and
    its end tag, or the end of the input. *)
Definition rawTail (tag : string) (toks : list Token) : bool :=
  match toks with
  | [] => true
  | TEnd t :: _ => String.eqb t tag
  | [TText _] => true
  | TText _ :: TEnd t :: _ => String.eqb t tag
  | _ => false
  end.

Fixpoint rawClosed (toks : list Token) : bool :=
  match toks with
  | [] => true
  | TStart tag _ :: r => (negb (isRawText tag) || rawTail tag r) && rawClosed r
  | _ :: r => rawClosed r
  end.

(** A token that opens no raw text. *)
Definition plainToken (t : Token) : bool :=
  match t with
  | TStart tag _ => negb (isRawText tag)
  | _ => true
  end.

Definition okOpen (Q : string * string -> bool) (o : Open) : bool :=
  forallb Q (openAttrs o) && forallb (okNode Q) (openKids o).

End Markup.

Module MarkupTree.
Import Chars RegExp Html DOMPurify Sanitize Markup.
Local Open Scope string_scope.

(** *** The stack of open elements while raw text is read *)

Definition kidsOk (o : Open) : bool := forallb rawOk (openKids o).

Definition plainOpen (o : Open) : bool := negb (isRawText (openTag o)).

(** An open raw-text element has no child and its text or end tag comes
    next, or it has its text and its end tag comes next. *)
Definition rawOpen (o : Open) (toks : list Token) : bool :=
  match openKids o with
  | [] => rawTail (openTag o) toks
  | [Text _] =>
    match toks with
    | [] => true
    | TEnd t :: _ => String.eqb t (openTag o)
    | _ => false
    end
  | _ => false
  end.

Definition plainStack (stack : list Open) : bool :=
  match stack with
  | [] => false
  | _ => forallb kidsOk stack && forallb plainOpen stack
  end.

(** Only the innermost open element can be a raw-text element. *)
Definition stackOk (stack : list Open) (toks : list Token) : bool :=
  match stack with
  | [] => false
  | top :: below =>
    plainStack stack
    || (kidsOk top && plainStack below && rawOpen top toks)
  end.

End MarkupTree.

Module Reads.
Import Chars RegExp.

(** Every character the expression can read satisfies [p]. *)
Fixpoint reads (p : ascii -> bool) (i : bool) (r : Regex) : bool :=
  match r with
  | Eps => true
  | Eol => true
  | Chr c => p (if i then lower c else c)
  | Class negated ranges =>
    forallb (fun n => implb (xorb negated (inClass i ranges (ascii_of_nat n)))
                            (p (ascii_of_nat n)))
            (seq 0 256)
  | Cat r1 r2 => reads p i r1 && reads p i r2
  | Alt r1 r2 => reads p i r1 && reads p i r2
  | Star r1 => reads p i r1
  end.

End Reads.

Module Dom.
Import DragAndDrop.

(** The ids of a subtree, the root's first, then in document order. *)
Definition ids (e : Element) : list HTMLElement :=
  nodeId e :: map (fun pe => nodeId (snd pe)) (descendants e).

(** A reference denotes one node: no id occurs twice in the document. *)
Definition uniqueIds (e : Element) : Prop := NoDup (ids e).

Definition childIds (e : Element) : list HTMLElement :=
  map nodeId (childNodes e).

(** [n] is [e] or lies below it. *)
Inductive subtree (n : Element) : Element -> Prop :=
| subtree_self : subtree n n
| subtree_below i t cs c :
    In c cs -> subtree n c -> subtree n (mkElement i t cs).

(** The children but the one with id [d]. *)
Definition without (d : HTMLElement) (cs : list Element) : list Element :=
  List.filter (fun c => negb (nodeId c =? d)%nat) cs.

(** The loops over the children inside [lookupNode], [familyOf] and
    [detach], by name. *)
Definition scanLookup (target : HTMLElement) : list Element -> option Element :=
  fix scan (l : list Element) : option Element :=
    match l with
    | [] => None
    | c :: l' =>
      match lookupNode target c with
      | Some r => Some r
      | None => scan l'
      end
    end.

Definition scanFamily (target : HTMLElement)
  : list Element -> option (HTMLElement * list Element) :=
  fix scan (l : list Element) : option (HTMLElement * list Element) :=
    match l with
    | [] => None
    | c :: l' =>
      match familyOf target c with
      | Some r => Some r
      | None => scan l'
      end
    end.

Definition keepOthers (target : HTMLElement) : list Element -> list Element :=
  fix keep (l : list Element) : list Element :=
    match l with
    | [] => []
    | c :: l' =>
      if (nodeId c =? target)%nat then keep l'
      else detach target c :: keep l'
    end.

(** *** A heading and two paragraphs

    The editor holds [<h1></h1><p><strong></strong></p><p></p>]: the blocks
    1, 2 and 3 under the root 0, the [strong] 4 inside block 2; each block
    is 20 pixels high. *)
Definition threeBlocks : Element :=
  mkElement 0%nat "div"
    [mkElement 1%nat "h1" [];
     mkElement 2%nat "p" [mkElement 4%nat "strong" []];
     mkElement 3%nat "p" []].

Definition threeLayout (e : HTMLElement) : @DOMRect QNumber :=
  match e with
  | 1%nat => @mkRect QNumber 0%Q 20%Q 20%Q
  | 2%nat => @mkRect QNumber 20%Q 40%Q 20%Q
  | 3%nat => @mkRect QNumber 40%Q 60%Q 20%Q
  | _ => @mkRect QNumber 0%Q 0%Q 0%Q
  end.

Definition threeHook : @Hook QNumber :=
  @mkHook QNumber idle None (Some threeBlocks) threeLayout [] [] 0%nat 0%nat.

End Dom.

(** ** utils/sanitize: the scan for dangerous content *)

Module DangerousContent.
Import Chars RegExp.

(** [\w] *)
Definition Word : Regex := Class false [(48, 57); (65, 90); (95, 95); (97, 122)]%nat.

Definition isWordChar (c : ascii) : bool :=
  isLetter c || isDigit c || Ascii.eqb c "_".

(** How a pattern ends: with its last atom, or with the assertion [\b] after
    a word character, which holds where the input ends or goes on with a
    character that is no word character. *)
Inductive Ending := Plain | WordBoundary.

Definition ending (e : Ending) (rest : string) : option nat :=
  match e, rest with
  | Plain, _ => Some (String.length rest)
  | WordBoundary, EmptyString => Some 0%nat
  | WordBoundary, String c _ =>
    if isWordChar c then None else Some (String.length rest)
  end.

(** [exec] with the assertion that closes the pattern as the matcher's last
    continuation. *)
Definition execThen (re : RegExp.RegExp) (e : Ending) (s : string) : option nat :=
  let s' := if ignoreCase re then lowerString s else s in
  matchAt (ignoreCase re) (pattern re) (String.length s') s' (ending e).

(** [pattern.test(html)] for a pattern without [^] and without the [g]
    flag: a match starting anywhere. *)
Fixpoint testAnywhere (re : RegExp.RegExp) (e : Ending) (s : string) : bool :=
  match execThen re e s with
  | Some _ => true
  | None =>
    match s with
    | EmptyString => false
    | String _ s' => testAnywhere re e s'
    end
  end.

Definition insensitive (r : Regex) : RegExp.RegExp :=
  {| anchored := false; pattern := r; ignoreCase := true |}.

Definition dangerous : list (RegExp.RegExp * Ending) :=
  [ (* /<script\b/i *)
    (insensitive (Str "<script"), WordBoundary);
    (* /javascript:/i *)
    (insensitive (Str "javascript:"), Plain);
    (* /on\w+\s*=/i -- onclick, onerror, etc. *)
    (insensitive (Seq [Str "on"; Plus Word; Star Space; Chr "="]), Plain);
    (* /<iframe\b/i *)
    (insensitive (Str "<iframe"), WordBoundary);
    (* /<object\b/i *)
    (insensitive (Str "<object"), WordBoundary);
    (* /<embed\b/i *)
    (insensitive (Str "<embed"), WordBoundary);
    (* /data:text\/html/i *)
    (insensitive (Str "data:text/html"), Plain) ].

(** Check if HTML contains potentially dangerous content *)
Definition containsDangerousContent (html : string) : bool :=
  existsb (fun p => testAnywhere (fst p) (snd p) html) dangerous.

(** What every match of the expression has to read: [needs c r] holds when
    [r] cannot match without reading the character [c]. *)
Fixpoint needs (c : ascii) (r : Regex) : bool :=
  match r with
  | Chr c' => Ascii.eqb c' c
  | Cat r1 r2 => needs c r1 || needs c r2
  | Alt r1 r2 => needs c r1 && needs c r2
  | _ => false
  end.

End DangerousContent.

(** ** utils/sanitize: what stays in the DOM *)

Module SanitizedDom.
Import Chars RegExp Html DOMPurify Sanitize.

(** Every element of the tree has an allow-listed tag. *)
Fixpoint onlyAllowedTags (n : Node) : bool :=
  match n with
  | Text _ => true
  | Comment _ => true
  | Elem tag _ kids =>
    inb (lowerString tag) ALLOWED_TAGS && forallb onlyAllowedTags kids
  end.

(** An editor-tracking attribute: its name starts with [data-]. *)
Definition isDataAttribute (name : string) : bool :=
  startsWith "data-" (lowerString name).

Fixpoint noDataAttributes (n : Node) : bool :=
  match n with
  | Text _ => true
  | Comment _ => true
  | Elem _ attrs kids =>
    forallb (fun a => negb (isDataAttribute (fst a))) attrs
    && forallb noDataAttributes kids
  end.

End SanitizedDom.

(** ** The link popover: [LinkPopover] *)

Module LinkPopover.
Import Chars RegExp.

(** [/^https?:\/\//i] *)
Definition HTTP : RegExp.RegExp :=
  {| anchored := true;
     pattern := Seq [Str "http"; Opt (Chr "s"); Str "://"];
     ignoreCase := true |}.

(** [handleSubmit] of the form, [url] being the text of the input: the
    argument [onSubmit] is called with, [None] when it is not called. *)
Definition handleSubmit (url : string) : option string :=
  if Editor.falsy (trim url) then None
  else
    let finalUrl := trim url in
    (* Add https:// if no protocol specified *)
    let finalUrl :=
      if negb (test HTTP finalUrl) && negb (startsWith "mailto:" finalUrl)
      then String.append "https://" finalUrl
      else finalUrl in
    Some finalUrl.

End LinkPopover.

(** ** The colour readers: [getCurrentTextColor], [getCurrentBackgroundColor]

    Numbers are integers here: a run of digits denotes its value exactly
    (the double a run of more than fifteen digits rounds to is outside the
    embedding); [None] stands for [undefined] where a variable is read and
    for [NaN] where a number is. *)

Module Colors.
Import Chars RegExp TextFormatting.

(** [/\d+/g] *)
Definition DIGITS : RegExp.RegExp :=
  {| anchored := false;
     pattern := Plus (Class false [(48, 57)]%nat);
     ignoreCase := false |}.

(** [s.match(re)] for a regular expression with the [g] flag: every match,
    found left to right; after an empty match the scan moves on by one
    character. *)
Fixpoint matchAllFrom (re : RegExp.RegExp) (fuel : nat) (s : string)
  : list string :=
  match fuel with
  | O => []
  | S fuel' =>
    let onward :=
      match s with
      | EmptyString => []
      | String _ s' => matchAllFrom re fuel' s'
      end in
    match exec re s with
    | Some rest =>
      let n := (String.length s - rest)%nat in
      substring 0 n s
        :: (if (0 <? n)%nat then matchAllFrom re fuel' (skip n s) else onward)
    | None => onward
    end
  end.

(** [null] when there is no match. *)
Definition matchAll (re : RegExp.RegExp) (s : string) : option (list string) :=
  match matchAllFrom re (S (String.length s)) s with
  | [] => None
  | l => Some l
  end.

(** [Number(digits)] for a run of decimal digits. *)
Definition Number (digits : string) : Z := digitsValue 10 0 digits.

(** [ToInt32]; [undefined] and [NaN] convert to 0. *)
Definition ToInt32 (x : option Z) : Z :=
  match x with
  | None => 0
  | Some n =>
    let m := n mod 2 ^ 32 in
    if m <? 2 ^ 31 then m else m - 2 ^ 32
  end.

(** [x << n] *)
Definition shl (x : option Z) (n : Z) : option Z :=
  Some (ToInt32 (Some (Z.shiftl (ToInt32 x) (n mod 32)))).

(** [x + y] on numbers; anything plus [undefined] is [NaN]. *)
Definition add (x y : option Z) : option Z :=
  match x, y with
  | Some a, Some b => Some (a + b)
  | _, _ => None
  end.

Definition hexDigit (d : Z) : ascii :=
  ascii_of_nat (Z.to_nat (if d <? 10 then 48 + d else 87 + d)).

(** The digits of [n] in radix 16, most significant first, in front of
    [acc]; a number has no more hexadecimal digits than bits. *)
Fixpoint digits16 (fuel : nat) (n : Z) (acc : string) : string :=
  match fuel with
  | O => acc
  | S fuel' =>
    let acc' := String (hexDigit (n mod 16)) acc in
    if n <? 16 then acc' else digits16 fuel' (n / 16) acc'
  end.

(** [x.toString(16)] *)
Definition toString16 (x : option Z) : string :=
  match x with
  | None => "NaN"
  | Some n =>
    if n <? 0 then String "-" (digits16 (S (Z.to_nat (Z.log2 (- n)))) (- n) EmptyString)
    else digits16 (S (Z.to_nat (Z.log2 n))) n EmptyString
  end.

(** [`#${((1 << 24) + (r << 16) + (g << 8) + b).toString(16).slice(1)}`]
    with [const [r, g, b] = match.map(Number)]. *)
Definition hexOfMatch (match_ : list string) : string :=
  let numbers := map Number match_ in
  let r := numbers !! 0%nat in
  let g := numbers !! 1%nat in
  let b := numbers !! 2%nat in
  String "#"
    (skip 1 (toString16 (add (add (add (shl (Some 1) 24) (shl r 16)) (shl g 8)) b))).

(** Convert RGB to hex if needed: the body shared by the two readers,
    [color] being what [document.queryCommandValue] returned. *)
Definition toHexIfNeeded (color : string) : string :=
  if startsWith "rgb" color then
    match matchAll DIGITS color with
    | Some match_ => hexOfMatch match_
    | None => color      (* [return color || ''] *)
    end
  else color.

Definition getCurrentTextColor (queryCommandValue : string -> string) : string :=
  toHexIfNeeded (queryCommandValue "foreColor").

Definition getCurrentBackgroundColor (queryCommandValue : string -> string)
  : string :=
  toHexIfNeeded (queryCommandValue "backColor").

(** Two hexadecimal digits for a colour channel. *)
Definition hex2 (channel : Z) : string :=
  String (hexDigit (channel / 16)) (String (hexDigit (channel mod 16)) EmptyString).

End Colors.

(** ** Text alignment: [setAlignment] *)

Module Alignment.
Import Chars TextFormatting.

(** [type Alignment = 'left' | 'center' | 'right' | 'justify'] *)
Definition Alignment : list string := ["left"; "center"; "right"; "justify"]%string.

(** [s.charAt(0).toUpperCase() + s.slice(1)] *)
Definition capitalize (s : string) : string :=
  match s with
  | EmptyString => EmptyString
  | String c rest => String (upper c) rest
  end.

(** ['justify' + alignment.charAt(0).toUpperCase() + alignment.slice(1)] *)
Definition alignmentCommand (alignment : string) : string :=
  String.append "justify" (capitalize alignment).

(** [execCommand(command, false)] has no value argument: the empty string
    stands for it. *)
Definition setAlignment (p : Page) (alignment : string) : Outcome :=
  let focused :=
    if editorMounted p && negb (editorIsActive p) then emit Focus []
    else Returned [] in
  andThen focused (fun l =>
  andThen (emit (ExecCommand (alignmentCommand alignment) EmptyString) l)
          (emit OnContentChange)).

(** The alignment commands [document.execCommand] knows (the browser's
    list, not the repository's). *)
Definition JUSTIFY_COMMANDS : list string :=
  ["justifyCenter"; "justifyFull"; "justifyLeft"; "justifyRight"]%string.

End Alignment.

(** ** The editor component: content in, content out

    The refs and state of [WysiwygEditor] that carry content between the
    page, the history and the host, and the callbacks that touch them.  The
    browser is a parameter: [reserialize s] is what [innerHTML] reads back
    after [innerHTML = s]. *)

Module WysiwygEditor.
Import Chars History Sanitize DangerousContent.

(** [useHistory(html, { maxHistory: 50, debounceMs: 500 })] *)
Definition historyOptions : UseHistoryOptions :=
  {| maxHistory := 50; debounceMs := 500 |}.

Record Editor := mkEditor {
  mounted : bool;              (* editorRef.current is not null *)
  innerHTML : string;          (* editorRef.current.innerHTML *)
  isInternalChange : bool;
  isHistoryChange : bool;
  debounceTimer : option Z;    (* the instant the pending emit timer is due *)
  history : History;
  showWarning : bool;
  warningTimers : list Z;      (* the instants the banner is to be hidden *)
  onChange : list string       (* the calls of the [onChange] prop, oldest first *)
}.

(** The first render with the prop [html], the editor's [div] in place. *)
Definition mount (html : string) : Editor :=
  {| mounted := true; innerHTML := EmptyString;
     isInternalChange := false; isHistoryChange := false;
     debounceTimer := None; history := useHistory html;
     showWarning := false; warningTimers := []; onChange := [] |}.

Section Component.
Variable reserialize : string -> string.
(** The component's [debounceMs] prop. *)
Variable debounceMs : Z.

(** The browser rewrites the editable content (typing, a format command, a
    block moved by drag and drop). *)
Definition edit (content : string) (e : Editor) : Editor :=
  {| mounted := mounted e; innerHTML := content;
     isInternalChange := isInternalChange e; isHistoryChange := isHistoryChange e;
     debounceTimer := debounceTimer e; history := history e;
     showWarning := showWarning e; warningTimers := warningTimers e;
     onChange := onChange e |}.

(** [emitChange] called at instant [now]: the pending timer is cleared and a
    new one armed. *)
Definition emitChange (now : Z) (e : Editor) : Editor :=
  {| mounted := mounted e; innerHTML := innerHTML e;
     isInternalChange := isInternalChange e; isHistoryChange := isHistoryChange e;
     debounceTimer := Some (now + debounceMs); history := history e;
     showWarning := showWarning e; warningTimers := warningTimers e;
     onChange := onChange e |}.

(** The callback of [emitChange]'s timer, run at instant [now]. *)
Definition emitCallback (now : Z) (e : Editor) : Editor :=
  if mounted e then
    let rawHtml := innerHTML e in
    let cleanHtml := sanitizeForOutput rawHtml in
    {| mounted := mounted e; innerHTML := innerHTML e;
       isInternalChange := true; isHistoryChange := false;
       debounceTimer := None;
       history :=
         if negb (isHistoryChange e)
         then pushToHistory historyOptions now cleanHtml (history e)
         else history e;
       showWarning := showWarning e; warningTimers := warningTimers e;
       onChange := onChange e ++ [cleanHtml] |}
  else
    {| mounted := mounted e; innerHTML := innerHTML e;
       isInternalChange := isInternalChange e;
       isHistoryChange := isHistoryChange e;
       debounceTimer := None; history := history e;
       showWarning := showWarning e; warningTimers := warningTimers e;
       onChange := onChange e |}.

(** [handleUndo] and [handleRedo]: [step] is the hook's [undo] or [redo]. *)
Definition handleHistory (step : History -> option string * History)
  (e : Editor) : Editor :=
  match step (history e) with
  | (Some html, h) =>
    if mounted e then
      {| mounted := mounted e; innerHTML := reserialize (sanitizeHtml html);
         isInternalChange := true; isHistoryChange := true;
         debounceTimer := debounceTimer e; history := h;
         showWarning := showWarning e; warningTimers := warningTimers e;
         onChange := onChange e ++ [html] |}
    else
      {| mounted := mounted e; innerHTML := innerHTML e;
         isInternalChange := isInternalChange e;
         isHistoryChange := isHistoryChange e;
         debounceTimer := debounceTimer e; history := h;
         showWarning := showWarning e; warningTimers := warningTimers e;
         onChange := onChange e |}
  | (None, h) =>
    {| mounted := mounted e; innerHTML := innerHTML e;
       isInternalChange := isInternalChange e;
       isHistoryChange := isHistoryChange e;
       debounceTimer := debounceTimer e; history := h;
       showWarning := showWarning e; warningTimers := warningTimers e;
       onChange := onChange e |}
  end.

Definition handleUndo : Editor -> Editor := handleHistory undo.
Definition handleRedo : Editor -> Editor := handleHistory redo.

(** The effect on [[html]], run at instant [now] with the value of the
    prop: "Sanitize and initialize editor content". *)
Definition syncHtml (now : Z) (html : string) (e : Editor) : Editor :=
  if mounted e && negb (isInternalChange e) then
    let warn := containsDangerousContent html in
    let sanitized := sanitizeHtml html in
    {| mounted := mounted e;
       innerHTML :=
         if negb (String.eqb (innerHTML e) sanitized) then reserialize sanitized
         else innerHTML e;
       isInternalChange := false; isHistoryChange := isHistoryChange e;
       debounceTimer := debounceTimer e; history := history e;
       showWarning := if warn then true else showWarning e;
       warningTimers :=
         if warn then warningTimers e ++ [now + 3000] else warningTimers e;
       onChange := onChange e |}
  else
    {| mounted := mounted e; innerHTML := innerHTML e;
       isInternalChange := false; isHistoryChange := isHistoryChange e;
       debounceTimer := debounceTimer e; history := history e;
       showWarning := showWarning e; warningTimers := warningTimers e;
       onChange := onChange e |}.

(** The hook's own timer runs. *)
Definition historyTimer (e : Editor) : Editor :=
  {| mounted := mounted e; innerHTML := innerHTML e;
     isInternalChange := isInternalChange e; isHistoryChange := isHistoryChange e;
     debounceTimer := debounceTimer e; history := fire historyOptions (history e);
     showWarning := showWarning e; warningTimers := warningTimers e;
     onChange := onChange e |}.

(** The banner's timer runs. *)
Definition hideWarning (e : Editor) : Editor :=
  {| mounted := mounted e; innerHTML := innerHTML e;
     isInternalChange := isInternalChange e; isHistoryChange := isHistoryChange e;
     debounceTimer := debounceTimer e; history := history e;
     showWarning := false; warningTimers := tail (warningTimers e);
     onChange := onChange e |}.

(** What can happen to a mounted editor, one event at a time; timers run at
    or after the instant they are due, in any order. *)
Inductive step : Editor -> Editor -> Prop :=
| step_edit content now e :
    step e (emitChange now (edit content e))
| step_emit due now e :
    debounceTimer e = Some due -> due <= now ->
    step e (emitCallback now e)
| step_history e :
    step e (historyTimer e)
| step_undo e :
    step e (handleUndo e)
| step_redo e :
    step e (handleRedo e)
| step_html now html e :
    step e (syncHtml now html e)
| step_hide e :
    warningTimers e <> [] ->
    step e (hideWarning e).

Inductive reachable (html : string) : Editor -> Prop :=
| reachable_mount : reachable html (mount html)
| reachable_step e e' : reachable html e -> step e e' -> reachable html e'.

(** What the host may be handed: the markup it gave the editor at first, or
    an output of [sanitizeForOutput]. *)
Definition fromHostOrSanitized (html value : string) : Prop :=
  value = html \/ exists raw, value = sanitizeForOutput raw.

End Component.

(** Every value the hook holds for later satisfies [P]. *)
Definition holds (P : string -> Prop) (h : History) : Prop :=
  Forall P (undoStack h) /\ Forall P (redoStack h) /\ P (lastPushedValue h) /\
  forall tm, History.debounceTimer h = Some tm -> P (captured tm).

End WysiwygEditor.

(** * Properties *)

(** ** Arrays *)

Module JsArrayFacts.
Import JsArray.

Lemma pop_push {A} (l : list A) (x : A) : pop (push l x) = (Some x, l).
Proof.
  unfold pop, push. now rewrite last_snoc, removelast_last.
Qed.

Lemma push_length {A} (l : list A) (x : A) :
  length (push l x) = S (length l).
Proof. unfold push. rewrite length_app. simpl. lia. Qed.

Lemma shift_length {A} (l : list A) : length (shift l) = Nat.pred (length l).
Proof. now destruct l. Qed.

Lemma push_not_nil {A} (l : list A) (x : A) : push l x <> [].
Proof. unfold push. destruct l; discriminate. Qed.

Lemma nonempty_is_push {A} (l : list A) :
  l <> [] -> exists l' x, l = push l' x.
Proof.
  intros Hl. destruct (exists_last Hl) as (l' & x & ->). now exists l', x.
Qed.

End JsArrayFacts.

(** ** The history manager *)

Module HistoryFacts.
Import JsArray JsArrayFacts History.

(** *** How each operation acts on a stack that ends in a known entry *)

Lemma undo_empty h : undoStack h = [] -> undo h = (None, h).
Proof. intros E. unfold undo. now rewrite E. Qed.

Lemma redo_empty h : redoStack h = [] -> redo h = (None, h).
Proof. intros E. unfold redo. now rewrite E. Qed.

Lemma undo_push h u p :
  undoStack h = push u p ->
  undo h =
  (Some p,
   updateHistoryState
     {| undoStack := u; redoStack := push (redoStack h) (lastPushedValue h);
        currentValue := p; lastPushedValue := p;
        debounceTimer := debounceTimer h; historyState := historyState h |}).
Proof.
  intros E. unfold undo. rewrite E.
  destruct (push u p) eqn:Ep; [now apply push_not_nil in Ep |].
  rewrite <- Ep, pop_push. reflexivity.
Qed.

Lemma redo_push h r n :
  redoStack h = push r n ->
  redo h =
  (Some n,
   updateHistoryState
     {| undoStack := push (undoStack h) (lastPushedValue h); redoStack := r;
        currentValue := n; lastPushedValue := n;
        debounceTimer := debounceTimer h; historyState := historyState h |}).
Proof.
  intros E. unfold redo. rewrite E.
  destruct (push r n) eqn:Ep; [now apply push_not_nil in Ep |].
  rewrite <- Ep, pop_push. reflexivity.
Qed.

Lemma settled_useHistory init : settled (useHistory init).
Proof. now split. Qed.

Lemma settled_undo h : settled h -> settled (snd (undo h)).
Proof.
  intros Hs. destruct (undoStack h) eqn:E.
  - now rewrite undo_empty.
  - assert (Hne : undoStack h <> []) by (rewrite E; discriminate).
    destruct (nonempty_is_push _ Hne) as (u & p & Hu).
    rewrite (undo_push _ _ _ Hu). now split.
Qed.

Lemma settled_redo h : settled h -> settled (snd (redo h)).
Proof.
  intros Hs. destruct (redoStack h) eqn:E.
  - now rewrite redo_empty.
  - assert (Hne : redoStack h <> []) by (rewrite E; discriminate).
    destruct (nonempty_is_push _ Hne) as (r & n & Hr).
    rewrite (redo_push _ _ _ Hr). now split.
Qed.

(** [redo] undoes an effective [undo]. *)
Lemma redo_undo h :
  settled h -> undoStack h <> [] ->
  redo (snd (undo h)) = (Some (lastPushedValue h), h).
Proof.
  intros [Hc Hs] Hne.
  destruct (nonempty_is_push _ Hne) as (u & p & Hu).
  rewrite (undo_push _ _ _ Hu). simpl.
  erewrite redo_push by reflexivity. simpl.
  f_equal. destruct h as [us rs cv lp tm hs]; simpl in *.
  subst. reflexivity.
Qed.

Lemma undo_length h :
  length (undoStack (snd (undo h))) = Nat.pred (length (undoStack h)).
Proof.
  destruct (decide (undoStack h = [])) as [E | Hne].
  - rewrite undo_empty by assumption. simpl. now rewrite E.
  - destruct (nonempty_is_push _ Hne) as (u & p & Hu).
    rewrite (undo_push _ _ _ Hu). simpl.
    rewrite Hu, push_length. reflexivity.
Qed.

(** *** Repeated undo and redo *)

Lemma undoTimes_add a b h : undoTimes (a + b) h = undoTimes b (undoTimes a h).
Proof. revert h. induction a; intros h; simpl; [reflexivity | apply IHa]. Qed.

Lemma redoTimes_add a b h : redoTimes (a + b) h = redoTimes b (redoTimes a h).
Proof. revert h. induction a; intros h; simpl; [reflexivity | apply IHa]. Qed.

Lemma redoTimes_S n h : redoTimes (S n) h = snd (redo (redoTimes n h)).
Proof.
  replace (S n) with (n + 1)%nat by lia. now rewrite redoTimes_add.
Qed.

Lemma undoTimes_empty n h : undoStack h = [] -> undoTimes n h = h.
Proof.
  intros E. induction n; simpl; [reflexivity |].
  now rewrite undo_empty.
Qed.

Lemma redoTimes_empty n h : redoStack h = [] -> redoTimes n h = h.
Proof.
  intros E. induction n; simpl; [reflexivity |].
  now rewrite redo_empty.
Qed.

Lemma undoTimes_length n h :
  length (undoStack (undoTimes n h)) = (length (undoStack h) - n)%nat.
Proof.
  revert h. induction n; intros h; simpl; [lia |].
  rewrite IHn, undo_length. lia.
Qed.

Lemma settled_undoTimes n h : settled h -> settled (undoTimes n h).
Proof.
  revert h. induction n; intros h Hs; simpl; [assumption |].
  apply IHn, settled_undo, Hs.
Qed.

(** As many redos as undos, none of them past the bottom of the stack. *)
Lemma redoTimes_undoTimes_within n h :
  settled h -> (n <= length (undoStack h))%nat ->
  redoTimes n (undoTimes n h) = h.
Proof.
  revert h. induction n; intros h Hs Hn; [reflexivity |].
  assert (Hne : undoStack h <> []) by (destruct (undoStack h); simpl in *; [lia | discriminate]).
  rewrite redoTimes_S. simpl undoTimes.
  rewrite IHn.
  - now rewrite redo_undo.
  - now apply settled_undo.
  - rewrite undo_length. lia.
Qed.

(** Past the bottom of the stack the surplus calls do nothing. *)
Lemma redoTimes_undoTimes n h :
  settled h -> redoStack h = [] ->
  redoTimes n (undoTimes n h) = h.
Proof.
  intros Hs Hr.
  destruct (le_lt_dec n (length (undoStack h))) as [Hle | Hgt].
  - now apply redoTimes_undoTimes_within.
  - set (m := length (undoStack h)).
    replace n with (m + (n - m))%nat by lia.
    rewrite undoTimes_add.
    rewrite (undoTimes_empty (n - m)).
    2:{ apply length_zero_iff_nil. rewrite undoTimes_length. lia. }
    rewrite redoTimes_add.
    rewrite redoTimes_undoTimes_within by (assumption || reflexivity).
    now apply redoTimes_empty.
Qed.

(** *** Committed records *)

Lemma recordCommitted_callback o h e :
  recordCommitted o h e =
  timerCallback o (snd e) (clearTimer (pushToHistory o (fst e) (snd e) h)).
Proof.
  unfold recordCommitted, elapse. simpl.
  rewrite Z.leb_refl. reflexivity.
Qed.

Lemma recordAll_snoc o evs e h :
  recordAll o (evs ++ [e]) h = recordCommitted o (recordAll o evs h) e.
Proof. unfold recordAll. now rewrite fold_left_app. Qed.

Lemma last_cons_default {A} (l : list A) (x d d' : A) :
  List.last (x :: l) d = List.last (x :: l) d'.
Proof.
  revert x. induction l as [| y l IH]; intros x; [reflexivity |].
  change (List.last (y :: l) d = List.last (y :: l) d'). apply IH.
Qed.

Lemma distinctChain_snoc p vs q v :
  List.last vs p = q ->
  distinctChain p (vs ++ [v]) <-> distinctChain p vs /\ v <> q.
Proof.
  revert p. induction vs as [| a vs IH]; intros p Hl; simpl in *.
  - subst. tauto.
  - assert (Hq : List.last vs a = q).
    { destruct vs; [assumption |]. rewrite <- Hl. apply last_cons_default. }
    specialize (IH a Hq). tauto.
Qed.

(** What the timer's callback does. *)
Lemma timerCallback_same o v h : v = lastPushedValue h -> timerCallback o v h = h.
Proof.
  intros E. unfold timerCallback. now destruct (decide (v = lastPushedValue h)).
Qed.

Lemma timerCallback_new o v h :
  v <> lastPushedValue h ->
  timerCallback o v h =
  updateHistoryState
    {| undoStack :=
         if maxHistory o <? Z.of_nat (length (undoStack h)) + 1
         then shift (push (undoStack h) (lastPushedValue h))
         else push (undoStack h) (lastPushedValue h);
       redoStack := [];
       currentValue := currentValue h; lastPushedValue := v;
       debounceTimer := debounceTimer h; historyState := historyState h |}.
Proof.
  intros E. unfold timerCallback.
  destruct (decide (v = lastPushedValue h)); [contradiction |].
  rewrite push_length.
  replace (Z.of_nat (S (length (undoStack h))))
    with (Z.of_nat (length (undoStack h)) + 1) by lia.
  reflexivity.
Qed.

(** The state after committed records of a distinct chain. *)
Lemma recordAll_state o init evs :
  distinctChain init (map snd evs) ->
  let h := recordAll o evs (useHistory init) in
  settled h /\ redoStack h = [] /\ debounceTimer h = None /\
  lastPushedValue h = List.last (map snd evs) init.
Proof.
  induction evs as [| e evs IH] using rev_ind; intros Hd h.
  - subst h. simpl. repeat split.
  - subst h. rewrite map_app in Hd. simpl in Hd.
    apply (distinctChain_snoc _ _ _ _ eq_refl) in Hd. destruct Hd as [Hd Hv].
    specialize (IH Hd). simpl in IH.
    destruct IH as (Hs & Hr & Ht & Hl).
    rewrite recordAll_snoc, recordCommitted_callback.
    rewrite map_app. simpl (map snd [e]). rewrite last_last.
    set (g := recordAll o evs (useHistory init)) in *.
    rewrite <- Hl in Hv.
    rewrite timerCallback_new by exact Hv.
    repeat split.
Qed.

(** Each of them pushed, up to the bound. *)
Lemma recordAll_length o init evs :
  0 <= maxHistory o ->
  distinctChain init (map snd evs) ->
  Z.of_nat (length (undoStack (recordAll o evs (useHistory init)))) =
  Z.min (Z.of_nat (length evs)) (maxHistory o).
Proof.
  intros Hmax. induction evs as [| e evs IH] using rev_ind; intros Hd.
  - simpl. lia.
  - rewrite map_app in Hd. simpl in Hd.
    apply (distinctChain_snoc _ _ _ _ eq_refl) in Hd. destruct Hd as [Hd Hv].
    specialize (IH Hd).
    destruct (recordAll_state o init evs Hd) as (_ & _ & _ & Hl).
    rewrite recordAll_snoc, recordCommitted_callback.
    set (g := recordAll o evs (useHistory init)) in *.
    rewrite <- Hl in Hv.
    rewrite timerCallback_new by exact Hv.
    cbn [clearTimer pushToHistory updateHistoryState undoStack redoStack
         currentValue lastPushedValue debounceTimer historyState].
    rewrite length_app. simpl (length [e]).
    destruct (Z.ltb_spec (maxHistory o) (Z.of_nat (length (undoStack g)) + 1)).
    + rewrite shift_length, push_length. simpl. lia.
    + rewrite push_length. lia.
Qed.

(** *** Debounce *)

Lemma pushToHistory_twice o t1 v1 t2 v2 h :
  pushToHistory o t2 v2 (pushToHistory o t1 v1 h) = pushToHistory o t2 v2 h.
Proof. reflexivity. Qed.

Lemma elapse_early o t v now h :
  now < t + debounceMs o ->
  elapse o now (pushToHistory o t v h) = pushToHistory o t v h.
Proof.
  intros Hlt. unfold elapse. simpl.
  destruct (Z.leb_spec (t + debounceMs o) now); [lia | reflexivity].
Qed.

Lemma elapse_due o t v now h :
  t + debounceMs o <= now ->
  elapse o now (pushToHistory o t v h) =
  timerCallback o v (clearTimer (pushToHistory o t v h)).
Proof.
  intros Hle. unfold elapse. simpl.
  destruct (Z.leb_spec (t + debounceMs o) now); [reflexivity | lia].
Qed.

(** A burst leaves exactly what its last call alone would have left. *)
Lemma burst_last o h first rest :
  rapid o (fst first) rest ->
  burst o h first rest =
  pushToHistory o (fst (List.last rest first)) (snd (List.last rest first)) h.
Proof.
  revert first. induction rest as [| c rest IH]; intros first Hr.
  - reflexivity.
  - destruct Hr as (Hle & Hlt & Hr).
    unfold burst. simpl fold_left.
    rewrite elapse_early by exact Hlt.
    rewrite pushToHistory_twice.
    change (burst o h c rest =
            pushToHistory o (fst (List.last (c :: rest) first))
              (snd (List.last (c :: rest) first)) h).
    rewrite (last_cons_default rest c first c).
    rewrite IH by exact Hr.
    destruct rest; reflexivity.
Qed.

(** *** The bound on the stacks *)

Lemma bounded_timerCallback o v h :
  bounded o h -> bounded o (timerCallback o v h).
Proof.
  unfold bounded. intros Hb.
  destruct (decide (v = lastPushedValue h)) as [E | E].
  - now rewrite timerCallback_same.
  - rewrite timerCallback_new by exact E. simpl.
    destruct (Z.ltb_spec (maxHistory o) (Z.of_nat (length (undoStack h)) + 1)).
    + rewrite shift_length, push_length. simpl. lia.
    + rewrite push_length. lia.
Qed.

Lemma bounded_fire o h : bounded o h -> bounded o (fire o h).
Proof.
  intros Hb. unfold fire. destruct (debounceTimer h); [| exact Hb].
  apply bounded_timerCallback. exact Hb.
Qed.

Lemma bounded_elapse o now h : bounded o h -> bounded o (elapse o now h).
Proof.
  intros Hb. unfold elapse. destruct (debounceTimer h) as [tm |] eqn:E; [| exact Hb].
  destruct (due tm <=? now); [| exact Hb]. now apply bounded_fire.
Qed.

Lemma bounded_undo o h : bounded o h -> bounded o (snd (undo h)).
Proof.
  unfold bounded. intros Hb.
  destruct (decide (undoStack h = [])) as [E | Hne].
  - now rewrite undo_empty.
  - destruct (nonempty_is_push _ Hne) as (u & p & Hu).
    rewrite (undo_push _ _ _ Hu). simpl.
    rewrite Hu, push_length in Hb. rewrite push_length. lia.
Qed.

Lemma bounded_redo o h : bounded o h -> bounded o (snd (redo h)).
Proof.
  unfold bounded. intros Hb.
  destruct (decide (redoStack h = [])) as [E | Hne].
  - now rewrite redo_empty.
  - destruct (nonempty_is_push _ Hne) as (r & n & Hr).
    rewrite (redo_push _ _ _ Hr). simpl.
    rewrite Hr, push_length in Hb. rewrite push_length. lia.
Qed.

Lemma bounded_step o h e : 0 <= maxHistory o -> bounded o h -> bounded o (step o h e).
Proof.
  intros Hmax Hb. unfold step.
  pose proof (bounded_elapse o (fst e) h Hb) as Hb'.
  destruct (snd e); simpl.
  - exact Hb'.
  - now apply bounded_undo.
  - now apply bounded_redo.
  - unfold bounded. simpl. exact Hmax.
Qed.

Lemma bounded_run o evs h : 0 <= maxHistory o -> bounded o h -> bounded o (run o evs h).
Proof.
  intros Hmax. revert h. induction evs as [| e evs IH]; intros h Hb; simpl.
  - exact Hb.
  - apply IH. now apply bounded_step.
Qed.

(** C4 -- History bound.  Whatever calls are made into the hook, at whatever
    instants (records committed or still pending, undo and redo in any
    order), the undo stack never holds more than [maxHistory] entries, also
    after a pending timer has run; [redo] pushes without a check of its own,
    but what it pushes was popped from the undo stack before.  A commit that
    would go past the bound pushes and then drops index 0, the oldest
    entry.  [maxHistory] is a count: the bound is stated for
    [0 <= maxHistory]. *)
Theorem history_bound o init evs :
  0 <= maxHistory o ->
  let h := run o evs (useHistory init) in
  Z.of_nat (length (undoStack h)) <= maxHistory o /\
  (forall now, Z.of_nat (length (undoStack (elapse o now h))) <= maxHistory o) /\
  (forall v, v <> lastPushedValue h ->
     maxHistory o < Z.of_nat (length (undoStack h)) + 1 ->
     undoStack (timerCallback o v h) =
     shift (push (undoStack h) (lastPushedValue h))).
Proof.
  intros Hmax h.
  assert (Hb : bounded o h).
  { apply bounded_run; [exact Hmax |]. unfold bounded. simpl. exact Hmax. }
  split; [| split].
  - unfold bounded in Hb. lia.
  - intros now. pose proof (bounded_elapse o now h Hb) as Hb'.
    unfold bounded in Hb'. lia.
  - intros v Hv Hfull. rewrite timerCallback_new by exact Hv. simpl.
    destruct (Z.ltb_spec (maxHistory o) (Z.of_nat (length (undoStack h)) + 1));
      [reflexivity | lia].
Qed.

(** The default options, three committed records, two undos, a redo and a
    fourth record that is still pending. *)
Lemma history_bound_witness :
  let evs := [(0, PushToHistory "a"); (600, PushToHistory "ab");
              (1200, PushToHistory "abc"); (1800, Undo); (1900, Undo);
              (2000, Redo); (2100, PushToHistory "abd")]%string in
  let h := run defaultOptions evs (useHistory "") in
  0 <= maxHistory defaultOptions /\
  Z.of_nat (length (undoStack h)) <= maxHistory defaultOptions.
Proof.
  intros evs h.
  assert (Hmax : 0 <= maxHistory defaultOptions) by discriminate.
  split; [exact Hmax |].
  destruct (history_bound defaultOptions "" evs Hmax) as [Hb _].
  exact Hb.
Defined.

(** C3 (amended) -- Undo/redo inverse law.  After [k] committed records
    [v1 .. vk], each distinct from the value committed before it, [k - 1]
    calls of [undo] followed by [k - 1] calls of [redo] restore the hook's
    state, whose committed and latest value are [vk]; the last of those
    [redo] calls returns [vk] when [2 <= k <= maxHistory + 1], that is, when
    the bounded undo stack still held the [k - 1] entries to go back over. *)
Theorem undo_redo_inverse o init evs t vk :
  distinctChain init (map snd evs ++ [vk]) ->
  let k := S (length evs) in
  let h := recordAll o (evs ++ [(t, vk)]) (useHistory init) in
  let back := undoTimes (k - 1) h in
  lastPushedValue h = vk /\
  redoTimes (k - 1) back = h /\
  lastPushedValue (redoTimes (k - 1) back) = vk /\
  currentValue (redoTimes (k - 1) back) = vk /\
  ((2 <= k)%nat -> Z.of_nat k <= maxHistory o + 1 ->
   fst (redo (redoTimes (k - 2) back)) = Some vk).
Proof.
  intros Hd k h back.
  assert (Hd' : distinctChain init (map snd (evs ++ [(t, vk)])))
    by (now rewrite map_app).
  destruct (recordAll_state o init _ Hd') as (Hs & Hr & _ & Hl).
  fold h in Hs, Hr, Hl.
  rewrite map_app in Hl. simpl in Hl. rewrite last_last in Hl.
  assert (Hround : redoTimes (k - 1) back = h)
    by (now apply redoTimes_undoTimes).
  split; [exact Hl |]. split; [exact Hround |].
  rewrite Hround. split; [exact Hl |]. split.
  { destruct Hs as [Hc _]. now rewrite Hc. }
  intros Hk Hfit.
  assert (Hmax : 0 <= maxHistory o) by (subst k; lia).
  pose proof (recordAll_length o init _ Hmax Hd') as Hlen. fold h in Hlen.
  rewrite length_app in Hlen. simpl in Hlen.
  assert (Hdeep : (k - 1 <= length (undoStack h))%nat) by (subst k; lia).
  assert (Hne : undoStack h <> []).
  { destruct (undoStack h); [simpl in Hdeep; lia | discriminate]. }
  subst back. replace (k - 1)%nat with (S (k - 2)) by lia.
  simpl undoTimes.
  rewrite redoTimes_undoTimes_within.
  - rewrite redo_undo by assumption. simpl. now rewrite Hl.
  - now apply settled_undo.
  - rewrite undo_length. lia.
Qed.

(** Three records under the default options. *)
Lemma undo_redo_inverse_witness :
  let evs := [(0, "a"); (600, "ab")]%string in
  let h := recordAll defaultOptions (evs ++ [(1200, "abc"%string)]) (useHistory "") in
  distinctChain "" (map snd evs ++ ["abc"%string]) /\
  redoTimes 2 (undoTimes 2 h) = h /\
  fst (redo (redoTimes 1 (undoTimes 2 h))) = Some "abc"%string.
Proof.
  intros evs h.
  assert (Hd : distinctChain "" (map snd evs ++ ["abc"%string]))
    by (simpl; repeat split; discriminate).
  split; [assumption |].
  destruct (undo_redo_inverse defaultOptions "" evs 1200 "abc"%string Hd)
    as (_ & Hround & _ & _ & Hlast).
  split; [exact Hround |].
  apply Hlast; simpl; lia.
Defined.

(** C3, as stated, fails past the bound: under the default options
    ([maxHistory = 50]) and after 52 committed, pairwise distinct records,
    51 undos and 51 redos do restore the committed value, but the 51st
    [redo] has nothing left to redo and returns null, not [v52]. *)
Lemma undo_redo_last_redo_null :
  let h := recordAll defaultOptions (typed 52) (useHistory "") in
  distinctChain "" (map snd (typed 52)) /\
  lastPushedValue h = xs 52 /\
  lastPushedValue (redoTimes 51 (undoTimes 51 h)) = xs 52 /\
  fst (redo (redoTimes 50 (undoTimes 51 h))) = None /\
  fst (redo (redoTimes 50 (undoTimes 51 h))) <> Some (xs 52).
Proof.
  intros h.
  split.
  { vm_compute. repeat split; discriminate. }
  split; [vm_compute; reflexivity |].
  split; [vm_compute; reflexivity |].
  assert (E : fst (redo (redoTimes 50 (undoTimes 51 h))) = None)
    by (vm_compute; reflexivity).
  split; [exact E | rewrite E; discriminate].
Qed.

(** C5 -- Debounce coalescing.  [N >= 1] calls of [pushToHistory], each less
    than the debounce interval after the one before: while the burst lasts
    nothing is pushed (the stacks and the committed value are those from
    before the burst); once the clock passes the last call's due instant the
    timer has run once and none is pending; if the burst's last value is the
    committed one nothing was pushed at all, otherwise exactly the value
    committed before the burst was pushed on the undo stack (subject to the
    bound), the redo stack is empty and the last value is committed.  No
    value of the burst is ever pushed. *)
Theorem debounce_coalescing o h first rest now :
  rapid o (fst first) rest ->
  fst (List.last rest first) + debounceMs o <= now ->
  let final := snd (List.last rest first) in
  let during := burst o h first rest in
  let done := elapse o now during in
  (undoStack during = undoStack h /\ redoStack during = redoStack h /\
   lastPushedValue during = lastPushedValue h) /\
  debounceTimer done = None /\
  (final = lastPushedValue h ->
   undoStack done = undoStack h /\ redoStack done = redoStack h /\
   lastPushedValue done = lastPushedValue h) /\
  (final <> lastPushedValue h ->
   undoStack done =
     (if maxHistory o <? Z.of_nat (length (undoStack h)) + 1
      then shift (push (undoStack h) (lastPushedValue h))
      else push (undoStack h) (lastPushedValue h)) /\
   redoStack done = [] /\
   lastPushedValue done = final).
Proof.
  intros Hr Hnow final during done.
  subst done during. rewrite (burst_last o h first rest Hr).
  split; [repeat split |].
  rewrite elapse_due by exact Hnow.
  fold final.
  destruct (decide (final = lastPushedValue h)) as [E | E].
  - rewrite timerCallback_same by exact E. simpl.
    split; [reflexivity |]. split; [intros _; repeat split | contradiction].
  - rewrite timerCallback_new by exact E. simpl.
    split; [reflexivity |]. split; [contradiction | intros _; repeat split].
Qed.

(** Three keystrokes 100 ms apart on top of one committed edit. *)
Lemma debounce_coalescing_witness :
  let h := recordAll defaultOptions [(0, "a"%string)] (useHistory "") in
  let first := (1000, "ab"%string) in
  let rest := [(1100, "abc"%string); (1200, "abcd"%string)] in
  (rapid defaultOptions (fst first) rest /\
   fst (List.last rest first) + debounceMs defaultOptions <= 1700) /\
  undoStack (elapse defaultOptions 1700 (burst defaultOptions h first rest))
  = [EmptyString; "a"%string].
Proof.
  intros h first rest.
  assert (Hr : rapid defaultOptions (fst first) rest)
    by (simpl; repeat split; discriminate || reflexivity).
  assert (Hn : fst (List.last rest first) + debounceMs defaultOptions <= 1700)
    by discriminate.
  split; [split; assumption |].
  destruct (debounce_coalescing defaultOptions h first rest 1700 Hr Hn)
    as (_ & _ & _ & Hpush).
  destruct Hpush as (Hu & _ & _); [discriminate |].
  exact Hu.
Defined.

(** C6 (amended) -- Redo cleared on new edit.  When the timer of a record
    is allowed to run and the record's value differs from the value the
    history points at, the redo stack is empty right after, and [redo] then
    returns null and changes nothing.  [h] is any state of the hook, in
    particular the one [undo] has just left. *)
Theorem redo_cleared_on_new_edit o h t v :
  v <> lastPushedValue h ->
  let h' := recordCommitted o h (t, v) in
  redoStack h' = [] /\ redo h' = (None, h').
Proof.
  intros Hv h'.
  assert (E : redoStack h' = []).
  { subst h'. rewrite recordCommitted_callback.
    rewrite timerCallback_new by exact Hv. reflexivity. }
  split; [exact E | now apply redo_empty].
Qed.

(** Two edits, an undo, then a new edit: nothing to redo. *)
Lemma redo_cleared_on_new_edit_witness :
  let h0 := recordAll defaultOptions [(0, "a"); (600, "ab")]%string (useHistory "") in
  let h := snd (undo h0) in
  ("ac"%string <> lastPushedValue h /\ redoStack h = ["ab"%string]) /\
  fst (redo (recordCommitted defaultOptions h (1200, "ac"%string))) = None.
Proof.
  intros h0 h.
  assert (Hv : "ac"%string <> lastPushedValue h) by (vm_compute; discriminate).
  split; [split; [exact Hv | reflexivity] |].
  destruct (redo_cleared_on_new_edit defaultOptions h 1200 "ac"%string Hv)
    as [_ Hredo].
  now rewrite Hredo.
Defined.

(** C6, as stated, fails for a record of the value the history already
    points at: two edits and an undo leave [ab] to redo; a record of [a],
    the committed value, has its timer run, the callback returns at its
    first test, and the redo stack still holds [ab], which [redo] returns. *)
Lemma redo_kept_by_repeated_record :
  let h0 := recordAll defaultOptions [(0, "a"); (600, "ab")]%string (useHistory "") in
  let h := snd (undo h0) in
  let h' := recordCommitted defaultOptions h (1200, "a"%string) in
  (lastPushedValue h = "a"%string /\ debounceTimer h' = None) /\
  redoStack h' = ["ab"%string] /\
  fst (redo h') = Some "ab"%string.
Proof. repeat split; reflexivity. Qed.

End HistoryFacts.

(** ** The drag-reorder engine *)

Module DragAndDropFacts.
Import DragAndDrop.

Section WithNumbers.
Context `{JsNumber}.

(** The loop, one candidate at a time. *)
Lemma dropLoop_candidates rect y blocks dragged acc :
  dropLoop rect y blocks dragged acc =
  dropLoop rect y (candidates blocks dragged) dragged acc.
Proof.
  revert acc. induction blocks as [| b blocks IH]; intros acc; [reflexivity |].
  simpl. destruct (b =? dragged)%nat eqn:E; simpl.
  - apply IH.
  - rewrite E. destruct (num_lt y _); [reflexivity | apply IH].
Qed.

Lemma candidates_not_dragged blocks dragged b :
  In b (candidates blocks dragged) -> b <> dragged.
Proof.
  unfold candidates. rewrite filter_In. intros [_ Hb] ->.
  now rewrite Nat.eqb_refl in Hb.
Qed.

Lemma dropLoop_before rect y pre k post dragged acc :
  (forall b, In b (pre ++ k :: post) -> b <> dragged) ->
  (forall b, In b pre -> above rect y b = false) ->
  above rect y k = true ->
  dropLoop rect y (pre ++ k :: post) dragged acc = dropBefore rect k.
Proof.
  revert acc. induction pre as [| b pre IH]; intros acc Hnd Hpre Hk; simpl.
  - assert (E : (k =? dragged)%nat = false)
      by (apply Nat.eqb_neq, Hnd; now left).
    rewrite E. unfold above, midpoint in Hk. now rewrite Hk.
  - assert (E : (b =? dragged)%nat = false)
      by (apply Nat.eqb_neq, Hnd; now left).
    rewrite E.
    assert (Hb : above rect y b = false) by (apply Hpre; now left).
    unfold above, midpoint in Hb. rewrite Hb.
    apply IH; [| | exact Hk].
    + intros b' Hin. apply Hnd. now right.
    + intros b' Hin. apply Hpre. now right.
Qed.

Lemma dropLoop_after rect y pre l dragged acc :
  (forall b, In b (pre ++ [l]) -> b <> dragged) ->
  (forall b, In b (pre ++ [l]) -> above rect y b = false) ->
  dropLoop rect y (pre ++ [l]) dragged acc = dropAfter rect l.
Proof.
  revert acc. induction pre as [| b pre IH]; intros acc Hnd Hall; simpl.
  - assert (E : (l =? dragged)%nat = false)
      by (apply Nat.eqb_neq, Hnd; now left).
    rewrite E.
    assert (Hl : above rect y l = false) by (apply Hall; now left).
    unfold above, midpoint in Hl. now rewrite Hl.
  - assert (E : (b =? dragged)%nat = false)
      by (apply Nat.eqb_neq, Hnd; now left).
    rewrite E.
    assert (Hb : above rect y b = false) by (apply Hall; now left).
    unfold above, midpoint in Hb. rewrite Hb.
    apply IH.
    + intros b' Hin. apply Hnd. now right.
    + intros b' Hin. apply Hall. now right.
Qed.

(** The loop computes the resolution as the specification words it. *)
Lemma dropLoop_resolve rect y cs dragged acc :
  (forall b, In b cs -> b <> dragged) ->
  dropLoop rect y cs dragged acc =
  match find (fun b => num_lt y (midpoint rect b)) cs with
  | Some k => dropBefore rect k
  | None =>
    match last cs with
    | Some l => dropAfter rect l
    | None => acc
    end
  end.
Proof.
  revert acc. induction cs as [| b cs IH]; intros acc Hnd; [reflexivity |].
  simpl dropLoop. simpl find.
  assert (E : (b =? dragged)%nat = false)
    by (apply Nat.eqb_neq, Hnd; now left).
  rewrite E. fold (midpoint rect b).
  destruct (num_lt y (midpoint rect b)); [reflexivity |].
  rewrite IH by (intros b' Hin; apply Hnd; now right).
  destruct (find _ cs); [reflexivity |].
  rewrite last_cons. destruct (last cs); reflexivity.
Qed.

Lemma calculateDropPosition_resolveDrop rect y blocks dragged :
  calculateDropPosition rect y blocks dragged = resolveDrop rect y blocks dragged.
Proof.
  unfold calculateDropPosition, resolveDrop.
  rewrite dropLoop_candidates.
  apply dropLoop_resolve.
  intros b. apply candidates_not_dragged.
Qed.

(** C7 -- Drop-target resolution.  For every list of blocks in document
    order, every layout, dragged element and pointer [y]: the dragged element
    is no candidate; the result is the first candidate whose midpoint
    [top + height / 2] is below the pointer ([y < midpoint]), with position
    [before] and the indicator at its [top]; when [y < midpoint] holds for no
    candidate, the last candidate, with position [after] and the indicator at
    its [bottom]; and null target, position and indicator when there is no
    candidate.  In all, the loop is the resolution the specification
    describes. *)
Theorem drop_target_resolution (rect : HTMLElement -> DOMRect) (y : number)
  (blocks : list HTMLElement) (dragged : HTMLElement) :
  let cs := candidates blocks dragged in
  let r := calculateDropPosition rect y blocks dragged in
  r = resolveDrop rect y blocks dragged /\
  resTarget r <> Some dragged /\
  (forall pre k post,
     cs = pre ++ k :: post ->
     (forall b, In b pre -> above rect y b = false) ->
     above rect y k = true ->
     r = dropBefore rect k) /\
  (forall pre l,
     cs = pre ++ [l] ->
     (forall b, In b cs -> above rect y b = false) ->
     r = dropAfter rect l) /\
  (cs = [] -> r = noDrop).
Proof.
  intros cs r.
  assert (Hnd : forall b, In b cs -> b <> dragged)
    by (intros b; apply candidates_not_dragged).
  assert (Hr : r = dropLoop rect y cs dragged noDrop)
    by (subst r cs; unfold calculateDropPosition; apply dropLoop_candidates).
  split; [apply calculateDropPosition_resolveDrop |].
  split; [| split; [| split]].
  - rewrite Hr, dropLoop_resolve by exact Hnd.
    destruct (find _ cs) as [k |] eqn:Ef.
    + apply find_some in Ef. destruct Ef as [Hin _]. simpl.
      intros [= ->]. now apply (Hnd dragged).
    + destruct (last cs) as [l |] eqn:El; simpl; [| discriminate].
      intros [= ->]. apply (Hnd dragged); [| reflexivity].
      apply list_elem_of_In. eapply last_Some_elem_of. exact El.
  - intros pre k post E Hpre Hk. rewrite Hr, E.
    apply dropLoop_before; [rewrite <- E; exact Hnd | exact Hpre | exact Hk].
  - intros pre l E Hall. rewrite Hr, E.
    apply dropLoop_after; rewrite <- E; assumption.
  - intros E. rewrite Hr, E. reflexivity.
Qed.

(** *** The end of a gesture *)

Lemma removeDragGhost_ref h : dragGhostRef (removeDragGhost h) = None.
Proof. unfold removeDragGhost. destruct (dragGhostRef h) eqn:E; [reflexivity | exact E]. Qed.

Lemma removeDragGhost_body h g :
  dragGhostRef h = Some g -> ~ ghostInBody g (removeDragGhost h).
Proof.
  intros E (x & Hin & Hx). unfold removeDragGhost in Hin. rewrite E in Hin.
  simpl in Hin. apply filter_In in Hin. destruct Hin as [_ Hne].
  rewrite Hx, Nat.eqb_refl in Hne. discriminate.
Qed.

Lemma classListRemove_out d h : ~ In d (classDragging (classListRemove d h)).
Proof.
  simpl. rewrite filter_In. intros [_ Hne].
  rewrite Nat.eqb_refl in Hne. discriminate.
Qed.

(** When [handleDragEnd] returns, the engine is idle and clean. *)
Lemma handleDragEnd_returns h h' :
  isDragging (dragState h) = true ->
  handleDragEnd h = Normal h' ->
  dragState h' = idle /\ dragGhostRef h' = None /\
  (forall g, dragGhostRef h = Some g -> ~ ghostInBody g h') /\
  (forall d, draggedElement (dragState h) = Some d -> ~ In d (classDragging h')).
Proof.
  intros Hd. unfold handleDragEnd. rewrite Hd. simpl negb. cbv iota.
  set (h1 := match draggedElement (dragState h) with
             | Some d => classListRemove d h
             | None => h
             end).
  assert (Hg1 : dragGhostRef h1 = dragGhostRef h)
    by (subst h1; destruct (draggedElement (dragState h)); reflexivity).
  assert (Hc1 : forall d, draggedElement (dragState h) = Some d ->
                          ~ In d (classDragging h1)).
  { intros d E. subst h1. rewrite E. apply classListRemove_out. }
  assert (Hc2 : classDragging (removeDragGhost h1) = classDragging h1)
    by (unfold removeDragGhost; destruct (dragGhostRef h1); reflexivity).
  assert (Hb2 : forall g, dragGhostRef h = Some g ->
                          ~ ghostInBody g (removeDragGhost h1)).
  { intros g E. apply removeDragGhost_body. now rewrite Hg1. }
  pose proof (removeDragGhost_ref h1) as Hr2.
  set (h2 := removeDragGhost h1) in *.
  assert (Hfin : forall x, dragGhostRef x = dragGhostRef h2 ->
                   body x = body h2 -> classDragging x = classDragging h2 ->
                   Normal (setDragState idle x) = Normal h' ->
                   dragState h' = idle /\ dragGhostRef h' = None /\
                   (forall g, dragGhostRef h = Some g -> ~ ghostInBody g h') /\
                   (forall d, draggedElement (dragState h) = Some d ->
                              ~ In d (classDragging h'))).
  { intros x Hxg Hxb Hxc [= <-]. simpl.
    split; [reflexivity |]. split; [now rewrite Hxg |]. split.
    - intros g E (z & Hin & Hz). apply (Hb2 g E). exists z.
      simpl in Hin. rewrite Hxb in Hin. now split.
    - intros d E. rewrite Hxc, Hc2. now apply Hc1. }
  destruct (draggedElement (dragState h)) as [d |];
    [| intros E; now apply (Hfin h2)].
  destruct (dropTarget (dragState h)) as [t |];
    [| intros E; now apply (Hfin h2)].
  destruct (dropPosition (dragState h)) as [pos |];
    [| intros E; now apply (Hfin h2)].
  destruct (editorRef h2) as [root |];
    [| intros E; now apply (Hfin h2)].
  destruct (moveBlock root d t pos) as [root' | e reached]; [| discriminate].
  intros E. now apply (Hfin (onContentChange (setEditor root' h2))).
Qed.

(** Without a target and a position nothing is moved and nothing can throw:
    the release is a clean no-op. *)
Lemma handleDragEnd_no_target h :
  isDragging (dragState h) = true ->
  dropTarget (dragState h) = None \/ dropPosition (dragState h) = None ->
  exists h', handleDragEnd h = Normal h' /\
             editorRef h' = editorRef h /\ contentChanges h' = contentChanges h.
Proof.
  intros Hd Hno. unfold handleDragEnd. rewrite Hd. simpl negb. cbv iota.
  set (h1 := match draggedElement (dragState h) with
             | Some d => classListRemove d h
             | None => h
             end).
  assert (He : editorRef (removeDragGhost h1) = editorRef h /\
               contentChanges (removeDragGhost h1) = contentChanges h).
  { unfold removeDragGhost. subst h1.
    destruct (draggedElement (dragState h)); simpl;
      match goal with |- context [match ?g with Some _ => _ | None => _ end] =>
        destruct g end; split; reflexivity. }
  destruct He as [He Hc].
  destruct (draggedElement (dragState h)) as [d |];
    [| eexists; split; [reflexivity | split; assumption]].
  destruct Hno as [Hno | Hno]; rewrite Hno.
  - eexists; split; [reflexivity | split; assumption].
  - destruct (dropTarget (dragState h));
      eexists; (split; [reflexivity | split; assumption]).
Qed.

End WithNumbers.

(** The selector of [getBlockElements] reaches the image inside the figure,
    and the figure being dragged, the image is the first candidate. *)
Lemma figure_blocks :
  getBlockElements figureHook = [1; 2; 3]%nat /\
  findBlockParent figureHook 2%nat = Some 1%nat /\
  dragState (gesture figureDrag figureHook) =
  @mkDragState QNumber true (Some 1%nat) (Some 10%Q) (Some 2%nat) (Some before).
Proof. repeat split. Qed.

(** C10 at its failing input.  The pointer is released: the class and the
    ghost are removed, then [figure.insertBefore(figure, img)] throws
    HierarchyRequestError, the exception leaves [handleDragEnd] before
    [setDragState], and the drag state keeps every field of the gesture. *)
Theorem drag_end_throws_on_nested_target :
  let h := gesture figureDrag figureHook in
  exists reached,
    dispatch MouseUp h = Throw HierarchyRequestError reached /\
    dragGhostRef reached = None /\ body reached = [] /\
    classDragging reached = [] /\
    dragState reached = dragState h /\
    isDragging (dragState (gesture (figureDrag ++ [MouseUp]) figureHook)) = true.
Proof.
  intros h. eexists. split; [vm_compute; reflexivity |].
  repeat split.
Qed.

(** The same gesture released over the paragraph ends idle. *)
Lemma drag_end_over_sibling :
  let evs := [MouseDownOnHandle 1%nat (@mkMouse QNumber 5%Q 50%Q);
              MouseMove (@mkMouse QNumber 5%Q 125%Q); MouseUp] in
  let h := gesture evs figureHook in
  dragState h = idle /\ body h = [] /\ classDragging h = [] /\
  editorRef h =
  Some (mkElement 0%nat "div"
          [mkElement 3%nat "p" [];
           mkElement 1%nat "figure" [mkElement 2%nat "img" []]]).
Proof. repeat split. Qed.

End DragAndDropFacts.

(** ** The font-size fallback *)

Module TextFormattingFacts.
Import TextFormatting.

Lemma scale_steps : scale = [12; 14; 16; 18; 24; 32; 48].
Proof. reflexivity. Qed.

Lemma parseInt_examples :
  map parseInt ["20px"; " 12"; "-3"; "0x1A"; "px"; "large"; "7.5em"]%string =
  [Some 20; Some 12; Some (-3); Some 26; None; None; Some 7].
Proof. reflexivity. Qed.

(** The ladder of the [catch] block rounds up along the scale. *)
Lemma fallbackFontSize_roundUp size n :
  parseInt size = Some n -> fallbackFontSize size = roundUpLevel n.
Proof.
  intros E. unfold fallbackFontSize, roundUpLevel. rewrite E, scale_steps.
  simpl. repeat (destruct (_ <=? _); [reflexivity |]). reflexivity.
Qed.

(** A size that is no number compares false with every bound. *)
Lemma fallbackFontSize_NaN size : parseInt size = None -> fallbackFontSize size = 7.
Proof. intros E. unfold fallbackFontSize. now rewrite E. Qed.

Lemma roundUpLevel_range n : 1 <= roundUpLevel n <= 7.
Proof.
  unfold roundUpLevel. rewrite scale_steps. simpl.
  repeat (destruct (_ <=? _); [lia |]). lia.
Qed.

(** [roundUpLevel n] is the level of the first step that is not below [n]:
    every lower level's step is below [n], and its own step is not, unless
    [n] is past the scale and the level is the last one. *)
Lemma roundUpLevel_first n :
  (forall i step, (Z.of_nat i < roundUpLevel n - 1) ->
     scale !! i = Some step -> step < n) /\
  (forall step, scale !! Z.to_nat (roundUpLevel n - 1) = Some step ->
     n <= step \/ (roundUpLevel n = 7 /\ 32 < n)).
Proof.
  unfold roundUpLevel. rewrite scale_steps. simpl.
  repeat match goal with
         | |- context [?a <=? ?b] => destruct (Z.leb_spec a b)
         end;
    (split;
     [ intros i step Hi Hs;
       do 7 (destruct i as [| i]; [simpl in Hs; injection Hs as <-; lia |]);
       simpl in Hs; discriminate
     | intros step Hs; simpl in Hs; injection Hs as <-; lia ]).
Qed.

Lemma setFontSize_catch p size selection :
  getSelection p = Some selection ->
  (0 < rangeCount selection)%nat ->
  isCollapsed selection = false ->
  surroundContentsThrows p = true ->
  setFontSize p size =
  Returned
    ((if editorMounted p && negb (editorIsActive p) then [Focus] else [])
     ++ [ExecCommand "fontSize" (levelString (fallbackFontSize size));
         OnContentChange]).
Proof.
  intros Hsel Hcount Hcoll Hthrow. unfold setFontSize.
  rewrite Hsel, Hcoll. apply Nat.ltb_lt in Hcount. rewrite Hcount.
  unfold surroundContents. rewrite Hthrow.
  destruct (editorMounted p && negb (editorIsActive p)); reflexivity.
Qed.

(** What the [catch] block does.  When the selection is not collapsed and
    [range.surroundContents] throws, [setFontSize] catches the exception and
    returns normally, having issued (after focusing the editor if needed)
    exactly the native [fontSize] command and the content-changed signal;
    for a size whose [parseInt] is the number [n] the command's level is
    that of the first step of the scale 12, 14, 16, 18, 24, 32, 48 px that is
    not below [n] (level 7 past 32). *)
Lemma font_size_fallback p size selection n :
  getSelection p = Some selection ->
  (0 < rangeCount selection)%nat ->
  isCollapsed selection = false ->
  surroundContentsThrows p = true ->
  parseInt size = Some n ->
  let level := roundUpLevel n in
  setFontSize p size =
  Returned
    ((if editorMounted p && negb (editorIsActive p) then [Focus] else [])
     ++ [ExecCommand "fontSize" (levelString level); OnContentChange]) /\
  1 <= level <= 7 /\
  (forall i step, (Z.of_nat i < level - 1) -> scale !! i = Some step -> step < n) /\
  (forall step, scale !! Z.to_nat (level - 1) = Some step ->
     n <= step \/ (level = 7 /\ 32 < n)).
Proof.
  intros Hsel Hcount Hcoll Hthrow Hn level.
  split.
  { rewrite (setFontSize_catch p size selection) by assumption.
    now rewrite (fallbackFontSize_roundUp size n). }
  split; [apply roundUpLevel_range |].
  apply roundUpLevel_first.
Qed.

Lemma font_size_fallback_witness :
  setFontSize partialSelection "20px" =
  Returned [ExecCommand "fontSize" "5"; OnContentChange].
Proof.
  destruct (font_size_fallback partialSelection "20px"
              {| rangeCount := 1%nat; isCollapsed := false |} 20
              eq_refl (Nat.lt_0_succ 0) eq_refl eq_refl eq_refl) as [Hrun _].
  exact Hrun.
Defined.

(** C8 at its failing input.  The comment of the [catch] block announces
    the closest size; for [20px] on a selection that [surroundContents]
    cannot wrap the ladder of [<=] tests issues level 5, whose step is 24px,
    while the nearest step of the scale is 18px, level 4. *)
Theorem font_size_fallback_not_nearest :
  setFontSize partialSelection "20px" =
    Returned [ExecCommand "fontSize" "5"; OnContentChange] /\
  nearestStep 20 4 /\ ~ nearestStep 20 5.
Proof.
  split; [reflexivity |]. split.
  - exists 18. split; [reflexivity |]. split; [lia |].
    intros other Hin. rewrite scale_steps in Hin. simpl in Hin.
    repeat (destruct Hin as [<- | Hin]; [lia |]). contradiction.
  - intros (step & Hs & _ & Hnear). vm_compute in Hs. injection Hs as <-.
    assert (Hin : In 18 scale) by (rewrite scale_steps; simpl; tauto).
    specialize (Hnear 18 Hin). lia.
Qed.

End TextFormattingFacts.

(** ** The empty-document test *)

Module EditorFacts.
Import Editor.

(** C9 -- Empty-document predicate.  [isEmpty] holds exactly for the empty
    string, [<br>] and [<p><br></p>], and the editor's element carries the
    class that shows the placeholder exactly then. *)
Theorem empty_document_predicate (html : string) :
  (isEmpty html = true <->
   html = EmptyString \/ html = "<br>"%string \/ html = "<p><br></p>"%string) /\
  showsPlaceholder html = isEmpty html.
Proof.
  split.
  - unfold isEmpty. rewrite !orb_true_iff, !String.eqb_eq.
    destruct html; simpl; intuition congruence.
  - unfold showsPlaceholder, className. now destruct (isEmpty html).
Qed.

Lemma empty_document_examples :
  map isEmpty [""; "<br>"; "<p><br></p>"; "<p></p>"; " "; "<br/>"; "<P><BR></P>"]%string
  = [true; true; true; false; false; false; false].
Proof. reflexivity. Qed.

End EditorFacts.

(** ** Markup, written and read back *)

Module CharsFacts.
Import Chars.

(** A property of characters that holds for the 256 of them. *)
Lemma all_ascii (p : ascii -> bool) :
  forallb (fun n => p (ascii_of_nat n)) (seq 0 256) = true ->
  forall c, p c = true.
Proof.
  intros H c. rewrite forallb_forall in H.
  specialize (H (nat_of_ascii c)). rewrite ascii_nat_embedding in H.
  apply H. apply in_seq. pose proof (nat_ascii_bounded c). lia.
Qed.

Lemma all_ascii_implies (p q : ascii -> bool) :
  forallb (fun n => implb (p (ascii_of_nat n)) (q (ascii_of_nat n))) (seq 0 256)
  = true ->
  forall c, p c = true -> q c = true.
Proof.
  intros H c Hp.
  pose proof (all_ascii (fun c => implb (p c) (q c)) H c) as Hc.
  cbv beta in Hc. now rewrite Hp in Hc.
Qed.

Lemma all_ascii_equal {A} (f g : ascii -> A) (eqb : A -> A -> bool) :
  (forall a b, eqb a b = true -> a = b) ->
  forallb (fun n => eqb (f (ascii_of_nat n)) (g (ascii_of_nat n))) (seq 0 256)
  = true ->
  forall c, f c = g c.
Proof.
  intros Heq H c. apply Heq.
  exact (all_ascii (fun c => eqb (f c) (g c)) H c).
Qed.

End CharsFacts.

Module TokenizerFacts.
Import Chars CharsFacts RegExp Html DOMPurify Sanitize Markup.
Local Open Scope string_scope.

(** *** Strings *)

Lemma append_nil_right s : s ++ "" = s.
Proof.
  induction s as [| c s IH]; [reflexivity |].
  change (String c (s ++ "") = String c s). now rewrite IH.
Qed.

Lemma append_associative a b c : (a ++ b) ++ c = a ++ (b ++ c).
Proof.
  induction a as [| x a IH]; [reflexivity |].
  change (String x ((a ++ b) ++ c) = String x (a ++ (b ++ c))). now rewrite IH.
Qed.

Lemma concat_cons x l : String.concat "" (x :: l) = x ++ String.concat "" l.
Proof. destruct l; [symmetry; apply append_nil_right | reflexivity]. Qed.

Lemma concat_app l1 l2 :
  String.concat "" (l1 ++ l2)%list = String.concat "" l1 ++ String.concat "" l2.
Proof.
  induction l1 as [| x l1 IH]; [reflexivity |].
  change ((x :: l1) ++ l2)%list with (x :: (l1 ++ l2))%list.
  now rewrite !concat_cons, IH, append_associative.
Qed.

Lemma takeWhile_all p t rest :
  allChars p t = true -> takeWhile p rest = "" ->
  takeWhile p (t ++ rest) = t.
Proof.
  intros Ht Hrest. induction t as [| c t IH]; [exact Hrest |].
  cbn [allChars] in Ht. apply andb_prop in Ht. destruct Ht as [Hc Ht].
  change (String c t ++ rest) with (String c (t ++ rest)).
  cbn [takeWhile]. now rewrite Hc, IH.
Qed.

Lemma dropWhile_all p t rest :
  allChars p t = true -> dropWhile p (t ++ rest) = dropWhile p rest.
Proof.
  intros Ht. induction t as [| c t IH]; [reflexivity |].
  cbn [allChars] in Ht. apply andb_prop in Ht. destruct Ht as [Hc Ht].
  change (String c t ++ rest) with (String c (t ++ rest)).
  cbn [dropWhile]. now rewrite Hc, IH.
Qed.

Lemma skip_length t rest : skip (String.length t) (t ++ rest) = rest.
Proof. induction t as [| c t IH]; [reflexivity | exact IH]. Qed.

Lemma allChars_weaken (p q : ascii -> bool) s :
  (forall c, p c = true -> q c = true) ->
  allChars p s = true -> allChars q s = true.
Proof.
  intros Hpq. induction s as [| c s IH]; [reflexivity |].
  cbn [allChars]. intros H. apply andb_prop in H. destruct H as [Hc Hs].
  now rewrite (Hpq c Hc), IH.
Qed.

(** *** The tokenizer, one token at a time *)

Lemma tokenize_empty fuel : tokenize fuel "" = [].
Proof. now destruct fuel. Qed.

Lemma tokenize_text fuel c s :
  Ascii.eqb c "<" = false ->
  tokenize (S fuel) (String c s) =
  TText (decode (takeWhile notLt (String c s)))
    :: tokenize fuel (skip (String.length (takeWhile notLt (String c s))) (String c s)).
Proof.
  intros Hc.
  destruct c as [[] [] [] [] [] [] [] []]; try discriminate Hc; reflexivity.
Qed.

Lemma tokenize_open fuel c r :
  isLetter c = true ->
  tokenize (S fuel) (String "<" (String c r)) =
  let rest := String c r in
  let name := takeWhile (fun x => negb (isNameEnd x)) rest in
  let tag := lowerString name in
  match readAttrs (S (String.length rest)) (skip (String.length name) rest) [] with
  | None => []
  | Some (attrs, tail) =>
    if inb tag RAW_TEXT_ELEMENTS then
      let (raw, tail') := breakBeforeEndTag tag tail in
      (TStart tag attrs
         :: (match raw with EmptyString => [] | _ => [TText raw] end)
         ++ tokenize fuel tail')%list
    else TStart tag attrs :: tokenize fuel tail
  end.
Proof.
  intros Hc.
  destruct c as [[] [] [] [] [] [] [] []]; try discriminate Hc; reflexivity.
Qed.

Lemma tokenize_close fuel c body :
  tokenize (S fuel) (String "<" (String "/" (String c body))) =
  if isLetter c then
    let name := takeWhile (fun x => negb (isNameEnd x)) (String c body) in
    let tail := dropWhile (fun x => negb (Ascii.eqb x ">")) body in
    match tail with
    | EmptyString => []
    | String _ tail' => TEnd (lowerString name) :: tokenize fuel tail'
    end
  else TText "<" :: tokenize fuel (String "/" (String c body)).
Proof. reflexivity. Qed.

(** *** Attributes, written and read back *)

Lemma decode_other c r :
  Ascii.eqb c "&" = false -> decode (String c r) = String c (decode r).
Proof.
  intros Hc.
  destruct c as [[] [] [] [] [] [] [] []]; try discriminate Hc; reflexivity.
Qed.

Lemma code_160 c : (code c =? 160)%nat = true -> c = ascii_of_nat 160.
Proof.
  intros H. apply Nat.eqb_eq in H. unfold code in H.
  rewrite <- (ascii_nat_embedding c). now rewrite H.
Qed.

Lemma decode_escape_attribute v : decode (escape true v) = v.
Proof.
  induction v as [| c v IH]; [reflexivity |].
  cbn [escape].
  destruct (Ascii.eqb c "&") eqn:Eamp.
  { apply Ascii.eqb_eq in Eamp. subst c.
    change (decode ("&amp;" ++ escape true v)) with (String "&" (decode (escape true v))).
    now rewrite IH. }
  destruct (code c =? 160)%nat eqn:Enb.
  { apply code_160 in Enb. subst c.
    change (decode ("&nbsp;" ++ escape true v))
      with (String (ascii_of_nat 160) (decode (escape true v))).
    now rewrite IH. }
  destruct (Ascii.eqb c quote) eqn:Eq.
  { apply Ascii.eqb_eq in Eq. subst c.
    change (decode ("&quot;" ++ escape true v))
      with (String quote (decode (escape true v))).
    now rewrite IH. }
  now rewrite (decode_other c _ Eamp), IH.
Qed.

Lemma escape_attribute_no_quote v : allChars notQuote (escape true v) = true.
Proof.
  induction v as [| c v IH]; [reflexivity |].
  cbn [escape].
  destruct (Ascii.eqb c "&"); [exact IH |].
  destruct (code c =? 160)%nat; [exact IH |].
  destruct (Ascii.eqb c quote) eqn:Eq; [exact IH |].
  cbn [allChars]. unfold notQuote at 1. now rewrite Eq, IH.
Qed.

Lemma dropWhile_stop p c s : p c = false -> dropWhile p (String c s) = String c s.
Proof. intros H. cbn [dropWhile]. now rewrite H. Qed.

Lemma takeWhile_stop p c s : p c = false -> takeWhile p (String c s) = "".
Proof. intros H. cbn [takeWhile]. now rewrite H. Qed.

Lemma nameChar_first c : nameChar c = true -> negb (isNameEnd c) = true.
Proof. revert c. apply all_ascii_implies. vm_compute. reflexivity. Qed.

Lemma nameChar_inside c :
  nameChar c = true -> negb (isNameEnd c || Ascii.eqb c "=") = true.
Proof. revert c. apply all_ascii_implies. vm_compute. reflexivity. Qed.

Lemma readAttrs_name fuel c0 s0 acc :
  negb (isNameEnd c0) = true ->
  readAttrs (S fuel) (String c0 s0) acc =
  let nameTail := takeWhile (fun c => negb (isNameEnd c || Ascii.eqb c "=")) s0 in
  let name := lowerString (String c0 nameTail) in
  let s1 := dropWhile isHtmlSpace (skip (String.length nameTail) s0) in
  let add v := if hasAttr name acc then acc else (acc ++ [(name, decode v)])%list in
  match s1 with
  | String "=" s2 =>
    match dropWhile isHtmlSpace s2 with
    | String q s3 =>
      if Ascii.eqb q quote || Ascii.eqb q "'" then
        let v := takeWhile (fun c => negb (Ascii.eqb c q)) s3 in
        match skip (String.length v) s3 with
        | String _ s4 => readAttrs fuel s4 (add v)
        | EmptyString => None
        end
      else
        let v := takeWhile (fun c => negb (isHtmlSpace c || Ascii.eqb c ">"))
                   (String q s3) in
        readAttrs fuel (skip (String.length v) (String q s3)) (add v)
    | EmptyString => None
    end
  | _ => readAttrs fuel s1 (add EmptyString)
  end.
Proof.
  intros Hc.
  destruct c0 as [[] [] [] [] [] [] [] []]; try discriminate Hc; reflexivity.
Qed.

Lemma writeAttr_shape c0 n raw X :
  writeAttr (String c0 n, raw) ++ X =
  String " " (String c0 (n ++ String "=" (String quote (raw ++ String quote X)))).
Proof.
  unfold writeAttr. cbn [fst snd].
  change (" " ++ String c0 n ++ "=" ++ String quote (raw ++ String quote ""))
    with (String " " (String c0 (n ++ String "=" (String quote (raw ++ String quote ""))))).
  change (String " " (String c0 ?a) ++ X) with (String " " (String c0 (a ++ X))).
  cbn [append]. f_equal. f_equal.
  rewrite append_associative. f_equal.
  change (String "=" (String quote ((raw ++ String quote "") ++ X)) =
          String "=" (String quote (raw ++ String quote X))).
  rewrite append_associative. reflexivity.
Qed.

Lemma lower_idempotent c : lower (lower c) = lower c.
Proof.
  revert c. apply (all_ascii_equal _ _ Ascii.eqb); [| vm_compute; reflexivity].
  intros a b. apply Ascii.eqb_eq.
Qed.

Lemma lowerString_idempotent s : lowerString (lowerString s) = lowerString s.
Proof.
  induction s as [| c s IH]; [reflexivity |].
  cbn [lowerString]. now rewrite lower_idempotent, IH.
Qed.

Lemma dangerousAttr_lower name value :
  dangerousAttr (lowerString name, value) = dangerousAttr (name, value).
Proof.
  unfold dangerousAttr, isEventHandler. cbn [fst snd].
  now rewrite lowerString_idempotent.
Qed.

Lemma forallb_add (Q : string * string -> bool) acc a :
  forallb Q acc = true -> Q a = true ->
  forallb Q (if hasAttr (fst a) acc then acc else (acc ++ [a])%list) = true.
Proof.
  intros Hacc Ha. destruct (hasAttr _ acc); [exact Hacc |].
  rewrite forallb_app, Hacc. cbn [forallb]. now rewrite Ha.
Qed.

(** One attribute, as it is written, is read back under its lower-cased
    name with its value decoded. *)
Lemma readAttrs_attr fuel name raw X acc :
  nonEmptyString name = true -> allChars nameChar name = true ->
  allChars notQuote raw = true ->
  readAttrs (S fuel) (writeAttr (name, raw) ++ X) acc =
  readAttrs fuel X
    (if hasAttr (lowerString name) acc then acc
     else (acc ++ [(lowerString name, decode raw)])%list).
Proof.
  intros Hne Hname Hraw. destruct name as [| c0 n]; [discriminate |].
  cbn [allChars] in Hname. apply andb_prop in Hname. destruct Hname as [Hc0 Hn].
  rewrite writeAttr_shape.
  change (readAttrs (S fuel) (String " " ?Y) acc) with (readAttrs (S fuel) Y acc).
  rewrite (readAttrs_name fuel c0 _ acc (nameChar_first c0 Hc0)). cbv zeta.
  rewrite (takeWhile_all _ n _ (allChars_weaken _ _ _ nameChar_inside Hn))
    by reflexivity.
  rewrite skip_length.
  rewrite (dropWhile_stop isHtmlSpace "=") by reflexivity.
  cbv beta iota.
  rewrite (dropWhile_stop isHtmlSpace quote) by reflexivity.
  change (Ascii.eqb quote quote || Ascii.eqb quote "'") with true. cbv iota.
  rewrite (takeWhile_all notQuote raw _ Hraw) by reflexivity.
  rewrite skip_length.
  reflexivity.
Qed.

Lemma readAttrs_markup Q s attrs : forall fuel acc,
  forallb (attrOk Q) attrs = true -> forallb Q acc = true ->
  match readAttrs fuel (writeAttrs attrs ++ String ">" s) acc with
  | None => True
  | Some (acc', tail) => forallb Q acc' = true /\ tail = s
  end.
Proof.
  induction attrs as [| [name raw] attrs IH]; intros fuel acc Hattrs Hacc.
  - destruct fuel as [| fuel]; [exact I |]. now split.
  - destruct fuel as [| fuel]; [exact I |].
    cbn [forallb] in Hattrs. apply andb_prop in Hattrs. destruct Hattrs as [Ha Hattrs].
    unfold attrOk in Ha. cbn [fst snd] in Ha.
    apply andb_prop in Ha. destruct Ha as [Ha HQ].
    apply andb_prop in Ha. destruct Ha as [Ha Hraw].
    apply andb_prop in Ha. destruct Ha as [Hne Hname].
    unfold writeAttrs. cbn [map]. rewrite concat_cons, append_associative.
    rewrite (readAttrs_attr fuel name raw _ acc Hne Hname Hraw).
    apply IH; [exact Hattrs |].
    exact (forallb_add Q acc (lowerString name, decode raw) Hacc HQ).
Qed.

(** *** Tags, written and read back *)

Lemma nameChar_not_nameEnd c : nameChar c = true -> negb (isNameEnd c) = true.
Proof. exact (nameChar_first c). Qed.

Lemma nameChar_not_gt c : nameChar c = true -> negb (Ascii.eqb c ">") = true.
Proof.
  revert c. apply all_ascii_implies. vm_compute. reflexivity.
Qed.

(** What follows a tag name in a start tag ends the name. *)
Lemma attrs_end_name attrs s :
  takeWhile (fun x => negb (isNameEnd x)) (writeAttrs attrs ++ String ">" s) = "".
Proof.
  destruct attrs as [| [name value] attrs]; [reflexivity |].
  unfold writeAttrs. cbn [map]. rewrite concat_cons. reflexivity.
Qed.

Lemma tagOk_inv tag :
  tagOk tag = true ->
  exists c t, tag = String c t /\ isLetter c = true /\ allChars nameChar tag = true.
Proof.
  unfold tagOk. destruct tag as [| c t]; [discriminate |].
  intros H. apply andb_prop in H. destruct H as [Hc Ht]. now exists c, t.
Qed.

Lemma lower_lt c : Ascii.eqb (lower "<") (lower c) = true -> Ascii.eqb c "<" = true.
Proof.
  revert c. apply all_ascii_implies. vm_compute. reflexivity.
Qed.

Lemma lower_slash c : Ascii.eqb (lower "/") (lower c) = true -> Ascii.eqb "/" c = true.
Proof.
  revert c. apply all_ascii_implies. vm_compute. reflexivity.
Qed.

Lemma startsWithCI_self t r : startsWithCI (lowerString t) (t ++ r) = true.
Proof.
  induction t as [| c t IH]; [reflexivity |].
  change (String c t ++ r) with (String c (t ++ r)).
  cbn [lowerString startsWithCI].
  now rewrite lower_idempotent, Ascii.eqb_refl, IH.
Qed.

Lemma length_lower s : String.length (lowerString s) = String.length s.
Proof. induction s as [| c s IH]; [reflexivity |]. cbn. now rewrite IH. Qed.

(** At an end tag of the element the raw text ends. *)
Lemma breakBeforeEndTag_here tag s :
  breakBeforeEndTag (lowerString tag) (String "<" (String "/" (tag ++ String ">" s)))
  = ("", String "<" (String "/" (tag ++ String ">" s))).
Proof.
  cbn [breakBeforeEndTag].
  assert (E1 : startsWithCI ("</" ++ lowerString tag)
                 (String "<" (String "/" (tag ++ String ">" s))) = true).
  { change ("</" ++ lowerString tag) with (String "<" (String "/" (lowerString tag))).
    cbn [startsWithCI]. rewrite !Ascii.eqb_refl. apply startsWithCI_self. }
  assert (E2 : endsName (skip (String.length (lowerString tag) + 2)
                 (String "<" (String "/" (tag ++ String ">" s)))) = true).
  { rewrite length_lower, Nat.add_comm. cbn [Nat.add skip].
    now rewrite skip_length. }
  now rewrite E1, E2.
Qed.

(** Raw text that holds no [</] is read up to the end tag that follows. *)
Lemma breakBeforeEndTag_raw t raw rest :
  noEndTag raw = true ->
  (exists r, rest = String "<" r) ->
  breakBeforeEndTag t rest = ("", rest) ->
  breakBeforeEndTag t (raw ++ rest) = (raw, rest).
Proof.
  intros Hraw [r ->] Hrest.
  induction raw as [| c raw IH]; [exact Hrest |].
  cbn [noEndTag] in Hraw. apply andb_prop in Hraw. destruct Hraw as [Hc Hraw].
  change (String c raw ++ String "<" r) with (String c (raw ++ String "<" r)).
  cbn [breakBeforeEndTag].
  assert (E : startsWithCI ("</" ++ t) (String c (raw ++ String "<" r)) = false).
  { change ("</" ++ t) with (String "<" (String "/" t)).
    cbn [startsWithCI].
    destruct (Ascii.eqb (lower "<") (lower c)) eqn:Elt; [| reflexivity].
    apply lower_lt in Elt. rewrite Elt in Hc. cbn [andb] in *.
    apply negb_true_iff in Hc.
    destruct raw as [| d raw]; [reflexivity |].
    change (String d raw ++ String "<" r) with (String d (raw ++ String "<" r)).
    cbn [startsWith] in Hc. cbn [startsWithCI].
    destruct (Ascii.eqb (lower "/") (lower d)) eqn:Esl; [| reflexivity].
    apply lower_slash in Esl. now rewrite Esl in Hc. }
  rewrite E. cbn [andb]. now rewrite (IH Hraw).
Qed.

(** *** The tokens of clean markup *)

Lemma Markup_after_text Q s :
  Markup Q s -> Markup Q (skip (String.length (takeWhile notLt s)) s).
Proof.
  induction 1 as [| c s Hc _ IH | tag attrs s Ht Ha Hr Hs _
                  | tag s Ht Hs _ | tag attrs raw s Ht Ha Hr Hraw Hs _].
  - constructor.
  - cbn [takeWhile]. unfold notLt at 1. rewrite Hc. exact IH.
  - now apply Markup_start.
  - now apply Markup_end.
  - now apply Markup_raw.
Qed.

Lemma tokenize_start_tag Q fuel tag attrs Y s :
  tagOk tag = true -> forallb (attrOk Q) attrs = true ->
  Y = writeAttrs attrs ++ String ">" s ->
  tokenize (S fuel) (String "<" (tag ++ Y)) = [] \/
  exists attrs',
    forallb Q attrs' = true /\
    tokenize (S fuel) (String "<" (tag ++ Y)) =
    if isRawText tag then
      let (raw, tail') := breakBeforeEndTag (lowerString tag) s in
      (TStart (lowerString tag) attrs'
         :: (match raw with EmptyString => [] | _ => [TText raw] end)
         ++ tokenize fuel tail')%list
    else TStart (lowerString tag) attrs' :: tokenize fuel s.
Proof.
  intros Ht Ha ->. destruct (tagOk_inv tag Ht) as (c & t & -> & Hc & Hn).
  change (String c t ++ ?Y) with (String c (t ++ Y)).
  rewrite (tokenize_open fuel c _ Hc). cbv zeta.
  change (String c (t ++ ?Y)) with (String c t ++ Y).
  rewrite (takeWhile_all _ (String c t) _
             (allChars_weaken _ _ _ nameChar_not_nameEnd Hn) (attrs_end_name attrs s)).
  rewrite skip_length.
  pose proof (readAttrs_markup Q s attrs
                (S (String.length (String c t ++ writeAttrs attrs ++ String ">" s)))
                [] Ha eq_refl) as Hread.
  destruct (readAttrs _ _ []) as [[attrs' tail] |]; [| now left].
  destruct Hread as [Hsafe ->]. right. exists attrs'. split; [exact Hsafe |].
  reflexivity.
Qed.

Lemma tokenize_end_tag fuel tag s :
  tagOk tag = true ->
  tokenize (S fuel) (String "<" (String "/" (tag ++ String ">" s))) =
  TEnd (lowerString tag) :: tokenize fuel s.
Proof.
  intros Ht. destruct (tagOk_inv tag Ht) as (c & t & -> & Hc & Hn).
  change (String c t ++ ?Y) with (String c (t ++ Y)).
  rewrite tokenize_close, Hc. cbv zeta.
  cbn [allChars] in Hn. apply andb_prop in Hn. destruct Hn as [Hc0 Hn'].
  rewrite (dropWhile_all _ t _ (allChars_weaken _ _ _ nameChar_not_gt Hn')).
  rewrite (dropWhile_stop _ ">") by reflexivity.
  change (String c (t ++ String ">" s)) with (String c t ++ String ">" s).
  rewrite (takeWhile_all _ (String c t) (String ">" s)); [reflexivity | | reflexivity].
  apply (allChars_weaken nameChar); [apply nameChar_not_nameEnd |].
  cbn [allChars]. now rewrite Hc0, Hn'.
Qed.

(** Reading markup gives no start tag with an attribute that fails [Q],
    however far the tokenizer gets. *)
Lemma tokenize_markup Q fuel : forall s,
  Markup Q s -> forallb (okToken Q) (tokenize fuel s) = true.
Proof.
  induction fuel as [| fuel IH]; intros s Hs; [reflexivity |].
  destruct Hs as [| c s Hc Hs | tag attrs s Ht Ha Hr Hs
                  | tag s Ht Hs | tag attrs raw s Ht Ha Hr Hraw Hs].
  - reflexivity.
  - rewrite (tokenize_text fuel c s Hc). cbn [forallb okToken].
    apply IH. apply (Markup_after_text Q (String c s)). now apply Markup_text.
  - destruct (tokenize_start_tag Q fuel tag attrs _ s Ht Ha eq_refl)
      as [-> | (attrs' & Hsafe & ->)]; [reflexivity |].
    rewrite Hr. cbn [forallb okToken]. rewrite Hsafe. now apply IH.
  - rewrite (tokenize_end_tag fuel tag s Ht). cbn [forallb okToken].
    now apply IH.
  - destruct (tokenize_start_tag Q fuel tag attrs _
                (raw ++ String "<" (String "/" (tag ++ String ">" s))) Ht Ha eq_refl)
      as [-> | (attrs' & Hsafe & ->)]; [reflexivity |].
    rewrite Hr.
    rewrite (breakBeforeEndTag_raw (lowerString tag) raw _ Hraw)
      by (eauto || apply breakBeforeEndTag_here).
    cbn [forallb okToken]. rewrite Hsafe. cbn [andb].
    rewrite forallb_app.
    replace (forallb (okToken Q) match raw with "" => [] | String _ _ => [TText raw] end)
      with true by (now destruct raw).
    cbn [andb]. apply IH. now apply Markup_end.
Qed.

End TokenizerFacts.

Module TreeFacts.
Import Chars CharsFacts RegExp Html DOMPurify Sanitize Markup.
Local Open Scope string_scope.

(** *** Tree construction keeps what the tokens carry *)

Lemma forallb_rev {A} (p : A -> bool) l : forallb p (rev l) = forallb p l.
Proof.
  induction l as [| a l IH]; [reflexivity |].
  cbn [rev forallb]. rewrite forallb_app, IH. cbn [forallb].
  rewrite andb_true_r. apply andb_comm.
Qed.

Lemma addNode_safe Q n kids :
  (okNode Q) n = true -> forallb (okNode Q) kids = true ->
  forallb (okNode Q) (addNode n kids) = true.
Proof.
  intros Hn Hk. destruct n as [d | d | tag attrs cs];
    try (cbn [addNode forallb]; now rewrite Hn, Hk).
  destruct kids as [| [d0 | d0 | t0 a0 c0] rest];
    cbn [addNode forallb] in *; try (now rewrite Hk); reflexivity || exact Hk.
Qed.

Lemma addToTop_safe Q n stack :
  (okNode Q) n = true -> forallb (okOpen Q) stack = true ->
  forallb (okOpen Q) (addToTop n stack) = true.
Proof.
  intros Hn Hs. destruct stack as [| o rest]; [reflexivity |].
  cbn [addToTop forallb] in *. apply andb_prop in Hs. destruct Hs as [Ho Hrest].
  rewrite Hrest, andb_true_r. unfold okOpen in *. cbn [openAttrs openKids].
  apply andb_prop in Ho. destruct Ho as [Ha Hk].
  now rewrite Ha, addNode_safe.
Qed.

Lemma closeTop_safe Q stack :
  forallb (okOpen Q) stack = true -> forallb (okOpen Q) (closeTop stack) = true.
Proof.
  intros Hs. destruct stack as [| o [| x rest]]; try exact Hs.
  cbn [closeTop]. cbn [forallb] in Hs. apply andb_prop in Hs. destruct Hs as [Ho Hrest].
  apply addToTop_safe; [| exact Hrest].
  unfold okOpen in Ho. apply andb_prop in Ho. destruct Ho as [Ha Hk].
  cbn [okNode]. fold (forallb (okNode Q)). rewrite forallb_rev, Hk, andb_true_r.
  exact Ha.
Qed.

Lemma closeUntil_safe Q fuel tag : forall stack,
  forallb (okOpen Q) stack = true ->
  forallb (okOpen Q) (closeUntil fuel tag stack) = true.
Proof.
  induction fuel as [| fuel IH]; intros stack Hs; [now destruct stack |].
  destruct stack as [| o [| x rest]]; try exact Hs.
  cbn [closeUntil]. destruct (String.eqb (openTag o) tag).
  - now apply closeTop_safe.
  - apply IH. now apply closeTop_safe.
Qed.

Lemma closeAll_safe Q fuel : forall stack,
  forallb (okOpen Q) stack = true ->
  forallb (okNode Q) (closeAll fuel stack) = true.
Proof.
  assert (Hone : forall o, forallb (okOpen Q) [o] = true ->
                           forallb (okNode Q) (rev (openKids o)) = true).
  { intros o Ho. cbn [forallb] in Ho. rewrite andb_true_r in Ho.
    unfold okOpen in Ho. apply andb_prop in Ho. now rewrite forallb_rev. }
  induction fuel as [| fuel IH]; intros stack Hs.
  - destruct stack as [| o [| x rest]]; try reflexivity. now apply Hone.
  - destruct stack as [| o [| x rest]]; [reflexivity | now apply Hone |].
    cbn [closeAll]. apply IH. now apply closeTop_safe.
Qed.

Lemma build_safe Q toks : forall stack,
  forallb (okToken Q) toks = true -> forallb (okOpen Q) stack = true ->
  forallb (okNode Q) (build toks stack) = true.
Proof.
  induction toks as [| t toks IH]; intros stack Ht Hs.
  - now apply closeAll_safe.
  - cbn [forallb] in Ht. apply andb_prop in Ht. destruct Ht as [Ht Htoks].
    destruct t as [d | d | tag attrs | tag]; cbn [build].
    + apply IH; [exact Htoks | now apply addToTop_safe].
    + apply IH; [exact Htoks | now apply addToTop_safe].
    + cbn [okToken] in Ht.
      assert (Hs' : forallb (okOpen Q)
                      (if inb tag CLOSES_P && hasOpen "p" stack
                       then closeUntil (length stack) "p" stack else stack) = true).
      { destruct (inb tag CLOSES_P && hasOpen "p" stack);
          [now apply closeUntil_safe | exact Hs]. }
      destruct (inb tag VOID_ELEMENTS).
      * apply IH; [exact Htoks |]. apply addToTop_safe; [| exact Hs'].
        cbn [okNode forallb]. rewrite andb_true_r. exact Ht.
      * apply IH; [exact Htoks |]. cbn [forallb]. rewrite Hs', andb_true_r.
        unfold okOpen. cbn [openAttrs openKids forallb]. now rewrite andb_true_r.
    + destruct (hasOpen tag stack).
      * apply IH; [exact Htoks | now apply closeUntil_safe].
      * now apply IH.
Qed.

Lemma dropHead_safe Q toks : forall inside,
  forallb (okToken Q) toks = true ->
  forallb (okToken Q) (dropHead inside toks) = true.
Proof.
  induction toks as [| t toks IH]; intros inside Ht; [reflexivity |].
  pose proof Ht as Hall.
  cbn [forallb] in Ht. apply andb_prop in Ht. destruct Ht as [Ht Htoks].
  cbn [dropHead]. destruct inside as [tag |].
  - destruct t as [d | d | tag' attrs | tag']; try (now apply IH).
    destruct (String.eqb tag tag'); now apply IH.
  - destruct t as [d | d | tag' attrs | tag'].
    + destruct (dropWhile isHtmlSpace d); [now apply IH | exact Htoks].
    + now apply IH.
    + destruct (inb tag' HEAD_ELEMENTS); [now apply IH | exact Hall].
    + exact Hall.
Qed.

(** Markup, read back, has no attribute that fails [Q] on any element. *)
Lemma parseBody_markup Q s : Markup Q s -> forallb (okNode Q) (parseBody s) = true.
Proof.
  intros Hs. unfold parseBody. apply build_safe; [| reflexivity].
  apply dropHead_safe. now apply TokenizerFacts.tokenize_markup.
Qed.

End TreeFacts.

Module ParserFacts.
Import Chars CharsFacts RegExp Html DOMPurify Sanitize Markup TokenizerFacts.
Local Open Scope string_scope.

(** *** Raw text in the token stream *)

Lemma tokenize_comment fuel body :
  exists data s',
    tokenize (S fuel) (String "<" (String "!" body)) = TComment data :: tokenize fuel s'.
Proof.
  destruct body as [| c3 b3]; [do 2 eexists; reflexivity |].
  destruct c3 as [[] [] [] [] [] [] [] []]; try (do 2 eexists; reflexivity).
  destruct b3 as [| c4 b4]; [do 2 eexists; reflexivity |].
  destruct c4 as [[] [] [] [] [] [] [] []]; try (do 2 eexists; reflexivity).
  cbn [tokenize]. destruct (breakBefore "-->" b4) as [data tail].
  do 2 eexists; reflexivity.
Qed.

Lemma tokenize_bogus fuel body :
  exists data s',
    tokenize (S fuel) (String "<" (String "?" body)) = TComment data :: tokenize fuel s'.
Proof. do 2 eexists; reflexivity. Qed.

Lemma tokenize_other fuel c r :
  isLetter c = false ->
  Ascii.eqb c "!" = false -> Ascii.eqb c "?" = false -> Ascii.eqb c "/" = false ->
  tokenize (S fuel) (String "<" (String c r)) = TText "<" :: tokenize fuel (String c r).
Proof.
  intros Hl H1 H2 H3.
  destruct c as [[] [] [] [] [] [] [] []];
    try discriminate Hl; try discriminate H1; try discriminate H2;
    try discriminate H3; reflexivity.
Qed.

(** What [breakBeforeEndTag] leaves to read is nothing, or starts with an
    end tag of the element. *)
Lemma breakBeforeEndTag_tail tag s :
  let tail := snd (breakBeforeEndTag tag s) in
  tail = "" \/
  (startsWithCI ("</" ++ tag) tail = true /\
   endsName (skip (String.length tag + 2) tail) = true).
Proof.
  induction s as [| c s IH]; [now left |].
  cbn [breakBeforeEndTag].
  destruct (startsWithCI ("</" ++ tag) (String c s)
            && endsName (skip (String.length tag + 2) (String c s))) eqn:E.
  - right. apply andb_prop in E. exact E.
  - destruct (breakBeforeEndTag tag s) as [b a]. exact IH.
Qed.

Lemma letter_not_nameEnd c : isLower (lower c) = true -> negb (isNameEnd c) = true.
Proof. revert c. apply all_ascii_implies. vm_compute. reflexivity. Qed.

Lemma letter_is_letter c : isLower (lower c) = true -> isLetter c = true.
Proof. revert c. apply all_ascii_implies. vm_compute. reflexivity. Qed.

Lemma lower_of_lower c : isLower c = true -> lower c = c.
Proof.
  intros H.
  pose proof (all_ascii (fun c => implb (isLower c) (Ascii.eqb (lower c) c))
                ltac:(vm_compute; reflexivity) c) as Hc.
  cbv beta in Hc. rewrite H in Hc. now apply Ascii.eqb_eq.
Qed.

(** A name that matches lower-case letters without case, read up to the
    character that ends it. *)
Lemma takeWhile_name p : forall s,
  allChars isLower p = true ->
  startsWithCI p s = true ->
  endsName (skip (String.length p) s) = true ->
  lowerString (takeWhile (fun x => negb (isNameEnd x)) s) = p.
Proof.
  induction p as [| a p IH]; intros s Hp Hs He.
  - destruct s as [| b s]; [discriminate |].
    cbn [String.length skip endsName] in He. cbn [takeWhile]. now rewrite He.
  - destruct s as [| b s]; [discriminate |].
    cbn [allChars] in Hp. apply andb_prop in Hp. destruct Hp as [Ha Hp].
    cbn [startsWithCI] in Hs. apply andb_prop in Hs. destruct Hs as [Hab Hs].
    apply Ascii.eqb_eq in Hab. rewrite (lower_of_lower a Ha) in Hab.
    cbn [String.length skip] in He.
    assert (Hb : isLower (lower b) = true) by (now rewrite <- Hab).
    cbn [takeWhile]. rewrite (letter_not_nameEnd b Hb).
    cbn [lowerString]. now rewrite <- Hab, (IH s Hp Hs He).
Qed.

(** After the text of a raw-text element the tokenizer reads the element's
    end tag, or nothing. *)
Lemma tokenize_after_raw fuel tag tail :
  inb tag RAW_TEXT_ELEMENTS = true ->
  tail = "" \/
  (startsWithCI ("</" ++ tag) tail = true /\
   endsName (skip (String.length tag + 2) tail) = true) ->
  tokenize fuel tail = [] \/ exists r, tokenize fuel tail = TEnd tag :: r.
Proof.
  intros Htag [-> | [Hs He]]; [left; apply tokenize_empty |].
  destruct fuel as [| fuel]; [now left |].
  assert (Hp : allChars isLower tag = true /\ exists a p, tag = String a p).
  { unfold inb in Htag. cbn [existsb RAW_TEXT_ELEMENTS] in Htag.
    rewrite orb_false_r in Htag. apply orb_prop in Htag.
    destruct Htag as [E | E]; apply String.eqb_eq in E; subst tag;
      (split; [reflexivity | eauto]). }
  destruct Hp as (Hlow & a & p & Etag).
  change ("</" ++ tag) with (String "<" (String "/" tag)) in Hs.
  destruct tail as [| c1 tail]; [discriminate |].
  cbn [startsWithCI] in Hs. apply andb_prop in Hs. destruct Hs as [H1 Hs].
  destruct tail as [| c2 rest]; [discriminate |].
  cbn [startsWithCI] in Hs. apply andb_prop in Hs. destruct Hs as [H2 Hs].
  apply lower_lt in H1. apply Ascii.eqb_eq in H1. subst c1.
  apply lower_slash in H2. apply Ascii.eqb_eq in H2. subst c2.
  rewrite Nat.add_comm in He. cbn [Nat.add skip] in He.
  pose proof (takeWhile_name tag rest Hlow Hs He) as Hname.
  subst tag. destruct rest as [| c body]; [discriminate |].
  assert (Hc : isLetter c = true).
  { cbn [startsWithCI] in Hs. apply andb_prop in Hs. destruct Hs as [Hac _].
    cbn [allChars] in Hlow. apply andb_prop in Hlow. destruct Hlow as [Ha _].
    apply Ascii.eqb_eq in Hac. rewrite (lower_of_lower a Ha) in Hac.
    apply letter_is_letter. now rewrite <- Hac. }
  rewrite tokenize_close, Hc. cbv zeta. rewrite Hname.
  destruct (dropWhile _ body); [now left | right; eauto].
Qed.

(** One step of the tokenizer: nothing, a token that opens no raw text, or
    the start tag of a raw-text element with its text and what follows. *)
Lemma tokenize_step fuel s :
  tokenize (S fuel) s = [] \/
  (exists t s', tokenize (S fuel) s = t :: tokenize fuel s' /\ plainToken t = true) \/
  (exists tag attrs raw tail',
     tokenize (S fuel) s =
       (TStart tag attrs
          :: (match raw with EmptyString => [] | _ => [TText raw] end)
          ++ tokenize fuel tail')%list /\
     isRawText tag = true /\
     (tokenize fuel tail' = [] \/ exists r, tokenize fuel tail' = TEnd tag :: r)).
Proof.
  destruct s as [| c s]; [now left |].
  destruct (Ascii.eqb c "<") eqn:Ec.
  2:{ right. left. rewrite (tokenize_text fuel c s Ec). eauto. }
  apply Ascii.eqb_eq in Ec. subst c.
  destruct s as [| c r].
  { right. left. exists (TText "<"), "". now rewrite tokenize_empty. }
  destruct (isLetter c) eqn:Hl.
  - rewrite (tokenize_open fuel c r Hl). cbv zeta.
    destruct (readAttrs _ _ []) as [[attrs tail] |]; [| now left].
    set (tag := lowerString (takeWhile (fun x => negb (isNameEnd x)) (String c r))).
    assert (Hraw : isRawText tag = inb tag RAW_TEXT_ELEMENTS)
      by (unfold isRawText, tag; now rewrite lowerString_idempotent).
    destruct (inb tag RAW_TEXT_ELEMENTS) eqn:E.
    + right. right.
      pose proof (breakBeforeEndTag_tail tag tail) as Htail.
      destruct (breakBeforeEndTag tag tail) as [raw tail']. cbn [snd] in Htail.
      exists tag, attrs, raw, tail'. split; [reflexivity |]. split; [exact Hraw |].
      now apply tokenize_after_raw.
    + right. left. exists (TStart tag attrs), tail. split; [reflexivity |].
      cbn [plainToken]. now rewrite Hraw.
  - destruct (Ascii.eqb c "!") eqn:E1.
    { apply Ascii.eqb_eq in E1. subst c.
      destruct (tokenize_comment fuel r) as (data & s' & ->). right. left. eauto. }
    destruct (Ascii.eqb c "?") eqn:E2.
    { apply Ascii.eqb_eq in E2. subst c.
      destruct (tokenize_bogus fuel r) as (data & s' & ->). right. left. eauto. }
    destruct (Ascii.eqb c "/") eqn:E3.
    { apply Ascii.eqb_eq in E3. subst c.
      destruct r as [| c body].
      - right. left. exists (TText "<"), "/". split; reflexivity.
      - rewrite tokenize_close. destruct (isLetter c).
        + cbv zeta. destruct (dropWhile _ body); [now left |].
          right. left. eauto.
        + right. left. eauto. }
    right. left. rewrite (tokenize_other fuel c r Hl E1 E2 E3). eauto.
Qed.

Lemma rawClosed_app_text raw toks :
  rawClosed ((match raw with EmptyString => [] | _ => [TText raw] end) ++ toks)%list
  = rawClosed toks.
Proof. now destruct raw. Qed.

Lemma rawTail_app_text tag raw toks :
  toks = [] \/ (exists r, toks = TEnd tag :: r) ->
  rawTail tag ((match raw with EmptyString => [] | _ => [TText raw] end) ++ toks)%list
  = true.
Proof.
  intros [-> | [r ->]]; destruct raw; cbn [app rawTail];
    try reflexivity; apply String.eqb_refl.
Qed.

Lemma tokenize_rawClosed fuel : forall s, rawClosed (tokenize fuel s) = true.
Proof.
  induction fuel as [| fuel IH]; intros s; [reflexivity |].
  destruct (tokenize_step fuel s)
    as [-> | [(t & s' & -> & Ht) | (tag & attrs & raw & tail' & -> & Hraw & Htail)]].
  - reflexivity.
  - destruct t as [d | d | tag attrs | tag]; cbn [rawClosed]; try apply IH.
    cbn [plainToken] in Ht. rewrite Ht. cbn [orb andb]. apply IH.
  - cbn [rawClosed]. rewrite rawClosed_app_text, IH, andb_true_r.
    rewrite (rawTail_app_text tag raw _ Htail). apply orb_true_r.
Qed.

Lemma rawClosed_tail t toks : rawClosed (t :: toks) = true -> rawClosed toks = true.
Proof.
  destruct t; cbn [rawClosed]; try easy.
  intros H. now apply andb_prop in H.
Qed.

Lemma dropHead_rawClosed toks : forall inside,
  rawClosed toks = true -> rawClosed (dropHead inside toks) = true.
Proof.
  induction toks as [| t toks IH]; intros inside Ht; [reflexivity |].
  pose proof (rawClosed_tail _ _ Ht) as Htoks.
  cbn [dropHead]. destruct inside as [tag |].
  - destruct t as [d | d | tag' attrs | tag']; try (now apply IH).
    destruct (String.eqb tag tag'); now apply IH.
  - destruct t as [d | d | tag' attrs | tag'].
    + destruct (dropWhile isHtmlSpace d); [now apply IH | exact Htoks].
    + now apply IH.
    + destruct (inb tag' HEAD_ELEMENTS); [now apply IH | exact Ht].
    + exact Ht.
Qed.

End ParserFacts.

Module ParserTreeFacts.
Import Chars CharsFacts RegExp Html DOMPurify Sanitize Markup MarkupTree
       TokenizerFacts TreeFacts ParserFacts.
Local Open Scope string_scope.

Lemma addNode_rawOk n kids :
  rawOk n = true -> forallb rawOk kids = true ->
  forallb rawOk (addNode n kids) = true.
Proof.
  intros Hn Hk. destruct n as [d | d | tag attrs cs];
    try (cbn [addNode forallb]; now rewrite Hn, Hk).
  destruct kids as [| [d0 | d0 | t0 a0 c0] rest];
    cbn [addNode forallb] in *; try (now rewrite Hk); reflexivity || exact Hk.
Qed.

Lemma plainStack_inv stack :
  plainStack stack = true ->
  stack <> [] /\ forallb kidsOk stack = true /\ forallb plainOpen stack = true.
Proof.
  destruct stack as [| o rest]; [discriminate |]. unfold plainStack.
  intros H. apply andb_prop in H. now split.
Qed.

Lemma plainStack_intro stack :
  stack <> [] -> forallb kidsOk stack = true -> forallb plainOpen stack = true ->
  plainStack stack = true.
Proof.
  destruct stack as [| o rest]; [easy |]. unfold plainStack. intros _ -> ->.
  reflexivity.
Qed.

Lemma addToTop_plain n stack :
  rawOk n = true -> plainStack stack = true ->
  plainStack (addToTop n stack) = true.
Proof.
  intros Hn Hs. destruct (plainStack_inv _ Hs) as (_ & Hk & Hp).
  destruct stack as [| o rest]; [discriminate |].
  cbn [addToTop]. cbn [forallb] in Hk, Hp.
  apply andb_prop in Hk. destruct Hk as [Ho Hk].
  apply andb_prop in Hp. destruct Hp as [Hpo Hp].
  apply plainStack_intro; [easy | |].
  - cbn [forallb]. rewrite Hk, andb_true_r. unfold kidsOk in *.
    cbn [openKids]. now apply addNode_rawOk.
  - cbn [forallb]. now rewrite Hp, andb_true_r.
Qed.

(** Closing the innermost element, plain or raw with text children only,
    leaves a stack of plain elements. *)
Lemma closeTop_plain o below :
  kidsOk o = true ->
  plainOpen o || forallb isText (openKids o) = true ->
  plainStack below = true ->
  plainStack (closeTop (o :: below)) = true.
Proof.
  intros Hk Ho Hb. destruct (plainStack_inv _ Hb) as (Hne & _ & _).
  destruct below as [| x rest]; [easy |].
  cbn [closeTop]. apply addToTop_plain; [| exact Hb].
  cbn [rawOk]. fold (forallb rawOk). unfold kidsOk in Hk.
  rewrite !forallb_rev, Hk, andb_true_r. exact Ho.
Qed.

Lemma closeTop_plainStack stack :
  plainStack stack = true -> plainStack (closeTop stack) = true.
Proof.
  intros Hs. destruct stack as [| o [| x rest]]; try exact Hs.
  destruct (plainStack_inv _ Hs) as (_ & Hk & Hp).
  cbn [forallb] in Hk, Hp.
  apply andb_prop in Hk. destruct Hk as [Ho Hk].
  apply andb_prop in Hp. destruct Hp as [Hpo Hp].
  apply closeTop_plain; [exact Ho | now rewrite Hpo |].
  now apply plainStack_intro.
Qed.

Lemma closeUntil_plain fuel tag : forall stack,
  plainStack stack = true -> plainStack (closeUntil fuel tag stack) = true.
Proof.
  induction fuel as [| fuel IH]; intros stack Hs; [now destruct stack |].
  destruct stack as [| o [| x rest]]; try exact Hs.
  cbn [closeUntil]. destruct (String.eqb (openTag o) tag).
  - now apply closeTop_plainStack.
  - apply IH. now apply closeTop_plainStack.
Qed.

Lemma closeAll_plain fuel : forall stack,
  plainStack stack = true -> forallb rawOk (closeAll fuel stack) = true.
Proof.
  assert (Hone : forall o, plainStack [o] = true ->
                           forallb rawOk (rev (openKids o)) = true).
  { intros o Ho. destruct (plainStack_inv _ Ho) as (_ & Hk & _).
    cbn [forallb] in Hk. rewrite andb_true_r in Hk.
    now rewrite forallb_rev. }
  induction fuel as [| fuel IH]; intros stack Hs.
  - destruct stack as [| o [| x rest]]; try reflexivity. now apply Hone.
  - destruct stack as [| o [| x rest]]; [reflexivity | now apply Hone |].
    cbn [closeAll]. apply IH. now apply closeTop_plainStack.
Qed.

Lemma rawOpen_text o toks :
  rawOpen o toks = true -> forallb isText (openKids o) = true.
Proof.
  unfold rawOpen. destruct (openKids o) as [| [d | d | t a c] [| k rest]];
    try discriminate; reflexivity.
Qed.

(** A stack in order is closed into well-formed elements. *)
Lemma stackOk_close stack toks :
  stackOk stack toks = true ->
  plainStack stack = true \/
  exists top x rest,
    stack = top :: x :: rest /\ plainOpen top = false /\
    rawOpen top toks = true /\
    plainStack (closeTop stack) = true.
Proof.
  destruct stack as [| top below]; [discriminate |].
  unfold stackOk. destruct (plainStack (top :: below)) eqn:Ep; [now left |].
  cbn [orb]. intros H.
  apply andb_prop in H. destruct H as [H Hraw].
  apply andb_prop in H. destruct H as [Hk Hb].
  right. destruct (plainStack_inv _ Hb) as (Hne & Hbk & Hbp).
  destruct below as [| x rest]; [easy |].
  exists top, x, rest. split; [reflexivity |].
  split.
  { destruct (plainOpen top) eqn:E; [| reflexivity].
    exfalso. rewrite plainStack_intro in Ep; [discriminate | easy | |].
    - cbn [forallb]. cbn [forallb] in Hbk. now rewrite Hk, Hbk.
    - cbn [forallb]. cbn [forallb] in Hbp. now rewrite E, Hbp. }
  split; [exact Hraw |].
  apply closeTop_plain; [exact Hk | | exact Hb].
  rewrite (rawOpen_text top toks Hraw). apply orb_true_r.
Qed.

Lemma plain_stackOk stack toks : plainStack stack = true -> stackOk stack toks = true.
Proof.
  intros H. destruct stack as [| o rest]; [discriminate |].
  unfold stackOk. now rewrite H.
Qed.

(** Whatever the input, a raw-text element of the tree the parser builds
    has text children only. *)
Lemma build_rawOk toks : forall stack,
  rawClosed toks = true -> stackOk stack toks = true ->
  forallb rawOk (build toks stack) = true.
Proof.
  induction toks as [| t toks IH]; intros stack Ht Hs.
  - cbn [build].
    destruct (stackOk_close _ _ Hs) as [Hp | (top & x & rest & -> & _ & _ & Hc)].
    + now apply closeAll_plain.
    + change (closeAll (length (top :: x :: rest)) (top :: x :: rest))
        with (closeAll (S (length rest)) (closeTop (top :: x :: rest))).
      now apply closeAll_plain.
  - pose proof (rawClosed_tail _ _ Ht) as Htoks.
    destruct (stackOk_close _ _ Hs) as [Hp | (top & x & rest & -> & Htop & Hraw & Hc)].
    + (* every open element is plain *)
      destruct t as [d | d | tag attrs | tag]; cbn [build].
      * apply IH; [exact Htoks |]. apply plain_stackOk. now apply addToTop_plain.
      * apply IH; [exact Htoks |]. apply plain_stackOk. now apply addToTop_plain.
      * assert (Hs' : plainStack
                        (if inb tag CLOSES_P && hasOpen "p" stack
                         then closeUntil (length stack) "p" stack else stack) = true).
        { destruct (inb tag CLOSES_P && hasOpen "p" stack);
            [now apply closeUntil_plain | exact Hp]. }
        destruct (inb tag VOID_ELEMENTS).
        -- apply IH; [exact Htoks |]. apply plain_stackOk.
           apply addToTop_plain; [| exact Hs'].
           cbn [rawOk forallb]. now rewrite orb_true_r.
        -- apply IH; [exact Htoks |].
           set (stack' := if inb tag CLOSES_P && hasOpen "p" stack
                          then closeUntil (length stack) "p" stack else stack) in *.
           destruct (plainStack_inv _ Hs') as (Hne & Hk & Hpl).
           unfold stackOk.
           cbn [rawClosed] in Ht. apply andb_prop in Ht. destruct Ht as [Htag _].
           destruct (isRawText tag) eqn:Eraw.
           ++ cbn [negb orb] in Htag.
              replace (plainStack (mkOpen tag attrs [] :: stack')) with false.
              2:{ symmetry. unfold plainStack. cbn [forallb].
                  unfold plainOpen at 1. cbn [openTag]. rewrite Eraw.
                  cbn [negb andb]. apply andb_false_r. }
              cbn [orb]. rewrite Hs'.
              unfold kidsOk at 1, rawOpen. cbn [openKids openTag forallb].
              now rewrite Htag.
           ++ rewrite plainStack_intro; [reflexivity | easy | |].
              ** cbn [forallb]. now rewrite Hk.
              ** cbn [forallb]. unfold plainOpen at 1. cbn [openTag].
                 now rewrite Eraw, Hpl.
      * destruct (hasOpen tag stack).
        -- apply IH; [exact Htoks |]. apply plain_stackOk. now apply closeUntil_plain.
        -- apply IH; [exact Htoks |]. now apply plain_stackOk.
    + (* the innermost open element is a raw-text element *)
      unfold rawOpen in Hraw.
      destruct t as [d | d | tag attrs | tag]; cbn [build].
      * (* its text *)
        destruct (openKids top) as [| [d0 | d0 | t0 a0 c0] [| k ks]] eqn:Ek;
          try discriminate.
        apply IH; [exact Htoks |]. cbn [addToTop]. rewrite Ek. cbn [addNode].
        unfold stackOk in Hs |- *.
        assert (Ep : plainStack (top :: x :: rest) = false).
        { unfold plainStack. cbn [forallb]. rewrite Htop. cbn [andb].
          apply andb_false_r. }
        rewrite Ep in Hs. cbn [orb] in Hs.
        apply andb_prop in Hs. destruct Hs as [Hs _].
        apply andb_prop in Hs. destruct Hs as [_ Hb].
        replace (plainStack (mkOpen (openTag top) (openAttrs top) [Text d] :: x :: rest))
          with false.
        2:{ symmetry. unfold plainStack. cbn [forallb].
            unfold plainOpen at 1. cbn [openTag].
            unfold plainOpen in Htop. rewrite Htop. cbn [andb]. apply andb_false_r. }
        cbn [orb]. rewrite Hb. unfold kidsOk at 1, rawOpen.
        cbn [openKids openTag forallb rawOk andb].
        cbn [rawTail] in Hraw. destruct toks as [| [| | |] toks']; try discriminate;
          [reflexivity | exact Hraw].
      * destruct (openKids top) as [| [d0 | d0 | t0 a0 c0] [| k ks]];
          discriminate.
      * destruct (openKids top) as [| [d0 | d0 | t0 a0 c0] [| k ks]];
          discriminate.
      * (* its end tag *)
        assert (Etag : String.eqb tag (openTag top) = true).
        { destruct (openKids top) as [| [d0 | d0 | t0 a0 c0] [| k ks]];
            try discriminate; exact Hraw. }
        apply String.eqb_eq in Etag. subst tag.
        cbn [hasOpen]. rewrite String.eqb_refl. cbn [orb length closeUntil].
        rewrite String.eqb_refl.
        apply IH; [exact Htoks |]. now apply plain_stackOk.
Qed.

Lemma parseBody_rawOk s : forallb rawOk (parseBody s) = true.
Proof.
  unfold parseBody. apply build_rawOk.
  - apply dropHead_rawClosed, tokenize_rawClosed.
  - reflexivity.
Qed.

Lemma initDocument_rawOk s : forallb rawOk (initDocument s) = true.
Proof.
  unfold initDocument. destruct (takeWhile isLeadingSpace s);
    [| cbn [forallb rawOk]]; apply parseBody_rawOk.
Qed.

End ParserTreeFacts.

Module ReadsFacts.
Import Chars CharsFacts RegExp Reads TokenizerFacts.
Local Open Scope string_scope.

Lemma allChars_append p a b :
  allChars p (a ++ b) = allChars p a && allChars p b.
Proof.
  induction a as [| x a IH]; [reflexivity |].
  change (String x a ++ b) with (String x (a ++ b)).
  cbn [allChars]. now rewrite IH, andb_assoc.
Qed.

(** What an expression reads before it hands over to its continuation. *)
Lemma matchAt_reads p i r : forall fuel s (k : string -> option nat) n,
  reads p i r = true ->
  matchAt i r fuel s k = Some n ->
  exists w rest, s = w ++ rest /\ allChars p w = true /\ k rest = Some n.
Proof.
  induction r as [| c | negated ranges | r1 IH1 r2 IH2 | r1 IH1 r2 IH2 | r1 IH1 |];
    intros fuel s k n Hr Hm; cbn [matchAt reads] in *.
  - exists "", s. now split.
  - destruct s as [| c' s']; [discriminate |].
    destruct (sameChar i c c') eqn:E; [| discriminate].
    exists (String c' ""), s'. split; [reflexivity |]. split; [| exact Hm].
    cbn [allChars]. rewrite andb_true_r.
    unfold sameChar in E. destruct i; apply Ascii.eqb_eq in E; now subst c'.
  - destruct s as [| c' s']; [discriminate |].
    destruct (xorb negated (inClass i ranges c')) eqn:E; [| discriminate].
    exists (String c' ""), s'. split; [reflexivity |]. split; [| exact Hm].
    cbn [allChars]. rewrite andb_true_r.
    exact (all_ascii_implies (fun x => xorb negated (inClass i ranges x)) p Hr c' E).
  - apply andb_prop in Hr. destruct Hr as [Hr1 Hr2].
    destruct (IH1 _ _ _ _ Hr1 Hm) as (w1 & rest1 & -> & Hw1 & Hk1).
    destruct (IH2 _ _ _ _ Hr2 Hk1) as (w2 & rest2 & -> & Hw2 & Hk2).
    exists (w1 ++ w2), rest2. split; [now rewrite append_associative |].
    split; [| exact Hk2]. now rewrite allChars_append, Hw1, Hw2.
  - apply andb_prop in Hr. destruct Hr as [Hr1 Hr2].
    destruct (matchAt i r1 fuel s k) as [m |] eqn:E1.
    + injection Hm as ->. now apply (IH1 _ _ _ _ Hr1 E1).
    + now apply (IH2 _ _ _ _ Hr2 Hm).
  - match type of Hm with
    | ?star fuel s = _ =>
      assert (Hstar : forall count s0, star count s0 = Some n ->
                exists w rest, s0 = w ++ rest /\ allChars p w = true /\ k rest = Some n)
    end.
    { induction count as [| count IHc]; intros s0 H0.
      - exists "", s0. now split.
      - cbn beta iota in H0.
        match type of H0 with
        | match ?m with _ => _ end = _ => destruct m as [m' |] eqn:E1
        end.
        + injection H0 as ->.
          destruct (IH1 _ _ _ _ Hr E1) as (w1 & rest1 & -> & Hw1 & Hk1).
          destruct (IHc _ Hk1) as (w2 & rest2 & -> & Hw2 & Hk2).
          exists (w1 ++ w2), rest2. split; [now rewrite append_associative |].
          split; [| exact Hk2]. now rewrite allChars_append, Hw1, Hw2.
        + exists "", s0. now split. }
    exact (Hstar fuel s Hm).
  - destruct s; [| discriminate]. exists "", "". now split.
Qed.

(** A string matched from its start to its end by [a], [b] and [$]. *)
Lemma exec_reads p re a b s :
  ignoreCase re = false ->
  pattern re = Cat a (Cat b Eol) ->
  reads p false a = true -> reads p false b = true ->
  exec re s <> None ->
  allChars p s = true.
Proof.
  intros Hi Hp Ha Hb Hm. unfold exec in Hm. rewrite Hi, Hp in Hm.
  destruct (matchAt _ _ _ _ _) as [n |] eqn:E; [| easy].
  cbn [matchAt] in E.
  destruct (matchAt_reads p false a _ _ _ _ Ha E) as (w1 & rest1 & -> & Hw1 & Hk1).
  destruct (matchAt_reads p false b _ _ _ _ Hb Hk1) as (w2 & rest2 & -> & Hw2 & Hk2).
  destruct rest2; [| discriminate].
  now rewrite !allChars_append, Hw1, Hw2.
Qed.

End ReadsFacts.

Module ScanFacts.
Import Chars CharsFacts RegExp Html DOMPurify Sanitize Markup Reads ReadsFacts
       TokenizerFacts.
Local Open Scope string_scope.

(** *** Cutting matches out of markup *)

Lemma attrOk_weaken (Q Q' : string * string -> bool) a :
  (forall x, Q x = true -> Q' x = true) -> attrOk Q a = true -> attrOk Q' a = true.
Proof.
  intros HQ. unfold attrOk. intros H.
  apply andb_prop in H. destruct H as [H Hq]. now rewrite H, (HQ _ Hq).
Qed.

Lemma attrsOk_weaken (Q Q' : string * string -> bool) attrs :
  (forall x, Q x = true -> Q' x = true) ->
  forallb (attrOk Q) attrs = true -> forallb (attrOk Q') attrs = true.
Proof.
  intros HQ. induction attrs as [| a attrs IH]; [reflexivity |].
  cbn [forallb]. intros H. apply andb_prop in H. destruct H as [Ha Hattrs].
  now rewrite (attrOk_weaken Q Q' a HQ Ha), IH.
Qed.

Lemma Markup_weaken (Q Q' : string * string -> bool) s :
  (forall x, Q x = true -> Q' x = true) -> Markup Q s -> Markup Q' s.
Proof.
  intros HQ. induction 1 as [| c s Hc _ IH | tag attrs s Ht Ha Hr _ IH
                             | tag s Ht _ IH | tag attrs raw s Ht Ha Hr Hraw _ IH].
  - constructor.
  - now constructor.
  - apply Markup_start; try assumption. now apply (attrsOk_weaken Q).
  - now apply Markup_end.
  - apply Markup_raw; try assumption. now apply (attrsOk_weaken Q).
Qed.

Lemma Clean_Tidy s : Clean s -> Tidy s.
Proof.
  apply Markup_weaken. intros [name value]. unfold notDangerous, notHandler, dangerousAttr.
  cbn [fst snd]. rewrite negb_orb. intros H. now apply andb_prop in H.
Qed.

Lemma append_length a b : String.length (a ++ b) = (String.length a + String.length b)%nat.
Proof.
  induction a as [| c a IH]; [reflexivity |].
  change (String c a ++ b) with (String c (a ++ b)).
  cbn [String.length]. now rewrite IH.
Qed.

Lemma skip_match w r :
  skip (String.length (w ++ r) - String.length r) (w ++ r) = r.
Proof.
  rewrite append_length.
  replace (String.length w + String.length r - String.length r)%nat
    with (String.length w) by lia.
  apply skip_length.
Qed.

Lemma noEndTag_tail c s : noEndTag (String c s) = true -> noEndTag s = true.
Proof. cbn [noEndTag]. intros H. now apply andb_prop in H. Qed.

Lemma hasChar_append_lt a b : hasChar "<" (a ++ b) = hasChar "<" a || hasChar "<" b.
Proof.
  induction a as [| x a IH]; [reflexivity |].
  change (String x a ++ b) with (String x (a ++ b)).
  cbn [hasChar]. now rewrite IH, orb_assoc.
Qed.

Lemma append_cons c a b : String c a ++ b = String c (a ++ b).
Proof. reflexivity. Qed.

Lemma append_nil_left a : "" ++ a = a.
Proof. reflexivity. Qed.

Lemma cons_eq a x b y : String a x = String b y -> a = b /\ x = y.
Proof. intros H. injection H as Ha Hx. now split. Qed.

Section Scan.

Variable Q : string * string -> bool.
Variable re : RegExp.RegExp.

(** What follows the markup. *)
Variable X : string.

(** The tests of [Q] look at the name only. *)
Hypothesis Q_name : forall name v v', Q (name, v) = Q (name, v').

(** A match starts with [<]. *)
Hypothesis match_lt : forall s n, exec re s = Some n -> exists y, s = String "<" y.

(** What is matched holds no double quote. *)
Hypothesis match_quote : forall s n,
  exec re s = Some n ->
  exists w r, s = w ++ r /\ String.length r = n /\ allChars notQuote w = true.

(** No match starts in the text of a raw-text element or at an end tag. *)
Hypothesis match_raw : forall raw tag rest n,
  noEndTag raw = true -> isRawText tag = true ->
  exec re (raw ++ String "<" (String "/" (tag ++ String ">" rest))) = Some n ->
  False.

Hypothesis match_end : forall y n,
  exec re (String "<" (String "/" y)) = Some n -> False.

(** Where a tag starts, cutting a match leaves markup, and what follows the
    markup. *)
Hypothesis match_data : forall s n,
  Markup Q s -> s <> "" -> exec re (s ++ X) = Some n ->
  exists s', Markup Q s' /\
    skip (String.length (s ++ X) - n) (s ++ X) = s' ++ X.

Lemma scan_copy fuel c s :
  (forall n, exec re (String c s) = Some n ->
             (n < String.length (String c s))%nat -> False) ->
  removeAllFrom re (S fuel) (String c s) = String c (removeAllFrom re fuel s).
Proof.
  intros Hno. cbn [removeAllFrom].
  destruct (exec re (String c s)) as [n |] eqn:E; [| reflexivity].
  destruct (Nat.ltb_spec n (String.length (String c s))) as [Hlt | _];
    [| reflexivity].
  exfalso. now apply (Hno n).
Qed.

Lemma scan_not_lt fuel c s :
  Ascii.eqb c "<" = false ->
  removeAllFrom re (S fuel) (String c s) = String c (removeAllFrom re fuel s).
Proof.
  intros Hc. apply scan_copy. intros n E _.
  destruct (match_lt _ _ E) as [y Hy]. injection Hy as -> _. discriminate Hc.
Qed.

Lemma removeAllFrom_empty fuel : removeAllFrom re fuel "" = "".
Proof.
  destruct fuel as [| fuel]; [reflexivity |]. cbn [removeAllFrom].
  destruct (exec re "") as [n |]; [| reflexivity].
  cbn [String.length]. destruct (Nat.ltb_spec n 0); [lia | reflexivity].
Qed.

(** A stretch without [<] is copied. *)
Lemma scan_plain t z : forall fuel,
  hasChar "<" t = false ->
  exists fuel', (fuel' <= fuel)%nat /\
    removeAllFrom re fuel (t ++ z) = t ++ removeAllFrom re fuel' z.
Proof.
  induction t as [| c t IH]; intros fuel Ht.
  - exists fuel. split; [lia | reflexivity].
  - cbn [hasChar] in Ht. apply orb_false_elim in Ht. destruct Ht as [Hc Ht].
    rewrite Ascii.eqb_sym in Hc.
    change (String c t ++ z) with (String c (t ++ z)).
    destruct fuel as [| fuel].
    + exists 0%nat. split; [lia | reflexivity].
    + rewrite (scan_not_lt fuel c _ Hc).
      destruct (IH fuel Ht) as (fuel' & Hle & ->).
      exists fuel'. split; [lia | reflexivity].
Qed.

Lemma quote_prefix w : forall r raw z,
  allChars notQuote w = true -> allChars notQuote raw = true ->
  w ++ r = raw ++ String quote z ->
  exists raw', raw = w ++ raw' /\ r = raw' ++ String quote z.
Proof.
  induction w as [| c w IH]; intros r raw z Hw Hraw E.
  - exists raw. now split.
  - cbn [allChars] in Hw. apply andb_prop in Hw. destruct Hw as [Hc Hw].
    destruct raw as [| x raw].
    + injection E as -> _. discriminate Hc.
    + injection E as -> E.
      cbn [allChars] in Hraw. apply andb_prop in Hraw. destruct Hraw as [_ Hraw].
      destruct (IH _ _ _ Hw Hraw E) as (raw' & -> & ->).
      exists raw'. now split.
Qed.

Lemma allChars_suffix p w raw : allChars p (w ++ raw) = true -> allChars p raw = true.
Proof. rewrite allChars_append. intros H. now apply andb_prop in H. Qed.

(** Inside a quoted value what is cut stays inside the value. *)
Lemma scan_value z : forall fuel raw,
  allChars notQuote raw = true ->
  exists raw' fuel', (fuel' <= fuel)%nat /\ allChars notQuote raw' = true /\
    removeAllFrom re fuel (raw ++ String quote z) =
    raw' ++ removeAllFrom re fuel' (String quote z).
Proof.
  induction fuel as [| fuel IH]; intros raw Hraw.
  - exists raw, 0%nat. split; [lia |]. split; [exact Hraw | reflexivity].
  - destruct raw as [| c raw].
    + exists "", (S fuel). split; [lia |]. split; reflexivity.
    + change (String c raw ++ String quote z) with (String c (raw ++ String quote z)).
      cbn [removeAllFrom].
      pose proof Hraw as Hall.
      cbn [allChars] in Hraw. apply andb_prop in Hraw. destruct Hraw as [Hc Hraw].
      assert (Hcopy :
        exists raw' fuel', (fuel' <= S fuel)%nat /\ allChars notQuote raw' = true /\
          String c (removeAllFrom re fuel (raw ++ String quote z)) =
          raw' ++ removeAllFrom re fuel' (String quote z)).
      { destruct (IH raw Hraw) as (raw' & fuel' & Hle & Hq & ->).
        exists (String c raw'), fuel'. split; [lia |]. split; [| reflexivity].
        cbn [allChars]. now rewrite Hc, Hq. }
      destruct (exec re (String c (raw ++ String quote z))) as [n |] eqn:E;
        [| exact Hcopy].
      destruct (Nat.ltb_spec n (String.length (String c (raw ++ String quote z))))
        as [Hlt | _]; [| exact Hcopy].
      destruct (match_quote _ _ E) as (w & r & Hs & Hn & Hw).
      change (String c (raw ++ String quote z)) with (String c raw ++ String quote z) in Hs.
      symmetry in Hs.
      destruct (quote_prefix w r (String c raw) z Hw Hall Hs) as (raw3 & Eraw & ->).
      change (String c (raw ++ String quote z)) with (String c raw ++ String quote z).
      rewrite Eraw, append_associative, <- Hn, skip_match.
      rewrite Eraw in Hall. apply allChars_suffix in Hall.
      destruct (IH raw3 Hall) as (raw' & fuel' & Hle & Hq & ->).
      exists raw', fuel'. split; [lia |]. now split.
Qed.

Lemma nameChar_not_lt c : nameChar c = true -> Ascii.eqb "<" c = false.
Proof.
  intros H.
  pose proof (all_ascii (fun c => implb (nameChar c) (negb (Ascii.eqb "<" c)))
                ltac:(vm_compute; reflexivity) c) as Hc.
  cbv beta in Hc. rewrite H in Hc. now apply negb_true_iff in Hc.
Qed.

Lemma name_no_lt n : allChars nameChar n = true -> hasChar "<" n = false.
Proof.
  induction n as [| c n IH]; [reflexivity |].
  cbn [allChars hasChar]. intros H. apply andb_prop in H. destruct H as [Hc Hn].
  now rewrite (nameChar_not_lt c Hc), IH.
Qed.

Lemma writeAttr_parts name raw z :
  writeAttr (name, raw) ++ z =
  (String " " (name ++ String "=" (String quote ""))) ++ (raw ++ String quote z).
Proof.
  unfold writeAttr. cbn [fst snd].
  change (String " " ((name ++ String "=" (String quote (raw ++ String quote ""))) ++ z) =
          String " " ((name ++ String "=" (String quote "")) ++ (raw ++ String quote z))).
  rewrite !append_associative.
  change (String "=" (String quote (raw ++ String quote "")) ++ z)
    with (String "=" (String quote ((raw ++ String quote "") ++ z))).
  now rewrite append_associative.
Qed.

Lemma writeAttrs_cons a l : writeAttrs (a :: l) = writeAttr a ++ writeAttrs l.
Proof. unfold writeAttrs. cbn [map]. now rewrite concat_cons. Qed.

Lemma scan_attrs z attrs : forall fuel,
  forallb (attrOk Q) attrs = true ->
  exists attrs' fuel', (fuel' <= fuel)%nat /\ forallb (attrOk Q) attrs' = true /\
    removeAllFrom re fuel (writeAttrs attrs ++ z) =
    writeAttrs attrs' ++ removeAllFrom re fuel' z.
Proof.
  induction attrs as [| [name raw] attrs IH]; intros fuel Ha.
  - exists [], fuel. split; [lia |]. split; reflexivity.
  - cbn [forallb] in Ha. apply andb_prop in Ha. destruct Ha as [Ha Hattrs].
    unfold attrOk in Ha. cbn [fst snd] in Ha.
    apply andb_prop in Ha. destruct Ha as [Ha HQ].
    apply andb_prop in Ha. destruct Ha as [Ha Hraw].
    apply andb_prop in Ha. destruct Ha as [Hne Hname].
    rewrite writeAttrs_cons, append_associative, writeAttr_parts.
    destruct (scan_plain (String " " (name ++ String "=" (String quote "")))
                (raw ++ String quote (writeAttrs attrs ++ z)) fuel)
      as (fuel1 & Hle1 & ->).
    { cbn [hasChar]. rewrite hasChar_append_lt, (name_no_lt name Hname). reflexivity. }
    destruct (scan_value (writeAttrs attrs ++ z) fuel1 raw Hraw)
      as (raw' & fuel2 & Hle2 & Hraw' & ->).
    destruct (scan_plain (String quote "") (writeAttrs attrs ++ z) fuel2 eq_refl)
      as (fuel3 & Hle3 & E3).
    change (String quote "" ++ ?x) with (String quote x) in E3. rewrite E3.
    destruct (IH fuel3 Hattrs) as (attrs' & fuel4 & Hle4 & Hattrs' & ->).
    exists ((name, raw') :: attrs'), fuel4. split; [lia |]. split.
    + cbn [forallb]. rewrite Hattrs', andb_true_r. unfold attrOk. cbn [fst snd].
      now rewrite Hne, Hname, Hraw', (Q_name _ (decode raw') (decode raw)), HQ.
    + now rewrite writeAttrs_cons, append_associative, writeAttr_parts.
Qed.

Lemma tagOk_no_lt tag : tagOk tag = true -> hasChar "<" tag = false.
Proof.
  intros Ht. destruct (tagOk_inv tag Ht) as (c & t & -> & _ & Hn).
  now apply name_no_lt.
Qed.

(** A start tag is copied, but for what is cut inside its values. *)
Lemma scan_start z tag attrs fuel :
  tagOk tag = true -> forallb (attrOk Q) attrs = true ->
  exists attrs' fuel', (fuel' <= fuel)%nat /\ forallb (attrOk Q) attrs' = true /\
    removeAllFrom re fuel (tag ++ writeAttrs attrs ++ String ">" z) =
    tag ++ writeAttrs attrs' ++ String ">" (removeAllFrom re fuel' z).
Proof.
  intros Ht Ha.
  destruct (scan_plain tag (writeAttrs attrs ++ String ">" z) fuel (tagOk_no_lt tag Ht))
    as (fuel1 & Hle1 & ->).
  destruct (scan_attrs (String ">" z) attrs fuel1 Ha)
    as (attrs' & fuel2 & Hle2 & Ha' & ->).
  destruct (scan_plain (String ">" "") z fuel2 eq_refl) as (fuel3 & Hle3 & E3).
  change (String ">" "" ++ ?x) with (String ">" x) in E3. rewrite E3.
  exists attrs', fuel3. split; [lia |]. now split.
Qed.

Lemma scan_end z tag fuel :
  tagOk tag = true ->
  exists fuel', (fuel' <= Nat.pred fuel)%nat /\
    removeAllFrom re fuel (String "<" (String "/" (tag ++ String ">" z))) =
    String "<" (String "/" (tag ++ String ">" (removeAllFrom re fuel' z))).
Proof.
  intros Ht. destruct fuel as [| fuel].
  { exists 0%nat. split; [lia | reflexivity]. }
  rewrite scan_copy by (intros n E _; exact (match_end _ _ E)).
  destruct (scan_plain (String "/" (tag ++ String ">" "")) z fuel) as (fuel1 & Hle1 & E1).
  { cbn [hasChar]. rewrite hasChar_append_lt, (tagOk_no_lt tag Ht). reflexivity. }
  change (String "/" (tag ++ String ">" "") ++ ?x)
    with (String "/" ((tag ++ String ">" "") ++ x)) in E1.
  rewrite !append_associative in E1.
  change (String ">" "" ++ ?x) with (String ">" x) in E1. rewrite E1.
  exists fuel1. split; [cbn [Nat.pred]; lia | reflexivity].
Qed.

Lemma scan_raw tag rest raw : forall fuel,
  noEndTag raw = true -> isRawText tag = true ->
  exists fuel', (fuel' <= fuel)%nat /\
    removeAllFrom re fuel (raw ++ String "<" (String "/" (tag ++ String ">" rest))) =
    raw ++ removeAllFrom re fuel' (String "<" (String "/" (tag ++ String ">" rest))).
Proof.
  induction raw as [| c raw IH]; intros fuel Hraw Htag.
  - exists fuel. split; [lia | reflexivity].
  - destruct fuel as [| fuel].
    { exists 0%nat. split; [lia | reflexivity]. }
    change (String c raw ++ ?x) with (String c (raw ++ x)).
    rewrite scan_copy.
    2:{ intros n E _.
        exact (match_raw (String c raw) tag rest n Hraw Htag E). }
    destruct (IH fuel (noEndTag_tail _ _ Hraw) Htag) as (fuel' & Hle & ->).
    exists fuel'. split; [lia | reflexivity].
Qed.

Lemma scan_tag fuel y :
  removeAllFrom re (S fuel) (String "<" y) =
  match exec re (String "<" y) with
  | Some n =>
    if (n <? String.length (String "<" y))%nat
    then removeAllFrom re fuel (skip (String.length (String "<" y) - n) (String "<" y))
    else String "<" (removeAllFrom re fuel y)
  | None => String "<" (removeAllFrom re fuel y)
  end.
Proof. reflexivity. Qed.

Lemma start_tag_app tag attrs s z :
  String "<" (tag ++ writeAttrs attrs ++ String ">" s) ++ z =
  String "<" (tag ++ writeAttrs attrs ++ String ">" (s ++ z)).
Proof. now rewrite append_cons, !append_associative, append_cons. Qed.

Lemma end_tag_app tag s z :
  String "<" (String "/" (tag ++ String ">" s)) ++ z =
  String "<" (String "/" (tag ++ String ">" (s ++ z))).
Proof. now rewrite !append_cons, append_associative, append_cons. Qed.

Lemma raw_app tag attrs raw s z :
  String "<" (tag ++ writeAttrs attrs
     ++ String ">" (raw ++ String "<" (String "/" (tag ++ String ">" s)))) ++ z =
  String "<" (tag ++ writeAttrs attrs
     ++ String ">" (raw ++ String "<" (String "/" (tag ++ String ">" (s ++ z))))).
Proof.
  now rewrite start_tag_app, append_associative, end_tag_app.
Qed.

(** Cutting the matches out of markup leaves markup; the scan then goes on
    with what follows. *)
Lemma removeAllFrom_markup fuel : forall s,
  Markup Q s ->
  exists s' fuel', (fuel' <= fuel)%nat /\ Markup Q s' /\
    removeAllFrom re fuel (s ++ X) = s' ++ removeAllFrom re fuel' X.
Proof.
  induction fuel as [fuel IH] using lt_wf_ind. intros s Hs.
  destruct fuel as [| fuel].
  { exists s, 0%nat. split; [lia |]. split; [exact Hs | reflexivity]. }
  assert (Hcut : forall n,
            s <> "" -> exec re (s ++ X) = Some n ->
            exists s' fuel', (fuel' <= S fuel)%nat /\ Markup Q s' /\
              removeAllFrom re fuel (skip (String.length (s ++ X) - n) (s ++ X))
              = s' ++ removeAllFrom re fuel' X).
  { intros n Hne E. destruct (match_data s n Hs Hne E) as (s0 & Hs0 & ->).
    destruct (IH fuel (Nat.lt_succ_diag_r _) s0 Hs0) as (s' & fuel' & Hle & Hs' & ->).
    exists s', fuel'. split; [lia |]. now split. }
  destruct Hs as [| c s Hc Hs | tag attrs s Ht Ha Hr Hs
                  | tag s Ht Hs | tag attrs raw s Ht Ha Hr Hraw Hs].
  - exists "", (S fuel). split; [lia |]. split; [constructor | reflexivity].
  - rewrite append_cons, (scan_not_lt fuel c (s ++ X) Hc).
    destruct (IH fuel (Nat.lt_succ_diag_r _) s Hs) as (s' & fuel' & Hle & Hs' & ->).
    exists (String c s'), fuel'. split; [lia |]. split; [now constructor | reflexivity].
  - assert (Hcopy : exists s' fuel', (fuel' <= S fuel)%nat /\ Markup Q s' /\
              String "<" (removeAllFrom re fuel
                            (tag ++ writeAttrs attrs ++ String ">" (s ++ X)))
              = s' ++ removeAllFrom re fuel' X).
    { destruct (scan_start (s ++ X) tag attrs fuel Ht Ha)
        as (attrs' & fuel1 & Hle1 & Ha' & ->).
      destruct (IH fuel1 ltac:(lia) s Hs) as (s' & fuel' & Hle & Hs' & ->).
      exists (String "<" (tag ++ writeAttrs attrs' ++ String ">" s')), fuel'.
      split; [lia |]. split; [now apply Markup_start |].
      now rewrite start_tag_app. }
    rewrite start_tag_app in Hcut |- *. rewrite scan_tag.
    destruct (exec re _) as [n |] eqn:E; [| exact Hcopy].
    destruct (Nat.ltb_spec n (String.length
                (String "<" (tag ++ writeAttrs attrs ++ String ">" (s ++ X)))))
      as [Hlt | _]; [| exact Hcopy].
    apply (Hcut n); [discriminate | reflexivity].
  - rewrite end_tag_app.
    destruct (scan_end (s ++ X) tag (S fuel) Ht) as (fuel1 & Hle1 & ->).
    cbn [Nat.pred] in Hle1.
    destruct (IH fuel1 ltac:(lia) s Hs) as (s' & fuel' & Hle & Hs' & ->).
    exists (String "<" (String "/" (tag ++ String ">" s'))), fuel'.
    split; [lia |]. split; [now apply Markup_end |]. now rewrite end_tag_app.
  - assert (Hcopy : exists s' fuel', (fuel' <= S fuel)%nat /\ Markup Q s' /\
              String "<" (removeAllFrom re fuel
                 (tag ++ writeAttrs attrs ++ String ">"
                    (raw ++ String "<" (String "/" (tag ++ String ">" (s ++ X))))))
              = s' ++ removeAllFrom re fuel' X).
    { destruct (scan_start (raw ++ String "<" (String "/" (tag ++ String ">" (s ++ X))))
                  tag attrs fuel Ht Ha) as (attrs' & fuel1 & Hle1 & Ha' & ->).
      destruct (scan_raw tag (s ++ X) raw fuel1 Hraw Hr) as (fuel2 & Hle2 & ->).
      destruct (scan_end (s ++ X) tag fuel2 Ht) as (fuel3 & Hle3 & ->).
      destruct (IH fuel3 ltac:(lia) s Hs) as (s' & fuel' & Hle & Hs' & ->).
      exists (String "<" (tag ++ writeAttrs attrs' ++ String ">"
                (raw ++ String "<" (String "/" (tag ++ String ">" s'))))), fuel'.
      split; [lia |]. split; [now apply Markup_raw |].
      now rewrite raw_app. }
    rewrite raw_app in Hcut |- *. rewrite scan_tag.
    destruct (exec re _) as [n |] eqn:E; [| exact Hcopy].
    destruct (Nat.ltb_spec n (String.length
                (String "<" (tag ++ writeAttrs attrs ++ String ">"
                   (raw ++ String "<" (String "/" (tag ++ String ">" (s ++ X))))))))
      as [Hlt | _]; [| exact Hcopy].
    apply (Hcut n); [discriminate | reflexivity].
Qed.

(** An element [strong] that holds text is copied. *)
Lemma scan_strong t z fuel :
  (forall y n, exec re (String "<" (String "s" y)) = Some n -> False) ->
  hasChar "<" t = false ->
  exists fuel', (fuel' <= fuel)%nat /\
    removeAllFrom re fuel ("<strong>" ++ t ++ "</strong>" ++ z) =
    "<strong>" ++ t ++ "</strong>" ++ removeAllFrom re fuel' z.
Proof.
  intros Hno Ht. destruct fuel as [| fuel].
  { exists 0%nat. split; [lia | reflexivity]. }
  rewrite append_cons, scan_copy by (intros n E _; exact (Hno _ _ E)).
  destruct (scan_plain ("strong>" ++ t) ("</strong>" ++ z) fuel) as (fuel1 & Hle1 & E1).
  { rewrite hasChar_append_lt, Ht. reflexivity. }
  rewrite append_associative in E1. rewrite E1.
  destruct (scan_end z "strong" fuel1 eq_refl) as (fuel2 & Hle2 & E2).
  change (String "<" (String "/" ("strong" ++ String ">" ?x)))
    with ("</strong>" ++ x) in E2.
  rewrite E2. exists fuel2. split; [lia |].
  rewrite append_associative. reflexivity.
Qed.

End Scan.

(** *** The two expressions of [sanitizeForOutput] *)

Lemma lowerString_append a b : lowerString (a ++ b) = lowerString a ++ lowerString b.
Proof.
  induction a as [| x a IH]; [reflexivity |].
  change (String x a ++ b) with (String x (a ++ b)).
  cbn [lowerString]. now rewrite IH.
Qed.

Lemma lowerString_split s : forall a b,
  lowerString s = a ++ b ->
  exists w r, s = w ++ r /\ lowerString w = a /\ lowerString r = b.
Proof.
  intros a. revert s. induction a as [| x a IH]; intros s b H.
  - exists "", s. now split.
  - destruct s as [| c s]; [discriminate |].
    cbn [lowerString] in H. change (String x a ++ b) with (String x (a ++ b)) in H.
    injection H as Hc Hs. destruct (IH s b Hs) as (w & r & -> & Hw & Hr).
    exists (String c w), r. split; [reflexivity |].
    split; [cbn [lowerString]; now rewrite Hc, Hw | exact Hr].
Qed.

Lemma lower_is_lt c : lower c = "<"%char -> c = "<"%char.
Proof.
  intros H. apply Ascii.eqb_eq, lower_lt. rewrite H. reflexivity.
Qed.

Lemma lower_is_slash c : lower c = "/"%char -> c = "/"%char.
Proof.
  intros H. symmetry. apply Ascii.eqb_eq, lower_slash. rewrite H. reflexivity.
Qed.

Lemma lower_is_gt c : lower c = ">"%char -> c = ">"%char.
Proof.
  intros H. apply Ascii.eqb_eq. revert c H.
  assert (Hall : forall c, Ascii.eqb (lower c) ">" = true -> Ascii.eqb c ">" = true).
  { apply all_ascii_implies. vm_compute. reflexivity. }
  intros c H. apply Hall. rewrite H. reflexivity.
Qed.

Lemma whiteSpace_lower c : isWhiteSpace (lower c) = true -> isWhiteSpace c = true.
Proof. revert c. apply all_ascii_implies. vm_compute. reflexivity. Qed.

Lemma whiteSpace_not_lt c : isWhiteSpace c = true -> Ascii.eqb c "<" = false.
Proof.
  intros H. apply negb_true_iff. revert c H.
  apply (all_ascii_implies isWhiteSpace (fun c => negb (Ascii.eqb c "<"))).
  vm_compute. reflexivity.
Qed.

Lemma whiteSpaces_lower w :
  allChars isWhiteSpace (lowerString w) = true -> allChars isWhiteSpace w = true.
Proof.
  induction w as [| c w IH]; [reflexivity |].
  cbn [lowerString allChars]. intros H. apply andb_prop in H. destruct H as [Hc Hw].
  now rewrite (whiteSpace_lower c Hc), IH.
Qed.

Lemma notQuote_lower c : notQuote (lower c) = true -> notQuote c = true.
Proof. revert c. apply all_ascii_implies. vm_compute. reflexivity. Qed.

Lemma notQuotes_lower w :
  allChars notQuote (lowerString w) = true -> allChars notQuote w = true.
Proof.
  induction w as [| c w IH]; [reflexivity |].
  cbn [lowerString allChars]. intros H. apply andb_prop in H. destruct H as [Hc Hw].
  now rewrite (notQuote_lower c Hc), IH.
Qed.

Lemma notLt_hasChar w : allChars notLt w = true -> hasChar "<" w = false.
Proof.
  induction w as [| c w IH]; [reflexivity |].
  cbn [allChars hasChar]. intros H. apply andb_prop in H. destruct H as [Hc Hw].
  rewrite (IH Hw), orb_false_r. unfold notLt in Hc. apply negb_true_iff in Hc.
  now rewrite Ascii.eqb_sym.
Qed.

Lemma sameChar_eq i c c' :
  sameChar i c c' = true -> c' = (if i then lower c else c).
Proof. unfold sameChar. destruct i; apply Ascii.eqb_eq. Qed.

(** A literal matches itself, in lower case under the [i] flag. *)
Lemma matchAt_Str i lit : forall fuel s (k : string -> option nat) n,
  matchAt i (Str lit) fuel s k = Some n ->
  exists s', s = (if i then lowerString lit else lit) ++ s' /\ k s' = Some n.
Proof.
  induction lit as [| c lit IH]; intros fuel s k n H.
  - exists s. split; [now destruct i | exact H].
  - destruct lit as [| c2 lit].
    + cbn [Str matchAt] in H. destruct s as [| c' s']; [discriminate |].
      destruct (sameChar i c c') eqn:E; [| discriminate].
      apply sameChar_eq in E. exists s'. split; [| exact H].
      subst c'. now destruct i.
    + change (Str (String c (String c2 lit)))
        with (Cat (Chr c) (Str (String c2 lit))) in H.
      cbn [matchAt] in H. destruct s as [| c' s']; [discriminate |].
      destruct (sameChar i c c') eqn:E; [| discriminate].
      apply sameChar_eq in E.
      destruct (IH _ _ _ _ H) as (s'' & -> & Hk). exists s''. split; [| exact Hk].
      subst c'. now destruct i.
Qed.

(** What [/<p>\s*<\/p>/gi] matches. *)
Lemma EMPTY_PARAGRAPH_match s n :
  exec EMPTY_PARAGRAPH s = Some n ->
  exists ws r, lowerString s = "<p>" ++ ws ++ "</p>" ++ r /\
               allChars isWhiteSpace ws = true /\ String.length r = n.
Proof.
  unfold exec, EMPTY_PARAGRAPH. cbn [ignoreCase pattern].
  generalize (String.length (lowerString s)) as fuel. intros fuel H.
  change (matchAt true (Str "<p>") fuel (lowerString s)
            (fun s' => matchAt true (Star Space) fuel s'
               (fun s'' => matchAt true (Str "</p>") fuel s'' unread)) = Some n) in H.
  apply matchAt_Str in H. destruct H as (s1 & E1 & H).
  apply (matchAt_reads isWhiteSpace) in H; [| vm_compute; reflexivity].
  destruct H as (ws & s2 & -> & Hws & H).
  apply matchAt_Str in H. destruct H as (r & -> & H).
  injection H as <-. exists ws, r. split; [exact E1 |]. now split.
Qed.

(** What [/<br\s*\/?>\s*$/gi] matches reaches the end of the string. *)
Lemma TRAILING_BREAK_match s n :
  exec TRAILING_BREAK s = Some n ->
  n = 0%nat /\ exists u, lowerString s = "<br" ++ u /\ hasChar "<" u = false.
Proof.
  unfold exec, TRAILING_BREAK. cbn [ignoreCase pattern].
  generalize (String.length (lowerString s)) as fuel. intros fuel H.
  change (matchAt true (Str "<br") fuel (lowerString s)
            (fun s' => matchAt true
               (Cat (Star Space) (Cat (Opt (Chr "/")) (Cat (Chr ">") (Star Space))))
               fuel s'
               (fun s'' => matchAt true Eol fuel s'' unread)) = Some n) in H.
  apply matchAt_Str in H. destruct H as (s1 & E1 & H).
  apply (matchAt_reads notLt) in H; [| vm_compute; reflexivity].
  destruct H as (u & s2 & -> & Hu & H).
  cbn [matchAt] in H. destruct s2; [| discriminate].
  injection H as <-. split; [reflexivity |].
  exists u. rewrite append_nil_right in E1. split; [exact E1 |].
  now apply notLt_hasChar.
Qed.

Lemma exec_lt s n :
  exec EMPTY_PARAGRAPH s = Some n \/ exec TRAILING_BREAK s = Some n ->
  exists y, s = String "<" y.
Proof.
  intros H.
  assert (Hl : exists x, lowerString s = String "<" x).
  { destruct H as [H | H].
    - apply EMPTY_PARAGRAPH_match in H. destruct H as (ws & r & E & _). eauto.
    - apply TRAILING_BREAK_match in H. destruct H as (_ & u & E & _). eauto. }
  destruct Hl as (x & E). destruct s as [| c s]; [discriminate |].
  cbn [lowerString] in E. injection E as Hc _.
  apply lower_is_lt in Hc. subst c. eauto.
Qed.

Lemma exec_quote re s n :
  ignoreCase re = true -> reads notQuote true (pattern re) = true ->
  exec re s = Some n ->
  exists w r, s = w ++ r /\ String.length r = n /\ allChars notQuote w = true.
Proof.
  intros Hi Hr. unfold exec. rewrite Hi. intros H.
  apply (matchAt_reads notQuote) in H; [| exact Hr].
  destruct H as (w' & r' & E & Hw & H). injection H as <-.
  destruct (lowerString_split _ _ _ E) as (w & r & -> & <- & <-).
  exists w, r. split; [reflexivity |]. split; [now rewrite length_lower |].
  now apply notQuotes_lower.
Qed.

Lemma raw_tag_lower tag :
  isRawText tag = true -> exists t, lowerString tag = String "s" t.
Proof.
  unfold isRawText, RAW_TEXT_ELEMENTS, inb. cbn [existsb]. intros H.
  apply orb_prop in H. destruct H as [H | H].
  - apply String.eqb_eq in H. rewrite H. eauto.
  - rewrite orb_false_r in H. apply String.eqb_eq in H. rewrite H. eauto.
Qed.

Lemma EMPTY_PARAGRAPH_end y n :
  exec EMPTY_PARAGRAPH (String "<" (String "/" y)) = Some n -> False.
Proof.
  intros H. apply EMPTY_PARAGRAPH_match in H. destruct H as (ws & r & E & _).
  cbn [lowerString] in E. rewrite !append_cons in E.
  apply cons_eq in E; destruct E as [H0 E]. apply cons_eq in E; destruct E as [H1 E]. vm_compute in H1. discriminate H1.
Qed.

Lemma TRAILING_BREAK_end y n :
  exec TRAILING_BREAK (String "<" (String "/" y)) = Some n -> False.
Proof.
  intros H. apply TRAILING_BREAK_match in H. destruct H as (_ & u & E & _).
  cbn [lowerString] in E. rewrite !append_cons in E.
  apply cons_eq in E; destruct E as [H0 E]. apply cons_eq in E; destruct E as [H1 E]. vm_compute in H1. discriminate H1.
Qed.

(** White space and then [</p>] is not what precedes and starts the end tag
    of a raw-text element. *)
Lemma no_paragraph_end tag rest r ws : forall raw,
  allChars isWhiteSpace ws = true -> noEndTag raw = true -> isRawText tag = true ->
  lowerString (raw ++ String "<" (String "/" (tag ++ String ">" rest)))
  = ws ++ "</p>" ++ r ->
  False.
Proof.
  induction ws as [| x ws IH]; intros raw Hws Hraw Htag E.
  - rewrite append_nil_left, !append_cons in E.
    destruct raw as [| c raw].
    + rewrite append_nil_left in E. cbn [lowerString] in E.
      rewrite lowerString_append in E.
      destruct (raw_tag_lower tag Htag) as (t & Et). rewrite Et, append_cons in E.
      apply cons_eq in E; destruct E as [H0 E]. apply cons_eq in E; destruct E as [H1 E]. apply cons_eq in E; destruct E as [H2 E]. discriminate H2.
    + rewrite append_cons in E. cbn [lowerString] in E. apply cons_eq in E; destruct E as [Hc E].
      apply lower_is_lt in Hc. subst c.
      destruct raw as [| c' raw].
      * rewrite append_nil_left in E. cbn [lowerString] in E.
        apply cons_eq in E; destruct E as [H0 E]. vm_compute in H0. discriminate H0.
      * rewrite append_cons in E. cbn [lowerString] in E. apply cons_eq in E; destruct E as [Hc E].
        apply lower_is_slash in Hc. subst c'. cbn in Hraw. discriminate Hraw.
  - cbn [allChars] in Hws. apply andb_prop in Hws. destruct Hws as [Hx Hws].
    rewrite append_cons in E. destruct raw as [| c raw].
    + rewrite append_nil_left in E. cbn [lowerString] in E. apply cons_eq in E; destruct E as [Hc E].
      vm_compute in Hc. subst x. vm_compute in Hx. discriminate Hx.
    + rewrite append_cons in E. cbn [lowerString] in E. apply cons_eq in E; destruct E as [Hc E].
      exact (IH raw Hws (noEndTag_tail _ _ Hraw) Htag E).
Qed.

Lemma EMPTY_PARAGRAPH_raw raw tag rest n :
  noEndTag raw = true -> isRawText tag = true ->
  exec EMPTY_PARAGRAPH (raw ++ String "<" (String "/" (tag ++ String ">" rest)))
  = Some n ->
  False.
Proof.
  intros Hraw Htag H. apply EMPTY_PARAGRAPH_match in H.
  destruct H as (ws & r & E & Hws & _). rewrite !append_cons, append_nil_left in E.
  destruct raw as [| c0 raw].
  { rewrite append_nil_left in E. cbn [lowerString] in E.
    apply cons_eq in E; destruct E as [H0 E]. apply cons_eq in E; destruct E as [H1 E]. vm_compute in H1. discriminate H1. }
  rewrite append_cons in E. cbn [lowerString] in E. apply cons_eq in E; destruct E as [H0 E].
  apply noEndTag_tail in Hraw. destruct raw as [| c1 raw].
  { rewrite append_nil_left in E. cbn [lowerString] in E.
    apply cons_eq in E; destruct E as [H1 E]. vm_compute in H1. discriminate H1. }
  rewrite append_cons in E. cbn [lowerString] in E. apply cons_eq in E; destruct E as [H1 E].
  apply noEndTag_tail in Hraw. destruct raw as [| c2 raw].
  { rewrite append_nil_left in E. cbn [lowerString] in E.
    apply cons_eq in E; destruct E as [H2 E]. vm_compute in H2. discriminate H2. }
  rewrite append_cons in E. cbn [lowerString] in E. apply cons_eq in E; destruct E as [H2 E].
  apply noEndTag_tail in Hraw.
  exact (no_paragraph_end tag rest r ws raw Hws Hraw Htag E).
Qed.

Lemma TRAILING_BREAK_raw raw tag rest n :
  noEndTag raw = true -> isRawText tag = true ->
  exec TRAILING_BREAK (raw ++ String "<" (String "/" (tag ++ String ">" rest)))
  = Some n ->
  False.
Proof.
  intros _ _ H. apply TRAILING_BREAK_match in H. destruct H as (_ & u & E & Hu).
  rewrite !append_cons, append_nil_left in E.
  destruct raw as [| c raw].
  - rewrite append_nil_left in E. cbn [lowerString] in E.
    apply cons_eq in E; destruct E as [H0 E]. apply cons_eq in E; destruct E as [H1 E]. vm_compute in H1. discriminate H1.
  - rewrite append_cons in E. cbn [lowerString] in E. apply cons_eq in E; destruct E as [H0 E].
    assert (Hlt : hasChar "<" (String "b" (String "r" u)) = false).
    { cbn [hasChar]. rewrite Hu. reflexivity. }
    rewrite <- E, lowerString_append, hasChar_append_lt in Hlt.
    cbn [lowerString hasChar] in Hlt.
    change (Ascii.eqb "<" (lower "<")) with true in Hlt.
    rewrite orb_true_l, orb_true_r in Hlt. discriminate Hlt.
Qed.

Lemma skip_all s : skip (String.length s) s = "".
Proof.
  rewrite <- (append_nil_right s) at 2. apply skip_length.
Qed.

(** A start or end tag whose name is one character long. *)
Lemma short_tag tag s c x :
  tagOk tag = true -> tag ++ String ">" s = String c (String ">" x) ->
  tag = String c "" /\ s = x.
Proof.
  intros Ht E. destruct (tagOk_inv tag Ht) as (c' & t & -> & _ & Hn).
  rewrite append_cons in E. apply cons_eq in E; destruct E as [Hc E]. subst c'.
  destruct t as [| x1 t].
  - rewrite append_nil_left in E. apply cons_eq in E; destruct E as [Hc E]. now split.
  - rewrite append_cons in E. apply cons_eq in E; destruct E as [Hc E]. subst x1.
    cbn [allChars] in Hn. apply andb_prop in Hn. destruct Hn as [_ Hn].
    apply andb_prop in Hn. destruct Hn as [Hn _].
    apply nameChar_not_gt in Hn. discriminate Hn.
Qed.

Lemma short_start_tag tag attrs s c x :
  tagOk tag = true ->
  tag ++ writeAttrs attrs ++ String ">" s = String c (String ">" x) ->
  tag = String c "" /\ s = x.
Proof.
  intros Ht E. destruct attrs as [| [name v] attrs].
  - change (writeAttrs []) with "" in E. rewrite append_nil_left in E.
    now apply short_tag.
  - exfalso. destruct (tagOk_inv tag Ht) as (c' & t & -> & _ & Hn).
    rewrite append_cons in E. apply cons_eq in E; destruct E as [Hc E]. subst c'.
    rewrite writeAttrs_cons in E. unfold writeAttr in E. cbn [fst snd] in E.
    destruct t as [| x1 t].
    + rewrite append_nil_left, !append_associative, append_cons in E.
      apply cons_eq in E; destruct E as [Hc E]. discriminate Hc.
    + rewrite append_cons in E. apply cons_eq in E; destruct E as [Hc E]. subst x1.
      cbn [allChars] in Hn. apply andb_prop in Hn. destruct Hn as [_ Hn].
      apply andb_prop in Hn. destruct Hn as [Hn _].
      apply nameChar_not_gt in Hn. discriminate Hn.
Qed.

Lemma Markup_tail Q c s : Ascii.eqb c "<" = false -> Markup Q (String c s) -> Markup Q s.
Proof.
  intros Hc H. inversion H; subst; try assumption; discriminate Hc.
Qed.

Lemma one_letter_not_raw c : lower c = "p"%char -> isRawText (String c "") = false.
Proof. intros H. unfold isRawText. cbn [lowerString]. now rewrite H. Qed.

Section Next.

Variable Q : string * string -> bool.

(** What follows the markup: nothing, or a start tag. *)
Variable X : string.
Hypothesis X_tag :
  X = "" \/ exists d y, X = String "<" (String d y) /\ isLetter d = true.

Lemma X_not_space c y : X = String c y -> isWhiteSpace c = true -> False.
Proof.
  intros E Hc. destruct X_tag as [E0 | (d & y' & E0 & _)]; rewrite E0 in E.
  - discriminate E.
  - apply cons_eq in E; destruct E as [H0 E]. subst c. vm_compute in Hc. discriminate Hc.
Qed.

Lemma X_not_end y : X = String "<" (String "/" y) -> False.
Proof.
  intros E. destruct X_tag as [E0 | (d & y' & E0 & Hd)]; rewrite E0 in E.
  - discriminate E.
  - apply cons_eq in E; destruct E as [H0 E]. apply cons_eq in E; destruct E as [H1 E]. subst d. vm_compute in Hd. discriminate Hd.
Qed.

(** After white space, the markup goes on to the end tag. *)
Lemma Markup_to_end_tag y : forall w s,
  allChars isWhiteSpace w = true -> Markup Q s ->
  s ++ X = w ++ String "<" (String "/" y) ->
  exists s1, Markup Q s1 /\ s1 <> "" /\ s1 ++ X = String "<" (String "/" y).
Proof.
  induction w as [| c w IH]; intros s Hw Hs E.
  - rewrite append_nil_left in E. destruct s as [| c0 s].
    + rewrite append_nil_left in E. exfalso. exact (X_not_end _ E).
    + exists (String c0 s). split; [exact Hs |]. split; [discriminate | exact E].
  - cbn [allChars] in Hw. apply andb_prop in Hw. destruct Hw as [Hc Hw].
    rewrite append_cons in E. destruct s as [| c0 s].
    + rewrite append_nil_left in E. exfalso. exact (X_not_space _ _ E Hc).
    + rewrite append_cons in E. apply cons_eq in E; destruct E as [H0 E]. subst c0.
      apply (IH s Hw); [| exact E].
      exact (Markup_tail Q c s (whiteSpace_not_lt c Hc) Hs).
Qed.

(** Markup from which an empty paragraph is cut. *)
Lemma Markup_cut_paragraph c1 e2 w r s :
  lower c1 = "p"%char -> allChars isWhiteSpace w = true ->
  Markup Q s -> s <> "" ->
  s ++ X = String "<" (String c1 (String ">"
             (w ++ String "<" (String "/" (String e2 (String ">" r)))))) ->
  exists s', Markup Q s' /\ r = s' ++ X.
Proof.
  intros Hc1 Hw Hs Hne E.
  destruct Hs as [| c s Hc Hs | tag attrs s Ht Ha Hr Hs
                  | tag s Ht Hs | tag attrs raw s Ht Ha Hr Hraw Hs].
  - now contradiction Hne.
  - rewrite append_cons in E. apply cons_eq in E; destruct E as [H0 E]. subst c. discriminate Hc.
  - rewrite start_tag_app in E. apply cons_eq in E; destruct E as [H0 E].
    destruct (short_start_tag _ _ _ _ _ Ht E) as [_ E1].
    destruct (Markup_to_end_tag _ w s Hw Hs E1) as (s1 & Hs1 & Hne1 & E2).
    destruct Hs1 as [| c s1 Hc Hs1 | tag' attrs' s1 Ht' Ha' Hr' Hs1
                     | tag' s1 Ht' Hs1 | tag' attrs' raw' s1 Ht' Ha' Hr' Hraw' Hs1].
    + now contradiction Hne1.
    + rewrite append_cons in E2. apply cons_eq in E2; destruct E2 as [H1 E2]. subst c. discriminate Hc.
    + rewrite start_tag_app in E2. apply cons_eq in E2; destruct E2 as [H1 E2].
      destruct (tagOk_inv tag' Ht') as (x & t & -> & Hl & _).
      rewrite append_cons in E2. apply cons_eq in E2; destruct E2 as [H2 E2]. subst x. discriminate Hl.
    + rewrite end_tag_app in E2. apply cons_eq in E2; destruct E2 as [H1 E2]. apply cons_eq in E2; destruct E2 as [H2 E2].
      destruct (short_tag _ _ _ _ Ht' E2) as [_ <-]. now exists s1.
    + rewrite raw_app in E2. apply cons_eq in E2; destruct E2 as [H1 E2].
      destruct (tagOk_inv tag' Ht') as (x & t & -> & Hl & _).
      rewrite append_cons in E2. apply cons_eq in E2; destruct E2 as [H2 E2]. subst x. discriminate Hl.
  - rewrite end_tag_app in E. apply cons_eq in E; destruct E as [H0 E]. apply cons_eq in E; destruct E as [H1 E]. subst c1.
    vm_compute in Hc1. discriminate Hc1.
  - rewrite raw_app in E. apply cons_eq in E; destruct E as [H0 E].
    destruct (short_start_tag _ _ _ _ _ Ht E) as [-> _].
    rewrite (one_letter_not_raw c1 Hc1) in Hr. discriminate Hr.
Qed.

Lemma EMPTY_PARAGRAPH_data s n :
  Markup Q s -> s <> "" -> exec EMPTY_PARAGRAPH (s ++ X) = Some n ->
  exists s', Markup Q s' /\
    skip (String.length (s ++ X) - n) (s ++ X) = s' ++ X.
Proof.
  intros Hs Hne H. apply EMPTY_PARAGRAPH_match in H.
  destruct H as (ws & r' & E & Hws & <-).
  rewrite !append_cons, append_nil_left in E.
  destruct (s ++ X) as [| c0 [| c1 [| c2 sX]]] eqn:EsX; try discriminate E.
  cbn [lowerString] in E. apply cons_eq in E; destruct E as [H0 E]. apply cons_eq in E; destruct E as [H1 E]. apply cons_eq in E; destruct E as [H2 E].
  apply lower_is_lt in H0. apply lower_is_gt in H2. subst c0 c2.
  destruct (lowerString_split _ _ _ E) as (w & s4 & -> & <- & E4).
  destruct s4 as [| e0 [| e1 [| e2 [| e3 r]]]]; try discriminate E4.
  cbn [lowerString] in E4. apply cons_eq in E4; destruct E4 as [H0 E4]. apply cons_eq in E4; destruct E4 as [H2 E4]. apply cons_eq in E4; destruct E4 as [H4 E4]. apply cons_eq in E4; destruct E4 as [H3 E4].
  rewrite append_nil_left in E4. subst r'.
  apply lower_is_lt in H0. apply lower_is_slash in H2. apply lower_is_gt in H3.
  subst e0 e1 e3. apply whiteSpaces_lower in Hws.
  rewrite length_lower.
  destruct (Markup_cut_paragraph c1 e2 w r s H1 Hws Hs Hne EsX) as (s' & Hs' & Er).
  exists s'. split; [exact Hs' |]. rewrite <- Er.
  replace (String "<" (String c1 (String ">"
             (w ++ String "<" (String "/" (String e2 (String ">" r)))))))
    with ((String "<" (String c1 (String ">"
             (w ++ String "<" (String "/" (String e2 (String ">" ""))))))) ++ r).
  2:{ rewrite !append_cons, append_associative, !append_cons, append_nil_left.
      reflexivity. }
  apply skip_match.
Qed.

Lemma TRAILING_BREAK_data s n :
  Markup Q s -> s <> "" -> exec TRAILING_BREAK (s ++ X) = Some n ->
  exists s', Markup Q s' /\
    skip (String.length (s ++ X) - n) (s ++ X) = s' ++ X.
Proof.
  intros _ Hne H. apply TRAILING_BREAK_match in H. destruct H as (-> & u & E & Hu).
  destruct X_tag as [E0 | (d & y & E0 & _)].
  - exists "". split; [constructor |]. rewrite E0, Nat.sub_0_r. apply skip_all.
  - exfalso. destruct s as [| c s]; [now contradiction Hne |].
    rewrite !append_cons, append_nil_left in E. cbn [lowerString] in E. apply cons_eq in E; destruct E as [H0 E].
    assert (Hlt : hasChar "<" (String "b" (String "r" u)) = false).
    { cbn [hasChar]. rewrite Hu. reflexivity. }
    rewrite <- E, E0, lowerString_append, hasChar_append_lt in Hlt.
    cbn [lowerString hasChar] in Hlt.
    change (Ascii.eqb "<" (lower "<")) with true in Hlt.
    rewrite orb_true_l, orb_true_r in Hlt. discriminate Hlt.
Qed.

(** The empty paragraphs, and the trailing break, are cut out of markup
    without inline event handlers, and leave such markup. *)
Lemma EMPTY_PARAGRAPH_scan fuel s :
  Markup Q s -> (forall name v v', Q (name, v) = Q (name, v')) ->
  exists s' fuel', (fuel' <= fuel)%nat /\ Markup Q s' /\
    removeAllFrom EMPTY_PARAGRAPH fuel (s ++ X)
    = s' ++ removeAllFrom EMPTY_PARAGRAPH fuel' X.
Proof.
  intros Hs HQ. apply removeAllFrom_markup; try assumption.
  - intros x n H. apply (exec_lt x n). now left.
  - intros x n. apply exec_quote; reflexivity.
  - apply EMPTY_PARAGRAPH_raw.
  - apply EMPTY_PARAGRAPH_end.
  - apply EMPTY_PARAGRAPH_data.
Qed.

Lemma TRAILING_BREAK_scan fuel s :
  Markup Q s -> (forall name v v', Q (name, v) = Q (name, v')) ->
  exists s' fuel', (fuel' <= fuel)%nat /\ Markup Q s' /\
    removeAllFrom TRAILING_BREAK fuel (s ++ X)
    = s' ++ removeAllFrom TRAILING_BREAK fuel' X.
Proof.
  intros Hs HQ. apply removeAllFrom_markup; try assumption.
  - intros x n H. apply (exec_lt x n). now right.
  - intros x n. apply exec_quote; reflexivity.
  - apply TRAILING_BREAK_raw.
  - apply TRAILING_BREAK_end.
  - apply TRAILING_BREAK_data.
Qed.

End Next.

Lemma notHandler_name name v v' : notHandler (name, v) = notHandler (name, v').
Proof. reflexivity. Qed.

Lemma removeAll_EMPTY_PARAGRAPH s : Tidy s -> Tidy (removeAll EMPTY_PARAGRAPH s).
Proof.
  intros Hs. unfold removeAll.
  destruct (EMPTY_PARAGRAPH_scan notHandler "" (or_introl eq_refl)
              (S (String.length s)) s Hs notHandler_name)
    as (s' & fuel' & _ & Hs' & E).
  rewrite append_nil_right in E. rewrite E, removeAllFrom_empty, append_nil_right.
  exact Hs'.
Qed.

Lemma removeAll_TRAILING_BREAK s : Tidy s -> Tidy (removeAll TRAILING_BREAK s).
Proof.
  intros Hs. unfold removeAll.
  destruct (TRAILING_BREAK_scan notHandler "" (or_introl eq_refl)
              (S (String.length s)) s Hs notHandler_name)
    as (s' & fuel' & _ & Hs' & E).
  rewrite append_nil_right in E. rewrite E, removeAllFrom_empty, append_nil_right.
  exact Hs'.
Qed.

(** A [strong] element that holds text stands in what is left as it
    stood. *)
Lemma strong_next t b :
  let X := "<strong>" ++ t ++ "</strong>" ++ b in
  X = "" \/ exists d y, X = String "<" (String d y) /\ isLetter d = true.
Proof. right. exists "s"%char, ("trong>" ++ t ++ "</strong>" ++ b). now split. Qed.

Lemma EMPTY_PARAGRAPH_not_s y n :
  exec EMPTY_PARAGRAPH (String "<" (String "s" y)) = Some n -> False.
Proof.
  intros H. apply EMPTY_PARAGRAPH_match in H. destruct H as (ws & r & E & _).
  cbn [lowerString] in E. rewrite !append_cons in E.
  apply cons_eq in E; destruct E as [H0 E]. apply cons_eq in E; destruct E as [H1 E]. vm_compute in H1. discriminate H1.
Qed.

Lemma TRAILING_BREAK_not_s y n :
  exec TRAILING_BREAK (String "<" (String "s" y)) = Some n -> False.
Proof.
  intros H. apply TRAILING_BREAK_match in H. destruct H as (_ & u & E & _).
  cbn [lowerString] in E. rewrite !append_cons in E.
  apply cons_eq in E; destruct E as [H0 E]. apply cons_eq in E; destruct E as [H1 E]. vm_compute in H1. discriminate H1.
Qed.

Lemma EMPTY_PARAGRAPH_keeps a t b :
  Tidy a -> hasChar "<" t = false ->
  exists a' b', Tidy a' /\
    removeAll EMPTY_PARAGRAPH (a ++ "<strong>" ++ t ++ "</strong>" ++ b)
    = a' ++ "<strong>" ++ t ++ "</strong>" ++ b'.
Proof.
  intros Ha Ht. unfold removeAll.
  destruct (EMPTY_PARAGRAPH_scan notHandler _ (strong_next t b)
              (S (String.length (a ++ "<strong>" ++ t ++ "</strong>" ++ b)))
              a Ha notHandler_name)
    as (a' & fuel1 & _ & Ha' & ->).
  destruct (scan_strong EMPTY_PARAGRAPH
              (fun x n H => exec_lt x n (or_introl H)) EMPTY_PARAGRAPH_end
              t b fuel1 EMPTY_PARAGRAPH_not_s Ht) as (fuel2 & _ & ->).
  now exists a', (removeAllFrom EMPTY_PARAGRAPH fuel2 b).
Qed.

Lemma TRAILING_BREAK_keeps a t b :
  Tidy a -> hasChar "<" t = false ->
  exists a' b', Tidy a' /\
    removeAll TRAILING_BREAK (a ++ "<strong>" ++ t ++ "</strong>" ++ b)
    = a' ++ "<strong>" ++ t ++ "</strong>" ++ b'.
Proof.
  intros Ha Ht. unfold removeAll.
  destruct (TRAILING_BREAK_scan notHandler _ (strong_next t b)
              (S (String.length (a ++ "<strong>" ++ t ++ "</strong>" ++ b)))
              a Ha notHandler_name)
    as (a' & fuel1 & _ & Ha' & ->).
  destruct (scan_strong TRAILING_BREAK
              (fun x n H => exec_lt x n (or_intror H)) TRAILING_BREAK_end
              t b fuel1 TRAILING_BREAK_not_s Ht) as (fuel2 & _ & ->).
  now exists a', (removeAllFrom TRAILING_BREAK fuel2 b).
Qed.

(** *** Trimming *)

Lemma Markup_dropWhile Q s : Markup Q s -> Markup Q (dropWhile isWhiteSpace s).
Proof.
  induction 1 as [| c s Hc Hs IH | tag attrs s Ht Ha Hr Hs _
                  | tag s Ht Hs _ | tag attrs raw s Ht Ha Hr Hraw Hs _].
  - constructor.
  - cbn [dropWhile]. destruct (isWhiteSpace c); [exact IH | now constructor].
  - now apply Markup_start.
  - now apply Markup_end.
  - now apply Markup_raw.
Qed.

Lemma trimEnd_gt u s : trimEnd (u ++ String ">" s) = u ++ String ">" (trimEnd s).
Proof.
  induction u as [| x u IH].
  - rewrite !append_nil_left. reflexivity.
  - rewrite !append_cons. cbn [trimEnd].
    assert (Hf : allChars isWhiteSpace (String x (u ++ String ">" s)) = false).
    { cbn [allChars]. rewrite allChars_append. cbn [allChars].
      change (isWhiteSpace ">") with false.
      now rewrite andb_false_l, !andb_false_r. }
    now rewrite Hf, IH.
Qed.

Lemma Markup_trimEnd Q s : Markup Q s -> Markup Q (trimEnd s).
Proof.
  induction 1 as [| c s Hc Hs IH | tag attrs s Ht Ha Hr Hs IH
                  | tag s Ht Hs IH | tag attrs raw s Ht Ha Hr Hraw Hs IH].
  - constructor.
  - cbn [trimEnd]. destruct (allChars isWhiteSpace (String c s)); now constructor.
  - replace (String "<" (tag ++ writeAttrs attrs ++ String ">" s))
      with ((String "<" (tag ++ writeAttrs attrs)) ++ String ">" s)
      by now rewrite append_cons, append_associative.
    rewrite trimEnd_gt, append_cons, append_associative.
    now apply Markup_start.
  - replace (String "<" (String "/" (tag ++ String ">" s)))
      with ((String "<" (String "/" tag)) ++ String ">" s)
      by now rewrite !append_cons.
    rewrite trimEnd_gt, !append_cons. now apply Markup_end.
  - replace (String "<" (tag ++ writeAttrs attrs ++ String ">"
               (raw ++ String "<" (String "/" (tag ++ String ">" s)))))
      with ((String "<" (tag ++ writeAttrs attrs ++ String ">"
               (raw ++ String "<" (String "/" tag)))) ++ String ">" s)
      by now rewrite !append_cons, !append_associative, !append_cons,
                     append_associative, !append_cons.
    rewrite trimEnd_gt, !append_cons, !append_associative, !append_cons,
            append_associative, !append_cons.
    now apply Markup_raw.
Qed.

Lemma dropWhile_before a z :
  exists a', dropWhile isWhiteSpace (a ++ String "<" z) = a' ++ String "<" z.
Proof.
  induction a as [| c a IH].
  - now exists "".
  - rewrite append_cons. cbn [dropWhile]. destruct (isWhiteSpace c); [exact IH |].
    now exists (String c a).
Qed.

Lemma normalize_keeps a t b :
  Tidy a -> hasChar "<" t = false ->
  exists a' b',
    normalize (a ++ "<strong>" ++ t ++ "</strong>" ++ b)
    = a' ++ "<strong>" ++ t ++ "</strong>" ++ b'.
Proof.
  intros Ha Ht. unfold normalize, trim.
  destruct (EMPTY_PARAGRAPH_keeps a t b Ha Ht) as (a1 & b1 & Ha1 & ->).
  destruct (TRAILING_BREAK_keeps a1 t b1 Ha1 Ht) as (a2 & b2 & Ha2 & ->).
  destruct (dropWhile_before a2 ("strong>" ++ t ++ "</strong>" ++ b2)) as (a3 & E3).
  change (String "<" ("strong>" ++ ?x)) with ("<strong>" ++ x) in E3. rewrite E3.
  exists a3, (trimEnd b2).
  replace (a3 ++ "<strong>" ++ t ++ "</strong>" ++ b2)
    with ((a3 ++ "<strong>" ++ t ++ "</strong") ++ String ">" b2)
    by (rewrite !append_associative; reflexivity).
  rewrite trimEnd_gt, !append_associative. reflexivity.
Qed.

Lemma normalize_tidy s : Tidy s -> Tidy (normalize s).
Proof.
  intros H. unfold normalize, trim.
  now apply Markup_trimEnd, Markup_dropWhile, removeAll_TRAILING_BREAK,
            removeAll_EMPTY_PARAGRAPH.
Qed.

End ScanFacts.

(** ** Sanitization *)

Module SanitizeFacts.
Import Chars CharsFacts RegExp Html DOMPurify Sanitize Markup MarkupTree Reads
       ReadsFacts TokenizerFacts TreeFacts ParserFacts ParserTreeFacts ScanFacts.

(** *** Induction on DOM trees *)

Lemma Node_induction (P : Node -> Prop) :
  (forall d, P (Text d)) ->
  (forall d, P (Comment d)) ->
  (forall tag attrs kids, Forall P kids -> P (Elem tag attrs kids)) ->
  forall n, P n.
Proof.
  intros HText HComment HElem. fix IH 1.
  intros [d | d | tag attrs kids].
  - apply HText.
  - apply HComment.
  - apply HElem.
    induction kids as [| c kids IHkids]; constructor; [apply IH | exact IHkids].
Qed.

Lemma forallb_flat_map {A B} (p : B -> bool) (f : A -> list B) (l : list A) :
  Forall (fun a => forallb p (f a) = true) l ->
  forallb p (flat_map f l) = true.
Proof.
  induction 1 as [| a l Ha _ IH]; simpl; [reflexivity |].
  rewrite forallb_app, Ha, IH. reflexivity.
Qed.

(** *** Strings *)

Lemma startsWithCI_lower p s :
  startsWithCI p s = true ->
  exists rest, lowerString s = String.append (lowerString p) rest.
Proof.
  revert s. induction p as [| a p IH]; intros s Hs.
  - now exists (lowerString s).
  - destruct s as [| b s]; cbn [startsWithCI] in Hs; [discriminate |].
    apply andb_prop in Hs. destruct Hs as [Hab Hs].
    apply Ascii.eqb_eq in Hab. destruct (IH s Hs) as [rest Hrest].
    exists rest. simpl. now rewrite Hab, Hrest.
Qed.

Lemma startsWith_head a p s :
  startsWith (String a p) s = true -> exists s', s = String a s'.
Proof.
  destruct s as [| b s]; cbn [startsWith]; [discriminate |].
  intros Hs. apply andb_prop in Hs. destruct Hs as [Hab _].
  apply Ascii.eqb_eq in Hab. subst. now exists s.
Qed.

(** *** The URI test rejects [javascript:] *)

Lemma javascript_uri_rejected s :
  startsWithCI "javascript:" s = true ->
  test ALLOWED_URI_REGEXP s = false /\ test IS_ALLOWED_URI s = false.
Proof.
  intros Hs. destruct (startsWithCI_lower _ _ Hs) as [rest Hrest].
  unfold test, exec. simpl anchored. simpl ignoreCase. cbv iota.
  rewrite Hrest. split; vm_compute; reflexivity.
Qed.

(** A value that starts with [data:] is no [javascript:] URI. *)
Lemma data_uri_not_javascript value :
  startsWith "data:" value = true -> isJavascriptUri value = false.
Proof.
  intros Hd. destruct (startsWith_head _ _ _ Hd) as [v ->].
  reflexivity.
Qed.

Lemma javascript_uri_nonempty value :
  isJavascriptUri value = true -> nonEmptyString value = true.
Proof. destruct value; [discriminate | reflexivity]. Qed.

Lemma javascript_href_invalid cfg lcTag value :
  ofRepository cfg ->
  isJavascriptUri value = true ->
  isValidAttribute cfg lcTag "href" value = false.
Proof.
  intros Hcfg Hjs.
  destruct (javascript_uri_rejected _ Hjs) as [Hin Hout].
  assert (Hdata : startsWith "data:" value = false).
  { destruct (startsWith "data:" value) eqn:E; [| reflexivity].
    apply data_uri_not_javascript in E. congruence. }
  pose proof (javascript_uri_nonempty _ Hjs) as Hne.
  unfold isValidAttribute.
  destruct Hcfg as [-> | ->].
  - change (test DATA_ATTR "href") with false.
    change (test ARIA_ATTR "href") with false.
    change (allowedAttr inputConfig "href") with true.
    change (inb "href" URI_SAFE_ATTRIBUTES) with false.
    change (uriRegExp inputConfig) with ALLOWED_URI_REGEXP.
    rewrite Hin, Hdata, Hne, !andb_false_r. reflexivity.
  - change (test ARIA_ATTR "href") with false.
    change (allowedAttr outputConfig "href") with true.
    change (inb "href" URI_SAFE_ATTRIBUTES) with false.
    change (uriRegExp outputConfig) with IS_ALLOWED_URI.
    rewrite Hout, Hdata, Hne, !andb_false_r. reflexivity.
Qed.

(** No allow-listed name, [data-] or [aria-] name starts with [on]. *)
Lemma event_handler_invalid cfg lcTag lcName value :
  ofRepository cfg ->
  startsWith "on" lcName = true ->
  isValidAttribute cfg lcTag lcName value = false.
Proof.
  intros Hcfg Hon.
  destruct lcName as [| c0 rest]; [discriminate |].
  cbn [startsWith] in Hon. apply andb_prop in Hon. destruct Hon as [H0 Hon].
  destruct rest as [| c1 rest]; [discriminate |].
  cbn [startsWith] in Hon. apply andb_prop in Hon. destruct Hon as [H1 _].
  apply Ascii.eqb_eq in H0, H1. subst c0 c1.
  destruct Hcfg as [-> | ->]; vm_compute; reflexivity.
Qed.

Lemma valid_attribute_safe cfg lcTag name value :
  ofRepository cfg ->
  isValidAttribute cfg lcTag (lowerString name) value = true ->
  dangerousAttr (name, value) = false.
Proof.
  intros Hcfg Hvalid. unfold dangerousAttr, isEventHandler. simpl fst. simpl snd.
  destruct (startsWith "on" (lowerString name)) eqn:Hon.
  { rewrite (event_handler_invalid cfg lcTag _ value Hcfg Hon) in Hvalid.
    discriminate. }
  simpl. destruct (String.eqb (lowerString name) "href") eqn:Hhref; [| reflexivity].
  apply String.eqb_eq in Hhref. rewrite Hhref in Hvalid.
  destruct (isJavascriptUri value) eqn:Hjs; [| reflexivity].
  rewrite (javascript_href_invalid cfg lcTag value Hcfg Hjs) in Hvalid.
  discriminate.
Qed.

Lemma sanitizeAttributes_safe cfg lcTag attrs :
  ofRepository cfg ->
  forallb (fun a => negb (dangerousAttr a)) (sanitizeAttributes cfg lcTag attrs)
  = true.
Proof.
  intros Hcfg.
  induction attrs as [| [name value] attrs IH]; [reflexivity |].
  cbn [sanitizeAttributes fst snd].
  set (v := if String.eqb (lowerString name) "value" then value else trim value).
  destruct (isValidAttribute cfg lcTag (lowerString name) v) eqn:Hvalid.
  - cbn [forallb]. rewrite IH.
    now rewrite (valid_attribute_safe cfg lcTag name v Hcfg Hvalid).
  - exact IH.
Qed.

(** Whatever DOM goes in, no element that comes out carries an inline
    event handler or a [javascript:] link. *)
Lemma sanitizeNode_safe cfg n :
  ofRepository cfg -> forallb safeNode (sanitizeNode cfg n) = true.
Proof.
  intros Hcfg. induction n as [d | d | tag attrs kids IH] using Node_induction;
    [reflexivity | reflexivity |].
  assert (Hkids : forallb safeNode (flat_map (sanitizeNode cfg) kids) = true)
    by (now apply forallb_flat_map).
  cbn [sanitizeNode].
  destruct (looksLikeMarkup (lowerString tag) kids); [reflexivity |].
  destruct (allowedTag cfg (lowerString tag)).
  - cbn [forallb safeNode]. fold (forallb safeNode).
    rewrite sanitizeAttributes_safe by exact Hcfg.
    cbn [andb]. rewrite andb_true_r. exact Hkids.
  - destruct (inb (lowerString tag) FORBID_CONTENTS); [reflexivity | exact Hkids].
Qed.

Lemma sanitizeNodes_safe cfg doc :
  ofRepository cfg -> forallb safeNode (sanitizeNodes cfg doc) = true.
Proof.
  intros Hcfg. apply forallb_flat_map, Forall_forall.
  intros n _. now apply sanitizeNode_safe.
Qed.

(** *** Safe markup stays *)

Lemma escape_no_lt s : hasChar "<" (escape false s) = false.
Proof.
  induction s as [| c s IH]; [reflexivity |].
  cbn [escape].
  destruct (Ascii.eqb c "&"); [exact IH |].
  destruct (code c =? 160)%nat; [exact IH |].
  destruct (Ascii.eqb c "<") eqn:Hlt; [exact IH |].
  destruct (Ascii.eqb c ">"); [exact IH |].
  cbn [hasChar]. rewrite IH.
  rewrite Ascii.eqb_sym, Hlt. reflexivity.
Qed.

Lemma markup_needs_lt s : hasChar "<" s = false -> test MARKUP s = false.
Proof.
  unfold test. simpl anchored. cbv iota.
  induction s as [| c s IH]; intros Hs; [reflexivity |].
  cbn [hasChar] in Hs. apply orb_false_elim in Hs. destruct Hs as [Hc Hs].
  cbn [testFrom]. unfold exec.
  cbn [ignoreCase pattern MARKUP matchAt sameChar].
  rewrite Ascii.eqb_sym, Hc. now apply IH.
Qed.

Lemma append_empty s : String.append s EmptyString = s.
Proof.
  induction s as [| c s IH]; [reflexivity |].
  change (String c (String.append s EmptyString) = String c s).
  now rewrite IH.
Qed.

(** [<strong>text</strong>] goes through both configurations unchanged. *)
Lemma strong_preserved cfg s :
  ofRepository cfg ->
  sanitizeNode cfg (Elem "strong" [] [Text s]) = [Elem "strong" [] [Text s]].
Proof.
  intros Hcfg. cbn [sanitizeNode].
  change (lowerString "strong") with "strong"%string.
  assert (Hm : looksLikeMarkup "strong" [Text s] = false).
  { unfold looksLikeMarkup. simpl innerHTML.
    change (inb "strong" RAW_TEXT_ELEMENTS) with false. cbv iota.
    rewrite append_empty, (markup_needs_lt _ (escape_no_lt s)).
    reflexivity. }
  rewrite Hm.
  destruct Hcfg as [-> | ->]; reflexivity.
Qed.

Lemma sanitizeNodes_app cfg l1 l2 :
  sanitizeNodes cfg (l1 ++ l2) = sanitizeNodes cfg l1 ++ sanitizeNodes cfg l2.
Proof. apply flat_map_app. Qed.

(** What the two functions return, in terms of the DOM. *)
Lemma sanitizeHtml_dom html :
  sanitizeHtml html =
  if hasChar "<" html
  then serialize (sanitizeNodes inputConfig (initDocument html))
  else html.
Proof.
  unfold sanitizeHtml, sanitize. now destruct (hasChar "<" html).
Qed.

Lemma sanitizeForOutput_dom html :
  sanitizeForOutput html =
  normalize (if hasChar "<" html
             then serialize (sanitizeNodes outputConfig (initDocument html))
             else html).
Proof.
  unfold sanitizeForOutput, sanitize. now destruct (hasChar "<" html).
Qed.

Section ReadBack.
Local Open Scope string_scope.

(** *** Names that pass the sanitizer *)

Lemma inb_In s l : inb s l = true -> In s l.
Proof.
  unfold inb. rewrite existsb_exists. intros (x & Hx & E).
  apply String.eqb_eq in E. now subst x.
Qed.

Lemma isLetter_lower c : isLetter (lower c) = true -> isLetter c = true.
Proof. revert c. apply all_ascii_implies. vm_compute. reflexivity. Qed.

Lemma nameChar_lower c : nameChar (lower c) = true -> nameChar c = true.
Proof. revert c. apply all_ascii_implies. vm_compute. reflexivity. Qed.

Lemma nameChars_lower s :
  allChars nameChar (lowerString s) = true -> allChars nameChar s = true.
Proof.
  induction s as [| c s IH]; [reflexivity |].
  cbn [lowerString allChars]. intros H. apply andb_prop in H. destruct H as [Hc Hs].
  now rewrite (nameChar_lower c Hc), IH.
Qed.

Lemma tagOk_lower tag : tagOk (lowerString tag) = true -> tagOk tag = true.
Proof.
  unfold tagOk. destruct tag as [| c t]; [discriminate |].
  intros H. apply andb_prop in H. destruct H as [Hc Ht].
  cbn [lowerString] in Hc.
  now rewrite (isLetter_lower c Hc), (nameChars_lower (String c t) Ht).
Qed.

(** An allow-listed tag is a well-formed name. *)
Lemma allowedTag_tagOk cfg tag :
  ofRepository cfg -> allowedTag cfg (lowerString tag) = true -> tagOk tag = true.
Proof.
  intros Hcfg Ha. apply tagOk_lower. unfold allowedTag in Ha. apply inb_In in Ha.
  assert (Hall : forallb tagOk
                   (map lowerString (DOMPurify.ALLOWED_TAGS cfg ++ ADD_TAGS cfg)) = true)
    by (destruct Hcfg as [-> | ->]; vm_compute; reflexivity).
  rewrite forallb_forall in Hall. now apply Hall.
Qed.

(** The only raw-text element on the allow-lists is [script]. *)
Lemma allowedTag_raw cfg tag :
  ofRepository cfg -> allowedTag cfg (lowerString tag) = true ->
  isRawText tag = true -> lowerString tag = "script".
Proof.
  intros Hcfg Ha Hraw. unfold allowedTag in Ha. apply inb_In in Ha.
  assert (Hall : forallb (fun t => implb (inb t RAW_TEXT_ELEMENTS) (String.eqb t "script"))
                   (map lowerString (DOMPurify.ALLOWED_TAGS cfg ++ ADD_TAGS cfg)) = true)
    by (destruct Hcfg as [-> | ->]; vm_compute; reflexivity).
  rewrite forallb_forall in Hall. specialize (Hall _ Ha).
  unfold isRawText in Hraw. rewrite Hraw in Hall. now apply String.eqb_eq.
Qed.

Lemma allowedAttr_name cfg lcName :
  ofRepository cfg -> allowedAttr cfg lcName = true ->
  nonEmptyString lcName && allChars nameChar lcName = true.
Proof.
  intros Hcfg Ha. unfold allowedAttr in Ha. apply inb_In in Ha.
  assert (Hall : forallb (fun n => nonEmptyString n && allChars nameChar n)
                   (map lowerString (DOMPurify.ALLOWED_ATTR cfg ++ ADD_ATTR cfg)) = true)
    by (destruct Hcfg as [-> | ->]; vm_compute; reflexivity).
  rewrite forallb_forall in Hall. now apply Hall.
Qed.

Lemma data_attr_name s :
  test DATA_ATTR s = true -> nonEmptyString s && allChars nameChar s = true.
Proof.
  intros Ht. destruct s as [| c s]; [discriminate |]. cbn [nonEmptyString andb].
  apply (exec_reads nameChar DATA_ATTR (Str "data-")
           (Plus (Class false ((45, 45) :: (46, 46) :: (183, 255) :: wordChars)%nat)));
    try reflexivity.
  unfold test in Ht. cbn [anchored DATA_ATTR] in Ht.
  now destruct (exec DATA_ATTR (String c s)).
Qed.

Lemma aria_attr_name s :
  test ARIA_ATTR s = true -> nonEmptyString s && allChars nameChar s = true.
Proof.
  intros Ht. destruct s as [| c s]; [discriminate |]. cbn [nonEmptyString andb].
  apply (exec_reads nameChar ARIA_ATTR (Str "aria-")
           (Plus (Class false ((45, 45) :: wordChars)%nat)));
    try reflexivity.
  unfold test in Ht. cbn [anchored ARIA_ATTR] in Ht.
  now destruct (exec ARIA_ATTR (String c s)).
Qed.

(** An attribute that passes either sanitizer has a well-formed name. *)
Lemma valid_attribute_name cfg lcTag name value :
  ofRepository cfg ->
  isValidAttribute cfg lcTag (lowerString name) value = true ->
  nonEmptyString name && allChars nameChar name = true.
Proof.
  intros Hcfg Hv.
  enough (H : nonEmptyString (lowerString name)
              && allChars nameChar (lowerString name) = true).
  { apply andb_prop in H. destruct H as [Hne Hn].
    rewrite (nameChars_lower name Hn), andb_true_r. now destruct name. }
  unfold isValidAttribute in Hv.
  destruct (ALLOW_DATA_ATTR cfg && test DATA_ATTR (lowerString name)) eqn:Ed.
  { apply andb_prop in Ed. now apply data_attr_name. }
  destruct (test ARIA_ATTR (lowerString name)) eqn:Ea; [now apply aria_attr_name |].
  destruct (allowedAttr cfg (lowerString name)) eqn:El; [| discriminate].
  now apply (allowedAttr_name cfg).
Qed.

Lemma sanitizeAttributes_attrOk cfg lcTag attrs :
  ofRepository cfg ->
  forallb (attrOk notDangerous) (written (sanitizeAttributes cfg lcTag attrs)) = true.
Proof.
  intros Hcfg.
  induction attrs as [| [name value] attrs IH]; [reflexivity |].
  cbn [sanitizeAttributes fst snd].
  set (v := if String.eqb (lowerString name) "value" then value else trim value).
  destruct (isValidAttribute cfg lcTag (lowerString name) v) eqn:Hvalid;
    [| exact IH].
  unfold written in *. cbn [map forallb fst snd]. rewrite IH, andb_true_r.
  unfold attrOk. cbn [fst snd].
  rewrite (valid_attribute_name cfg lcTag name v Hcfg Hvalid).
  rewrite escape_attribute_no_quote, decode_escape_attribute.
  unfold notDangerous. rewrite dangerousAttr_lower.
  now rewrite (valid_attribute_safe cfg lcTag name v Hcfg Hvalid).
Qed.

(** The two ways of saying that a tree holds no dangerous attribute. *)
Lemma safeNode_okNode n : safeNode n = okNode notDangerous n.
Proof.
  induction n as [d | d | tag attrs kids IH] using Node_induction;
    [reflexivity | reflexivity |].
  cbn [safeNode okNode]. fold (forallb safeNode) (forallb (okNode notDangerous)).
  f_equal. induction IH as [| k kids Hk _ IHk]; [reflexivity |].
  cbn [forallb]. now rewrite Hk, IHk.
Qed.

Lemma safeNodes_okNodes l : forallb safeNode l = forallb (okNode notDangerous) l.
Proof.
  induction l as [| n l IH]; [reflexivity |].
  cbn [forallb]. now rewrite safeNode_okNode, IH.
Qed.

(** *** What the serializer writes *)

Lemma serializeAttrs_written attrs :
  String.concat "" (map serializeAttr attrs) = writeAttrs (written attrs).
Proof. unfold writeAttrs, written. now rewrite map_map. Qed.

Lemma serializeNode_element tag attrs kids :
  serializeNode (Elem tag attrs kids) =
  String "<" (tag ++ writeAttrs (written attrs)
    ++ String ">" (if inb tag VOID_ELEMENTS then ""
                   else innerHTML tag kids ++ String "<" (String "/" (tag ++ ">")))).
Proof.
  rewrite <- serializeAttrs_written. cbn [serializeNode].
  change ("<" ++ ?x) with (String "<" x). f_equal. f_equal. f_equal.
  change (">" ++ ?x) with (String ">" x). f_equal.
  destruct (inb tag VOID_ELEMENTS); [reflexivity |].
  change ("</" ++ tag ++ ">") with (String "<" (String "/" (tag ++ ">"))).
  f_equal. induction kids as [| c kids IH]; [reflexivity |].
  cbn [innerHTML]. now rewrite IH.
Qed.

Lemma serialize_cons n l : serialize (n :: l) = serializeNode n ++ serialize l.
Proof. unfold serialize. cbn [map]. apply concat_cons. Qed.

Lemma serialize_app l1 l2 : serialize (l1 ++ l2)%list = serialize l1 ++ serialize l2.
Proof. unfold serialize. rewrite map_app. apply concat_app. Qed.

Lemma raw_isRawText tag : inb tag RAW_TEXT_ELEMENTS = true -> isRawText tag = true.
Proof.
  intros H. unfold isRawText. apply inb_In in H.
  cbn [RAW_TEXT_ELEMENTS In] in H. destruct H as [<- | [<- | []]]; reflexivity.
Qed.

Lemma innerHTML_plain tag kids :
  inb tag RAW_TEXT_ELEMENTS = false -> innerHTML tag kids = serialize kids.
Proof.
  intros Hraw. induction kids as [| c kids IH]; [reflexivity |].
  cbn [innerHTML]. rewrite serialize_cons, IH, Hraw. now destruct c.
Qed.

Lemma hasChar_append c a b : hasChar c (a ++ b) = hasChar c a || hasChar c b.
Proof.
  induction a as [| x a IH]; [reflexivity |].
  change (String x a ++ b) with (String x (a ++ b)).
  cbn [hasChar]. now rewrite IH, orb_assoc.
Qed.

Lemma Markup_text_app Q t s :
  hasChar "<" t = false -> Markup Q s -> Markup Q (t ++ s).
Proof.
  intros Ht Hs. induction t as [| c t IH]; [exact Hs |].
  cbn [hasChar] in Ht. apply orb_false_elim in Ht. destruct Ht as [Hc Ht].
  change (String c t ++ s) with (String c (t ++ s)).
  apply Markup_text; [now rewrite Ascii.eqb_sym | now apply IH].
Qed.

Lemma noEndTag_no_lt s : hasChar "<" s = false -> noEndTag s = true.
Proof.
  induction s as [| c s IH]; [reflexivity |].
  cbn [hasChar noEndTag]. intros H. apply orb_false_elim in H. destruct H as [Hc Hs].
  now rewrite Ascii.eqb_sym, Hc, IH.
Qed.

(** Text in which the scan for markup finds nothing holds no end tag. *)
Lemma noEndTag_no_markup s : test MARKUP s = false -> noEndTag s = true.
Proof.
  unfold test. cbn [anchored MARKUP].
  induction s as [| c s IH]; [reflexivity |].
  cbn [testFrom noEndTag].
  destruct (exec MARKUP (String c s)) eqn:E; [discriminate |].
  intros Hs. rewrite (IH Hs), andb_true_r.
  destruct (Ascii.eqb c "<") eqn:Ec; [| reflexivity].
  apply Ascii.eqb_eq in Ec. subst c.
  destruct s as [| d s]; [reflexivity |].
  cbn [andb startsWith]. destruct (Ascii.eqb "/" d) eqn:Ed; [| reflexivity].
  apply Ascii.eqb_eq in Ed. subst d. discriminate E.
Qed.

(** The text of an element whose children are text. *)
Lemma innerHTML_text tag kids :
  forallb isText kids = true ->
  innerHTML tag kids =
  String.concat ""
    (map (fun n => if inb tag RAW_TEXT_ELEMENTS then textData n
                   else escape false (textData n)) kids).
Proof.
  intros Hk. induction kids as [| c kids IH]; [reflexivity |].
  cbn [forallb] in Hk. apply andb_prop in Hk. destruct Hk as [Hc Hk].
  cbn [innerHTML map]. rewrite concat_cons, (IH Hk).
  destruct c; try discriminate. reflexivity.
Qed.

Lemma escaped_text_no_lt kids :
  hasChar "<" (String.concat "" (map (fun n => escape false (textData n)) kids)) = false.
Proof.
  induction kids as [| c kids IH]; [reflexivity |].
  cbn [map]. now rewrite concat_cons, hasChar_append, escape_no_lt, IH.
Qed.

Lemma sanitize_text_kids cfg kids :
  forallb isText kids = true -> flat_map (sanitizeNode cfg) kids = kids.
Proof.
  induction kids as [| c kids IH]; [reflexivity |].
  cbn [forallb]. intros H. apply andb_prop in H. destruct H as [Hc Hk].
  destruct c; try discriminate. cbn [flat_map sanitizeNode app].
  now rewrite (IH Hk).
Qed.

(** The text of a raw-text element that the sanitizer keeps holds no end
    tag. *)
Lemma kept_raw_text tag kids :
  forallb isText kids = true ->
  looksLikeMarkup (lowerString tag) kids = false ->
  isRawText tag = true ->
  noEndTag (innerHTML tag kids) = true.
Proof.
  intros Hk Hm Hraw. rewrite (innerHTML_text tag kids Hk).
  destruct (inb tag RAW_TEXT_ELEMENTS) eqn:E.
  2:{ apply noEndTag_no_lt, escaped_text_no_lt. }
  assert (Etag : lowerString tag = tag).
  { apply inb_In in E. cbn [RAW_TEXT_ELEMENTS In] in E.
    destruct E as [<- | [<- | []]]; reflexivity. }
  rewrite Etag in Hm. unfold looksLikeMarkup in Hm.
  destruct kids as [| k kids']; [reflexivity |].
  assert (Hel : existsb isElement (k :: kids') = false).
  { clear -Hk. induction (k :: kids') as [| c l IH]; [reflexivity |].
    cbn [forallb] in Hk. apply andb_prop in Hk. destruct Hk as [Hc Hl].
    cbn [existsb]. rewrite (IH Hl). now destruct c. }
  rewrite Hel in Hm. cbn [negb andb] in Hm.
  rewrite (innerHTML_text tag _ Hk), E in Hm.
  assert (Esame : map (fun n => textData n) (k :: kids') = map textData (k :: kids'))
    by reflexivity.
  rewrite Esame in Hm |- *.
  destruct (test MARKUP (String.concat "" (map textData (k :: kids')))) eqn:Et;
    [discriminate |].
  now apply noEndTag_no_markup.
Qed.

Lemma raw_not_void tag : isRawText tag = true -> inb tag VOID_ELEMENTS = false.
Proof.
  intros Hraw. destruct (inb tag VOID_ELEMENTS) eqn:E; [| reflexivity].
  apply inb_In in E.
  assert (Hall : forallb (fun t => negb (isRawText t)) VOID_ELEMENTS = true)
    by reflexivity.
  rewrite forallb_forall in Hall. specialize (Hall _ E). now rewrite Hraw in Hall.
Qed.

(** *** What the sanitizers return is clean *)

Lemma sanitizeNode_clean cfg n :
  ofRepository cfg -> rawOk n = true ->
  forall s, Clean s -> Clean (serialize (sanitizeNode cfg n) ++ s).
Proof.
  intros Hcfg. unfold Clean.
  induction n as [d | d | tag attrs kids IH] using Node_induction;
    intros Hn s Hs.
  - cbn [sanitizeNode]. rewrite serialize_cons. cbn [serializeNode serialize map].
    rewrite append_nil_right. apply Markup_text_app; [apply escape_no_lt | exact Hs].
  - exact Hs.
  - cbn [rawOk] in Hn. fold (forallb rawOk) in Hn.
    apply andb_prop in Hn. destruct Hn as [Hraw Hkids].
    assert (Hlist : forall s', Clean s' ->
              Clean (serialize (flat_map (sanitizeNode cfg) kids) ++ s')).
    { clear Hraw. induction kids as [| c kids IHk]; intros s' Hs'; [exact Hs' |].
      cbn [forallb] in Hkids. apply andb_prop in Hkids. destruct Hkids as [Hc Hk].
      inversion IH as [| ? ? IHc IHrest]; subst.
      cbn [flat_map]. rewrite serialize_app, append_associative.
      apply IHc; [exact Hc |]. now apply IHk. }
    cbn [sanitizeNode].
    destruct (looksLikeMarkup (lowerString tag) kids) eqn:Hm; [exact Hs |].
    destruct (allowedTag cfg (lowerString tag)) eqn:Ha.
    2:{ destruct (inb (lowerString tag) FORBID_CONTENTS); [exact Hs | now apply Hlist]. }
    pose proof (allowedTag_tagOk cfg tag Hcfg Ha) as Htag.
    pose proof (sanitizeAttributes_attrOk cfg (lowerString tag) attrs Hcfg) as Hattrs.
    rewrite serialize_cons. cbn [serialize map String.concat].
    rewrite append_nil_right, serializeNode_element.
    change (String "<" ?x ++ s) with (String "<" (x ++ s)).
    rewrite !append_associative.
    change (String ">" ?x ++ s) with (String ">" (x ++ s)).
    destruct (isRawText tag) eqn:Eraw.
    + (* a raw-text element: its children are text *)
      cbn [negb orb] in Hraw.
      rewrite (sanitize_text_kids cfg kids Hraw), (raw_not_void tag Eraw).
      rewrite append_associative.
      change (String "<" (String "/" (tag ++ ">")) ++ s)
        with (String "<" (String "/" ((tag ++ ">") ++ s))).
      rewrite append_associative.
      apply Markup_raw; try assumption.
      now apply kept_raw_text.
    + assert (Einb : inb tag RAW_TEXT_ELEMENTS = false).
      { destruct (inb tag RAW_TEXT_ELEMENTS) eqn:E; [| reflexivity].
        apply raw_isRawText in E. congruence. }
      apply Markup_start; try assumption.
      destruct (inb tag VOID_ELEMENTS); [exact Hs |].
      rewrite (innerHTML_plain tag _ Einb), append_associative.
      apply Hlist.
      change (String "<" (String "/" (tag ++ ">")) ++ s)
        with (String "<" (String "/" ((tag ++ ">") ++ s))).
      rewrite append_associative. now apply Markup_end.
Qed.

Lemma sanitizeNodes_clean cfg doc :
  ofRepository cfg -> forallb rawOk doc = true ->
  Clean (serialize (sanitizeNodes cfg doc)).
Proof.
  intros Hcfg Hdoc. unfold Clean. rewrite <- append_nil_right.
  generalize (Markup_nil notDangerous). generalize "".
  induction doc as [| n doc IH]; intros s Hs; [exact Hs |].
  cbn [forallb] in Hdoc. apply andb_prop in Hdoc. destruct Hdoc as [Hn Hd].
  unfold sanitizeNodes. cbn [flat_map]. rewrite serialize_app, append_associative.
  apply sanitizeNode_clean; [exact Hcfg | exact Hn |]. now apply IH.
Qed.

(** What [DOMPurify.sanitize] returns under either configuration of the
    repository is clean markup. *)
Lemma sanitize_clean cfg dirty : ofRepository cfg -> Clean (sanitize cfg dirty).
Proof.
  intros Hcfg. unfold sanitize. destruct (hasChar "<" dirty) eqn:E; cbn [negb].
  - apply sanitizeNodes_clean; [exact Hcfg | apply initDocument_rawOk].
  - rewrite <- (append_nil_right dirty).
    apply Markup_text_app; [exact E | constructor].
Qed.

(** Read back, it has no element with an inline event handler and no link
    to a [javascript:] URI. *)
Lemma sanitize_read_back cfg dirty :
  ofRepository cfg -> forallb safeNode (parseBody (sanitize cfg dirty)) = true.
Proof.
  intros Hcfg. rewrite safeNodes_okNodes. now apply parseBody_markup, sanitize_clean.
Qed.

(** *** Safe markup stays, in the output *)

Lemma takeWhile_notLt s : hasChar "<" s = false -> takeWhile notLt s = s.
Proof.
  induction s as [| c s IH]; [reflexivity |].
  cbn [hasChar takeWhile]. intros H. apply orb_false_elim in H. destruct H as [Hc Hs].
  unfold notLt at 1. now rewrite Ascii.eqb_sym, Hc, IH.
Qed.

(** A string without [<] is read as text. *)
Lemma parseBody_text s : hasChar "<" s = false -> forallb isText (parseBody s) = true.
Proof.
  intros Hs. unfold parseBody. destruct s as [| c s]; [reflexivity |].
  assert (Hc : Ascii.eqb c "<" = false).
  { cbn [hasChar] in Hs. apply orb_false_elim in Hs. now rewrite Ascii.eqb_sym. }
  rewrite (tokenize_text _ c s Hc), (takeWhile_notLt _ Hs).
  assert (E : skip (String.length (String c s)) (String c s) = "").
  { rewrite <- (append_nil_right (String c s)) at 2. apply skip_length. }
  rewrite E, tokenize_empty. cbn [dropHead].
  destruct (dropWhile isHtmlSpace (decode (String c s))); reflexivity.
Qed.

Lemma initDocument_text s :
  hasChar "<" s = false -> forallb isText (initDocument s) = true.
Proof.
  intros Hs. unfold initDocument.
  destruct (takeWhile isLeadingSpace s); [| cbn [forallb isText]];
    now apply parseBody_text.
Qed.

Lemma element_needs_lt html l1 tag attrs kids l2 :
  initDocument html = (l1 ++ Elem tag attrs kids :: l2)%list ->
  hasChar "<" html = true.
Proof.
  intros E. destruct (hasChar "<" html) eqn:H; [reflexivity |].
  pose proof (initDocument_text html H) as Ht. rewrite E in Ht.
  rewrite forallb_app in Ht. apply andb_prop in Ht. destruct Ht as [_ Ht].
  discriminate Ht.
Qed.

Lemma strong_in_output cfg html l1 s l2 :
  ofRepository cfg ->
  initDocument html = (l1 ++ Elem "strong" [] [Text s] :: l2)%list ->
  sanitize cfg html =
  serialize (sanitizeNodes cfg l1)
    ++ "<strong>" ++ escape false s ++ "</strong>"
    ++ serialize (sanitizeNodes cfg l2).
Proof.
  intros Hcfg E. unfold sanitize.
  rewrite (element_needs_lt html _ _ _ _ _ E), E. cbn [negb].
  rewrite sanitizeNodes_app, serialize_app. f_equal.
  change (sanitizeNodes cfg (Elem "strong" [] [Text s] :: l2))
    with (sanitizeNode cfg (Elem "strong" [] [Text s]) ++ sanitizeNodes cfg l2)%list.
  rewrite (strong_preserved cfg s Hcfg).
  change ([Elem "strong" [] [Text s]] ++ sanitizeNodes cfg l2)%list
    with (Elem "strong" [] [Text s] :: sanitizeNodes cfg l2).
  rewrite serialize_cons, serializeNode_element.
  change (inb "strong" VOID_ELEMENTS) with false. cbv iota.
  cbn [writeAttrs written map String.concat innerHTML].
  change (inb "strong" RAW_TEXT_ELEMENTS) with false. cbv iota.
  rewrite append_nil_right.
  change ("" ++ ?x) with x.
  change (String "<" ("strong" ++ ?x)) with ("<strong" ++ x).
  change ("<strong>" ++ ?x) with ("<strong" ++ String ">" x).
  rewrite !append_associative. f_equal.
  change (String ">" ?x ++ ?y) with (String ">" (x ++ y)). f_equal.
  rewrite append_associative. f_equal.
Qed.

(** What [sanitizeForOutput] returns is markup without inline event
    handlers, and is read back as such. *)
Lemma sanitizeForOutput_tidy html : Tidy (sanitizeForOutput html).
Proof.
  unfold sanitizeForOutput. apply normalize_tidy, Clean_Tidy, sanitize_clean.
  now right.
Qed.

Lemma output_read_back html :
  forallb (okNode notHandler) (parseBody (sanitizeForOutput html)) = true.
Proof. apply parseBody_markup, sanitizeForOutput_tidy. Qed.

(** The [strong] element stands in what [sanitizeForOutput] returns. *)
Lemma strong_after_normalize html l1 s l2 :
  initDocument html = (l1 ++ Elem "strong" [] [Text s] :: l2)%list ->
  exists before after,
    sanitizeForOutput html =
    before ++ "<strong>" ++ escape false s ++ "</strong>" ++ after.
Proof.
  intros E. unfold sanitizeForOutput.
  assert (Hout : ofRepository outputConfig) by (now right).
  rewrite (strong_in_output outputConfig html l1 s l2 Hout E).
  apply normalize_keeps.
  - apply Clean_Tidy, sanitizeNodes_clean; [exact Hout |].
    pose proof (initDocument_rawOk html) as Hraw. rewrite E in Hraw.
    rewrite forallb_app in Hraw. now apply andb_prop in Hraw.
  - pose proof (escaped_text_no_lt [Text s]) as H. cbn [map textData] in H.
    exact H.
Qed.



End ReadBack.

(** The demonstration input of the application, tag by tag: unsafe as it
    comes in, safe as it goes out. *)
Lemma dangerous_content_example :
  forallb safeNode
    (initDocument
       "<p onclick='alert(1)'>This had an onclick handler</p><a href='javascript:alert(1)'>x</a>")
  = false /\
  sanitizeHtml
    "<p onclick='alert(1)'>This had an onclick handler</p><a href='javascript:alert(1)'>This had a javascript: URL</a><img src=x onerror=alert(1)><p>But safe content like <strong>bold</strong> is preserved.</p>"
  = String.concat (String quote "")
      ["<p>This had an onclick handler</p><a>This had a javascript: URL</a><img src=";
       "x";
       "><p>But safe content like <strong>bold</strong> is preserved.</p>"]%string.
Proof. split; vm_compute; reflexivity. Qed.


(** The hook that the comment in [sanitizeHtml] announces is not there: a
    script element that holds code goes through as well. *)
Lemma inline_script_survives :
  sanitizeHtml inlineScript = inlineScript /\
  sanitizeForOutput inlineScript = inlineScript.
Proof. split; vm_compute; reflexivity. Qed.

(** *** The cosmetic passes *)

(** One trailing line break is cut per pass. *)
Lemma normalize_not_idempotent :
  normalize "<p>a</p><br><br>" = "<p>a</p><br>"%string /\
  normalize "<p>a</p><br>" = "<p>a</p>"%string.
Proof. split; vm_compute; reflexivity. Qed.

(** Whatever the sanitizing pass before them, as long as it leaves these two
    strings alone (they hold allow-listed tags only), the passes make
    [sanitizeForOutput] cut a second line break the second time. *)
Lemma normalize_after_any_purifier (purify : string -> string) :
  purify "<p>a</p><br><br>"%string = "<p>a</p><br><br>"%string ->
  purify "<p>a</p><br>"%string = "<p>a</p><br>"%string ->
  normalize (purify (normalize (purify "<p>a</p><br><br>"%string)))
  <> normalize (purify "<p>a</p><br><br>"%string).
Proof.
  intros H2 H1. destruct normalize_not_idempotent as [N2 N1].
  rewrite H2, N2, H1, N1. discriminate.
Qed.

(** C2 at its failing input.  [<p>a</p><br><br>] holds allow-listed tags
    only and ends in two line breaks; [/<br\s*\/?>\s*$/gi] cuts the last one,
    so the output still ends in a line break, and sanitizing the output
    again cuts that one too. *)
Theorem sanitizeForOutput_not_idempotent :
  let x := "<p>a</p><br><br>"%string in
  sanitizeForOutput x = "<p>a</p><br>"%string /\
  sanitizeForOutput (sanitizeForOutput x) = "<p>a</p>"%string /\
  sanitizeForOutput (sanitizeForOutput x) <> sanitizeForOutput x.
Proof.
  intros x.
  assert (E1 : sanitizeForOutput x = "<p>a</p><br>"%string)
    by (vm_compute; reflexivity).
  assert (E2 : sanitizeForOutput "<p>a</p><br>" = "<p>a</p>"%string)
    by (vm_compute; reflexivity).
  split; [exact E1 |]. rewrite E1, E2. split; [reflexivity | discriminate].
Qed.

(** Where no trailing line break is doubled the second pass changes nothing:
    the outputs of the examples above are fixed points. *)
Lemma sanitizeForOutput_fixed_points :
  sanitizeForOutput "<p>a</p>" = "<p>a</p>"%string /\
  sanitizeForOutput " <p>x</p><P> </P><p></p><br />  " = "<p>x</p>"%string /\
  sanitizeForOutput "<p>x</p>" = "<p>x</p>"%string.
Proof. repeat split; vm_compute; reflexivity. Qed.

End SanitizeFacts.

Module HistoryLaws.
Import JsArray JsArrayFacts History HistoryFacts.

(** *** The flags shown to the buttons *)

Lemma mirrored_timerCallback o v h :
  historyState h =
    {| canUndo := nonEmpty (undoStack h); canRedo := nonEmpty (redoStack h) |} ->
  historyState (timerCallback o v h) =
    {| canUndo := nonEmpty (undoStack (timerCallback o v h));
       canRedo := nonEmpty (redoStack (timerCallback o v h)) |}.
Proof.
  intros Hm. destruct (decide (v = lastPushedValue h)) as [E | E].
  - now rewrite timerCallback_same.
  - now rewrite timerCallback_new.
Qed.

Lemma mirrored_elapse o now h :
  historyState h =
    {| canUndo := nonEmpty (undoStack h); canRedo := nonEmpty (redoStack h) |} ->
  historyState (elapse o now h) =
    {| canUndo := nonEmpty (undoStack (elapse o now h));
       canRedo := nonEmpty (redoStack (elapse o now h)) |}.
Proof.
  intros Hm. unfold elapse. destruct (debounceTimer h) as [tm |] eqn:E; [| exact Hm].
  destruct (due tm <=? now); [| exact Hm].
  unfold fire. rewrite E. now apply mirrored_timerCallback.
Qed.

Lemma mirrored_undo h :
  historyState h =
    {| canUndo := nonEmpty (undoStack h); canRedo := nonEmpty (redoStack h) |} ->
  historyState (snd (undo h)) =
    {| canUndo := nonEmpty (undoStack (snd (undo h)));
       canRedo := nonEmpty (redoStack (snd (undo h))) |}.
Proof.
  intros Hm. destruct (decide (undoStack h = [])) as [E | Hne].
  - now rewrite undo_empty.
  - destruct (nonempty_is_push _ Hne) as (u & p & Hu).
    now rewrite (undo_push _ _ _ Hu).
Qed.

Lemma mirrored_redo h :
  historyState h =
    {| canUndo := nonEmpty (undoStack h); canRedo := nonEmpty (redoStack h) |} ->
  historyState (snd (redo h)) =
    {| canUndo := nonEmpty (undoStack (snd (redo h)));
       canRedo := nonEmpty (redoStack (snd (redo h))) |}.
Proof.
  intros Hm. destruct (decide (redoStack h = [])) as [E | Hne].
  - now rewrite redo_empty.
  - destruct (nonempty_is_push _ Hne) as (r & n & Hr).
    now rewrite (redo_push _ _ _ Hr).
Qed.

Lemma mirrored_run o evs h :
  historyState h =
    {| canUndo := nonEmpty (undoStack h); canRedo := nonEmpty (redoStack h) |} ->
  historyState (run o evs h) =
    {| canUndo := nonEmpty (undoStack (run o evs h));
       canRedo := nonEmpty (redoStack (run o evs h)) |}.
Proof.
  revert h. induction evs as [| [t c] evs IH]; intros h Hm; [exact Hm |].
  simpl. apply IH. unfold step. simpl fst. simpl snd.
  pose proof (mirrored_elapse o t h Hm) as Hm'.
  destruct c; simpl.
  - exact Hm'.
  - now apply mirrored_undo.
  - now apply mirrored_redo.
  - reflexivity.
Qed.

Lemma undo_some_iff h :
  nonEmpty (undoStack h) = true <-> exists v, fst (undo h) = Some v.
Proof.
  destruct (decide (undoStack h = [])) as [E | Hne].
  - rewrite undo_empty by exact E. rewrite E. simpl.
    split; [discriminate | intros [v Hv]; discriminate].
  - destruct (nonempty_is_push _ Hne) as (u & p & Hu).
    rewrite (undo_push _ _ _ Hu). simpl.
    split; [intros _; now exists p |].
    intros _. destruct (undoStack h); [contradiction | reflexivity].
Qed.

Lemma redo_some_iff h :
  nonEmpty (redoStack h) = true <-> exists v, fst (redo h) = Some v.
Proof.
  destruct (decide (redoStack h = [])) as [E | Hne].
  - rewrite redo_empty by exact E. rewrite E. simpl.
    split; [discriminate | intros [v Hv]; discriminate].
  - destruct (nonempty_is_push _ Hne) as (r & n & Hr).
    rewrite (redo_push _ _ _ Hr). simpl.
    split; [intros _; now exists n |].
    intros _. destruct (redoStack h); [contradiction | reflexivity].
Qed.

(** The flags the hook returns never go stale.  After any calls into the hook
    at any instants, and after the clock has moved on to any later instant
    (a pending timer may have run), [canUndo] is true exactly when [undo]
    would return a value, and [canRedo] exactly when [redo] would. *)
Theorem buttons_follow_stacks o init evs now :
  let h := elapse o now (run o evs (useHistory init)) in
  (canUndo (historyState h) = true <-> exists v, fst (undo h) = Some v) /\
  (canRedo (historyState h) = true <-> exists v, fst (redo h) = Some v).
Proof.
  intros h.
  assert (Hm : historyState h =
               {| canUndo := nonEmpty (undoStack h);
                  canRedo := nonEmpty (redoStack h) |}).
  { subst h. apply mirrored_elapse, mirrored_run. reflexivity. }
  rewrite Hm. simpl. split; [apply undo_some_iff | apply redo_some_iff].
Qed.

(** *** Redo, then undo *)

(** [undo] takes back an effective [redo]: between edits, when there is
    something to redo, [redo] followed by [undo] returns the value the
    history pointed at and leaves the history as it was. *)
Theorem undo_redo_round_trip h :
  settled h -> redoStack h <> [] ->
  undo (snd (redo h)) = (Some (lastPushedValue h), h).
Proof.
  intros [Hc Hs] Hne.
  destruct (nonempty_is_push _ Hne) as (r & n & Hr).
  rewrite (redo_push _ _ _ Hr). simpl.
  erewrite undo_push by reflexivity. simpl.
  f_equal. destruct h as [us rs cv lp tm hs]; simpl in *.
  subst. reflexivity.
Qed.

Lemma undo_redo_round_trip_witness :
  let h := snd (undo (recordAll defaultOptions (typed 2) (useHistory ""))) in
  settled h /\ redoStack h <> [] /\
  undo (snd (redo h)) = (Some (lastPushedValue h), h).
Proof.
  intros h.
  assert (Hs : settled h) by (split; reflexivity).
  assert (Hr : redoStack h <> []) by discriminate.
  split; [exact Hs |]. split; [exact Hr |].
  exact (undo_redo_round_trip h Hs Hr).
Defined.

(** *** An edit taken back before the timer runs *)

(** Typing and then returning to the committed value within the debounce
    interval leaves the history as it was: when a burst of calls ends with
    the value the history points at, the timer's callback returns early, and
    both stacks (the redo stack too), the committed value and the flags are
    those from before the burst. *)
Theorem reverted_burst_keeps_history o h first rest now :
  rapid o (fst first) rest ->
  snd (List.last rest first) = lastPushedValue h ->
  fst (List.last rest first) + debounceMs o <= now ->
  let h' := elapse o now (burst o h first rest) in
  undoStack h' = undoStack h /\ redoStack h' = redoStack h /\
  lastPushedValue h' = lastPushedValue h /\
  historyState h' = historyState h /\
  debounceTimer h' = None.
Proof.
  intros Hr Hv Hnow h'. subst h'.
  rewrite burst_last by exact Hr.
  rewrite elapse_due by exact Hnow.
  rewrite timerCallback_same by exact Hv.
  repeat split.
Qed.

Lemma reverted_burst_keeps_history_witness :
  let h := snd (undo (recordAll defaultOptions (typed 2) (useHistory ""))) in
  let h' := elapse defaultOptions 4000
              (burst defaultOptions h (3000, "xy"%string) [(3200, "x"%string)]) in
  redoStack h = ["xx"%string] /\
  undoStack h' = undoStack h /\ redoStack h' = redoStack h /\
  lastPushedValue h' = lastPushedValue h /\
  historyState h' = historyState h /\
  debounceTimer h' = None.
Proof.
  intros h. split; [reflexivity |].
  apply (reverted_burst_keeps_history defaultOptions h (3000, "xy"%string)
           [(3200, "x"%string)] 4000).
  - simpl. lia.
  - reflexivity.
  - simpl. lia.
Defined.

(** *** Calls made while a record is pending *)

(** [reset] does not cancel a pending timer.  When a record is pending at
    the time of [reset value] and its value differs from [value], the timer
    still runs at its due instant: the value just reset to becomes an undo
    step and the history points at the pending record's value. *)
Theorem reset_keeps_pending_record o h tm value :
  debounceTimer h = Some tm ->
  captured tm <> value ->
  1 <= maxHistory o ->
  let h' := elapse o (due tm) (reset value h) in
  undoStack h' = [value] /\ redoStack h' = [] /\
  lastPushedValue h' = captured tm /\
  fst (undo h') = Some value.
Proof.
  intros Ht Hv Hmax h'. subst h'.
  unfold elapse, fire. cbn [reset updateHistoryState debounceTimer].
  rewrite Ht, Z.leb_refl.
  rewrite timerCallback_new by exact Hv.
  change (undoStack (clearTimer (reset value h))) with (@nil string).
  change (lastPushedValue (clearTimer (reset value h))) with value.
  change (Z.of_nat (length (@nil string)) + 1) with 1.
  destruct (Z.ltb_spec (maxHistory o) 1); [lia |].
  repeat split.
Qed.

Lemma reset_keeps_pending_record_witness :
  let h := pushToHistory defaultOptions 0 "typed" (useHistory "old") in
  let h' := elapse defaultOptions 500 (reset "new" h) in
  undoStack h' = ["new"%string] /\ redoStack h' = [] /\
  lastPushedValue h' = "typed"%string /\
  fst (undo h') = Some "new"%string.
Proof.
  intros h.
  apply (reset_keeps_pending_record defaultOptions h
           {| due := 500; captured := "typed" |} "new").
  - reflexivity.
  - discriminate.
  - simpl. lia.
Defined.

(** [undo] does not cancel a pending timer either.  When [undo] returns
    [previous] while a record of another value is pending, the timer still
    runs at its due instant: it empties the redo stack, so the undo cannot
    be redone, and the history points at the pending record's value. *)
Theorem undo_keeps_pending_record o h tm previous :
  debounceTimer h = Some tm ->
  fst (undo h) = Some previous ->
  captured tm <> previous ->
  let h' := elapse o (due tm) (snd (undo h)) in
  redoStack h' = [] /\ lastPushedValue h' = captured tm /\
  fst (redo h') = None.
Proof.
  intros Ht Hu Hv h'. subst h'.
  destruct (decide (undoStack h = [])) as [E | Hne].
  { rewrite undo_empty in Hu by exact E. discriminate. }
  destruct (nonempty_is_push _ Hne) as (u & p & Hp).
  rewrite (undo_push _ _ _ Hp) in *. simpl in Hu. injection Hu as ->.
  unfold elapse, fire. cbn [snd updateHistoryState debounceTimer].
  rewrite Ht, Z.leb_refl.
  rewrite timerCallback_new by exact Hv.
  repeat split.
Qed.

Lemma undo_keeps_pending_record_witness :
  let h := pushToHistory defaultOptions 3000 "xxy"
             (recordAll defaultOptions (typed 2) (useHistory "")) in
  let h' := elapse defaultOptions 3500 (snd (undo h)) in
  fst (undo h) = Some "x"%string /\
  redoStack (snd (undo h)) = ["xx"%string] /\
  redoStack h' = [] /\ lastPushedValue h' = "xxy"%string /\
  fst (redo h') = None.
Proof.
  intros h. split; [reflexivity |]. split; [reflexivity |].
  apply (undo_keeps_pending_record defaultOptions h
           {| due := 3500; captured := "xxy" |} "x").
  - reflexivity.
  - reflexivity.
  - discriminate.
Defined.

(** *** Which entries the bound drops *)

Lemma drop_snoc_shift {A} (n : nat) (l : list A) (x : A) :
  (n <= length l)%nat ->
  shift (push (drop n l) x) = drop (S n) (push l x).
Proof.
  unfold shift, push. revert n. induction l as [| a l IH]; intros n Hn.
  - simpl in Hn. replace n with 0%nat by lia. reflexivity.
  - destruct n as [| n]; [reflexivity |].
    simpl in Hn. simpl. rewrite <- IH by lia. reflexivity.
Qed.

(** The oldest entries go first.  After records of a chain of distinct
    values have been committed one by one, the undo stack holds the values
    the history pointed at before each of them (the initial value, then each
    record but the last), cut down to the newest [maxHistory] of them. *)
Theorem undo_stack_keeps_newest o init evs :
  0 <= maxHistory o ->
  distinctChain init (map snd evs) ->
  undoStack (recordAll o evs (useHistory init)) =
  drop (length evs - Z.to_nat (maxHistory o))
       (removelast (init :: map snd evs)).
Proof.
  intros Hmax. induction evs as [| e evs IH] using rev_ind; intros Hd.
  - reflexivity.
  - rewrite map_app in Hd. simpl in Hd.
    apply (distinctChain_snoc _ _ _ _ eq_refl) in Hd. destruct Hd as [Hd Hv].
    specialize (IH Hd).
    pose proof (recordAll_length o init evs Hmax Hd) as Hlen.
    destruct (recordAll_state o init evs Hd) as (_ & _ & _ & Hl).
    rewrite recordAll_snoc, recordCommitted_callback.
    set (g := recordAll o evs (useHistory init)) in *.
    rewrite <- Hl in Hv.
    rewrite timerCallback_new by exact Hv.
    cbn [clearTimer pushToHistory updateHistoryState undoStack redoStack
         currentValue lastPushedValue debounceTimer historyState].
    rewrite Hl.
    assert (Hall : removelast (init :: map snd (evs ++ [e])) =
                   push (removelast (init :: map snd evs))
                        (List.last (map snd evs) init)).
    { rewrite map_app. simpl (map snd [e]).
      change (init :: map snd evs ++ [snd e])
        with ((init :: map snd evs) ++ [snd e]).
      rewrite removelast_last. unfold push.
      destruct (map snd evs) as [| a l] eqn:El using rev_ind; [reflexivity |].
      rewrite last_last.
      change (init :: l ++ [a]) with ((init :: l) ++ [a]).
      now rewrite removelast_last. }
    rewrite Hall.
    assert (Hrl : length (removelast (init :: map snd evs)) = length evs).
    { destruct (map snd evs) as [| a l] eqn:El using rev_ind.
      - apply (f_equal (@length _)) in El. rewrite length_map in El.
        simpl in *. lia.
      - change (init :: l ++ [a]) with ((init :: l) ++ [a]).
        rewrite removelast_last.
        apply (f_equal (@length _)) in El.
        rewrite length_map, length_app in El. simpl in *. lia. }
    rewrite length_app. simpl (length [e]).
    destruct (Z.ltb_spec (maxHistory o) (Z.of_nat (length (undoStack g)) + 1))
      as [Hlt | Hge]; rewrite IH.
    + rewrite drop_snoc_shift by (rewrite Hrl; lia).
      f_equal. lia.
    + assert (E0 : (length evs - Z.to_nat (maxHistory o) = 0)%nat) by lia.
      assert (E1 : (length evs + 1 - Z.to_nat (maxHistory o) = 0)%nat) by lia.
      rewrite E0, E1. reflexivity.
Qed.

Lemma undo_stack_keeps_newest_witness :
  let o := {| maxHistory := 2; debounceMs := 500 |} in
  undoStack (recordAll o (typed 4) (useHistory "")) = ["xx"; "xxx"]%string.
Proof.
  intros o.
  refine (eq_trans (undo_stack_keeps_newest o "" (typed 4) _ _) eq_refl).
  - simpl. lia.
  - simpl. repeat split; discriminate.
Defined.

End HistoryLaws.

Module DomFacts.
Import DragAndDrop Dom.

Lemma Element_induction (P : Element -> Prop) :
  (forall i t cs, Forall P cs -> P (mkElement i t cs)) ->
  forall e, P e.
Proof.
  intros HE. fix IH 1. intros [i t cs]. apply HE.
  induction cs as [| c cs IHcs]; constructor; [apply IH | exact IHcs].
Qed.

Lemma ids_unfold i t cs : ids (mkElement i t cs) = i :: flat_map ids cs.
Proof.
  unfold ids. simpl. f_equal.
  induction cs as [| c cs IH]; [reflexivity |].
  simpl. rewrite map_app, IH. reflexivity.
Qed.

Lemma nodeId_in_ids e : In (nodeId e) (ids e).
Proof. now left. Qed.

Lemma child_ids_incl c cs x : In c cs -> In x (ids c) -> In x (flat_map ids cs).
Proof. intros Hc Hx. apply in_flat_map. now exists c. Qed.

(** [contains] is membership among the ids. *)
Lemma contains_ids target e : contains target e = true <-> In target (ids e).
Proof.
  induction e as [i t cs IH] using Element_induction.
  rewrite ids_unfold. cbn [contains]. rewrite orb_true_iff, Nat.eqb_eq.
  cbn [In]. apply or_iff_compat_l.
  rewrite existsb_exists, in_flat_map.
  split; intros (c & Hc & Hin); exists c; (split; [exact Hc |]);
    rewrite List.Forall_forall in IH; now apply (IH c Hc).
Qed.

Lemma contains_false target e : ~ In target (ids e) -> contains target e = false.
Proof.
  intros Hn. destruct (contains target e) eqn:E; [| reflexivity].
  now apply contains_ids in E.
Qed.

Lemma lookupNode_unfold target i t cs :
  lookupNode target (mkElement i t cs) =
  if (i =? target)%nat then Some (mkElement i t cs) else scanLookup target cs.
Proof. reflexivity. Qed.

Lemma lookupNode_none target e : ~ In target (ids e) -> lookupNode target e = None.
Proof.
  induction e as [i t cs IH] using Element_induction.
  rewrite ids_unfold, lookupNode_unfold. cbn [In]. intros Hn.
  destruct (Nat.eqb_spec i target) as [-> | Hne]; [tauto |].
  assert (Hcs : ~ In target (flat_map ids cs)) by tauto. clear Hn.
  induction cs as [| c cs IHcs]; [reflexivity |].
  cbn [scanLookup]. inversion IH as [| ? ? Hc Hrest]; subst.
  rewrite Hc.
  - apply IHcs; [exact Hrest |]. cbn [flat_map] in Hcs. rewrite in_app_iff in Hcs. tauto.
  - cbn [flat_map] in Hcs. rewrite in_app_iff in Hcs. tauto.
Qed.

(** Under unique ids a child is found by its id. *)
Lemma scanLookup_child target cs c :
  NoDup (flat_map ids cs) -> In c cs -> nodeId c = target ->
  scanLookup target cs = Some c.
Proof.
  induction cs as [| c0 cs IH]; intros Hnd Hin Hid; [contradiction |].
  cbn [flat_map] in Hnd. apply NoDup_app in Hnd. destruct Hnd as (Hnd0 & Hdisj & Hnd).
  cbn [scanLookup]. destruct Hin as [-> | Hin].
  - destruct c as [i t k]. simpl in Hid. subst.
    rewrite lookupNode_unfold, Nat.eqb_refl. reflexivity.
  - rewrite lookupNode_none.
    + now apply IH.
    + intros Hc0. apply (Hdisj target); [now apply list_elem_of_In |].
      apply list_elem_of_In. apply (child_ids_incl c cs); [exact Hin |].
      rewrite <- Hid. apply nodeId_in_ids.
Qed.

Lemma lookupNode_child root c :
  uniqueIds root -> In c (childNodes root) ->
  lookupNode (nodeId c) root = Some c.
Proof.
  destruct root as [i t cs]. unfold uniqueIds. rewrite ids_unfold.
  intros Hnd Hin. simpl in Hin. apply NoDup_cons in Hnd. destruct Hnd as [Hi Hnd].
  rewrite lookupNode_unfold.
  destruct (Nat.eqb_spec i (nodeId c)) as [E | _].
  - exfalso. apply Hi. apply list_elem_of_In. rewrite E.
    apply (child_ids_incl c cs); [exact Hin | apply nodeId_in_ids].
  - now apply scanLookup_child.
Qed.

(** *** Parents and siblings *)

Lemma familyOf_unfold target i t cs :
  familyOf target (mkElement i t cs) =
  if existsb (fun c => (nodeId c =? target)%nat) cs then Some (i, cs)
  else scanFamily target cs.
Proof. reflexivity. Qed.

Lemma existsb_child target cs :
  existsb (fun c => (nodeId c =? target)%nat) cs = true <->
  In target (map nodeId cs).
Proof.
  rewrite existsb_exists, in_map_iff.
  split; intros (c & H1 & H2); exists c.
  - apply Nat.eqb_eq in H2. now split.
  - split; [exact H2 | now apply Nat.eqb_eq].
Qed.

Lemma parentElement_child root t :
  In t (childIds root) -> parentElement root t = Some (nodeId root).
Proof.
  destruct root as [i tg cs]. unfold childIds, parentElement. simpl childNodes.
  intros Hin. rewrite familyOf_unfold.
  apply existsb_child in Hin. now rewrite Hin.
Qed.

Lemma nextSibling_child root t :
  In t (childIds root) ->
  nextSibling root t = siblingAfter t (childNodes root).
Proof.
  destruct root as [i tg cs]. unfold childIds, nextSibling. simpl childNodes.
  intros Hin. rewrite familyOf_unfold.
  apply existsb_child in Hin. now rewrite Hin.
Qed.

(** Whoever [familyOf] finds below the root is one of the ids. *)
Lemma familyOf_parent_in target e p cs :
  familyOf target e = Some (p, cs) -> In p (ids e).
Proof.
  induction e as [i t k IH] using Element_induction.
  rewrite familyOf_unfold, ids_unfold.
  destruct (existsb _ k); [intros [= <- <-]; now left |].
  intros Hscan. right.
  induction k as [| c k IHk]; [discriminate |].
  cbn [scanFamily] in Hscan. inversion IH as [| ? ? Hc Hrest]; subst.
  cbn [flat_map]. apply in_app_iff.
  destruct (familyOf target c) as [r |] eqn:E.
  - injection Hscan as ->. left. now apply Hc.
  - right. now apply IHk.
Qed.

(** Under unique ids, a node whose parent is the root is a child of it. *)
Lemma parentElement_root root t :
  uniqueIds root -> parentElement root t = Some (nodeId root) ->
  In t (childIds root).
Proof.
  destruct root as [i tg cs]. unfold uniqueIds, parentElement, childIds.
  rewrite ids_unfold, familyOf_unfold. simpl childNodes. simpl nodeId.
  intros Hnd. apply NoDup_cons in Hnd. destruct Hnd as [Hi _].
  destruct (existsb _ cs) eqn:E; [intros _; now apply existsb_child |].
  destruct (scanFamily t cs) as [[p k] |] eqn:Es; [| discriminate].
  intros [= ->]. exfalso. apply Hi. apply list_elem_of_In.
  clear E Hi. induction cs as [| c cs IHcs]; [discriminate |].
  cbn [scanFamily] in Es. cbn [flat_map]. apply in_app_iff.
  destruct (familyOf t c) as [r |] eqn:Ef.
  - injection Es as ->. left. now apply (familyOf_parent_in t c i k).
  - right. now apply IHcs.
Qed.

(** *** Taking a node out and putting it in *)

Lemma detach_unfold target i t cs :
  detach target (mkElement i t cs) = mkElement i t (keepOthers target cs).
Proof. reflexivity. Qed.

Lemma detach_absent target e : ~ In target (ids e) -> detach target e = e.
Proof.
  induction e as [i t cs IH] using Element_induction.
  rewrite ids_unfold, detach_unfold. cbn [In]. intros Hn. f_equal.
  assert (Hcs : ~ In target (flat_map ids cs)) by tauto. clear Hn.
  induction cs as [| c cs IHcs]; [reflexivity |].
  cbn [keepOthers]. inversion IH as [| ? ? Hc Hrest]; subst.
  cbn [flat_map] in Hcs. rewrite in_app_iff in Hcs.
  destruct (Nat.eqb_spec (nodeId c) target) as [E | _].
  - exfalso. apply Hcs. left. rewrite <- E. apply nodeId_in_ids.
  - rewrite Hc by tauto. rewrite IHcs by tauto. reflexivity.
Qed.

(** Under unique ids, detaching a child of the root removes that child and
    nothing else. *)
Lemma keepOthers_children d cs :
  NoDup (flat_map ids cs) -> In d (map nodeId cs) ->
  keepOthers d cs = without d cs.
Proof.
  induction cs as [| c cs IH]; intros Hnd Hin; [reflexivity |].
  cbn [flat_map] in Hnd. apply NoDup_app in Hnd. destruct Hnd as (Hnd0 & Hdisj & Hnd).
  cbn [keepOthers without List.filter].
  destruct (Nat.eqb_spec (nodeId c) d) as [E | Hne]; cbn [negb].
  - (* the rest does not hold [d] at all *)
    assert (Hrest : ~ In d (flat_map ids cs)).
    { intros Hd. apply (Hdisj d); [| now apply list_elem_of_In].
      apply list_elem_of_In. rewrite <- E. apply nodeId_in_ids. }
    clear IH Hnd Hdisj Hin. induction cs as [| c' cs IHcs]; [reflexivity |].
    cbn [flat_map] in Hrest. rewrite in_app_iff in Hrest.
    cbn [keepOthers without List.filter].
    destruct (Nat.eqb_spec (nodeId c') d) as [E' | _].
    + exfalso. apply Hrest. left. rewrite <- E'. apply nodeId_in_ids.
    + cbn [negb]. rewrite detach_absent by tauto. f_equal. apply IHcs. tauto.
  - destruct Hin as [Hin | Hin]; [contradiction |].
    rewrite detach_absent.
    + f_equal. now apply IH.
    + intros Hd. apply (Hdisj d); [now apply list_elem_of_In |].
      apply list_elem_of_In. apply in_map_iff in Hin. destruct Hin as (c' & Hc' & Hin).
      apply (child_ids_incl c' cs); [exact Hin |]. rewrite <- Hc'. apply nodeId_in_ids.
Qed.

Lemma attach_unfold parent child node i t cs :
  attach parent child node (mkElement i t cs) =
  mkElement i t
    (if (i =? parent)%nat
     then insertAt child node (map (attach parent child node) cs)
     else map (attach parent child node) cs).
Proof. reflexivity. Qed.

Lemma attach_absent parent child node e :
  ~ In parent (ids e) -> attach parent child node e = e.
Proof.
  induction e as [i t cs IH] using Element_induction.
  rewrite ids_unfold, attach_unfold. cbn [In]. intros Hn.
  destruct (Nat.eqb_spec i parent) as [E | _]; [tauto |]. f_equal.
  assert (Hcs : ~ In parent (flat_map ids cs)) by tauto. clear Hn.
  induction cs as [| c cs IHcs]; [reflexivity |].
  inversion IH as [| ? ? Hc Hrest]; subst.
  cbn [flat_map] in Hcs. rewrite in_app_iff in Hcs.
  cbn [map]. rewrite Hc by tauto. rewrite IHcs by tauto. reflexivity.
Qed.

Lemma map_attach_absent parent child node cs :
  ~ In parent (flat_map ids cs) -> map (attach parent child node) cs = cs.
Proof.
  induction cs as [| c cs IH]; intros Hn; [reflexivity |].
  cbn [flat_map] in Hn. rewrite in_app_iff in Hn.
  cbn [map]. rewrite attach_absent by tauto. rewrite IH by tauto. reflexivity.
Qed.

Lemma without_ids d cs x :
  In x (flat_map ids (without d cs)) -> In x (flat_map ids cs).
Proof.
  rewrite !in_flat_map. intros (c & Hc & Hx). exists c. split; [| exact Hx].
  unfold without in Hc. apply filter_In in Hc. tauto.
Qed.

(** *** Lists of siblings *)

Lemma insertBeforeChild_at r node pre tn post :
  ~ In r (map nodeId pre) -> nodeId tn = r ->
  insertBeforeChild r node (pre ++ tn :: post) = pre ++ node :: tn :: post.
Proof.
  intros Hpre Hr. induction pre as [| c pre IH]; cbn [app insertBeforeChild].
  - rewrite Hr, Nat.eqb_refl. reflexivity.
  - cbn [map In] in Hpre.
    destruct (Nat.eqb_spec (nodeId c) r) as [E | _]; [tauto |].
    rewrite IH by tauto. reflexivity.
Qed.

Lemma siblingAfter_at r pre tn post :
  ~ In r (map nodeId pre) -> nodeId tn = r ->
  siblingAfter r (pre ++ tn :: post) =
  match post with [] => None | n :: _ => Some (nodeId n) end.
Proof.
  intros Hpre Hr. induction pre as [| c pre IH]; cbn [app siblingAfter].
  - rewrite Hr, Nat.eqb_refl. reflexivity.
  - cbn [map In] in Hpre.
    destruct (Nat.eqb_spec (nodeId c) r) as [E | _]; [tauto |].
    apply IH. tauto.
Qed.

Lemma without_app d l1 l2 : without d (l1 ++ l2) = without d l1 ++ without d l2.
Proof. unfold without. apply List.filter_app. Qed.

Lemma without_ids_in d cs x : In x (map nodeId (without d cs)) -> In x (map nodeId cs).
Proof.
  rewrite !in_map_iff. intros (c & Hc & Hin). exists c. split; [exact Hc |].
  unfold without in Hin. apply filter_In in Hin. tauto.
Qed.

Lemma without_absent d cs : ~ In d (map nodeId cs) -> without d cs = cs.
Proof.
  induction cs as [| c cs IH]; intros Hn; [reflexivity |].
  cbn [map In] in Hn. cbn [without List.filter].
  destruct (Nat.eqb_spec (nodeId c) d) as [E | _]; [tauto |].
  cbn [negb]. f_equal. apply IH. tauto.
Qed.

Lemma NoDup_childIds root : uniqueIds root -> NoDup (childIds root).
Proof.
  destruct root as [i t cs]. unfold uniqueIds, childIds. rewrite ids_unfold.
  simpl childNodes. intros Hnd. apply NoDup_cons in Hnd. destruct Hnd as [_ Hnd].
  induction cs as [| c cs IH]; [constructor |].
  cbn [flat_map] in Hnd. apply NoDup_app in Hnd. destruct Hnd as (_ & Hdisj & Hnd).
  cbn [map]. apply NoDup_cons. split; [| now apply IH].
  intros Hin. apply (Hdisj (nodeId c)).
  - apply list_elem_of_In, nodeId_in_ids.
  - apply list_elem_of_In. apply list_elem_of_In in Hin.
    apply in_map_iff in Hin. destruct Hin as (c' & Hc' & Hin).
    apply (child_ids_incl c' cs); [exact Hin |]. rewrite <- Hc'. apply nodeId_in_ids.
Qed.

Lemma same_id_same_child cs a b :
  NoDup (map nodeId cs) -> In a cs -> In b cs -> nodeId a = nodeId b -> a = b.
Proof.
  induction cs as [| c cs IH]; intros Hnd Ha Hb E; [contradiction |].
  cbn [map] in Hnd. apply NoDup_cons in Hnd. destruct Hnd as [Hc Hnd].
  assert (Hout : forall x, In x cs -> nodeId x <> nodeId c).
  { intros x Hx Ex. apply Hc. apply list_elem_of_In. rewrite <- Ex. now apply in_map. }
  destruct Ha as [-> | Ha], Hb as [-> | Hb].
  - reflexivity.
  - exfalso. now apply (Hout b Hb).
  - exfalso. now apply (Hout a Ha).
  - now apply IH.
Qed.

(** A list of siblings with unique ids, split at the sibling [tn]. *)
Lemma split_at_child cs tn :
  NoDup (map nodeId cs) -> In tn cs ->
  exists A B, cs = A ++ tn :: B /\
              ~ In (nodeId tn) (map nodeId A) /\ ~ In (nodeId tn) (map nodeId B).
Proof.
  intros Hnd Hin. destruct (in_split _ _ Hin) as (A & B & ->).
  exists A, B. split; [reflexivity |].
  rewrite map_app in Hnd. cbn [map] in Hnd.
  apply NoDup_app in Hnd. destruct Hnd as (_ & Hdisj & Hnd).
  apply NoDup_cons in Hnd. destruct Hnd as [HB _].
  split.
  - intros HA. apply (Hdisj (nodeId tn)); [now apply list_elem_of_In | now left].
  - intros HB'. apply HB. now apply list_elem_of_In.
Qed.

Lemma without_split d A tn B :
  nodeId tn <> d ->
  without d (A ++ tn :: B) = without d A ++ tn :: without d B.
Proof.
  intros Hne. rewrite without_app. f_equal. cbn [without List.filter].
  destruct (Nat.eqb_spec (nodeId tn) d); [contradiction | reflexivity].
Qed.

Lemma move_before cs n tn :
  NoDup (map nodeId cs) -> In tn cs -> nodeId n <> nodeId tn ->
  exists pre post,
    without (nodeId n) cs = pre ++ tn :: post /\
    insertAt (Some (nodeId tn)) n (without (nodeId n) cs) = pre ++ n :: tn :: post.
Proof.
  intros Hnd Ht Hne.
  destruct (split_at_child cs tn Hnd Ht) as (A & B & -> & HA & HB).
  exists (without (nodeId n) A), (without (nodeId n) B).
  rewrite without_split by congruence. split; [reflexivity |].
  cbn [insertAt]. apply insertBeforeChild_at; [| reflexivity].
  intros Hin. apply HA. now apply (without_ids_in (nodeId n)).
Qed.

Lemma move_after cs n tn :
  NoDup (map nodeId cs) -> In n cs -> In tn cs -> nodeId n <> nodeId tn ->
  let child := siblingAfter (nodeId tn) cs in
  let child' :=
    match child with
    | Some c => if (c =? nodeId n)%nat then siblingAfter (nodeId n) cs else Some c
    | None => None
    end in
  exists pre post,
    without (nodeId n) cs = pre ++ tn :: post /\
    insertAt child' n (without (nodeId n) cs) = pre ++ tn :: n :: post.
Proof.
  intros Hnd Hn Ht Hne child child'.
  destruct (split_at_child cs tn Hnd Ht) as (A & B & E & HA & HB).
  exists (without (nodeId n) A), (without (nodeId n) B).
  assert (Hw : without (nodeId n) cs =
               without (nodeId n) A ++ tn :: without (nodeId n) B)
    by (rewrite E; apply without_split; congruence).
  split; [exact Hw |]. rewrite Hw.
  assert (HwA : ~ In (nodeId tn) (map nodeId (without (nodeId n) A)))
    by (intros Hin; apply HA; now apply (without_ids_in (nodeId n))).
  assert (Hchild : child = match B with [] => None | s :: _ => Some (nodeId s) end)
    by (subst child; rewrite E; now apply siblingAfter_at).
  subst child'. rewrite Hchild. clear Hchild child.
  destruct B as [| s B'].
  { cbn [insertAt without List.filter]. rewrite <- app_assoc. reflexivity. }
  (* ids of the whole list are distinct *)
  pose proof Hnd as Hnd'. rewrite E, map_app in Hnd'. cbn [map] in Hnd'.
  apply NoDup_app in Hnd'. destruct Hnd' as (_ & HdisjA & HndB).
  apply NoDup_cons in HndB. destruct HndB as [_ HndB].
  apply NoDup_cons in HndB. destruct HndB as [HsB' _].
  assert (HsA : ~ In (nodeId s) (map nodeId A)).
  { intros Hin. apply (HdisjA (nodeId s)); [now apply list_elem_of_In |].
    right. now left. }
  assert (Hst : nodeId s <> nodeId tn).
  { intros Es. apply HB. left. exact Es. }
  destruct (Nat.eqb_spec (nodeId s) (nodeId n)) as [Esn | Hsn].
  - (* the next sibling is the dragged node itself *)
    assert (s = n).
    { apply (same_id_same_child cs); [exact Hnd | | exact Hn | exact Esn].
      rewrite E. apply in_app_iff. right. right. now left. }
    subst s.
    assert (HnB' : ~ In (nodeId n) (map nodeId B'))
      by (intros Hin; apply HsB'; now apply list_elem_of_In).
    assert (Hafter : siblingAfter (nodeId n) cs =
                     match B' with [] => None | s2 :: _ => Some (nodeId s2) end).
    { rewrite E.
      change (A ++ tn :: n :: B') with (A ++ [tn] ++ n :: B').
      rewrite app_assoc. apply siblingAfter_at; [| reflexivity].
      rewrite map_app, in_app_iff. cbn [map In]. intros [Hin | [Hin | []]].
      - now apply HsA.
      - now apply Hst. }
    rewrite Hafter.
    assert (HwB : without (nodeId n) (n :: B') = B').
    { cbn [without List.filter]. rewrite Nat.eqb_refl. cbn [negb].
      now apply without_absent. }
    rewrite HwB.
    destruct B' as [| s2 B''].
    + cbn [insertAt]. rewrite <- app_assoc. reflexivity.
    + cbn [insertAt].
      change (without (nodeId n) A ++ tn :: s2 :: B'')
        with (without (nodeId n) A ++ [tn] ++ s2 :: B'').
      rewrite app_assoc.
      rewrite insertBeforeChild_at; [now rewrite <- app_assoc | | reflexivity].
      rewrite map_app, in_app_iff. cbn [map In]. intros [Hin | [Hin | []]].
      * apply (without_ids_in (nodeId n)) in Hin.
        apply (HdisjA (nodeId s2)); [now apply list_elem_of_In |].
        right. right. now left.
      * apply HB. right. left. symmetry. exact Hin.
  - cbn [insertAt].
    assert (HwB : without (nodeId n) (s :: B') = s :: without (nodeId n) B').
    { cbn [without List.filter].
      destruct (Nat.eqb_spec (nodeId s) (nodeId n)); [contradiction | reflexivity]. }
    rewrite HwB.
    change (without (nodeId n) A ++ tn :: s :: without (nodeId n) B')
      with (without (nodeId n) A ++ [tn] ++ s :: without (nodeId n) B').
    rewrite app_assoc.
    rewrite insertBeforeChild_at; [now rewrite <- app_assoc | | reflexivity].
    rewrite map_app, in_app_iff. cbn [map In]. intros [Hin | [Hin | []]].
    + apply HsA. now apply (without_ids_in (nodeId n)).
    + now apply Hst.
Qed.

(** *** The move of [handleDragEnd] between two blocks *)

Lemma insertBefore_child root n child :
  uniqueIds root -> In n (childNodes root) ->
  match child with
  | Some c => In c (childIds root)
  | None => True
  end ->
  insertBefore root (nodeId root) (nodeId n) child =
  Normal
    (mkElement (nodeId root) (tagName root)
       (insertAt
          match child with
          | Some c =>
            if (c =? nodeId n)%nat then siblingAfter (nodeId n) (childNodes root)
            else Some c
          | None => None
          end n (without (nodeId n) (childNodes root)))).
Proof.
  intros Hu Hn Hchild. pose proof Hu as Hu'.
  destruct root as [i tg cs]. unfold uniqueIds in Hu. rewrite ids_unfold in Hu.
  apply NoDup_cons in Hu. destruct Hu as [Hi Hnd].
  cbn [nodeId tagName childNodes] in *.
  assert (Hids : forall x, In x (ids n) -> In x (flat_map ids cs))
    by (intros x; now apply child_ids_incl).
  unfold insertBefore.
  rewrite (lookupNode_child (mkElement i tg cs) n Hu' Hn).
  rewrite lookupNode_unfold, Nat.eqb_refl.
  rewrite contains_false.
  2:{ intros Hin. apply Hi. apply list_elem_of_In. now apply Hids. }
  assert (Hc : match child with
               | Some c => existsb (fun x => (nodeId x =? c)%nat) cs
               | None => true
               end = true).
  { destruct child as [c |]; [| reflexivity]. now apply existsb_child. }
  cbn [childNodes]. rewrite Hc. cbn [negb].
  assert (Hnext : nextSibling (mkElement i tg cs) (nodeId n) =
                  siblingAfter (nodeId n) cs).
  { apply (nextSibling_child (mkElement i tg cs)). unfold childIds.
    now apply in_map. }
  rewrite Hnext. f_equal.
  rewrite detach_unfold, keepOthers_children;
    [| exact Hnd | now apply in_map].
  rewrite attach_unfold, Nat.eqb_refl.
  rewrite map_attach_absent; [now destruct child |].
  intros Hin. apply Hi. apply list_elem_of_In. now apply (without_ids (nodeId n)).
Qed.

Lemma siblingAfter_in r cs c : siblingAfter r cs = Some c -> In c (map nodeId cs).
Proof.
  induction cs as [| x cs IH]; [discriminate |].
  cbn [siblingAfter map In].
  destruct (nodeId x =? r)%nat.
  - destruct cs as [| y cs']; [discriminate |]. intros [= <-]. right. now left.
  - intros Hs. right. now apply IH.
Qed.

Lemma child_of_id root d :
  In d (childIds root) -> exists n, In n (childNodes root) /\ nodeId n = d.
Proof.
  unfold childIds. rewrite in_map_iff. intros (n & Hid & Hin). now exists n.
Qed.

(** The move of one child of the editor next to another. *)
Lemma moveBlock_children root n tn pos :
  uniqueIds root -> In n (childNodes root) -> In tn (childNodes root) ->
  nodeId n <> nodeId tn ->
  exists pre post,
    without (nodeId n) (childNodes root) = pre ++ tn :: post /\
    moveBlock root (nodeId n) (nodeId tn) pos =
    Normal
      (mkElement (nodeId root) (tagName root)
         match pos with
         | before => pre ++ n :: tn :: post
         | after => pre ++ tn :: n :: post
         end).
Proof.
  intros Hu Hn Ht Hne.
  pose proof (NoDup_childIds root Hu) as Hnd. unfold childIds in Hnd.
  assert (Htc : In (nodeId tn) (childIds root)) by (now apply in_map).
  unfold moveBlock. rewrite (parentElement_child root _ Htc).
  destruct pos.
  - destruct (move_before (childNodes root) n tn Hnd Ht Hne) as (pre & post & Hw & Hi).
    exists pre, post. split; [exact Hw |].
    rewrite (insertBefore_child root n (Some (nodeId tn)) Hu Hn Htc).
    destruct (Nat.eqb_spec (nodeId tn) (nodeId n)) as [E | _]; [congruence |].
    now rewrite Hi.
  - destruct (move_after (childNodes root) n tn Hnd Hn Ht Hne) as (pre & post & Hw & Hi).
    exists pre, post. split; [exact Hw |].
    rewrite (nextSibling_child root _ Htc).
    rewrite (insertBefore_child root n _ Hu Hn).
    + cbv zeta in Hi. now rewrite Hi.
    + destruct (siblingAfter (nodeId tn) (childNodes root)) as [c |] eqn:E;
        [| exact I].
      now apply (siblingAfter_in (nodeId tn)).
Qed.

Lemma children_permutation cs n :
  NoDup (map nodeId cs) -> In n cs ->
  Permutation cs (n :: without (nodeId n) cs).
Proof.
  intros Hnd Hn.
  destruct (split_at_child cs n Hnd Hn) as (A & B & -> & HA & HB).
  rewrite without_app. cbn [without List.filter]. rewrite Nat.eqb_refl. cbn [negb].
  fold (without (nodeId n) B). rewrite !without_absent by assumption.
  symmetry. apply Permutation_middle.
Qed.

(** *** Subtrees *)

Lemma subtree_ids n e x : subtree n e -> In x (ids n) -> In x (ids e).
Proof.
  induction 1 as [| i t cs c Hc _ IH]; [easy |].
  intros Hx. rewrite ids_unfold. right.
  apply (child_ids_incl c cs); [exact Hc | now apply IH].
Qed.

Lemma subtree_trans a b c : subtree a b -> subtree b c -> subtree a c.
Proof.
  intros Hab Hbc. induction Hbc as [| i t cs k Hk _ IH]; [exact Hab |].
  now apply (subtree_below a i t cs k).
Qed.

Lemma lookupNode_subtree target e r :
  lookupNode target e = Some r -> subtree r e /\ nodeId r = target.
Proof.
  induction e as [i t cs IH] using Element_induction.
  rewrite lookupNode_unfold.
  destruct (Nat.eqb_spec i target) as [E | _].
  - intros [= <-]. split; [constructor | exact E].
  - intros Hscan.
    assert (Hfound : exists c, In c cs /\ lookupNode target c = Some r).
    { clear IH. induction cs as [| c cs IHcs]; [discriminate |].
      cbn [scanLookup] in Hscan.
      destruct (lookupNode target c) as [r' |] eqn:E.
      - injection Hscan as ->. exists c. split; [now left | exact E].
      - destruct (IHcs Hscan) as (c' & Hc' & Hl). exists c'. split; [now right | exact Hl]. }
    destruct Hfound as (c & Hc & Hl).
    rewrite List.Forall_forall in IH. destruct (IH c Hc Hl) as [Hs Hid].
    split; [| exact Hid]. now apply (subtree_below r i t cs c).
Qed.

Lemma id_has_node p e : In p (ids e) -> exists n, subtree n e /\ nodeId n = p.
Proof.
  induction e as [i t cs IH] using Element_induction.
  rewrite ids_unfold. intros [<- | Hin].
  - exists (mkElement i t cs). split; [constructor | reflexivity].
  - apply in_flat_map in Hin. destruct Hin as (c & Hc & Hp).
    rewrite List.Forall_forall in IH.
    destruct (IH c Hc Hp) as (n & Hn & Hid).
    exists n. split; [| exact Hid]. now apply (subtree_below n i t cs c).
Qed.

Lemma familyOf_node target e p cs :
  familyOf target e = Some (p, cs) ->
  exists t, subtree (mkElement p t cs) e /\ In target (map nodeId cs).
Proof.
  induction e as [i t k IH] using Element_induction.
  rewrite familyOf_unfold.
  destruct (existsb _ k) eqn:E.
  - intros [= <- <-]. exists t. split; [constructor | now apply existsb_child].
  - intros Hscan.
    assert (Hfound : exists c, In c k /\ familyOf target c = Some (p, cs)).
    { clear IH E. induction k as [| c k IHk]; [discriminate |].
      cbn [scanFamily] in Hscan.
      destruct (familyOf target c) as [r |] eqn:Ef.
      - injection Hscan as ->. exists c. split; [now left | exact Ef].
      - destruct (IHk Hscan) as (c' & Hc' & Hl). exists c'. split; [now right | exact Hl]. }
    destruct Hfound as (c & Hc & Hf).
    rewrite List.Forall_forall in IH. destruct (IH c Hc Hf) as (t' & Hs & Hin).
    exists t'. split; [| exact Hin]. now apply (subtree_below _ i t k c).
Qed.

Lemma subtree_inv n i t cs :
  subtree n (mkElement i t cs) ->
  n = mkElement i t cs \/ exists c, In c cs /\ subtree n c.
Proof.
  intros Hs. inversion Hs as [| i' t' cs' c Hc Hn]; subst; [now left |].
  right. now exists c.
Qed.

(** Under unique ids a reference denotes one node. *)
Lemma subtree_unique e n1 n2 :
  uniqueIds e -> subtree n1 e -> subtree n2 e -> nodeId n1 = nodeId n2 ->
  n1 = n2.
Proof.
  revert n1 n2. induction e as [i t cs IH] using Element_induction.
  intros n1 n2 Hu H1 H2 Hid. unfold uniqueIds in Hu. rewrite ids_unfold in Hu.
  apply NoDup_cons in Hu. destruct Hu as [Hi Hnd].
  assert (Hbelow : forall n c, In c cs -> subtree n c -> In (nodeId n) (flat_map ids cs)).
  { intros n c Hc Hn. apply (child_ids_incl c cs); [exact Hc |].
    apply (subtree_ids n c); [exact Hn | apply nodeId_in_ids]. }
  apply subtree_inv in H1. apply subtree_inv in H2.
  destruct H1 as [-> | (c1 & Hc1 & H1)], H2 as [-> | (c2 & Hc2 & H2)].
  - reflexivity.
  - exfalso. apply Hi. apply list_elem_of_In. cbn [nodeId] in Hid. rewrite Hid.
    now apply (Hbelow n2 c2).
  - exfalso. apply Hi. apply list_elem_of_In. cbn [nodeId] in Hid. rewrite <- Hid.
    now apply (Hbelow n1 c1).
  - clear Hi Hbelow. rewrite List.Forall_forall in IH.
    assert (Hsame : c1 = c2).
    { clear IH. induction cs as [| c cs IHcs]; [contradiction |].
      cbn [flat_map] in Hnd. apply NoDup_app in Hnd.
      destruct Hnd as (_ & Hdisj & Hnd).
      assert (Hin : forall n k, In k cs -> subtree n k -> In (nodeId n) (flat_map ids cs)).
      { intros n k Hk Hn. apply (child_ids_incl k cs); [exact Hk |].
        apply (subtree_ids n k); [exact Hn | apply nodeId_in_ids]. }
      assert (Hhere : forall n, subtree n c -> In (nodeId n) (ids c))
        by (intros n Hn; apply (subtree_ids n c); [exact Hn | apply nodeId_in_ids]).
      destruct Hc1 as [-> | Hc1], Hc2 as [-> | Hc2].
      - reflexivity.
      - exfalso. apply (Hdisj (nodeId n1)).
        + apply list_elem_of_In. now apply Hhere.
        + apply list_elem_of_In. rewrite Hid. now apply (Hin n2 c2).
      - exfalso. apply (Hdisj (nodeId n2)).
        + apply list_elem_of_In. now apply Hhere.
        + apply list_elem_of_In. rewrite <- Hid. now apply (Hin n1 c1).
      - now apply IHcs. }
    subst c2. apply (IH c1 Hc1); try assumption.
    unfold uniqueIds. clear -Hnd Hc1.
    induction cs as [| c cs IHcs]; [contradiction |].
    cbn [flat_map] in Hnd. apply NoDup_app in Hnd. destruct Hnd as (H0 & _ & Hrest).
    destruct Hc1 as [-> | Hc1]; [exact H0 | now apply IHcs].
Qed.

Lemma subtree_uniqueIds n e : uniqueIds e -> subtree n e -> uniqueIds n.
Proof.
  intros Hu Hs. induction Hs as [| i t cs c Hc _ IH]; [exact Hu |].
  apply IH. unfold uniqueIds in *. rewrite ids_unfold in Hu.
  apply NoDup_cons in Hu. destruct Hu as [_ Hnd].
  clear -Hnd Hc. induction cs as [| k cs IHcs]; [contradiction |].
  cbn [flat_map] in Hnd. apply NoDup_app in Hnd. destruct Hnd as (H0 & _ & Hrest).
  destruct Hc as [-> | Hc]; [exact H0 | now apply IHcs].
Qed.

(** A node that contains the parent contains the child. *)
Lemma contains_child root cb p current :
  uniqueIds root -> subtree cb root ->
  parentElement root current = Some p ->
  contains p cb = true -> contains current cb = true.
Proof.
  intros Hu Hcb Hp Hin. apply contains_ids in Hin. apply contains_ids.
  unfold parentElement in Hp.
  destruct (familyOf current root) as [[p' cs] |] eqn:Ef; [| discriminate].
  injection Hp as ->.
  destruct (familyOf_node _ _ _ _ Ef) as (t & HN & Hcur).
  destruct (id_has_node p cb Hin) as (n & Hn & Hid).
  assert (Hnroot : subtree n root) by (now apply (subtree_trans n cb root)).
  assert (E : n = mkElement p t cs)
    by (apply (subtree_unique root); assumption).
  subst n. apply (subtree_ids (mkElement p t cs) cb); [exact Hn |].
  rewrite ids_unfold. right.
  apply in_map_iff in Hcur. destruct Hcur as (c & Hc & Hcin).
  apply (child_ids_incl c cs); [exact Hcin |]. rewrite <- Hc. apply nodeId_in_ids.
Qed.

Lemma disjoint_children ks k k' x :
  NoDup (flat_map ids ks) -> In k ks -> In k' ks ->
  In x (ids k) -> In x (ids k') -> k = k'.
Proof.
  induction ks as [| c ks IH]; intros Hnd Hk Hk' Hx Hx'; [contradiction |].
  cbn [flat_map] in Hnd. apply NoDup_app in Hnd. destruct Hnd as (_ & Hdisj & Hnd).
  destruct Hk as [-> | Hk], Hk' as [-> | Hk'].
  - reflexivity.
  - exfalso. apply (Hdisj x); apply list_elem_of_In;
      [exact Hx | now apply (child_ids_incl k' ks)].
  - exfalso. apply (Hdisj x); apply list_elem_of_In;
      [exact Hx' | now apply (child_ids_incl k ks)].
  - now apply IH.
Qed.

Lemma uniqueIds_children i t cs :
  uniqueIds (mkElement i t cs) ->
  ~ In i (flat_map ids cs) /\ NoDup (flat_map ids cs) /\
  forall c, In c cs -> uniqueIds c.
Proof.
  unfold uniqueIds. rewrite ids_unfold. intros Hu.
  apply NoDup_cons in Hu. destruct Hu as [Hi Hnd].
  split; [now rewrite <- list_elem_of_In |]. split; [exact Hnd |].
  intros c Hc. clear Hi. induction cs as [| k cs IHcs]; [contradiction |].
  cbn [flat_map] in Hnd. apply NoDup_app in Hnd. destruct Hnd as (H0 & _ & Hrest).
  destruct Hc as [-> | Hc]; [exact H0 | now apply IHcs].
Qed.

Lemma scanLookup_in x ks k r :
  NoDup (flat_map ids ks) -> In k ks -> lookupNode x k = Some r ->
  scanLookup x ks = Some r.
Proof.
  intros Hnd Hk Hl.
  assert (Hx : In x (ids k)).
  { destruct (lookupNode_subtree _ _ _ Hl) as [Hs <-].
    apply (subtree_ids r k); [exact Hs | apply nodeId_in_ids]. }
  induction ks as [| c ks IH]; [contradiction |].
  cbn [scanLookup]. destruct (lookupNode x c) as [r' |] eqn:E.
  - assert (Hx' : In x (ids c)).
    { destruct (lookupNode_subtree _ _ _ E) as [Hs <-].
      apply (subtree_ids r' c); [exact Hs | apply nodeId_in_ids]. }
    assert (Hkc : k = c)
      by (apply (disjoint_children (c :: ks) k c x); try assumption; now left).
    subst c. congruence.
  - destruct Hk as [-> | Hk]; [congruence |].
    apply IH; [| exact Hk].
    cbn [flat_map] in Hnd. apply NoDup_app in Hnd. tauto.
Qed.

(** Under unique ids a node of the document is found by its reference. *)
Lemma lookupNode_found n e :
  uniqueIds e -> subtree n e -> lookupNode (nodeId n) e = Some n.
Proof.
  intros Hu Hs. induction Hs as [| i t cs c Hc Hn IH].
  - destruct n as [i t cs]. rewrite lookupNode_unfold. cbn [nodeId].
    now rewrite Nat.eqb_refl.
  - destruct (uniqueIds_children _ _ _ Hu) as (Hi & Hnd & Hcs).
    rewrite lookupNode_unfold.
    destruct (Nat.eqb_spec i (nodeId n)) as [E | _].
    { exfalso. apply Hi. rewrite E. apply (child_ids_incl c cs); [exact Hc |].
      apply (subtree_ids n c); [exact Hn | apply nodeId_in_ids]. }
    apply (scanLookup_in _ cs c); [exact Hnd | exact Hc |].
    apply IH. now apply Hcs.
Qed.

Lemma familyOf_ids x e r : familyOf x e = Some r -> In x (ids e).
Proof.
  destruct r as [p cs]. intros Hf.
  destruct (familyOf_node _ _ _ _ Hf) as (t & Hs & Hin).
  apply (subtree_ids (mkElement p t cs) e); [exact Hs |].
  rewrite ids_unfold. right. apply in_map_iff in Hin.
  destruct Hin as (c & <- & Hc).
  apply (child_ids_incl c cs); [exact Hc | apply nodeId_in_ids].
Qed.

Lemma scanFamily_in x ks k r :
  NoDup (flat_map ids ks) -> In k ks -> familyOf x k = Some r ->
  scanFamily x ks = Some r.
Proof.
  intros Hnd Hk Hf.
  assert (Hx : In x (ids k)) by (now apply (familyOf_ids x k r)).
  induction ks as [| c ks IH]; [contradiction |].
  cbn [scanFamily]. destruct (familyOf x c) as [r' |] eqn:E.
  - assert (Hx' : In x (ids c)) by (now apply (familyOf_ids x c r')).
    assert (Hkc : k = c)
      by (apply (disjoint_children (c :: ks) k c x); try assumption; now left).
    subst c. congruence.
  - destruct Hk as [-> | Hk]; [congruence |].
    apply IH; [| exact Hk].
    cbn [flat_map] in Hnd. apply NoDup_app in Hnd. tauto.
Qed.

Lemma subtree_strict n k x :
  subtree n k -> In x (flat_map ids (childNodes n)) ->
  In x (flat_map ids (childNodes k)).
Proof.
  induction 1 as [| i t cs c Hc Hn IH]; [easy |].
  intros Hx. cbn [childNodes]. apply (child_ids_incl c cs); [exact Hc |].
  destruct c as [j u ks]. rewrite ids_unfold. right. now apply IH.
Qed.

(** Under unique ids the parent of a node is the node it is a child of. *)
Lemma familyOf_found i t cs c e :
  uniqueIds e -> subtree (mkElement i t cs) e -> In c cs ->
  familyOf (nodeId c) e = Some (i, cs).
Proof.
  intros Hu Hs Hc. induction Hs as [| j u ks k Hk HN IH].
  - rewrite familyOf_unfold.
    assert (E : existsb (fun c' => (nodeId c' =? nodeId c)%nat) cs = true)
      by (apply existsb_child; now apply in_map).
    now rewrite E.
  - destruct (uniqueIds_children _ _ _ Hu) as (Hj & Hnd & Hks).
    rewrite familyOf_unfold.
    assert (Hstrict : In (nodeId c) (flat_map ids (childNodes k))).
    { apply (subtree_strict (mkElement i t cs) k); [exact HN |].
      cbn [childNodes]. apply (child_ids_incl c cs); [exact Hc | apply nodeId_in_ids]. }
    destruct (existsb _ ks) eqn:E.
    + exfalso. apply existsb_exists in E. destruct E as (k' & Hk' & Hid).
      apply Nat.eqb_eq in Hid.
      assert (Hin : In (nodeId c) (ids k)).
      { destruct k as [a b l]. rewrite ids_unfold. now right. }
      assert (Hsame : k = k').
      { apply (disjoint_children ks k k' (nodeId c)); try assumption.
        rewrite <- Hid. apply nodeId_in_ids. }
      subst k'. destruct k as [a b l].
      destruct (uniqueIds_children _ _ _ (Hks _ Hk)) as (Ha & _ & _).
      apply Ha. cbn [nodeId childNodes] in *. now rewrite Hid.
    + apply (scanFamily_in _ ks k); [exact Hnd | exact Hk |].
      apply IH. now apply Hks.
Qed.

Lemma descendants_length_child i t cs c :
  In c cs ->
  (S (length (descendants c)) <= length (descendants (mkElement i t cs)))%nat.
Proof.
  cbn [descendants]. induction cs as [| k cs IH]; [contradiction |].
  intros [-> | Hc]; cbn [flat_map]; rewrite length_app; cbn [length].
  - lia.
  - specialize (IH Hc). lia.
Qed.

End DomFacts.

Module ReorderFacts.
Import DragAndDrop DragAndDropFacts Dom DomFacts.

Section WithNumbers.
Context `{JsNumber}.

Lemma resolveDrop_target rect y blocks dragged :
  let r := calculateDropPosition rect y blocks dragged in
  match resTarget r, resPosition r with
  | Some t, Some _ => In t blocks /\ t <> dragged
  | None, None => True
  | _, _ => False
  end.
Proof.
  intros r. subst r. rewrite calculateDropPosition_resolveDrop. unfold resolveDrop.
  destruct (find _ (candidates blocks dragged)) as [k |] eqn:Ef.
  - apply find_some in Ef. destruct Ef as [Hin _]. cbn [resTarget resPosition].
    split; [| now apply (candidates_not_dragged blocks)].
    unfold candidates in Hin. apply filter_In in Hin. tauto.
  - destruct (last (candidates blocks dragged)) as [l |] eqn:El;
      cbn [resTarget resPosition]; [| exact I].
    assert (Hin : In l (candidates blocks dragged))
      by (apply list_elem_of_In; eapply last_Some_elem_of; exact El).
    split; [| now apply (candidates_not_dragged blocks)].
    unfold candidates in Hin. apply filter_In in Hin. tauto.
Qed.

(** A drag between top-level blocks always ends well.  In a document with
    unique node references whose blocks, as [getBlockElements] lists them, are
    all children of the editor, while a child [d] of the editor is being
    dragged: after any [mousemove], the release returns normally and leaves
    the engine idle.  If the move resolved a target, the target is another
    child, the host is notified once, and the editor's children are the old
    ones (a permutation of them) with the dragged block taken out and put
    back right before or right after the target, every other block in its
    old order; if it resolved none, the document is untouched and nobody is
    notified. *)
Theorem drag_between_blocks h root d e :
  isDragging (dragState h) = true ->
  draggedElement (dragState h) = Some d ->
  editorRef h = Some root ->
  uniqueIds root ->
  In d (childIds root) ->
  (forall b, In b (getBlockElements h) -> In b (childIds root)) ->
  let h1 := handleDragMove e h in
  exists h',
    handleDragEnd h1 = Normal h' /\ dragState h' = idle /\
    match dropTarget (dragState h1), dropPosition (dragState h1) with
    | Some t, Some pos =>
      t <> d /\ contentChanges h' = S (contentChanges h) /\
      exists n tn pre post root',
        In n (childNodes root) /\ nodeId n = d /\ nodeId tn = t /\
        without d (childNodes root) = pre ++ tn :: post /\
        editorRef h' = Some root' /\
        nodeId root' = nodeId root /\ tagName root' = tagName root /\
        childNodes root' =
          match pos with
          | before => pre ++ n :: tn :: post
          | after => pre ++ tn :: n :: post
          end /\
        Permutation (childNodes root') (childNodes root)
    | _, _ => editorRef h' = Some root /\ contentChanges h' = contentChanges h
    end.
Proof.
  intros Hdrag Hd Hroot Hu Hdc Hflat h1.
  set (h0 := updateGhostPosition (clientX e) (clientY e) h).
  assert (Hds0 : dragState h0 = dragState h)
    by (subst h0; unfold updateGhostPosition; now destruct (dragGhostRef h)).
  assert (Hed0 : editorRef h0 = editorRef h)
    by (subst h0; unfold updateGhostPosition; now destruct (dragGhostRef h)).
  assert (Hcc0 : contentChanges h0 = contentChanges h)
    by (subst h0; unfold updateGhostPosition; now destruct (dragGhostRef h)).
  assert (Hbl0 : getBlockElements h0 = getBlockElements h)
    by (unfold getBlockElements; now rewrite Hed0).
  set (r := calculateDropPosition (getBoundingClientRect h0) (clientY e)
              (getBlockElements h0) d).
  assert (Hh1 : h1 = setDragState
                       {| isDragging := true; draggedElement := Some d;
                          dropIndicatorY := resIndicatorY r;
                          dropTarget := resTarget r;
                          dropPosition := resPosition r |} h0).
  { subst h1. unfold handleDragMove. rewrite Hdrag, Hd. fold h0. fold r.
    now rewrite Hds0, Hdrag, Hd. }
  pose proof (resolveDrop_target (getBoundingClientRect h0) (clientY e)
                (getBlockElements h0) d) as Hres.
  cbv zeta in Hres. fold r in Hres.
  rewrite Hh1. clear Hh1 h1.
  unfold handleDragEnd.
  cbn [setDragState dragState isDragging draggedElement dropTarget dropPosition
       negb].
  set (h2 := removeDragGhost (classListRemove d (setDragState _ h0))).
  assert (Hed2 : editorRef h2 = Some root).
  { subst h2. unfold removeDragGhost.
    destruct (dragGhostRef _); cbn [editorRef classListRemove setDragState];
      now rewrite Hed0. }
  assert (Hcc2 : contentChanges h2 = contentChanges h).
  { subst h2. unfold removeDragGhost.
    destruct (dragGhostRef _); cbn [contentChanges classListRemove setDragState];
      exact Hcc0. }
  destruct (resTarget r) as [t |] eqn:Et.
  2:{ exists (setDragState idle h2). split; [reflexivity |].
      split; [reflexivity |]. cbn [setDragState editorRef contentChanges].
      now split. }
  destruct (resPosition r) as [pos |] eqn:Ep; [| contradiction].
  destruct Hres as [Hin Hne]. rewrite Hbl0 in Hin.
  destruct (child_of_id root d Hdc) as (n & Hn & Hnid).
  destruct (child_of_id root t (Hflat t Hin)) as (tn & Htn & Htid).
  rewrite Hed2.
  destruct (moveBlock_children root n tn pos Hu Hn Htn) as (pre & post & Hw & Hm);
    [congruence |].
  rewrite Hnid, Htid in Hm. rewrite Hm.
  eexists. split; [reflexivity |]. split; [reflexivity |].
  split; [exact Hne |].
  cbn [setDragState onContentChange setEditor contentChanges editorRef].
  split; [now rewrite Hcc2 |].
  exists n, tn, pre, post. eexists.
  split; [exact Hn |]. split; [exact Hnid |]. split; [exact Htid |].
  split; [now rewrite <- Hnid |]. split; [reflexivity |].
  split; [reflexivity |]. split; [reflexivity |]. split; [reflexivity |].
  cbn [childNodes].
  pose proof (NoDup_childIds root Hu) as Hnd. unfold childIds in Hnd.
  rewrite (children_permutation (childNodes root) n Hnd Hn), Hw.
  destruct pos.
  - symmetry. apply Permutation_middle.
  - replace (pre ++ tn :: n :: post) with ((pre ++ [tn]) ++ n :: post)
      by (now rewrite <- app_assoc).
    replace (n :: pre ++ tn :: post) with (n :: (pre ++ [tn]) ++ post)
      by (now rewrite <- app_assoc).
    symmetry. apply Permutation_middle.
Qed.

(** *** Which block a handle picks up *)

Lemma findBlockParentFrom_sound fuel root current b :
  uniqueIds root ->
  findBlockParentFrom fuel root current = Some b ->
  b <> nodeId root /\ parentElement root b = Some (nodeId root) /\
  exists c, lookupNode b root = Some c /\ matchesDraggable c = true /\
            contains current c = true.
Proof.
  intros Hu. revert current.
  induction fuel as [| fuel IH]; intros current; [discriminate |].
  cbn [findBlockParentFrom].
  destruct (Nat.eqb_spec current (nodeId root)) as [| Hne]; [discriminate |].
  destruct (lookupNode current root) as [c |] eqn:El; [| discriminate].
  destruct (parentElement root current) as [p |] eqn:Ep; [| discriminate].
  destruct ((p =? nodeId root)%nat && matchesDraggable c) eqn:Ec.
  - intros [= <-]. apply andb_prop in Ec. destruct Ec as [Hp Hm].
    apply Nat.eqb_eq in Hp. subst p.
    split; [exact Hne |]. split; [exact Ep |]. exists c.
    split; [exact El |]. split; [exact Hm |].
    apply contains_ids. destruct (lookupNode_subtree _ _ _ El) as [_ <-].
    apply nodeId_in_ids.
  - intros Hf. destruct (IH p Hf) as (Hb & Hpb & cb & Hl & Hm & Hc).
    split; [exact Hb |]. split; [exact Hpb |]. exists cb.
    split; [exact Hl |]. split; [exact Hm |].
    destruct (lookupNode_subtree _ _ _ Hl) as [Hs _].
    now apply (contains_child root cb p current).
Qed.

Lemma matchesScoped_child root c :
  matchesScoped (nodeId root) (nodeId root, c) = matchesDraggable c.
Proof.
  unfold matchesScoped, matchesDraggable. cbn [DRAGGABLE_SELECTORS fst snd].
  rewrite Nat.eqb_refl. reflexivity.
Qed.

Lemma child_in_descendants root c :
  In c (childNodes root) -> In (nodeId root, c) (descendants root).
Proof.
  destruct root as [i t cs]. cbn [childNodes nodeId descendants].
  intros Hin. apply in_flat_map. exists c. split; [exact Hin | now left].
Qed.

Lemma child_not_root root c n :
  uniqueIds root -> In c (childNodes root) -> subtree n c ->
  nodeId n <> nodeId root.
Proof.
  destruct root as [i t cs]. cbn [childNodes nodeId]. intros Hu Hc Hn E.
  destruct (uniqueIds_children _ _ _ Hu) as (Hi & _ & _).
  apply Hi. rewrite <- E. apply (child_ids_incl c cs); [exact Hc |].
  apply (subtree_ids n c); [exact Hn | apply nodeId_in_ids].
Qed.

Lemma child_subtree root c : In c (childNodes root) -> subtree c root.
Proof.
  destruct root as [i t cs]. cbn [childNodes]. intros Hc.
  apply (subtree_below c i t cs c); [exact Hc | constructor].
Qed.

(** From a node inside a top-level child the walk climbs to that child. *)
Lemma findBlockParentFrom_climb root c n m :
  uniqueIds root -> In c (childNodes root) -> subtree n m -> subtree m c ->
  exists k, (k <= length (descendants m))%nat /\
    forall fuel,
      findBlockParentFrom (k + fuel) root (nodeId n) =
      findBlockParentFrom fuel root (nodeId m).
Proof.
  intros Hu Hc Hn. induction Hn as [| i t cs c' Hc' Hn IH]; intros Hm.
  - exists 0%nat. split; [lia | reflexivity].
  - assert (Hc'm : subtree c' (mkElement i t cs))
      by (apply (subtree_below c' i t cs c'); [exact Hc' | constructor]).
    assert (Hc'c : subtree c' c) by (now apply (subtree_trans c' (mkElement i t cs) c)).
    destruct (IH Hc'c) as (k & Hk & Hwalk).
    exists (S k). split.
    { pose proof (descendants_length_child i t cs c' Hc'). lia. }
    intros fuel. replace (S k + fuel)%nat with (k + S fuel)%nat by lia.
    rewrite Hwalk. cbn [findBlockParentFrom nodeId].
    pose proof (child_subtree root c Hc) as Hcroot.
    destruct (Nat.eqb_spec (nodeId c') (nodeId root)) as [E | _];
      [now apply (child_not_root root c c' Hu Hc) in E |].
    rewrite (lookupNode_found c' root Hu (subtree_trans _ _ _ Hc'c Hcroot)).
    unfold parentElement.
    rewrite (familyOf_found i t cs c' root Hu (subtree_trans _ _ _ Hm Hcroot) Hc').
    destruct (Nat.eqb_spec i (nodeId root)) as [E | _];
      [now apply (child_not_root root c (mkElement i t cs) Hu Hc Hm) in E |].
    reflexivity.
Qed.

(** [findBlockParent] picks the top-level block around an element.  In a
    document with unique node references: started from a node anywhere
    inside a child of the editor (the child itself included), the walk
    returns that child when its tag is one of the draggable ones and null
    when it is not; started from any other element (the editor itself, or a
    reference outside it) it returns null; and a block it returns is among
    the blocks [getBlockElements] lists. *)
Theorem findBlockParent_top_level h root :
  editorRef h = Some root ->
  uniqueIds root ->
  (forall c n,
     In c (childNodes root) -> subtree n c ->
     findBlockParent h (nodeId n) =
     if matchesDraggable c then Some (nodeId c) else None) /\
  (forall element,
     ~ In element (flat_map ids (childNodes root)) ->
     findBlockParent h element = None) /\
  (forall element b,
     findBlockParent h element = Some b -> In b (getBlockElements h)).
Proof.
  intros Hroot Hu.
  assert (Hsound : forall element b,
     findBlockParent h element = Some b ->
     In b (getBlockElements h) /\
     exists c, In c (childNodes root) /\ contains element c = true).
  { intros element b. unfold findBlockParent, getBlockElements. rewrite Hroot.
    intros Hf. apply (findBlockParentFrom_sound _ _ _ _ Hu) in Hf.
    destruct Hf as (Hne & Hp & c & Hl & Hm & Hc).
    apply (parentElement_root root b Hu) in Hp.
    destruct (child_of_id root b Hp) as (c' & Hc' & Hid).
    rewrite <- Hid, (lookupNode_child root c' Hu Hc') in Hl.
    injection Hl as <-.
    split; [| now exists c'].
    apply in_map_iff. exists (nodeId root, c'). split; [exact Hid |].
    apply filter_In. split; [now apply child_in_descendants |].
    now rewrite matchesScoped_child. }
  split; [| split].
  - intros c n Hc Hn. unfold findBlockParent. rewrite Hroot.
    destruct (findBlockParentFrom_climb root c n c Hu Hc Hn (subtree_self c))
      as (k & Hk & Hwalk).
    pose proof (child_subtree root c Hc) as Hcroot.
    assert (Hlen : (S (length (descendants c)) <= length (descendants root))%nat).
    { destruct root as [i t cs]. now apply descendants_length_child. }
    replace (S (length (descendants root)))
      with (k + S (S (length (descendants root) - k - 1)))%nat by lia.
    rewrite Hwalk. cbn [findBlockParentFrom].
    destruct (Nat.eqb_spec (nodeId c) (nodeId root)) as [E | _];
      [now apply (child_not_root root c c Hu Hc (subtree_self c)) in E |].
    rewrite (lookupNode_child root c Hu Hc).
    rewrite (parentElement_child root (nodeId c)) by (now apply in_map).
    rewrite !Nat.eqb_refl. cbn [andb].
    now destruct (matchesDraggable c).
  - intros element Hout.
    destruct (findBlockParent h element) as [b |] eqn:E; [| reflexivity].
    exfalso. apply Hout. destruct (Hsound element b E) as (_ & c & Hc & Hin).
    apply contains_ids in Hin. now apply (child_ids_incl c (childNodes root)).
  - intros element b Hf. now destruct (Hsound element b Hf).
Qed.

(** *** A press and a release *)

Lemma removeGhost_fresh (g : nat) (l : list Ghost) :
  (forall x, In x l -> ghostId x <> g) ->
  List.filter (fun x => negb (ghostId x =? g)%nat) l = l.
Proof.
  induction l as [| x l IH]; intros Hl; [reflexivity |].
  cbn [List.filter].
  destruct (Nat.eqb_spec (ghostId x) g) as [E | _].
  - exfalso. apply (Hl x); [now left | exact E].
  - cbn [negb]. f_equal. apply IH. intros y Hy. apply Hl. now right.
Qed.

Lemma moveGhost_fresh (g : nat) (x y : number) (l : list Ghost) :
  (forall z, In z l -> ghostId z <> g) ->
  map (fun x' => if (ghostId x' =? g)%nat
                 then {| ghostId := ghostId x'; clonedFrom := clonedFrom x';
                         styleLeft := Some (num_add x (num_lit 10));
                         styleTop := Some (num_add y (num_lit 10)) |}
                 else x') l = l.
Proof.
  induction l as [| z l IH]; intros Hl; [reflexivity |].
  cbn [map].
  destruct (Nat.eqb_spec (ghostId z) g) as [E | _].
  - exfalso. apply (Hl z); [now left | exact E].
  - f_equal. apply IH. intros w Hw. apply Hl. now right.
Qed.

(** Pressing the handle and releasing it without a move changes nothing in
    the document.  From the idle engine (no ghost, ghost ids below the
    counter), whatever element the handle stands for: after [mousedown] and
    [mouseup] the engine is idle again, the ghost it made is gone from the
    page, the editor's tree is the same, the host was not notified, and no
    block is left with the class [dragging] that did not have it. *)
Theorem press_and_release h element e :
  dragState h = idle ->
  dragGhostRef h = None ->
  (forall x, In x (body h) -> (ghostId x < created h)%nat) ->
  let h' := gesture [MouseDownOnHandle element e; MouseUp] h in
  dragState h' = idle /\ dragGhostRef h' = None /\ body h' = body h /\
  editorRef h' = editorRef h /\ contentChanges h' = contentChanges h /\
  (forall b, In b (classDragging h') -> In b (classDragging h)).
Proof.
  intros Hidle Href Hfresh h'. subst h'.
  unfold gesture. cbn [fold_left dispatch settle].
  unfold handleDragStart.
  destruct (findBlockParent h element) as [block |] eqn:Ef.
  2:{ rewrite Hidle. cbn [isDragging idle settle]. rewrite Hidle.
      repeat split; auto. }
  cbn [setDragState dragState isDragging settle].
  unfold handleDragEnd.
  cbn [setDragState dragState isDragging draggedElement dropTarget dropPosition
       negb].
  unfold removeDragGhost, updateGhostPosition.
  cbn [classListRemove classListAdd createDragGhost setDragState dragGhostRef
       body ghostId editorRef contentChanges classDragging dragState settle].
  split; [reflexivity |]. split; [reflexivity |].
  split.
  { rewrite map_app, List.filter_app. cbn [map List.filter ghostId].
    rewrite Nat.eqb_refl. cbn [ghostId negb]. rewrite Nat.eqb_refl. cbn [negb].
    rewrite app_nil_r.
    assert (Hne : forall z, In z (body h) -> ghostId z <> created h)
      by (intros z Hz; specialize (Hfresh z Hz); lia).
    rewrite moveGhost_fresh by exact Hne.
    now apply removeGhost_fresh. }
  split; [reflexivity |]. split; [reflexivity |].
  intros b Hb. apply filter_In in Hb. destruct Hb as [Hb Hne].
  destruct (existsb (Nat.eqb block) (classDragging h)); [exact Hb |].
  apply in_app_iff in Hb. destruct Hb as [Hb | [<- | []]]; [exact Hb |].
  rewrite Nat.eqb_refl in Hne. discriminate.
Qed.

End WithNumbers.

Lemma threeBlocks_unique : uniqueIds threeBlocks.
Proof.
  unfold uniqueIds. apply (bool_decide_unpack _). vm_compute. exact I.
Defined.

Lemma drag_between_blocks_witness :
  let h := handleDragStart 4%nat (@mkMouse QNumber 5%Q 30%Q) threeHook in
  let h1 := handleDragMove (@mkMouse QNumber 5%Q 5%Q) h in
  exists h',
    handleDragEnd h1 = Normal h' /\ dragState h' = idle /\
    1%nat <> 2%nat /\ contentChanges h' = 1%nat /\
    exists n tn pre post root',
      In n (childNodes threeBlocks) /\ nodeId n = 2%nat /\ nodeId tn = 1%nat /\
      without 2%nat (childNodes threeBlocks) = pre ++ tn :: post /\
      editorRef h' = Some root' /\
      nodeId root' = 0%nat /\ tagName root' = "div"%string /\
      childNodes root' = pre ++ n :: tn :: post /\
      Permutation (childNodes root') (childNodes threeBlocks).
Proof.
  intros h h1.
  apply (@drag_between_blocks QNumber h threeBlocks 2%nat
           (@mkMouse QNumber 5%Q 5%Q)).
  - reflexivity.
  - reflexivity.
  - reflexivity.
  - exact threeBlocks_unique.
  - cbn. tauto.
  - intros b Hb. vm_compute in Hb. cbn. tauto.
Defined.

Lemma findBlockParent_top_level_witness :
  findBlockParent threeHook 4%nat = Some 2%nat /\
  findBlockParent threeHook 0%nat = None /\
  In 2%nat (getBlockElements threeHook).
Proof.
  destruct (@findBlockParent_top_level QNumber threeHook threeBlocks eq_refl
              threeBlocks_unique) as (Hinside & Houtside & Hlisted).
  split; [| split].
  - apply (Hinside (mkElement 2%nat "p" [mkElement 4%nat "strong" []])
                   (mkElement 4%nat "strong" [])).
    + cbn. tauto.
    + apply (subtree_below _ 2%nat "p" [mkElement 4%nat "strong" []]
                           (mkElement 4%nat "strong" []));
        [now left | constructor].
  - apply Houtside. cbn. intros Hin. decompose [or] Hin; discriminate || assumption.
  - apply (Hlisted 4%nat 2%nat). reflexivity.
Defined.

Lemma press_and_release_witness :
  let h' := gesture [MouseDownOnHandle 4%nat (@mkMouse QNumber 5%Q 30%Q); MouseUp]
              threeHook in
  dragState h' = idle /\ dragGhostRef h' = None /\ body h' = body threeHook /\
  editorRef h' = editorRef threeHook /\
  contentChanges h' = contentChanges threeHook /\
  (forall b, In b (classDragging h') -> In b (classDragging threeHook)).
Proof.
  apply (@press_and_release QNumber threeHook 4%nat (@mkMouse QNumber 5%Q 30%Q)).
  - reflexivity.
  - reflexivity.
  - intros x Hx. destruct Hx.
Defined.

End ReorderFacts.

(** ** Characters *)

Module DangerousContentFacts.
Import Chars CharsFacts RegExp DOMPurify Sanitize DangerousContent.

(** *** Strings without a given character *)

Lemma hasChar_app c a b :
  hasChar c (String.append a b) = hasChar c a || hasChar c b.
Proof.
  induction a as [| x a IH]; [reflexivity |].
  change (String.append (String x a) b) with (String x (String.append a b)).
  cbn [hasChar]. rewrite IH. now rewrite orb_assoc.
Qed.

(** Lower-casing neither makes nor removes a character that is no letter. *)
Lemma lower_fixed x : isLetter (lower x) = false -> lower x = x.
Proof.
  intros Hx. apply Ascii.eqb_eq.
  apply (all_ascii_implies (fun x => negb (isLetter (lower x)))
           (fun x => Ascii.eqb (lower x) x)); [vm_compute; reflexivity |].
  cbv beta. now rewrite Hx.
Qed.

Lemma lower_not_letter c x :
  isLetter c = false -> Ascii.eqb c (lower x) = Ascii.eqb c x.
Proof.
  intros Hc.
  destruct (Ascii.eqb_spec c (lower x)) as [E | Hl], (Ascii.eqb_spec c x) as [E' | Hx];
    try reflexivity; exfalso.
  - subst c. apply Hx. now apply lower_fixed.
  - subst c. apply Hl. symmetry. apply lower_fixed.
    unfold lower. unfold isLetter in Hc. apply orb_false_elim in Hc.
    destruct Hc as [Hu Hlo]. rewrite Hu. unfold isLetter. now rewrite Hu, Hlo.
Qed.

Lemma hasChar_lower c s :
  isLetter c = false -> hasChar c (lowerString s) = hasChar c s.
Proof.
  intros Hc. induction s as [| x s IH]; [reflexivity |].
  cbn [lowerString hasChar]. now rewrite IH, lower_not_letter.
Qed.

(** *** What a match must read *)

Section Needs.
Variable i : bool.
Variable c : ascii.
Hypothesis c_own_lower : lower c = c.

(** A continuation that fails wherever [c] is missing makes the whole match
    fail there. *)
Lemma matchAt_continuation r fuel s (k : string -> option nat) :
  (forall s', hasChar c s' = false -> k s' = None) ->
  hasChar c s = false ->
  matchAt i r fuel s k = None.
Proof.
  revert s k. induction r as [| c' | neg ranges | r1 IH1 r2 IH2 | r1 IH1 r2 IH2
                              | r1 IH1 |]; intros s k Hk Hs; cbn [matchAt].
  - now apply Hk.
  - destruct s as [| x s]; [reflexivity |].
    cbn [hasChar] in Hs. apply orb_false_elim in Hs. destruct Hs as [_ Hs].
    destruct (sameChar i c' x); [now apply Hk | reflexivity].
  - destruct s as [| x s]; [reflexivity |].
    cbn [hasChar] in Hs. apply orb_false_elim in Hs. destruct Hs as [_ Hs].
    destruct (xorb neg (inClass i ranges x)); [now apply Hk | reflexivity].
  - apply IH1; [| exact Hs]. intros s' Hs'. now apply IH2.
  - rewrite IH1 by assumption. now apply IH2.
  - generalize fuel at 2. intros n. revert s Hs.
    induction n as [| n IHn]; intros s Hs; [now apply Hk |].
    rewrite IH1; [now apply Hk | | exact Hs].
    intros s' Hs'. now apply IHn.
  - destruct s; [now apply Hk | reflexivity].
Qed.

(** An expression that needs [c] matches nowhere in an input without it,
    whatever follows the match. *)
Lemma matchAt_needs r fuel s (k : string -> option nat) :
  needs c r = true -> hasChar c s = false -> matchAt i r fuel s k = None.
Proof.
  revert s k. induction r as [| c' | neg ranges | r1 IH1 r2 IH2 | r1 IH1 r2 IH2
                              | r1 IH1 |]; intros s k Hn Hs; cbn [needs] in Hn;
    try discriminate; cbn [matchAt].
  - apply Ascii.eqb_eq in Hn. subst c'.
    destruct s as [| x s]; [reflexivity |].
    cbn [hasChar] in Hs. apply orb_false_elim in Hs. destruct Hs as [Hx _].
    unfold sameChar. rewrite c_own_lower.
    rewrite Ascii.eqb_sym in Hx. rewrite Hx. now destruct i.
  - apply orb_prop in Hn. destruct Hn as [Hn | Hn].
    + now apply IH1.
    + apply matchAt_continuation; [| exact Hs].
      intros s' Hs'. now apply IH2.
  - apply andb_prop in Hn. destruct Hn as [Hn1 Hn2].
    rewrite IH1 by assumption. now apply IH2.
Qed.

End Needs.

Lemma testAnywhere_needs re e c s :
  isLetter c = false ->
  needs c (pattern re) = true -> hasChar c s = false ->
  testAnywhere re e s = false.
Proof.
  intros Hc Hn. assert (Hl : lower c = c).
  { unfold lower. unfold isLetter in Hc. apply orb_false_elim in Hc.
    destruct Hc as [Hu _]. now rewrite Hu. }
  induction s as [| x s IH]; intros Hs.
  - cbn [testAnywhere]. unfold execThen.
    rewrite (matchAt_needs _ c Hl) by (try assumption; now destruct (ignoreCase re)).
    reflexivity.
  - cbn [testAnywhere]. unfold execThen.
    rewrite (matchAt_needs _ c Hl).
    + apply IH. cbn [hasChar] in Hs. apply orb_false_elim in Hs. tauto.
    + exact Hn.
    + destruct (ignoreCase re); [| exact Hs]. now rewrite hasChar_lower.
Qed.

(** Text without [<], [:] and [=] is never reported.  Every one of the seven
    patterns has to read one of these three characters, so an input that
    holds none of them raises no warning, whatever else it holds. *)
Theorem plain_text_not_dangerous html :
  hasChar "<" html = false -> hasChar ":" html = false ->
  hasChar "=" html = false ->
  containsDangerousContent html = false.
Proof.
  intros Hlt Hcolon Heq. unfold containsDangerousContent, dangerous.
  cbn [existsb fst snd].
  repeat match goal with
  | |- context [testAnywhere ?re ?e html] =>
    first [ rewrite (testAnywhere_needs re e "<" html eq_refl eq_refl Hlt)
          | rewrite (testAnywhere_needs re e ":" html eq_refl eq_refl Hcolon)
          | rewrite (testAnywhere_needs re e "=" html eq_refl eq_refl Heq) ]
  end.
  reflexivity.
Qed.

Lemma plain_text_not_dangerous_witness :
  containsDangerousContent "javascript, onclick and iframes" = false.
Proof. apply plain_text_not_dangerous; reflexivity. Defined.

(** *** Matches that are there *)

Lemma lowerString_app a b :
  lowerString (String.append a b) = String.append (lowerString a) (lowerString b).
Proof.
  induction a as [| x a IH]; [reflexivity |].
  change (String.append (String x a) b) with (String x (String.append a b)).
  cbn [lowerString]. now rewrite IH.
Qed.

Lemma length_append a b :
  String.length (String.append a b) = (String.length a + String.length b)%nat.
Proof.
  induction a as [| x a IH]; [reflexivity |].
  change (String.append (String x a) b) with (String x (String.append a b)).
  cbn [String.length]. now rewrite IH.
Qed.

(** A match that starts at [m] is found from any earlier position too. *)
Lemma testAnywhere_app re e a s :
  testAnywhere re e s = true -> testAnywhere re e (String.append a s) = true.
Proof.
  intros Hs. induction a as [| x a IH]; [exact Hs |].
  change (String.append (String x a) s) with (String x (String.append a s)).
  cbn [testAnywhere]. now destruct (execThen re e _).
Qed.

Lemma testAnywhere_here re e s :
  is_Some (execThen re e s) -> testAnywhere re e s = true.
Proof. intros [n Hn]. destruct s; cbn [testAnywhere]; now rewrite Hn. Qed.

Lemma isWordChar_lower c : isWordChar (lower c) = isWordChar c.
Proof.
  revert c. apply (all_ascii_equal _ _ Bool.eqb); [apply eqb_prop |].
  vm_compute. reflexivity.
Qed.

Lemma ending_lower e b :
  is_Some (ending e b) -> is_Some (ending e (lowerString b)).
Proof.
  destruct e, b as [| c b]; cbn [ending lowerString]; try (intros _; eauto; fail).
  rewrite isWordChar_lower. destruct (isWordChar c); [intros [? [=]] | eauto].
Qed.

(** The marks of script are reported wherever they stand.  In any letter
    case and at any place of the input: [javascript:] and [data:text/html];
    and the tag openers [<script], [<iframe], [<object] and [<embed] where
    the input ends after them or goes on with a character that is no word
    character ([>], a space, [/]). *)
Theorem dangerous_marks_reported a m b :
  In (lowerString m) ["javascript:"; "data:text/html"]%string \/
  (In (lowerString m) ["<script"; "<iframe"; "<object"; "<embed"]%string /\
   is_Some (ending WordBoundary b)) ->
  containsDangerousContent (String.append a (String.append m b)) = true.
Proof.
  intros Hm. unfold containsDangerousContent. apply existsb_exists.
  assert (Hfound : exists p, In p dangerous /\
                     is_Some (execThen (fst p) (snd p) (String.append m b))).
  { unfold execThen.
    destruct Hm as [Hm | [Hm Hb]].
    - cbn [In] in Hm. destruct Hm as [Hm | [Hm | []]].
      + exists (insensitive (Str "javascript:"), Plain).
        split; [cbn; tauto |]. cbn [fst snd insensitive ignoreCase pattern].
        rewrite lowerString_app, <- Hm. generalize (lowerString b).
        intros lb. vm_compute. eauto.
      + exists (insensitive (Str "data:text/html"), Plain).
        split; [cbn; tauto |]. cbn [fst snd insensitive ignoreCase pattern].
        rewrite lowerString_app, <- Hm. generalize (lowerString b).
        intros lb. vm_compute. eauto.
    - apply ending_lower in Hb. destruct Hb as [n Hn].
      cbn [In] in Hm. destruct Hm as [Hm | [Hm | [Hm | [Hm | []]]]].
      + exists (insensitive (Str "<script"), WordBoundary).
        split; [cbn; tauto |]. cbn [fst snd insensitive ignoreCase pattern].
        rewrite lowerString_app, <- Hm.
        revert Hn. generalize (lowerString b) (ending WordBoundary).
        intros lb k Hn. vm_compute. rewrite Hn. eauto.
      + exists (insensitive (Str "<iframe"), WordBoundary).
        split; [cbn; tauto |]. cbn [fst snd insensitive ignoreCase pattern].
        rewrite lowerString_app, <- Hm.
        revert Hn. generalize (lowerString b) (ending WordBoundary).
        intros lb k Hn. vm_compute. rewrite Hn. eauto.
      + exists (insensitive (Str "<object"), WordBoundary).
        split; [cbn; tauto |]. cbn [fst snd insensitive ignoreCase pattern].
        rewrite lowerString_app, <- Hm.
        revert Hn. generalize (lowerString b) (ending WordBoundary).
        intros lb k Hn. vm_compute. rewrite Hn. eauto.
      + exists (insensitive (Str "<embed"), WordBoundary).
        split; [cbn; tauto |]. cbn [fst snd insensitive ignoreCase pattern].
        rewrite lowerString_app, <- Hm.
        revert Hn. generalize (lowerString b) (ending WordBoundary).
        intros lb k Hn. vm_compute. rewrite Hn. eauto. }
  destruct Hfound as (p & Hp & Hs). exists p. split; [exact Hp |].
  now apply testAnywhere_app, testAnywhere_here.
Qed.

Lemma dangerous_marks_reported_witness :
  containsDangerousContent "see <IFrame src=x>" = true /\
  containsDangerousContent "<a href='JavaScript:run()'>" = true.
Proof.
  split.
  - apply (dangerous_marks_reported "see " "<IFrame" " src=x>").
    right. split; [cbn; tauto | now exists 7%nat].
  - apply (dangerous_marks_reported "<a href='" "JavaScript:" "run()'>").
    left. cbn. tauto.
Defined.

(** *** Inline event handlers *)

Lemma allChars_app p a b :
  allChars p (String.append a b) = allChars p a && allChars p b.
Proof.
  induction a as [| x a IH]; [reflexivity |].
  change (String.append (String x a) b) with (String x (String.append a b)).
  cbn [allChars]. rewrite IH. now rewrite andb_assoc.
Qed.

(** A starred class reads a run of its characters and goes on. *)
Lemma star_class i neg ranges fuel w rest (k : string -> option nat) :
  allChars (fun x => xorb neg (inClass i ranges x)) w = true ->
  (String.length w <= fuel)%nat ->
  is_Some (k rest) ->
  is_Some (matchAt i (Star (Class neg ranges)) fuel (String.append w rest) k).
Proof.
  intros Hw Hlen Hk. cbn [matchAt].
  revert Hlen. generalize fuel. intros n. revert w Hw.
  induction n as [| n IH]; intros w Hw Hlen.
  - destruct w; [exact Hk | cbn [String.length] in Hlen; lia].
  - destruct w as [| x w].
    + change (String.append EmptyString rest) with rest.
      match goal with |- is_Some (match ?m with _ => _ end) => destruct m end;
        [eauto | exact Hk].
    + change (String.append (String x w) rest) with (String x (String.append w rest)).
      cbn [allChars] in Hw. apply andb_prop in Hw. destruct Hw as [Hx Hw].
      rewrite Hx. cbn [String.length] in Hlen.
      specialize (IH w Hw ltac:(lia)).
      destruct IH as [m Hm]. rewrite Hm. eauto.
Qed.

Lemma word_class c :
  isWordChar c = true ->
  xorb false (inClass true [(48, 57); (65, 90); (95, 95); (97, 122)]%nat (lower c))
  = true.
Proof.
  revert c. apply all_ascii_implies. vm_compute. reflexivity.
Qed.

Lemma space_class c :
  isWhiteSpace c = true ->
  xorb false (inClass true [(9, 13); (32, 32); (160, 160)]%nat (lower c)) = true.
Proof.
  revert c. apply all_ascii_implies. vm_compute. reflexivity.
Qed.

Lemma allChars_lower (p q : ascii -> bool) s :
  (forall c, p c = true -> q (lower c) = true) ->
  allChars p s = true -> allChars q (lowerString s) = true.
Proof.
  intros Hpq. induction s as [| x s IH]; [reflexivity |].
  cbn [allChars lowerString]. intros Hs. apply andb_prop in Hs.
  destruct Hs as [Hx Hs]. now rewrite (Hpq x Hx), IH.
Qed.

Lemma length_lowerString s : String.length (lowerString s) = String.length s.
Proof. induction s as [| x s IH]; [reflexivity |]. cbn. now rewrite IH. Qed.

(** Inline event handlers are reported wherever they stand: [on] in any
    letter case, one word character or more, any white space and [=]
    ([onclick=], [ONERROR =], ...). *)
Theorem inline_handlers_reported a o w sp b :
  lowerString o = "on"%string ->
  w <> EmptyString -> allChars isWordChar w = true ->
  allChars isWhiteSpace sp = true ->
  containsDangerousContent
    (String.append a
       (String.append o (String.append w (String.append sp (String "=" b)))))
  = true.
Proof.
  intros Ho Hne Hw Hsp. unfold containsDangerousContent. apply existsb_exists.
  exists (insensitive (Seq [Str "on"; Plus Word; Star Space; Chr "="]), Plain).
  split; [cbn; tauto |]. cbn [fst snd].
  apply testAnywhere_app, testAnywhere_here.
  unfold execThen. cbn [insensitive ignoreCase pattern].
  rewrite !lowerString_app, Ho. cbn [lowerString].
  destruct w as [| x w]; [contradiction |]. clear Hne.
  cbn [allChars] in Hw. apply andb_prop in Hw. destruct Hw as [Hx Hw].
  pose proof (allChars_lower _ _ w word_class Hw) as Hlw.
  pose proof (allChars_lower _ _ sp space_class Hsp) as Hlsp.
  pose proof (word_class x Hx) as Hlx.
  cbn [lowerString].
  set (rest := String.append (lowerString sp) (String (lower "=") (lowerString b))).
  change (String.append "on" (String.append (String (lower x) (lowerString w)) rest))
    with (String "o" (String "n" (String (lower x)
            (String.append (lowerString w) rest)))).
  set (fuel := String.length _).
  assert (Hfw : (String.length (lowerString w) <= fuel)%nat).
  { subst fuel. cbn [String.length]. rewrite length_append. lia. }
  assert (Hfs : (String.length (lowerString sp) <= fuel)%nat).
  { subst fuel rest. cbn [String.length]. rewrite !length_append. lia. }
  cbn [Seq Str Plus matchAt].
  change (sameChar true "o" "o") with true.
  change (sameChar true "n" "n") with true. cbv iota.
  unfold Word at 1. cbn [matchAt]. rewrite Hlx.
  change (matchAt true (Star Word) fuel (String.append (lowerString w) rest)
            (fun s' => matchAt true (Cat (Star Space) (Chr "=")) fuel s'
                         (ending Plain)))
    with (matchAt true (Star (Class false [(48, 57); (65, 90); (95, 95); (97, 122)]%nat))
            fuel (String.append (lowerString w) rest)
            (fun s' => matchAt true (Star Space) fuel s'
                         (fun s'' => matchAt true (Chr "=") fuel s'' (ending Plain)))).
  apply star_class; [exact Hlw | exact Hfw |].
  subst rest. apply star_class; [exact Hlsp | exact Hfs |].
  cbn [matchAt]. change (sameChar true "=" (lower "=")) with true. cbv iota.
  cbn [ending]. eauto.
Qed.

Lemma inline_handlers_reported_witness :
  containsDangerousContent "<img src=x OnError =alert(1)>" = true.
Proof.
  apply (inline_handlers_reported "<img src=x " "On" "Error" " " "alert(1)>").
  - reflexivity.
  - discriminate.
  - reflexivity.
  - reflexivity.
Defined.

End DangerousContentFacts.

Module SanitizedDomFacts.
Import Chars CharsFacts RegExp Html DOMPurify Sanitize SanitizeFacts SanitizedDom
       DangerousContent DangerousContentFacts.

Lemma allowedTag_repository cfg tag :
  ofRepository cfg -> allowedTag cfg tag = true -> inb tag ALLOWED_TAGS = true.
Proof.
  intros Hcfg. unfold allowedTag, Html.inb. rewrite existsb_exists.
  intros (x & Hin & Hx). apply String.eqb_eq in Hx. subst x.
  assert (Hall : forallb (fun x => existsb (String.eqb x) ALLOWED_TAGS)
                   (map lowerString
                      (DOMPurify.ALLOWED_TAGS cfg ++ DOMPurify.ADD_TAGS cfg))
                 = true)
    by (destruct Hcfg as [-> | ->]; vm_compute; reflexivity).
  rewrite forallb_forall in Hall. now apply Hall.
Qed.

Lemma sanitizeNode_allowed cfg n :
  ofRepository cfg -> forallb onlyAllowedTags (sanitizeNode cfg n) = true.
Proof.
  intros Hcfg. induction n as [d | d | tag attrs kids IH] using Node_induction;
    [reflexivity | reflexivity |].
  assert (Hkids : forallb onlyAllowedTags (flat_map (sanitizeNode cfg) kids) = true)
    by (now apply forallb_flat_map).
  cbn [sanitizeNode].
  destruct (looksLikeMarkup (lowerString tag) kids); [reflexivity |].
  destruct (allowedTag cfg (lowerString tag)) eqn:Ha.
  - cbn [forallb onlyAllowedTags]. fold (forallb onlyAllowedTags).
    rewrite (allowedTag_repository cfg _ Hcfg Ha), Hkids. reflexivity.
  - destruct (inb (lowerString tag) FORBID_CONTENTS); [reflexivity | exact Hkids].
Qed.

Lemma hasElement_allowed tag n :
  inb tag ALLOWED_TAGS = false -> onlyAllowedTags n = true ->
  hasElement tag n = false.
Proof.
  intros Hoff. induction n as [d | d | t attrs kids IH] using Node_induction;
    [reflexivity | reflexivity |].
  cbn [onlyAllowedTags hasElement]. intros Hn. apply andb_prop in Hn.
  destruct Hn as [Ht Hkids].
  destruct (String.eqb_spec (lowerString t) tag) as [E | _]; [congruence |].
  cbn [orb]. clear Ht. induction kids as [| c kids IHk]; [reflexivity |].
  cbn [forallb] in Hkids. apply andb_prop in Hkids. destruct Hkids as [Hc Hkids].
  inversion IH as [| ? ? IHc IHrest]; subst.
  cbn [existsb]. rewrite (IHc Hc). now apply IHk.
Qed.

(** Only allow-listed elements come out.  Whatever DOM goes in, every
    element that either sanitizer leaves in it has a tag of [ALLOWED_TAGS]
    (the tags added for input are on the list already); so no [iframe],
    [object] or [embed] element, nor any other tag off the list, is in the
    result, at any depth. *)
Theorem only_allowed_tags_survive (doc : list Node) :
  let input := sanitizeNodes inputConfig doc in
  let output := sanitizeNodes outputConfig doc in
  forallb onlyAllowedTags input = true /\
  forallb onlyAllowedTags output = true /\
  (forall tag, inb tag ALLOWED_TAGS = false ->
     existsb (hasElement tag) input = false /\
     existsb (hasElement tag) output = false) /\
  inb "iframe" ALLOWED_TAGS = false /\ inb "object" ALLOWED_TAGS = false /\
  inb "embed" ALLOWED_TAGS = false.
Proof.
  intros input output.
  assert (Hin : forallb onlyAllowedTags input = true).
  { apply forallb_flat_map, Forall_forall. intros n _.
    apply sanitizeNode_allowed. now left. }
  assert (Hout : forallb onlyAllowedTags output = true).
  { apply forallb_flat_map, Forall_forall. intros n _.
    apply sanitizeNode_allowed. now right. }
  assert (Hnone : forall tag l, inb tag ALLOWED_TAGS = false ->
                    forallb onlyAllowedTags l = true ->
                    existsb (hasElement tag) l = false).
  { intros tag l Hoff. induction l as [| n l IH]; [reflexivity |].
    cbn [forallb existsb]. intros Hl. apply andb_prop in Hl.
    destruct Hl as [Hn Hl]. now rewrite (hasElement_allowed tag n Hoff Hn), IH. }
  split; [exact Hin |]. split; [exact Hout |].
  split; [| repeat split].
  intros tag Hoff. split; now apply Hnone.
Qed.

(** *** Editor-tracking attributes *)

Lemma startsWith_split p s :
  startsWith p s = true -> s = String.append p (skip (String.length p) s).
Proof.
  revert s. induction p as [| a p IH]; intros s; [reflexivity |].
  destruct s as [| b s]; cbn [startsWith]; [discriminate |].
  intros Hs. apply andb_prop in Hs. destruct Hs as [Hab Hs].
  apply Ascii.eqb_eq in Hab. subst b.
  change (String a s = String a (String.append p (skip (String.length p) s))).
  f_equal. now apply IH.
Qed.

Lemma data_attribute_invalid_output lcTag lcName value :
  startsWith "data-" lcName = true ->
  isValidAttribute outputConfig lcTag lcName value = false.
Proof.
  intros Hd. rewrite (startsWith_split _ _ Hd).
  generalize (skip (String.length "data-") lcName). intros rest.
  vm_compute. reflexivity.
Qed.

Lemma sanitizeAttributes_no_data lcTag attrs :
  forallb (fun a => negb (isDataAttribute (fst a)))
    (sanitizeAttributes outputConfig lcTag attrs) = true.
Proof.
  induction attrs as [| [name value] attrs IH]; [reflexivity |].
  cbn [sanitizeAttributes fst snd].
  set (v := if String.eqb (lowerString name) "value" then value else trim value).
  destruct (isValidAttribute outputConfig lcTag (lowerString name) v) eqn:Hvalid;
    [| exact IH].
  cbn [forallb fst]. rewrite IH, andb_true_r. unfold isDataAttribute.
  destruct (startsWith "data-" (lowerString name)) eqn:Hd; [| reflexivity].
  now rewrite (data_attribute_invalid_output lcTag _ v Hd) in Hvalid.
Qed.

Lemma sanitizeNode_no_data n :
  forallb noDataAttributes (sanitizeNode outputConfig n) = true.
Proof.
  induction n as [d | d | tag attrs kids IH] using Node_induction;
    [reflexivity | reflexivity |].
  assert (Hkids : forallb noDataAttributes
                    (flat_map (sanitizeNode outputConfig) kids) = true)
    by (now apply forallb_flat_map).
  cbn [sanitizeNode].
  destruct (looksLikeMarkup (lowerString tag) kids); [reflexivity |].
  destruct (allowedTag outputConfig (lowerString tag)).
  - cbn [forallb noDataAttributes]. fold (forallb noDataAttributes).
    rewrite sanitizeAttributes_no_data, Hkids. reflexivity.
  - destruct (inb (lowerString tag) FORBID_CONTENTS); [reflexivity | exact Hkids].
Qed.

Lemma data_attribute_valid_input lcTag w value :
  w <> EmptyString -> allChars isWordChar w = true ->
  isValidAttribute inputConfig lcTag (lowerString (String.append "data-" w)) value
  = true.
Proof.
  intros Hne Hw. unfold isValidAttribute.
  assert (Ht : test DATA_ATTR (lowerString (String.append "data-" w)) = true).
  { unfold test, exec. cbn [DATA_ATTR anchored ignoreCase pattern].
    rewrite lowerString_app.
    change (lowerString "data-") with "data-"%string.
    destruct w as [| x w]; [contradiction |]. clear Hne.
    cbn [allChars] in Hw. apply andb_prop in Hw. destruct Hw as [Hx Hw].
    cbn [lowerString].
    change (String.append "data-" (String (lower x) (lowerString w)))
      with (String "d" (String "a" (String "t" (String "a" (String "-"
              (String (lower x) (lowerString w))))))).
    set (fuel := String.length _).
    assert (Hf : (String.length (lowerString w) <= fuel)%nat)
      by (subst fuel; cbn [String.length]; lia).
    cbn [Seq Str Plus matchAt].
    change (sameChar false "d" "d") with true.
    change (sameChar false "a" "a") with true.
    change (sameChar false "t" "t") with true.
    change (sameChar false "-" "-") with true. cbv iota.
    assert (Hcx : forall c, isWordChar c = true ->
              xorb false (inClass false
                ((45, 45) :: (46, 46) :: (183, 255) :: wordChars)%nat (lower c)) = true).
    { apply all_ascii_implies. vm_compute. reflexivity. }
    rewrite (Hcx x Hx).
    pose proof (allChars_lower _ _ w Hcx Hw) as Hlw.
    pose proof (star_class false false _ fuel (lowerString w) EmptyString
                  (fun s' => matchAt false Eol fuel s' unread) Hlw Hf) as Hstar.
    rewrite SanitizeFacts.append_empty in Hstar.
    destruct Hstar as [m Hm]; [cbn; eauto |].
    cbn [matchAt] in Hm. now rewrite Hm. }
  cbn [inputConfig ALLOW_DATA_ATTR]. now rewrite Ht.
Qed.



End SanitizedDomFacts.

Module LinkPopoverFacts.
Import Chars RegExp DOMPurify Sanitize SanitizeFacts LinkPopover.

(** *** [trim] *)

Lemma allChars_dropWhile p s : allChars p (dropWhile p s) = allChars p s.
Proof.
  induction s as [| c s IH]; [reflexivity |].
  cbn [dropWhile allChars]. destruct (p c) eqn:E; [exact IH |].
  cbn [allChars]. now rewrite E.
Qed.

Lemma trimEnd_empty s : trimEnd s = EmptyString <-> allChars isWhiteSpace s = true.
Proof.
  destruct s as [| c s]; [easy |].
  cbn [trimEnd]. destruct (allChars isWhiteSpace (String c s)); easy.
Qed.

Lemma trim_empty s : trim s = EmptyString <-> allChars isWhiteSpace s = true.
Proof. unfold trim. now rewrite trimEnd_empty, allChars_dropWhile. Qed.

Lemma allChars_trimEnd s :
  allChars isWhiteSpace (trimEnd s) = allChars isWhiteSpace s.
Proof.
  induction s as [| c s IH]; [reflexivity |].
  cbn [trimEnd]. destruct (allChars isWhiteSpace (String c s)) eqn:E; [reflexivity |].
  cbn [allChars] in *. now rewrite IH.
Qed.

Lemma trimEnd_idempotent s : trimEnd (trimEnd s) = trimEnd s.
Proof.
  induction s as [| c s IH]; [reflexivity |].
  cbn [trimEnd]. destruct (allChars isWhiteSpace (String c s)) eqn:E; [reflexivity |].
  cbn [trimEnd]. cbn [allChars] in *. rewrite allChars_trimEnd, E. now rewrite IH.
Qed.

Lemma dropWhile_head p s :
  match dropWhile p s with
  | EmptyString => True
  | String c _ => p c = false
  end.
Proof.
  induction s as [| c s IH]; [exact I |].
  cbn [dropWhile]. now destruct (p c) eqn:E.
Qed.

Lemma dropWhile_trimEnd s :
  dropWhile isWhiteSpace (trimEnd (dropWhile isWhiteSpace s))
  = trimEnd (dropWhile isWhiteSpace s).
Proof.
  pose proof (dropWhile_head isWhiteSpace s) as Hh.
  destruct (dropWhile isWhiteSpace s) as [| c x]; [reflexivity |].
  cbn [trimEnd]. destruct (allChars isWhiteSpace (String c x)); [reflexivity |].
  cbn [dropWhile]. now rewrite Hh.
Qed.

Lemma trim_idempotent s : trim (trim s) = trim s.
Proof. unfold trim. now rewrite dropWhile_trimEnd, trimEnd_idempotent. Qed.

(** A character that is no white space in front of a trimmed, non-empty
    string. *)
Lemma trimEnd_cons c t :
  trimEnd t = t -> t <> EmptyString -> trimEnd (String c t) = String c t.
Proof.
  intros Ht Hne. cbn [trimEnd].
  assert (Hws : allChars isWhiteSpace t = false).
  { destruct (allChars isWhiteSpace t) eqn:E; [| reflexivity].
    apply trimEnd_empty in E. congruence. }
  cbn [allChars]. rewrite Hws, andb_false_r. now rewrite Ht.
Qed.

Lemma trimEnd_append p t :
  trimEnd t = t -> t <> EmptyString ->
  trimEnd (String.append p t) = String.append p t.
Proof.
  intros Ht Hne. induction p as [| c p IH]; [exact Ht |].
  change (String.append (String c p) t) with (String c (String.append p t)).
  apply trimEnd_cons; [exact IH |].
  destruct p; [exact Hne | discriminate].
Qed.

Lemma trim_prefixed t :
  trim t = t -> t <> EmptyString ->
  trim (String.append "https://" t) = String.append "https://" t.
Proof.
  intros Ht Hne.
  assert (Hte : trimEnd t = t).
  { rewrite <- Ht at 1. unfold trim. rewrite trimEnd_idempotent. exact Ht. }
  unfold trim.
  change (dropWhile isWhiteSpace (String.append "https://" t))
    with (String.append "https://" t).
  now apply trimEnd_append.
Qed.

(** *** The scheme tests *)

Lemma isAttrWhitespace_lower c : isAttrWhitespace (lower c) = isAttrWhitespace c.
Proof.
  revert c. apply (CharsFacts.all_ascii_equal _ _ Bool.eqb); [apply eqb_prop |].
  vm_compute. reflexivity.
Qed.

Lemma lowerString_strip s :
  lowerString (stripAttrWhitespace s) = stripAttrWhitespace (lowerString s).
Proof.
  unfold stripAttrWhitespace. induction s as [| c s IH]; [reflexivity |].
  cbn [filterChars lowerString]. rewrite isAttrWhitespace_lower.
  destruct (isAttrWhitespace c); cbn [negb]; [exact IH |].
  cbn [lowerString]. now rewrite IH.
Qed.

Lemma startsWithCI_startsWith p s :
  Html.startsWithCI p s = startsWith (lowerString p) (lowerString s).
Proof.
  revert s. induction p as [| a p IH]; intros s; [reflexivity |].
  destruct s as [| b s]; [reflexivity |].
  cbn [Html.startsWithCI lowerString startsWith]. now rewrite IH.
Qed.

Lemma HTTP_prefix t :
  test HTTP t = true ->
  exists x, lowerString t = String.append "http://" x \/
            lowerString t = String.append "https://" x.
Proof.
  unfold test, exec. cbn [HTTP anchored ignoreCase pattern].
  generalize (String.length (lowerString t)). intros fuel.
  generalize (lowerString t). intros l.
  cbn [Seq Str Opt matchAt]. unfold sameChar.
  change (lower "h") with "h"%char. change (lower "t") with "t"%char.
  change (lower "p") with "p"%char. change (lower "s") with "s"%char.
  change (lower ":") with ":"%char. change (lower "/") with "/"%char.
  destruct l as [| c1 l]; [discriminate |].
  destruct (Ascii.eqb_spec c1 "h") as [-> | _]; [| discriminate].
  destruct l as [| c2 l]; [discriminate |].
  destruct (Ascii.eqb_spec c2 "t") as [-> | _]; [| discriminate].
  destruct l as [| c3 l]; [discriminate |].
  destruct (Ascii.eqb_spec c3 "t") as [-> | _]; [| discriminate].
  destruct l as [| c4 l]; [discriminate |].
  destruct (Ascii.eqb_spec c4 "p") as [-> | _]; [| discriminate].
  destruct l as [| c5 l]; [discriminate |].
  destruct (Ascii.eqb_spec c5 "s") as [-> | Hs].
  - (* https, or http followed by an s that is no part of the scheme *)
    destruct l as [| c6 l]; [discriminate |].
    destruct (Ascii.eqb_spec c6 ":") as [-> | _]; [| discriminate].
    destruct l as [| c7 l]; [discriminate |].
    destruct (Ascii.eqb_spec c7 "/") as [-> | _]; [| discriminate].
    destruct l as [| c8 l]; [discriminate |].
    destruct (Ascii.eqb_spec c8 "/") as [-> | _]; [| discriminate].
    intros _. exists l. now right.
  - destruct (Ascii.eqb_spec c5 ":") as [-> | _]; [| discriminate].
    destruct l as [| c6 l]; [discriminate |].
    destruct (Ascii.eqb_spec c6 "/") as [-> | _]; [| discriminate].
    destruct l as [| c7 l]; [discriminate |].
    destruct (Ascii.eqb_spec c7 "/") as [-> | _]; [| discriminate].
    intros _. exists l. now left.
Qed.

(** What [handleSubmit] lets through unchanged. *)
Lemma accepted_prefix u :
  test HTTP u || startsWith "mailto:" u = true ->
  exists p x, In p ["http://"; "https://"; "mailto:"]%string /\
              lowerString u = String.append p x.
Proof.
  intros Hu. apply orb_prop in Hu. destruct Hu as [Hu | Hu].
  - destruct (HTTP_prefix u Hu) as (x & [Hx | Hx]).
    + exists "http://"%string, x. split; [cbn; tauto | exact Hx].
    + exists "https://"%string, x. split; [cbn; tauto | exact Hx].
  - exists "mailto:"%string, (lowerString (skip 7 u)).
    split; [cbn; tauto |].
    rewrite (SanitizedDomFacts.startsWith_split _ _ Hu) at 1.
    now rewrite DangerousContentFacts.lowerString_app.
Qed.

Lemma accepted_uri u :
  test HTTP u || startsWith "mailto:" u = true ->
  test ALLOWED_URI_REGEXP (stripAttrWhitespace u) = true /\
  isJavascriptUri u = false.
Proof.
  intros Hu. destruct (accepted_prefix u Hu) as (p & x & Hp & Hl).
  assert (Hs : exists y, lowerString (stripAttrWhitespace u) = String.append p y).
  { exists (stripAttrWhitespace x). rewrite lowerString_strip, Hl.
    cbn [In] in Hp. destruct Hp as [<- | [<- | [<- | []]]]; reflexivity. }
  destruct Hs as [y Hy]. split.
  - unfold test, exec. cbn [ALLOWED_URI_REGEXP anchored ignoreCase pattern].
    rewrite Hy.
    cbn [In] in Hp. destruct Hp as [<- | [<- | [<- | []]]];
      vm_compute; reflexivity.
  - unfold isJavascriptUri. rewrite startsWithCI_startsWith, Hy.
    cbn [In] in Hp. destruct Hp as [<- | [<- | [<- | []]]]; reflexivity.
Qed.

Lemma handleSubmit_some url u :
  handleSubmit url = Some u ->
  trim url <> EmptyString /\
  (u = trim url \/ u = String.append "https://" (trim url)) /\
  test HTTP u || startsWith "mailto:" u = true.
Proof.
  unfold handleSubmit.
  destruct (trim url) as [| c t] eqn:Et; [discriminate |].
  cbn [Editor.falsy]. cbv zeta. intros Hu. split; [discriminate |].
  destruct (test HTTP (String c t)) eqn:Eh; cbn [negb andb] in Hu.
  - injection Hu as <-. split; [now left |]. now rewrite Eh.
  - destruct (startsWith "mailto:" (String c t)) eqn:Em; cbn [negb] in Hu;
      injection Hu as <-.
    + split; [now left |]. now rewrite Em, orb_true_r.
    + split; [now right |].
      generalize (String c t). intros r. reflexivity.
Qed.

Lemma submitted_trimmed url u : handleSubmit url = Some u -> trim u = u.
Proof.
  intros Hs. destruct (handleSubmit_some url u Hs) as (Hne & [-> | ->] & _).
  - apply trim_idempotent.
  - apply trim_prefixed; [apply trim_idempotent | exact Hne].
Qed.



(** Submitting an accepted URL again changes nothing: what [onSubmit]
    received, put back into the input and submitted, is handed over as it
    is. *)
Theorem submitted_link_is_stable url u :
  handleSubmit url = Some u -> handleSubmit u = Some u.
Proof.
  intros Hs. pose proof (submitted_trimmed url u Hs) as Ht.
  destruct (handleSubmit_some url u Hs) as (Hne & Hu & Hacc).
  unfold handleSubmit. rewrite Ht.
  assert (Hnf : Editor.falsy u = false).
  { destruct Hu as [-> | ->]; [| reflexivity].
    destruct (trim url); [contradiction | reflexivity]. }
  rewrite Hnf.
  apply orb_prop in Hacc. destruct Hacc as [-> | ->];
    [reflexivity | now rewrite andb_false_r].
Qed.

Lemma submitted_link_is_stable_witness :
  handleSubmit " example.com/a b " = Some "https://example.com/a b"%string /\
  handleSubmit "https://example.com/a b" = Some "https://example.com/a b"%string.
Proof.
  split; [reflexivity |].
  apply (submitted_link_is_stable " example.com/a b "). reflexivity.
Defined.

(** Nothing is submitted for a blank input, and only then: [onSubmit] is not
    called exactly when the text is empty or all white space. *)
Theorem blank_link_not_submitted url :
  handleSubmit url = None <-> allChars isWhiteSpace url = true.
Proof.
  rewrite <- trim_empty. unfold handleSubmit.
  destruct (trim url); cbn [Editor.falsy]; split;
    (reflexivity || discriminate).
Qed.

End LinkPopoverFacts.

Module ColorsFacts.
Import Chars RegExp TextFormatting Colors.

Lemma ToInt32_small n : 0 <= n < 2 ^ 31 -> ToInt32 (Some n) = n.
Proof.
  intros Hn. unfold ToInt32.
  rewrite Z.mod_small by lia.
  destruct (Z.ltb_spec n (2 ^ 31)); lia.
Qed.

Lemma shl_small x n :
  0 <= x -> 0 <= n < 32 -> x * 2 ^ n < 2 ^ 31 ->
  shl (Some x) n = Some (x * 2 ^ n).
Proof.
  intros Hx Hn Hlt. unfold shl.
  assert (Hx31 : x < 2 ^ 31).
  { assert (1 <= 2 ^ n) by (apply Z.pow_le_mono_r with (b := 0); lia). nia. }
  rewrite (ToInt32_small x) by lia.
  rewrite (Z.mod_small n 32) by lia.
  rewrite Z.shiftl_mul_pow2 by lia.
  now rewrite ToInt32_small by nia.
Qed.

Lemma divmod16 q d : 0 <= d < 16 -> (16 * q + d) / 16 = q /\ (16 * q + d) mod 16 = d.
Proof.
  intros Hd. split.
  - symmetry. apply (Z.div_unique _ 16 q d); lia.
  - symmetry. apply (Z.mod_unique _ 16 q d); lia.
Qed.

Lemma digits16_step fuel q d acc :
  0 <= d < 16 -> 1 <= q ->
  digits16 (S fuel) (16 * q + d) acc = digits16 fuel q (String (hexDigit d) acc).
Proof.
  intros Hd Hq. cbn [digits16]. destruct (divmod16 q d Hd) as [-> ->].
  destruct (Z.ltb_spec (16 * q + d) 16); [lia | reflexivity].
Qed.

Lemma digits16_last fuel d acc :
  0 <= d < 16 -> digits16 (S fuel) d acc = String (hexDigit d) acc.
Proof.
  intros Hd. cbn [digits16]. rewrite Z.mod_small by lia.
  destruct (Z.ltb_spec d 16); [reflexivity | lia].
Qed.

(** The number the template prints, for three channels. *)
Lemma channels_toString16 r g b :
  0 <= r <= 255 -> 0 <= g <= 255 -> 0 <= b <= 255 ->
  toString16 (Some (2 ^ 24 + r * 2 ^ 16 + g * 2 ^ 8 + b)) =
  String "1" (String.append (hex2 r) (String.append (hex2 g) (hex2 b))).
Proof.
  intros Hr Hg Hb.
  set (n := 2 ^ 24 + r * 2 ^ 16 + g * 2 ^ 8 + b).
  assert (Hn : 2 ^ 24 <= n < 2 ^ 25) by (subst n; lia).
  unfold toString16. destruct (Z.ltb_spec n 0); [lia |].
  assert (Hlog : Z.log2 n = 24) by (apply Z.log2_unique; lia).
  rewrite Hlog. change (S (Z.to_nat 24)) with 25%nat.
  pose proof (Z.div_mod r 16 ltac:(lia)) as Er.
  pose proof (Z.div_mod g 16 ltac:(lia)) as Eg.
  pose proof (Z.div_mod b 16 ltac:(lia)) as Eb.
  pose proof (Z.mod_pos_bound r 16 ltac:(lia)) as Hr0.
  pose proof (Z.mod_pos_bound g 16 ltac:(lia)) as Hg0.
  pose proof (Z.mod_pos_bound b 16 ltac:(lia)) as Hb0.
  assert (Hr1 : 0 <= r / 16 < 16)
    by (split; [apply Z.div_pos; lia | apply Z.div_lt_upper_bound; lia]).
  assert (Hg1 : 0 <= g / 16 < 16)
    by (split; [apply Z.div_pos; lia | apply Z.div_lt_upper_bound; lia]).
  assert (Hb1 : 0 <= b / 16 < 16)
    by (split; [apply Z.div_pos; lia | apply Z.div_lt_upper_bound; lia]).
  unfold hex2.
  set (r1 := r / 16) in *. set (r0 := r mod 16) in *.
  set (g1 := g / 16) in *. set (g0 := g mod 16) in *.
  set (b1 := b / 16) in *. set (b0 := b mod 16) in *.
  replace n with
    (16 * (16 * (16 * (16 * (16 * (16 * 1 + r1) + r0) + g1) + g0) + b1) + b0)
    by (subst n; lia).
  rewrite !digits16_step by lia.
  rewrite digits16_last by lia.
  reflexivity.
Qed.

(** The readers turn [rgb(r, g, b)] into [#rrggbb].  When the value the
    browser reports starts with [rgb] and the first three runs of digits in
    it are channels from 0 to 255, the result is [#] and two lower-case
    hexadecimal digits for each of them, whatever else the value holds (an
    alpha channel, spaces). *)
Theorem reported_rgb_to_hex (queryCommandValue : string -> string)
  color dr dg db more :
  startsWith "rgb" color = true ->
  matchAll DIGITS color = Some (dr :: dg :: db :: more) ->
  Number dr <= 255 -> Number dg <= 255 -> Number db <= 255 ->
  let hex :=
    String "#" (String.append (hex2 (Number dr))
                  (String.append (hex2 (Number dg)) (hex2 (Number db)))) in
  (queryCommandValue "foreColor" = color ->
   getCurrentTextColor queryCommandValue = hex) /\
  (queryCommandValue "backColor" = color ->
   getCurrentBackgroundColor queryCommandValue = hex).
Proof.
  intros Hrgb Hm Hr Hg Hb hex.
  enough (Hhex : toHexIfNeeded color = hex)
    by (unfold getCurrentTextColor, getCurrentBackgroundColor;
        split; intros ->; exact Hhex).
  subst hex.
  assert (Hpos : forall s acc, 0 <= acc -> 0 <= digitsValue 10 acc s).
  { induction s as [| c s IH]; intros acc Hacc; [exact Hacc |].
    cbn [digitsValue]. destruct (digitValue 10 c) as [d |] eqn:Ed; [| exact Hacc].
    apply IH. assert (Hd : (0 <=? d) = true); [| apply Z.leb_le in Hd; lia].
    pose proof (CharsFacts.all_ascii
                  (fun c => match digitValue 10 c with
                            | Some d => 0 <=? d
                            | None => true
                            end) eq_refl c) as Hc.
    cbv beta in Hc. now rewrite Ed in Hc. }
  pose proof (Hpos dr 0 ltac:(lia)) as Hr0.
  pose proof (Hpos dg 0 ltac:(lia)) as Hg0.
  pose proof (Hpos db 0 ltac:(lia)) as Hb0.
  fold (Number dr) in Hr0. fold (Number dg) in Hg0. fold (Number db) in Hb0.
  unfold toHexIfNeeded. rewrite Hrgb, Hm. unfold hexOfMatch.
  cbn [map lookup list_lookup].
  rewrite (shl_small 1 24) by lia.
  rewrite (shl_small (Number dr) 16) by lia.
  rewrite (shl_small (Number dg) 8) by lia.
  cbn [add].
  replace (1 * 2 ^ 24 + Number dr * 2 ^ 16 + Number dg * 2 ^ 8 + Number db)
    with (2 ^ 24 + Number dr * 2 ^ 16 + Number dg * 2 ^ 8 + Number db) by lia.
  rewrite channels_toString16 by lia.
  reflexivity.
Qed.

Lemma reported_rgb_to_hex_witness :
  getCurrentTextColor (fun _ => "rgba(255, 0, 128, 0.5)"%string) = "#ff0080"%string.
Proof.
  assert (H255 : Number "255" <= 255) by (vm_compute; discriminate).
  assert (H0 : Number "0" <= 255) by (vm_compute; discriminate).
  assert (H128 : Number "128" <= 255) by (vm_compute; discriminate).
  destruct (reported_rgb_to_hex (fun _ => "rgba(255, 0, 128, 0.5)"%string)
              "rgba(255, 0, 128, 0.5)" "255" "0" "128" ["0"; "5"]%string
              eq_refl eq_refl H255 H0 H128) as [Hfore _].
  refine (eq_trans (Hfore eq_refl) _). vm_compute. reflexivity.
Defined.

(** With fewer than three numbers there is no colour.  When the value starts
    with [rgb] and holds one or two runs of digits, the third channel is
    [undefined], the sum is [NaN], and the readers return [#aN]. *)
Theorem reported_rgb_too_short (queryCommandValue : string -> string)
  color match_ :
  startsWith "rgb" color = true ->
  matchAll DIGITS color = Some match_ ->
  (length match_ < 3)%nat ->
  (queryCommandValue "foreColor" = color ->
   getCurrentTextColor queryCommandValue = "#aN"%string) /\
  (queryCommandValue "backColor" = color ->
   getCurrentBackgroundColor queryCommandValue = "#aN"%string).
Proof.
  intros Hrgb Hm Hlen.
  enough (Hhex : toHexIfNeeded color = "#aN"%string)
    by (unfold getCurrentTextColor, getCurrentBackgroundColor;
        split; intros ->; exact Hhex).
  unfold toHexIfNeeded. rewrite Hrgb, Hm.
  unfold hexOfMatch.
  destruct match_ as [| a [| b [| c l]]]; cbn [length] in Hlen; try lia;
    reflexivity.
Qed.

Lemma reported_rgb_too_short_witness :
  getCurrentBackgroundColor (fun _ => "rgb(12, 7"%string) = "#aN"%string.
Proof.
  assert (Hlen : (length ["12"; "7"]%string < 3)%nat) by (simpl; lia).
  destruct (reported_rgb_too_short (fun _ => "rgb(12, 7"%string)
              "rgb(12, 7" ["12"; "7"]%string eq_refl eq_refl Hlen) as [_ Hback].
  exact (Hback eq_refl).
Defined.

End ColorsFacts.

Module AlignmentFacts.
Import Chars TextFormatting Alignment.

(** Each alignment has a command of its own, and one of them is unknown to
    the browser.  For every value of the type [Alignment], [setAlignment]
    returns after exactly one [execCommand], whose name is [justify]
    followed by the capitalized alignment, and one notification; the names
    are [justifyLeft], [justifyCenter], [justifyRight] and, for [justify],
    [justifyJustify], which is not the browser's [justifyFull]: the command
    is one of the browser's exactly when the alignment is not [justify]. *)
Theorem alignment_commands p alignment :
  In alignment Alignment ->
  (exists focus,
     setAlignment p alignment =
     Returned (focus ++ [ExecCommand (alignmentCommand alignment) EmptyString;
                         OnContentChange]) /\
     (focus = [] \/ focus = [Focus])) /\
  In (alignmentCommand alignment)
     ["justifyLeft"; "justifyCenter"; "justifyRight"; "justifyJustify"]%string /\
  (In (alignmentCommand alignment) JUSTIFY_COMMANDS <->
   alignment <> "justify"%string).
Proof.
  intros Hin. split; [| split].
  - unfold setAlignment.
    destruct (editorMounted p && negb (editorIsActive p)).
    + exists [Focus]. split; [reflexivity | now right].
    + exists []. split; [reflexivity | now left].
  - cbn [In Alignment] in Hin.
    destruct Hin as [<- | [<- | [<- | [<- | []]]]]; cbn; tauto.
  - cbn [In Alignment] in Hin.
    destruct Hin as [<- | [<- | [<- | [<- | []]]]]; cbn;
      (split; [intros H; try discriminate;
               repeat (destruct H as [H | H]; try discriminate); contradiction
              | intros H; tauto || (exfalso; now apply H)]).
Qed.

Lemma alignment_commands_witness :
  setAlignment partialSelection "justify" =
    Returned [ExecCommand "justifyJustify" EmptyString; OnContentChange] /\
  ~ In "justifyJustify"%string JUSTIFY_COMMANDS.
Proof.
  destruct (alignment_commands partialSelection "justify") as (_ & _ & Hiff).
  - cbn. tauto.
  - split; [reflexivity |]. intros Hin. now apply Hiff in Hin.
Defined.

End AlignmentFacts.

Module WysiwygEditorFacts.
Import Chars JsArray JsArrayFacts History HistoryFacts DOMPurify Sanitize
       DangerousContent WysiwygEditor.

Section Component.
Variable reserialize : string -> string.
Variable debounceMs : Z.

(** *** The flag [isHistoryChange] *)

(** The first change after an undo is not recorded.  [handleUndo] raises
    [isHistoryChange], and nothing lowers it until the next emit callback
    runs; that callback, whatever the editor then holds, tells the host but
    skips [pushToHistory].  So the edit made right after an undo never
    enters the history: the redo stack survives it, [redo] still returns the
    value that was undone, and only the change after it is recorded. *)
Theorem first_change_after_undo_not_recorded e previous content t content' t' :
  mounted e = true ->
  fst (undo (history e)) = Some previous ->
  let e1 := handleUndo reserialize e in
  let e2 := emitCallback t (edit content e1) in
  let e3 := emitCallback t' (edit content' e2) in
  onChange e2 = onChange e ++ [previous; sanitizeForOutput content] /\
  history e2 = snd (undo (history e)) /\
  fst (redo (history e2)) = Some (lastPushedValue (history e)) /\
  history e3 =
    pushToHistory historyOptions t' (sanitizeForOutput content')
      (snd (undo (history e))).
Proof.
  intros Hm Hu e1 e2 e3.
  assert (He1 : e1 =
    {| mounted := true; innerHTML := reserialize (sanitizeHtml previous);
       isInternalChange := true; isHistoryChange := true;
       debounceTimer := WysiwygEditor.debounceTimer e;
       history := snd (undo (history e));
       showWarning := showWarning e; warningTimers := warningTimers e;
       onChange := onChange e ++ [previous] |}).
  { subst e1. unfold handleUndo, handleHistory.
    destruct (undo (history e)) as [r h] eqn:E. simpl in Hu. subst r.
    now rewrite Hm. }
  subst e2 e3. rewrite He1. unfold emitCallback, edit.
  cbn [mounted isHistoryChange innerHTML onChange history negb].
  split; [now rewrite <- app_assoc |]. split; [reflexivity |].
  split; [| reflexivity].
  destruct (decide (undoStack (history e) = [])) as [E | Hne].
  { rewrite undo_empty in Hu by exact E. discriminate. }
  destruct (nonempty_is_push _ Hne) as (u & p & Hp).
  rewrite (undo_push _ _ _ Hp). cbn [snd].
  erewrite redo_push by reflexivity. reflexivity.
Qed.

(** *** What reaches the host *)

Section Values.
Variable P : string -> Prop.

Lemma holds_pushToHistory o now v h : P v -> holds P h -> holds P (pushToHistory o now v h).
Proof.
  intros Hv (Hu & Hr & Hl & Ht).
  split; [exact Hu |]. split; [exact Hr |]. split; [exact Hl |].
  cbn. intros tm [= <-]. exact Hv.
Qed.

Lemma holds_fire o h : holds P h -> holds P (fire o h).
Proof.
  intros Hh. unfold fire.
  destruct (History.debounceTimer h) as [tm |] eqn:E; [| exact Hh].
  destruct Hh as (Hu & Hr & Hl & Ht).
  specialize (Ht tm E). unfold timerCallback.
  destruct (decide (captured tm = lastPushedValue (clearTimer h))).
  - split; [exact Hu |]. split; [exact Hr |]. split; [exact Hl |].
    cbn. discriminate.
  - split; [| split; [| split]]; cbn.
    + assert (Hp : Forall P (push (undoStack h) (lastPushedValue h)))
        by (apply Forall_app; split; [exact Hu | now constructor]).
      assert (Hs : forall l, Forall P l -> Forall P (shift l))
        by (intros l [|]; [constructor | assumption]).
      destruct (_ <? _); [apply Hs |]; exact Hp.
    + constructor.
    + exact Ht.
    + discriminate.
Qed.

Lemma holds_undo h :
  holds P h ->
  holds P (snd (undo h)) /\ forall v, fst (undo h) = Some v -> P v.
Proof.
  intros Hh.
  destruct (decide (undoStack h = [])) as [E | Hne].
  - rewrite undo_empty by exact E. split; [exact Hh | discriminate].
  - destruct Hh as (Hu & Hr & Hl & Ht).
    destruct (nonempty_is_push _ Hne) as (u & p & Hp).
    rewrite (undo_push _ _ _ Hp). cbn [fst snd].
    rewrite Hp in Hu. apply Forall_app in Hu. destruct Hu as [Hu Hpv].
    inversion Hpv; subst.
    split; [| now intros v [= <-]].
    split; [| split; [| split]]; cbn; try assumption.
    apply Forall_app. split; [exact Hr | now constructor].
Qed.

Lemma holds_redo h :
  holds P h ->
  holds P (snd (redo h)) /\ forall v, fst (redo h) = Some v -> P v.
Proof.
  intros Hh.
  destruct (decide (redoStack h = [])) as [E | Hne].
  - rewrite redo_empty by exact E. split; [exact Hh | discriminate].
  - destruct Hh as (Hu & Hr & Hl & Ht).
    destruct (nonempty_is_push _ Hne) as (r & n & Hp).
    rewrite (redo_push _ _ _ Hp). cbn [fst snd].
    rewrite Hp in Hr. apply Forall_app in Hr. destruct Hr as [Hr Hnv].
    inversion Hnv; subst.
    split; [| now intros v [= <-]].
    split; [| split; [| split]]; cbn; try assumption.
    apply Forall_app. split; [exact Hu | now constructor].
Qed.

Lemma holds_handleHistory (f : History -> option string * History) e :
  (forall h, holds P h -> holds P (snd (f h)) /\ forall v, fst (f h) = Some v -> P v) ->
  holds P (history e) -> Forall P (onChange e) ->
  holds P (history (handleHistory reserialize f e)) /\
  Forall P (onChange (handleHistory reserialize f e)).
Proof.
  intros Hf Hh Ho. destruct (Hf (history e) Hh) as [Hh' Hv].
  unfold handleHistory. destruct (f (history e)) as [[v |] h']; cbn [fst snd] in *.
  - destruct (mounted e); cbn; (split; [exact Hh' |]); [| exact Ho].
    apply Forall_app. split; [exact Ho |]. constructor; [now apply Hv | constructor].
  - now split.
Qed.

Lemma holds_step e e' :
  (forall raw, P (sanitizeForOutput raw)) ->
  step reserialize debounceMs e e' ->
  holds P (history e) /\ Forall P (onChange e) ->
  holds P (history e') /\ Forall P (onChange e').
Proof.
  intros Hclean Hstep [Hh Ho]. destruct Hstep.
  - now split.
  - unfold emitCallback. destruct (mounted e); cbn [history onChange];
      [| now split]. split.
    + destruct (isHistoryChange e); cbn [negb]; [exact Hh |].
      now apply holds_pushToHistory.
    + apply Forall_app. split; [exact Ho |]. constructor; [apply Hclean | constructor].
  - split; [now apply holds_fire | exact Ho].
  - apply holds_handleHistory; [exact holds_undo | exact Hh | exact Ho].
  - apply holds_handleHistory; [exact holds_redo | exact Hh | exact Ho].
  - unfold syncHtml. destruct (mounted e && negb (isInternalChange e)); now split.
  - now split.
Qed.

End Values.

(** The host only ever receives what it gave or what was sanitized.  In
    every state the mounted editor can reach (edits, timers that run in any
    order, undo, redo, new values of the [html] prop), each value [onChange]
    was called with is the markup the editor was mounted with or an output
    of [sanitizeForOutput]; the raw content of the page never reaches the
    host. *)
Theorem host_receives_sanitized html e :
  reachable reserialize debounceMs html e ->
  forall value, In value (onChange e) -> fromHostOrSanitized html value.
Proof.
  intros Hreach.
  assert (Hinv : holds (fromHostOrSanitized html) (history e) /\
                 Forall (fromHostOrSanitized html) (onChange e)).
  { induction Hreach as [| e e' _ IH Hstep].
    - split; [| constructor].
      split; [constructor |]. split; [constructor |]. split; [now left |].
      cbn. discriminate.
    - apply (holds_step _ e e'); [| exact Hstep | exact IH].
      intros raw. right. now exists raw. }
  destruct Hinv as [_ Ho]. intros value Hin.
  rewrite List.Forall_forall in Ho. now apply Ho.
Qed.

(** *** The flag [isInternalChange] *)

(** The editor's own changes are not written back.  After the emit callback
    has told the host of a change, the next run of the effect on [html]
    leaves the page alone, whatever the prop holds then (the host's echo of
    the change, or something else), raises no warning, and lowers the flag;
    the run after that one writes the sanitized prop to the page when the
    page differs from it. *)
Theorem own_change_not_written_back e t now html now' html' :
  mounted e = true ->
  let e1 := emitCallback t e in
  let e2 := syncHtml reserialize now html e1 in
  let e3 := syncHtml reserialize now' html' e2 in
  innerHTML e2 = innerHTML e /\ showWarning e2 = showWarning e /\
  isInternalChange e2 = false /\
  innerHTML e3 =
    (if String.eqb (innerHTML e) (sanitizeHtml html') then innerHTML e
     else reserialize (sanitizeHtml html')).
Proof.
  intros Hm e1 e2 e3. subst e1 e2 e3.
  unfold emitCallback. rewrite Hm. unfold syncHtml.
  cbn [mounted isInternalChange innerHTML showWarning negb andb].
  repeat split. now destruct (String.eqb _ _).
Qed.

(** *** The warning *)

(** The banner follows the scan, not the sanitizer.  When the scan reports a
    prop that holds no [<] at all, the effect shows the warning ("unsafe
    content was sanitized") although [sanitizeHtml] returns the prop as it
    is: text that only mentions [javascript:] raises it. *)
Theorem warning_without_sanitizing e now html :
  mounted e = true -> isInternalChange e = false ->
  hasChar "<" html = false ->
  containsDangerousContent html = true ->
  let e' := syncHtml reserialize now html e in
  showWarning e' = true /\ sanitizeHtml html = html /\
  (innerHTML e' = innerHTML e \/ innerHTML e' = reserialize html).
Proof.
  intros Hm Hi Hlt Hscan e'. subst e'.
  assert (Hs : sanitizeHtml html = html).
  { unfold sanitizeHtml, sanitize. now rewrite Hlt. }
  unfold syncHtml. rewrite Hm, Hi, Hscan, Hs.
  cbn [negb andb showWarning innerHTML].
  split; [reflexivity |]. split; [reflexivity |].
  destruct (String.eqb (innerHTML e) html); [now left | now right].
Qed.

End Component.

(** A page whose history holds one committed edit. *)
Lemma first_change_after_undo_not_recorded_witness :
  let e := mkEditor true "<p>b</p>" false false None
             (recordAll historyOptions [(0, "<p>b</p>"%string)]
                (useHistory "<p>a</p>"))
             false [] ["<p>b</p>"%string] in
  let e1 := handleUndo (fun s => s) e in
  let e2 := emitCallback 1000 (edit "<p>c</p>" e1) in
  let e3 := emitCallback 2000 (edit "<p>d</p>" e2) in
  onChange e2 = onChange e ++ ["<p>a</p>"%string; sanitizeForOutput "<p>c</p>"] /\
  history e2 = snd (undo (history e)) /\
  fst (redo (history e2)) = Some (lastPushedValue (history e)) /\
  history e3 =
    pushToHistory historyOptions 2000 (sanitizeForOutput "<p>d</p>")
      (snd (undo (history e))).
Proof.
  intros e.
  apply (first_change_after_undo_not_recorded (fun s => s) e "<p>a</p>"
           "<p>c</p>" 1000 "<p>d</p>" 2000).
  - reflexivity.
  - reflexivity.
Defined.

Lemma host_receives_sanitized_witness :
  let e := emitCallback 300
             (emitChange 300 0 (edit "<p>x</p><br>" (mount "<p>a</p>"))) in
  onChange e = ["<p>x</p>"%string] /\
  forall value, In value (onChange e) -> fromHostOrSanitized "<p>a</p>" value.
Proof.
  intros e. split; [vm_compute; reflexivity |].
  apply (host_receives_sanitized (fun s => s) 300 "<p>a</p>" e).
  eapply reachable_step.
  - eapply reachable_step; [apply reachable_mount |].
    apply (step_edit (fun s => s) 300 "<p>x</p><br>" 0).
  - apply (step_emit (fun s => s) 300 300 300); [reflexivity | lia].
Defined.

Lemma own_change_not_written_back_witness :
  let e := edit "<p>x</p>" (mount "<p>a</p>") in
  let e1 := emitCallback 300 e in
  let e2 := syncHtml (fun s => s) 301 "<p>other</p>" e1 in
  let e3 := syncHtml (fun s => s) 302 "<p>other</p>" e2 in
  innerHTML e2 = innerHTML e /\ showWarning e2 = showWarning e /\
  isInternalChange e2 = false /\
  innerHTML e3 =
    (if String.eqb (innerHTML e) (sanitizeHtml "<p>other</p>") then innerHTML e
     else sanitizeHtml "<p>other</p>").
Proof.
  intros e.
  apply (own_change_not_written_back (fun s => s) e 300 301 "<p>other</p>"
           302 "<p>other</p>").
  reflexivity.
Defined.

Lemma warning_without_sanitizing_witness :
  let html := "javascript: is not Java"%string in
  let e' := syncHtml (fun s => s) 0 html (mount html) in
  showWarning e' = true /\ sanitizeHtml html = html /\
  (innerHTML e' = innerHTML (mount html) \/ innerHTML e' = html).
Proof.
  intros html.
  apply (warning_without_sanitizing (fun s => s) (mount html) 0 html).
  - reflexivity.
  - reflexivity.
  - reflexivity.
  - vm_compute. reflexivity.
Defined.

End WysiwygEditorFacts.
